(** * routeza-cms: bulk import and block-migration scripts

    A shallow embedding of the import/migration scripts of the repository
    ([scripts/import-articles.mjs], [scripts/migrate-page-blocks-inplace.mjs]
    and their siblings for pages and redirects) together with the properties
    stated about them.

    JavaScript strings are sequences of UTF-16 code units; [length] counts
    code units, so a string is modelled as a list of code units. *)

From Stdlib Require Import String Ascii.
From Stdlib Require Import List NArith Bool Arith Lia.
Import ListNotations.

Set Implicit Arguments.

(* ================================================================== *)
(** ** JavaScript strings *)
(* ================================================================== *)

Module JS.

Definition jschar := N.
Definition jsstring := list jschar.

(** An ASCII literal as a sequence of code units. *)
Definition lit (s : string) : jsstring :=
  List.map N_of_ascii (list_ascii_of_string s).

Definition TAB : jschar := 9%N.
Definition LF : jschar := 10%N.
Definition CR : jschar := 13%N.
Definition SPACE : jschar := 32%N.
Definition QUOTE : jschar := 34%N.
Definition HASH : jschar := 35%N.
Definition STAR : jschar := 42%N.
Definition COMMA : jschar := 44%N.
Definition HYPHEN : jschar := 45%N.
Definition DOT : jschar := 46%N.
Definition SLASH : jschar := 47%N.
Definition PIPE : jschar := 124%N.
Definition BOM : jschar := 65279%N.
Definition ELLIPSIS : jschar := 8230%N.

Definition chareq (a b : jschar) : bool := N.eqb a b.

Fixpoint streq (a b : jsstring) : bool :=
  match a, b with
  | [], [] => true
  | x :: a', y :: b' => chareq x y && streq a' b'
  | _, _ => false
  end.

(** The class [\s] of regular expressions, which is also what [trim]
    strips: WhiteSpace and LineTerminator code points. *)
Definition isSpace (c : jschar) : bool :=
  ((9 <=? c) && (c <=? 13) || (c =? 32) || (c =? 160) || (c =? 5760)
   || (8192 <=? c) && (c <=? 8202) || (c =? 8232) || (c =? 8233)
   || (c =? 8239) || (c =? 8287) || (c =? 12288) || (c =? 65279))%N.

(** The class [\d]. *)
Definition isDigit (c : jschar) : bool := ((48 <=? c) && (c <=? 57))%N.

(** The class [a-z]. *)
Definition isLowerAZ (c : jschar) : bool := ((97 <=? c) && (c <=? 122))%N.

(** What [.] refuses: the line terminators. *)
Definition isLineTerminator (c : jschar) : bool :=
  ((c =? 10) || (c =? 13) || (c =? 8232) || (c =? 8233))%N.

(** Truthiness of a string: [Boolean(s)], [!s]. *)
Definition truthy (s : jsstring) : bool :=
  match s with [] => false | _ :: _ => true end.

(** [a || b] on strings. *)
Definition orElse (a b : jsstring) : jsstring := if truthy a then a else b.

Fixpoint takeWhile (p : jschar -> bool) (s : jsstring) : jsstring :=
  match s with
  | c :: r => if p c then c :: takeWhile p r else []
  | [] => []
  end.

Fixpoint dropWhile (p : jschar -> bool) (s : jsstring) : jsstring :=
  match s with
  | c :: r => if p c then dropWhile p r else s
  | [] => []
  end.

Definition trimStart (s : jsstring) : jsstring := dropWhile isSpace s.
(** [s.startsWith(p)] *)
Fixpoint startsWith (p s : jsstring) : bool :=
  match p, s with
  | [], _ => true
  | x :: p', y :: s' => chareq x y && startsWith p' s'
  | _ :: _, [] => false
  end.

(** [s.split(sep)] for a one-character separator. *)
Fixpoint splitChar (sep : jschar) (s : jsstring) (cur : jsstring)
  : list jsstring :=
  match s with
  | [] => [rev cur]
  | c :: r =>
      if chareq c sep then rev cur :: splitChar sep r []
      else splitChar sep r (c :: cur)
  end.

(** [parts.join(sep)] *)
Fixpoint join (sep : jsstring) (parts : list jsstring) : jsstring :=
  match parts with
  | [] => []
  | [p] => p
  | p :: rest => p ++ sep ++ join sep rest
  end.

(** [s.replace(/C+/g, by)] for a character class [C]: every maximal run of
    characters of the class becomes [by].  [inRun] is true while the scan is
    inside a run. *)
Fixpoint replaceRuns (p : jschar -> bool) (by_ : jsstring) (s : jsstring)
    (inRun : bool) : jsstring :=
  match s with
  | [] => []
  | c :: r =>
      if p c then
        if inRun then replaceRuns p by_ r true
        else by_ ++ replaceRuns p by_ r true
      else c :: replaceRuns p by_ r false
  end.

(** [s.replace(/C+$/, "")]: the trailing run of the class is removed. *)
Definition stripTrailing (p : jschar -> bool) (s : jsstring) : jsstring :=
  rev (dropWhile p (rev s)).

(** [String(v ?? "")] for a value that is a string, [null] or [undefined]. *)
Definition str (v : option jsstring) : jsstring :=
  match v with Some s => s | None => [] end.

(** [xs.includes(s)] *)
Definition includes (xs : list jsstring) (s : jsstring) : bool :=
  existsb (streq s) xs.

Definition trimEnd (s : jsstring) : jsstring := stripTrailing isSpace s.
Definition trim (s : jsstring) : jsstring := trimEnd (trimStart s).

(** [s.slice(0, n)] *)
Definition slice0 (n : nat) (s : jsstring) : jsstring := firstn n s.

End JS.
Import JS.

(* ================================================================== *)
(** ** The block converter
    ([scripts/migrate-page-blocks-inplace.mjs] and its article sibling) *)
(* ================================================================== *)

Module Blocks.

Inductive Level := h1 | h2 | h3 | h4.
Inductive ListStyle := ordered | unordered.

(** The three components the converter emits; [component] is the value of
    the [__component] field. *)
Inductive Block :=
| SectionHeading (component : jsstring) (text : jsstring) (level : Level)
| ListBlock (component : jsstring) (listStyle : ListStyle)
    (itemsText : jsstring)
| RichText (component : jsstring) (body : jsstring).

(** [s.split(/\n{2,}/)]: cut at every maximal run of two or more line
    feeds.  [skipping] is true while the scan is inside such a run. *)
Fixpoint splitBlankLines (s : jsstring) (cur : jsstring) (skipping : bool)
  : list jsstring :=
  match s with
  | [] => [rev cur]
  | c :: r =>
      if chareq c LF then
        if skipping then splitBlankLines r cur true
        else
          match r with
          | c2 :: _ =>
              if chareq c2 LF then rev cur :: splitBlankLines r [] true
              else splitBlankLines r (c :: cur) false
          | [] => splitBlankLines r (c :: cur) false
          end
      else splitBlankLines r (c :: cur) false
  end.

Definition splitTextBlocks (content : jsstring) : list jsstring :=
  filter truthy (map trim (splitBlankLines content [] false)).

Definition isBulletMark (c : jschar) : bool := chareq c HYPHEN || chareq c STAR.

(** [/^[-*]\s+/.test(line)] *)
Definition testBullet (line : jsstring) : bool :=
  match line with
  | c :: w :: _ => isBulletMark c && isSpace w
  | _ => false
  end.

(** [/^\d+\.\s+/.test(line)] *)
Definition testNumbered (line : jsstring) : bool :=
  match takeWhile isDigit line, dropWhile isDigit line with
  | _ :: _, d :: w :: _ => chareq d DOT && isSpace w
  | _, _ => false
  end.

(** [line.replace(/^[-*]\s+/, "")] *)
Definition stripBullet (line : jsstring) : jsstring :=
  if testBullet line then dropWhile isSpace (tl line) else line.

(** [line.replace(/^\d+\.\s+/, "")] *)
Definition stripNumbered (line : jsstring) : jsstring :=
  if testNumbered line then dropWhile isSpace (tl (dropWhile isDigit line))
  else line.

Definition normalizeListLines (lines : list jsstring) : list jsstring :=
  filter truthy
    (map (fun line => trim (stripNumbered (stripBullet line)))
       (filter truthy (map trim lines))).

(** [block.match(/^(#{1,4})\s+([\s\S]+)$/)]: the two groups, when the block
    matches.  [#{1,4}] must be followed by a blank, so it takes all the
    leading markers; the greedy [\s+] takes the whole run of blanks and
    gives its last one back only when nothing follows the run. *)
Definition matchHeading (block : jsstring) : option (jsstring * jsstring) :=
  let marks := takeWhile (chareq HASH) block in
  let after := dropWhile (chareq HASH) block in
  if (1 <=? length marks) && (length marks <=? 4) then
    match takeWhile isSpace after, dropWhile isSpace after with
    | [], _ => None
    | _ :: _, c :: rest => Some (marks, c :: rest)
    | [_], [] => None
    | w :: ws, [] => Some (marks, [last ws w])
    end
  else None.

Definition levelOfDepth (depth : nat) : Level :=
  if depth =? 1 then h1 else if depth =? 2 then h2
  else if depth =? 3 then h3 else h4.

Section Converter.

(** The component family: ["page"] or ["article"]. *)
Variable family : jsstring.

Definition componentName (kind : string) : jsstring :=
  family ++ lit "." ++ lit kind.

(** One turn of the loop of [convertContentToBlocks]: what is pushed on
    [dz] for one candidate block. *)
Definition convertBlock (dz : list Block) (block : jsstring) : list Block :=
  match matchHeading block with
  | Some (marks, text) =>
      dz ++ [SectionHeading (componentName "section-heading") (trim text)
               (levelOfDepth (length marks))]
  | None =>
      let lines := filter truthy (map trim (splitChar LF block [])) in
      let isUnorderedList :=
        negb (length lines =? 0) && forallb testBullet lines in
      let isOrderedList :=
        negb (length lines =? 0) && forallb testNumbered lines in
      if isUnorderedList || isOrderedList then
        let items := normalizeListLines lines in
        if negb (length items =? 0) then
          dz ++ [ListBlock (componentName "list")
                   (if isOrderedList then ordered else unordered)
                   (join [LF] (map (fun item => lit "- " ++ item) items))]
        else dz
      else dz ++ [RichText (componentName "rich-text") block]
  end.

Definition convertContentToBlocks (content : jsstring) : list Block :=
  fold_left convertBlock (splitTextBlocks content) [].

End Converter.

End Blocks.

(* ================================================================== *)
(** ** What the scripts take from the JavaScript runtime *)
(* ================================================================== *)

(** Built-ins whose tables are not part of the repository.  Every theorem
    below that does not fix an instance holds for all of them. *)
Class Runtime := {
  (** [String.prototype.toLowerCase] *)
  toLowerCase : jsstring -> jsstring;
  (** the values [JSON.parse] returns, and their truthiness *)
  JsonValue : Type;
  jsonTruthy : JsonValue -> bool;
  (** [JSON.parse]; [None] when it throws *)
  JSON_parse : jsstring -> option JsonValue;
  (** [new Date(raw).toISOString().slice(0, 10)]; [None] for an invalid date *)
  isoDateOf : jsstring -> option jsstring;
  (** [new Date().toISOString()] *)
  nowIso : jsstring
}.

(** An instance to evaluate the scripts on ASCII input: [toLowerCase] maps
    [A-Z] to [a-z] and leaves every other code unit as it is; [JSON.parse]
    and the date parser refuse everything. *)
Definition asciiLower (c : jschar) : jschar :=
  if ((65 <=? c) && (c <=? 90))%N then (c + 32)%N else c.

#[global] Instance asciiRuntime : Runtime := {|
  toLowerCase := map asciiLower;
  JsonValue := unit;
  jsonTruthy := fun _ => true;
  JSON_parse := fun _ => None;
  isoDateOf := fun _ => None;
  nowIso := lit "2026-01-01T00:00:00.000Z"
|}.

(* ================================================================== *)
(** ** The record normalizer: keys, booleans, SEO description *)
(* ================================================================== *)

Module Normalizer.

Section WithRuntime.
Context {RT : Runtime}.

(** [parseBoolean(value, fallback)] (all importers). *)
Definition parseBoolean (value : option jsstring) (fallback : bool) : bool :=
  match value with
  | None => fallback
  | Some [] => fallback
  | Some v =>
      let normalized := toLowerCase (trim v) in
      if includes [lit "true"; lit "1"; lit "yes"; lit "y"] normalized then true
      else if includes [lit "false"; lit "0"; lit "no"; lit "n"] normalized
      then false
      else fallback
  end.

(** The class [[a-z0-9\s-]], whose complement [slugify] removes. *)
Definition isSlugSource (c : jschar) : bool :=
  isLowerAZ c || isDigit c || isSpace c || chareq c HYPHEN.

(** The class [[a-z0-9-]] of a slug. *)
Definition isSlugChar (c : jschar) : bool :=
  isLowerAZ c || isDigit c || chareq c HYPHEN.

(** [s.replace(/^-|-$/g, "")]: a hyphen at the start and a hyphen at the
    end are removed; the two alternatives never take the same character. *)
Definition dropLastHyphen (s : jsstring) : jsstring :=
  match rev s with
  | c :: r => if chareq c HYPHEN then rev r else s
  | [] => []
  end.

Definition stripEdgeHyphens (s : jsstring) : jsstring :=
  match s with
  | c :: r => if chareq c HYPHEN then dropLastHyphen r else dropLastHyphen s
  | [] => []
  end.

(** [slugify(value)] ([scripts/import-articles.mjs]). *)
Definition slugify (value : option jsstring) : jsstring :=
  let s := toLowerCase (trim (str value)) in
  let s := filter isSlugSource s in
  let s := replaceRuns isSpace [HYPHEN] s false in
  let s := replaceRuns (chareq HYPHEN) [HYPHEN] s false in
  stripEdgeHyphens s.

End WithRuntime.

(** [normalizePath(pathname)] (page importers and the page migration). *)
Definition normalizePath (pathname : option jsstring) : jsstring :=
  let trimmed := trim (str pathname) in
  if negb (truthy trimmed) || streq trimmed [SLASH] then [SLASH]
  else
    let withLeading :=
      if startsWith [SLASH] trimmed then trimmed else SLASH :: trimmed in
    stripTrailing (chareq SLASH) withLeading.

(** [s.replace(/\s+/g, " ").trim()] *)
Definition squeeze (s : jsstring) : jsstring :=
  trim (replaceRuns isSpace [SPACE] s false).

Definition padding : jsstring :=
  lit "Read the full article on Commute ZA for practical commuter "
  ++ lit "insights and route-planning guidance across South Africa.".

(** [buildMetaDescription(value, fallback)] ([scripts/import-articles.mjs]). *)
Definition buildMetaDescription (value fallback : option jsstring) : jsstring :=
  let minLength := 120 in
  let maxLength := 155 in
  let text := squeeze (str value) in
  let fallbackText := squeeze (str fallback) in
  let text :=
    if (length text <? minLength) && truthy fallbackText then
      squeeze (if truthy text then text ++ [SPACE] ++ fallbackText
               else fallbackText)
    else text in
  let text :=
    if length text <? minLength then
      squeeze (if truthy text then text ++ [SPACE] ++ padding else padding)
    else text in
  if maxLength <? length text then
    trimEnd (slice0 (maxLength - 1) text) ++ [ELLIPSIS]
  else text.

End Normalizer.

(* ================================================================== *)
(** ** The redirects importer: status codes *)
(* ================================================================== *)

Module Redirects.

(** What a property read on a plain object can give back: a string of the
    object itself, or something inherited from [Object.prototype]. *)
Inductive JsValue :=
| VString (s : jsstring)
| VObjectConstructor          (* [Object], read as [o.constructor] *)
| VObjectPrototype            (* [Object.prototype], read as [o.__proto__] *)
| VPrototypeMethod (name : jsstring)
| VUndefined.

Definition valueTruthy (v : JsValue) : bool :=
  match v with
  | VString s => truthy s
  | VUndefined => false
  | _ => true
  end.

(** The own properties of the object literal [STATUS_MAP]. *)
Definition STATUS_MAP : list (jsstring * jsstring) :=
  [ (lit "301", lit "Redirect-301");
    (lit "302", lit "Redirecct-302");
    (lit "redirect-301", lit "Redirect-301");
    (lit "redirecct-302", lit "Redirecct-302");
    (lit "redirect-302", lit "Redirecct-302") ].

Definition objectPrototypeMethods : list jsstring :=
  [ lit "hasOwnProperty"; lit "isPrototypeOf"; lit "propertyIsEnumerable";
    lit "toLocaleString"; lit "toString"; lit "valueOf";
    lit "__defineGetter__"; lit "__defineSetter__";
    lit "__lookupGetter__"; lit "__lookupSetter__" ].

Fixpoint ownProperty (obj : list (jsstring * jsstring)) (key : jsstring)
  : option jsstring :=
  match obj with
  | [] => None
  | (k, v) :: rest => if streq k key then Some v else ownProperty rest key
  end.

(** [obj[key]] on an object literal: own properties first, then the
    prototype chain, which for a literal is [Object.prototype]. *)
Definition getProperty (obj : list (jsstring * jsstring)) (key : jsstring)
  : JsValue :=
  match ownProperty obj key with
  | Some v => VString v
  | None =>
      if streq key (lit "constructor") then VObjectConstructor
      else if streq key (lit "__proto__") then VObjectPrototype
      else if includes objectPrototypeMethods key then VPrototypeMethod key
      else VUndefined
  end.

Section WithRuntime.
Context {RT : Runtime}.

(** [toStatusCode(value)] *)
Definition toStatusCode (value : option jsstring) : JsValue :=
  if negb (truthy (str value)) then VString (lit "Redirect-301")
  else
    let normalized := toLowerCase (trim (str value)) in
    let found := getProperty STATUS_MAP normalized in
    if valueTruthy found then found else VString (lit "Redirect-301").

End WithRuntime.

End Redirects.

(* ================================================================== *)
(** ** The tabular parser *)
(* ================================================================== *)

Module Csv.

(** A row mapping: the header/cell pairs in assignment order, and the
    [__line] property. *)
Record RowData := {
  fields : list (jsstring * jsstring);
  line_ : nat
}.

Definition PROTO_KEY : jsstring := lit "__proto__".
Definition LINE_KEY : jsstring := lit "__line".

(** The member [k] of an object takes the string [v]: it is replaced when
    the object has it, added otherwise. *)
Fixpoint putField (obj : list (jsstring * jsstring)) (k v : jsstring)
  : list (jsstring * jsstring) :=
  match obj with
  | [] => [(k, v)]
  | (k', v') :: rest =>
      if streq k' k then (k', v) :: rest else (k', v') :: putField rest k v
  end.

(** [rowData[header] = value] on an object literal, for a string [value].
    The name [__proto__] is the accessor every such object inherits, and
    its setter ignores a string: nothing is stored. *)
Definition setField (obj : list (jsstring * jsstring)) (k v : jsstring)
  : list (jsstring * jsstring) :=
  if streq k PROTO_KEY then obj else putField obj k v.

(** [headers.forEach((header, index) => { rowData[header] = ... })], the
    value being [cells[index]] or the empty string. *)
Fixpoint assignCells (headers : list jsstring) (cells : list jsstring)
    (rowData : list (jsstring * jsstring)) : list (jsstring * jsstring) :=
  match headers with
  | [] => rowData
  | header :: hs =>
      assignCells hs (tl cells) (setField rowData header (str (hd_error cells)))
  end.

(** *** The quote-aware parser of the article and page importers *)

Record Scan := {
  records : list (list jsstring);
  recordStartLines : list nat;
  row : list jsstring;
  cell : jsstring;
  inQuotes : bool;
  line : nat;
  rowStartLine : nat
}.

Definition initial : Scan :=
  {| records := []; recordStartLines := []; row := []; cell := [];
     inQuotes := false; line := 1; rowStartLine := 1 |}.

Definition addChar (c : jschar) (st : Scan) : Scan :=
  {| records := records st; recordStartLines := recordStartLines st;
     row := row st; cell := cell st ++ [c]; inQuotes := inQuotes st;
     line := line st; rowStartLine := rowStartLine st |}.

Definition toggleQuotes (st : Scan) : Scan :=
  {| records := records st; recordStartLines := recordStartLines st;
     row := row st; cell := cell st; inQuotes := negb (inQuotes st);
     line := line st; rowStartLine := rowStartLine st |}.

Definition pushCell (st : Scan) : Scan :=
  {| records := records st; recordStartLines := recordStartLines st;
     row := row st ++ [cell st]; cell := []; inQuotes := inQuotes st;
     line := line st; rowStartLine := rowStartLine st |}.

Definition pushRow (st : Scan) : Scan :=
  let st := pushCell st in
  {| records := records st ++ [row st];
     recordStartLines := recordStartLines st ++ [rowStartLine st];
     row := []; cell := cell st; inQuotes := inQuotes st;
     line := line st; rowStartLine := line st |}.

(** [line += 1; rowStartLine = line] *)
Definition nextLine (st : Scan) : Scan :=
  {| records := records st; recordStartLines := recordStartLines st;
     row := row st; cell := cell st; inQuotes := inQuotes st;
     line := line st + 1; rowStartLine := line st + 1 |}.

(** The [for] loop over the characters of [source]; [i += 1] inside the
    body consumes [next] as well. *)
Fixpoint scan (source : jsstring) (st : Scan) : Scan :=
  match source with
  | [] => st
  | char :: rest =>
      if chareq char QUOTE then
        match rest with
        | next :: rest' =>
            if inQuotes st && chareq next QUOTE
            then scan rest' (addChar QUOTE st)
            else scan rest (toggleQuotes st)
        | [] => scan rest (toggleQuotes st)
        end
      else if negb (inQuotes st) && chareq char COMMA then
        scan rest (pushCell st)
      else if negb (inQuotes st) && (chareq char LF || chareq char CR) then
        match rest with
        | next :: rest' =>
            if chareq char CR && chareq next LF
            then scan rest' (nextLine (pushRow st))
            else scan rest (nextLine (pushRow st))
        | [] => scan rest (nextLine (pushRow st))
        end
      else scan rest (addChar char st)
  end.

Inductive ParseError := UnmatchedQuote.

(** [cells.some((value) => String(value ?? "").trim() !== "")] *)
Definition hasAnyValue (cells : list jsstring) : bool :=
  existsb (fun value => truthy (trim value)) cells.

(** [rowData.__line = n]: from now on the member [__line] is the number,
    which [line_] holds; a cell the loop stored under that name is gone. *)
Definition setLine (rowData : list (jsstring * jsstring)) (n : nat)
  : RowData :=
  {| fields := filter (fun p => negb (streq (fst p) LINE_KEY)) rowData;
     line_ := n |}.

(** The cells of the row built from [headers] and [cells]. *)
Definition rowCells (headers cells : list jsstring)
  : list (jsstring * jsstring) :=
  fields (setLine (assignCells headers cells []) 0).

(** The loop that builds [mapped]; [i] is the index into [dataRows]. *)
Fixpoint mapRows (headers : list jsstring) (dataRows : list (list jsstring))
    (dataLines : list nat) (i : nat) (mapped : list RowData) : list RowData :=
  match dataRows with
  | [] => mapped
  | cells :: more =>
      if negb (hasAnyValue cells) then
        mapRows headers more (tl dataLines) (S i) mapped
      else
        let rowData := assignCells headers cells [] in
        let ln := match dataLines with l :: _ => l | [] => i + 2 end in
        mapRows headers more (tl dataLines) (S i)
          (mapped ++ [setLine rowData ln])
  end.

(** The scan of [parseCsv] up to the test of [inQuotes]. *)
Definition scanned (text : jsstring) : Scan :=
  let source :=
    match text with
    | c :: rest => if chareq c BOM then rest else text
    | [] => text
    end in
  scan source initial.

(** [parseCsv(text)] of [scripts/import-articles.mjs] (the page importers
    carry the same function). *)
Definition parseCsv (text : jsstring) : ParseError + list RowData :=
  let st := scanned text in
  if inQuotes st then inl UnmatchedQuote
  else
    let st :=
      if negb (length (cell st) =? 0) || negb (length (row st) =? 0)
      then pushRow st else st in
    match records st with
    | first :: dataRows =>
        if length (records st) <? 2 then inr []
        else
          let headers := map trim first in
          let dataLines := tl (recordStartLines st) in
          inr (mapRows headers dataRows dataLines 0 [])
    | [] => inr []
    end.


(** The records [parseCsv] has collected when it builds the rows: the scan,
    and the last record when the text does not end with a line break. *)
Definition flushed (text : jsstring) : Scan :=
  let st := scanned text in
  if negb (length (cell st) =? 0) || negb (length (row st) =? 0)
  then pushRow st else st.

Definition headerOf (text : jsstring) : list jsstring :=
  map trim (hd [] (records (flushed text))).

Definition dataRecords (text : jsstring) : list (list jsstring) :=
  tl (records (flushed text)).

(** *** The line-based parser of the redirects importer *)

(** [text.split(/\r?\n/)] *)
Fixpoint splitLines (s : jsstring) (cur : jsstring) : list jsstring :=
  match s with
  | [] => [rev cur]
  | c :: r =>
      if chareq c LF then rev cur :: splitLines r []
      else if chareq c CR then
        match r with
        | c2 :: r2 =>
            if chareq c2 LF then rev cur :: splitLines r2 []
            else splitLines r (c :: cur)
        | [] => splitLines r (c :: cur)
        end
      else splitLines r (c :: cur)
  end.

(** The loop of [parseCsvLine]; the state is [cells], [current], [inQuotes]. *)
Fixpoint lineLoop (ln : jsstring) (cells : list jsstring) (current : jsstring)
    (inQ : bool) : list jsstring * jsstring :=
  match ln with
  | [] => (cells, current)
  | char :: rest =>
      if chareq char QUOTE then
        match rest with
        | next :: rest' =>
            if inQ && chareq next QUOTE
            then lineLoop rest' cells (current ++ [QUOTE]) inQ
            else lineLoop rest cells current (negb inQ)
        | [] => lineLoop rest cells current (negb inQ)
        end
      else if chareq char COMMA && negb inQ then
        lineLoop rest (cells ++ [trim current]) [] inQ
      else lineLoop rest cells (current ++ [char]) inQ
  end.

Definition parseCsvLine (ln : jsstring) : list jsstring :=
  let '(cells, current) := lineLoop ln [] [] false in
  cells ++ [trim current].

(** [lines.slice(1).map((line, index) => ...)] *)
Fixpoint mapLines (headers : list jsstring) (lines : list jsstring)
    (index : nat) : list RowData :=
  match lines with
  | [] => []
  | ln :: more =>
      setLine (assignCells headers (parseCsvLine ln) []) (index + 2)
      :: mapLines headers more (S index)
  end.

(** [parseCsv(text)] of the redirects importer. *)
Definition parseCsvRedirects (text : jsstring) : list RowData :=
  let lines := filter truthy (map trim (splitLines text [])) in
  match lines with
  | first :: more =>
      if length lines <? 2 then []
      else mapLines (map trim (parseCsvLine first)) more 0
  | [] => []
  end.

End Csv.

(* ================================================================== *)
(** ** The remote store, as the scripts see it through [strapiRequest] *)
(* ================================================================== *)

Module Remote.

(** A record identifier: a number ([id]) or a string ([documentId]). *)
Inductive JsId := IdNumber (n : N) | IdString (s : jsstring).

Definition idTruthy (i : JsId) : bool :=
  match i with
  | IdNumber n => negb (n =? 0)%N
  | IdString s => truthy s
  end.

(** What the scripts read of a record of the store. *)
Record Entry := {
  documentId : option JsId;
  id : option JsId
}.

(** [getEntryId(entry)]: [entry?.documentId ?? entry?.id ?? null] *)
Definition getEntryId (entry : Entry) : option JsId :=
  match documentId entry with
  | Some d => Some d
  | None => id entry
  end.

(** The [data] member of a response envelope. *)
Inductive ReplyData :=
| DataList (entries : list Entry)
| DataEntry (entry : Entry)
| DataNone.

(** A response: [response.ok] false with its status line and body, or the
    parsed JSON envelope. *)
Inductive Reply :=
| Refused (status : jsstring) (body : jsstring)
| Answered (data : ReplyData).

(** [!response.ok] *)
Definition refused (r : Reply) : bool :=
  match r with Refused _ _ => true | Answered _ => false end.

(** [result?.data?.[0] || null] *)
Definition firstEntry (d : ReplyData) : option Entry :=
  match d with
  | DataList (e :: _) => Some e
  | _ => None
  end.

(** [created?.data ?? null], of which only [.id] is read afterwards: an
    array or a missing member has no [id]. *)
Definition createdEntry (d : ReplyData) : option Entry :=
  match d with
  | DataEntry e => Some e
  | _ => None
  end.

End Remote.
Import Remote.

(* ================================================================== *)
(** ** The batch runner: what the [run] functions share *)
(* ================================================================== *)

Module Batch.

(** What a row can throw. *)
Inductive Error :=
| InvalidSchemaJson (line : nat)
| HttpError (status : jsstring) (body : jsstring)
| CannotConvert.   (* the [TypeError] of [String(v)] on a value without
                      string form *)

(** The lines the importers print, kept as the parts that vary: the line
    number, the key or label, the two required fields, the error. *)
Inductive LogLine :=
| LogNoRows
| LogImporting (count : nat)
| LogMissingRequired (line : nat) (first second : jsstring)
| LogDuplicate (line : nat) (key : jsstring)
| LogSkip (key : jsstring)
| LogCannotUpdate (line : nat) (key : jsstring)
| LogUpdate (key : jsstring)
| LogCreate (key : jsstring)
| LogFailed (line : nat) (what : jsstring) (error : Error)
| LogDone
| LogCreatedCount (n : nat)
| LogUpdatedCount (n : nat)
| LogSkippedCount (n : nat)
| LogFailedCount (n : nat)
| LogNote.

Section Runner.

(** The requests of one script, and the remote store: any state, and any
    way of answering a request. *)
Variable Request : Type.
Variable Store : Type.
Variable serve : Store -> Request -> Store * Reply.

Record Run := {
  store : Store;
  requests : list Request;
  seen : list jsstring;
  created : nat;
  updated : nat;
  skipped : nat;
  failed : nat;
  console : list LogLine
}.

(** A computation of a script: it changes the run and returns a value or
    throws. *)
Definition M (A : Type) : Type := Run -> Run * (Error + A).

Definition ret {A} (a : A) : M A := fun st => (st, inr a).

Definition bind {A B} (m : M A) (k : A -> M B) : M B :=
  fun st =>
    match m st with
    | (st', inr a) => k a st'
    | (st', inl e) => (st', inl e)
    end.

Definition throw {A} (e : Error) : M A := fun st => (st, inl e).

(** [try { body } catch (error) { handler }]: what [body] did before it
    threw stays done. *)
Definition tryCatch {A} (body : M A) (handler : Error -> M A) : M A :=
  fun st =>
    match body st with
    | (st', inr a) => (st', inr a)
    | (st', inl e) => handler e st'
    end.

Definition lift {A} (r : Error + A) : M A :=
  match r with inl e => throw e | inr a => ret a end.

Definition update_ (f : Run -> Run) : M unit := fun st => (f st, inr tt).

Definition incCreated : M unit :=
  update_ (fun st =>
    {| store := store st; requests := requests st; seen := seen st;
       created := created st + 1; updated := updated st;
       skipped := skipped st; failed := failed st; console := console st |}).

Definition incUpdated : M unit :=
  update_ (fun st =>
    {| store := store st; requests := requests st; seen := seen st;
       created := created st; updated := updated st + 1;
       skipped := skipped st; failed := failed st; console := console st |}).

Definition incSkipped : M unit :=
  update_ (fun st =>
    {| store := store st; requests := requests st; seen := seen st;
       created := created st; updated := updated st;
       skipped := skipped st + 1; failed := failed st;
       console := console st |}).

Definition incFailed : M unit :=
  update_ (fun st =>
    {| store := store st; requests := requests st; seen := seen st;
       created := created st; updated := updated st;
       skipped := skipped st; failed := failed st + 1;
       console := console st |}).

(** [console.log] / [console.error] *)
Definition log (l : LogLine) : M unit :=
  update_ (fun st =>
    {| store := store st; requests := requests st; seen := seen st;
       created := created st; updated := updated st;
       skipped := skipped st; failed := failed st;
       console := console st ++ [l] |}).

(** [seen.add(key)] on the [Set] of keys met in this run *)
Definition addSeen (key : jsstring) : M unit :=
  update_ (fun st =>
    {| store := store st; requests := requests st;
       seen := key :: seen st;
       created := created st; updated := updated st;
       skipped := skipped st; failed := failed st; console := console st |}).

(** [seen.has(key)] *)
Definition hasSeen (key : jsstring) : M bool :=
  fun st => (st, inr (includes (seen st) key)).

(** [strapiRequest(endpoint, options)]: one round trip; a response that is
    not ok is thrown. *)
Definition strapiRequest (req : Request) : M ReplyData :=
  fun st =>
    let '(s', reply) := serve (store st) req in
    let st' :=
      {| store := s'; requests := requests st ++ [req]; seen := seen st;
         created := created st; updated := updated st;
         skipped := skipped st; failed := failed st; console := console st |} in
    match reply with
    | Refused status body => (st', inl (HttpError status body))
    | Answered d => (st', inr d)
    end.

(** [for (const row of rows) { body }] *)
Fixpoint forEach {R} (rows : list R) (body : R -> M unit) : M unit :=
  match rows with
  | [] => ret tt
  | row :: more => bind (body row) (fun _ => forEach more body)
  end.

(** The four counters printed after the loop. *)
Definition summary : M unit :=
  fun st =>
    bind (log LogDone) (fun _ =>
    bind (log (LogCreatedCount (created st))) (fun _ =>
    bind (log (LogUpdatedCount (updated st))) (fun _ =>
    bind (log (LogSkippedCount (skipped st))) (fun _ =>
    log (LogFailedCount (failed st)))))) st.

(** The state [run] starts from. *)
Definition start (s : Store) : Run :=
  {| store := s; requests := []; seen := [];
     created := 0; updated := 0; skipped := 0; failed := 0; console := [] |}.

(** *** What the statements observe of a run *)

Definition counters (st : Run) : nat * nat * nat * nat :=
  (created st, updated st, skipped st, failed st).

Definition total (st : Run) : nat :=
  created st + updated st + skipped st + failed st.

(** From [st] to [st'] exactly one of the four counters went up, by one. *)
Definition Counted (st st' : Run) : Prop :=
  total st' = total st + 1 /\ created st <= created st' /\
  updated st <= updated st' /\ skipped st <= skipped st' /\
  failed st <= failed st'.

(** From [st] to [st'] the row was counted as failed and nothing else. *)
Definition CountedFailed (st st' : Run) : Prop :=
  failed st' = failed st + 1 /\ created st' = created st /\
  updated st' = updated st /\ skipped st' = skipped st.


(** The run with one more failed row and one more line on the console. *)
Definition markFailed (l : LogLine) (st : Run) : Run :=
  {| store := store st; requests := requests st; seen := seen st;
     created := created st; updated := updated st;
     skipped := skipped st; failed := failed st + 1;
     console := console st ++ [l] |}.

(** A computation that talks to the store but leaves the counters, the
    seen keys and the console alone. *)
Definition quiet {A} (m : M A) : Prop :=
  forall st,
    seen (fst (m st)) = seen st /\ counters (fst (m st)) = counters st
    /\ console (fst (m st)) = console st.

(** Whether a computation threw. *)
Definition threw {A} (r : Error + A) : bool :=
  match r with inl _ => true | inr _ => false end.

(** A computation that keeps a property of the run. *)
Definition preserves (P : Run -> Prop) {A} (m : M A) : Prop :=
  forall st, P st -> P (fst (m st)).

(** What one row does to the counters when its [try] block ends normally
    ([Counted], one more line) and when it throws (nothing yet). *)
Definition bodyEffect (st : Run) (out : Run * (Error + unit)) : Prop :=
  match out with
  | (st', inl _) => counters st' = counters st /\ console st' = console st
  | (st', inr _) =>
      Counted st st' /\ exists l, console st' = console st ++ [l]
  end.

(** From [st] to [st'] the requests [new] were sent, in this order, the
    four counters went up by [c], [u], [s] and [f], and the line [l] was
    printed. *)
Definition Outcome (st st' : Run) (new : list Request) (c u s f : nat)
    (l : LogLine) : Prop :=
  requests st' = requests st ++ new
  /\ counters st'
     = (created st + c, updated st + u, skipped st + s, failed st + f)
  /\ console st' = console st ++ [l].

End Runner.

Arguments ret {Request Store A} a _.
Arguments throw {Request Store A} e _.
Arguments lift {Request Store A} r _.
Arguments incCreated {Request Store} _.
Arguments incUpdated {Request Store} _.
Arguments incSkipped {Request Store} _.
Arguments incFailed {Request Store} _.
Arguments log {Request Store} l _.
Arguments addSeen {Request Store} key _.
Arguments hasSeen {Request Store} key _.
Arguments summary {Request Store} _.
Arguments start {Request Store} s.

End Batch.
Import Batch.

Notation "x <- m ;; k" := (Batch.bind m (fun x => k))
  (at level 61, m at next level, right associativity).
Notation "m ;;; k" := (Batch.bind m (fun _ => k))
  (at level 61, right associativity).

(** [a ?? b] *)
Definition nullish {A} (a b : option A) : option A :=
  match a with Some _ => a | None => b end.

(** [...(s ? { field: s } : {})] *)
Definition whenTruthy (s : jsstring) : option jsstring :=
  if truthy s then Some s else None.

Inductive UpsertMode := update | skip.

(** *** What a turn of an importer comes to *)

Section Decisions.

Variable Request : Type.
Variable Store : Type.
Variable serve : Store -> Request -> Store * Reply.



End Decisions.

(* ================================================================== *)
(** ** The members of an input row *)
(* ================================================================== *)

Module Input.

(** A value of a parsed .json file, as far as the scripts can tell values
    apart.  [Absent] is [undefined] (the row has no such member) or
    [null]; as an item of an array it is [null].  A number or a boolean
    is held as what [String] and [Boolean] make of it. *)
#[warnings="-register-all"]
Inductive Cell :=
| Absent
| Text (s : jsstring)
| Scalar (s : jsstring) (t : bool)
| ArrayOf (items : list Cell)
| ObjectOf (members : list (jsstring * Cell)).

(** The object has a member named [toString] of its own; being a value of
    a .json file, that member is not a function. *)
Definition hasOwnToString (members : list (jsstring * Cell)) : bool :=
  existsb (fun m => streq (fst m) (lit "toString")) members.

(** [String(v)], [None] when it throws its [TypeError].  An array joins
    its items with commas, [null] giving the empty string; an object gives
    ["[object Object]"] through the method it inherits, and has no string
    form when a member of its own hides that method. *)
Fixpoint toText (c : Cell) : option jsstring :=
  match c with
  | Absent => Some (lit "null")
  | Text s => Some s
  | Scalar s _ => Some s
  | ArrayOf items =>
      match
        (fix texts (l : list Cell) : option (list jsstring) :=
           match l with
           | [] => Some []
           | i :: r =>
               match match i with Absent => Some [] | _ => toText i end with
               | Some s =>
                   match texts r with
                   | Some ss => Some (s :: ss)
                   | None => None
                   end
               | None => None
               end
           end) items
      with
      | Some parts => Some (join [COMMA] parts)
      | None => None
      end
  | ObjectOf members =>
      if hasOwnToString members then None else Some (lit "[object Object]")
  end.

(** [Boolean(v)], [!!v] *)
Definition cellTruthy (c : Cell) : bool :=
  match c with
  | Absent => false
  | Text s => truthy s
  | Scalar _ t => t
  | ArrayOf _ => true
  | ObjectOf _ => true
  end.

(** [a ?? b] *)
Definition orCell (a b : Cell) : Cell :=
  match a with Absent => b | _ => a end.

(** [String(v)] as a step that can throw. *)
Definition stringOf (c : Cell) : Error + jsstring :=
  match toText c with
  | Some s => inr s
  | None => inl CannotConvert
  end.

(** [String(v ?? "")] *)
Definition stringOrEmpty (c : Cell) : Error + jsstring :=
  stringOf (orCell c (Text [])).

(** The member a row of strings holds: a string, or nothing. *)
Definition cellOf (v : option jsstring) : Cell :=
  match v with Some s => Text s | None => Absent end.

(** What comes first ends the computation when it threw. *)
Definition andThen {A B} (r : Error + A) (k : A -> Error + B) : Error + B :=
  match r with
  | inl e => inl e
  | inr a => k a
  end.

End Input.

Notation "x <~ r ;; k" := (Input.andThen r (fun x => k))
  (at level 61, r at next level, right associativity).

(** The [schemaJson] of a payload: what [JSON.parse] made of a string, or
    the array or object the row held. *)
Inductive Schema {RT : Runtime} :=
| Parsed (v : JsonValue)
| Given (c : Input.Cell).

(** [safeJson(value, lineNumber)] (article and page importers). *)
Definition safeJson {RT : Runtime} (value : option jsstring) (lineNumber : nat)
  : Error + option JsonValue :=
  if negb (truthy (str value)) then inr None
  else
    let trimmed := trim (str value) in
    if negb (truthy trimmed) then inr None
    else
      match JSON_parse trimmed with
      | Some v => inr (Some v)
      | None => inl (InvalidSchemaJson lineNumber)
      end.

(* ================================================================== *)
(** ** The article importer ([scripts/import-articles.mjs]) *)
(* ================================================================== *)

Module Articles.

Inductive ArticleType := blog | news.

(** The module-level constants, after [assertConfig] has accepted them. *)
Record Config := {
  ARTICLE_TYPE : ArticleType;
  UPSERT_MODE : UpsertMode;
  DRY_RUN : bool;
  FORCE_PUBLISH : bool;
  DEFAULT_COVER_IMAGE_ID : option jsstring
}.

(** [TYPE_CONFIG[type].endpoint] *)
Definition endpoint (t : ArticleType) : jsstring :=
  match t with
  | blog => lit "/api/blog-posts"
  | news => lit "/api/news-articles"
  end.

Definition tagsEndpoint : jsstring := lit "/api/content-tags".

(** The [tags] column: an array (JSON input) or a string. *)
Inductive Tags :=
| TagArray (items : list jsstring)
| TagText (value : option jsstring).

(** An input row whose members are strings or absent, which is what the
    CSV parser produces and what the seed files hold.  The rows of a .json
    file that holds other values are those of [ArticleRows] below, of which
    these are the instance [ArticleRows.ofTexts]. *)
Record Row := {
  row_title : option jsstring;
  row_slug : option jsstring;
  row_content : option jsstring;
  row_body : option jsstring;
  row_excerpt : option jsstring;
  row_summary : option jsstring;
  row_description : option jsstring;
  row_metaTitle : option jsstring;
  row_metaDescription : option jsstring;
  row_canonicalUrl : option jsstring;
  row_noindex : option jsstring;
  row_schemaJson : option jsstring;
  row_tags : Tags;
  row_publishDate : option jsstring;
  row_date : option jsstring;
  row_coverImageId : option jsstring;
  row_line : nat
}.

(** [s.split(/[|,]/)] *)
Fixpoint splitTags (s : jsstring) (cur : jsstring) : list jsstring :=
  match s with
  | [] => [rev cur]
  | c :: r =>
      if chareq c PIPE || chareq c COMMA then rev cur :: splitTags r []
      else splitTags r (c :: cur)
  end.

(** [parseTags(value)] *)
Definition parseTags (value : Tags) : list jsstring :=
  match value with
  | TagArray items => filter truthy (map trim items)
  | TagText v =>
      let raw := trim (str v) in
      if negb (truthy raw) then []
      else filter truthy (map trim (splitTags raw []))
  end.

(** A number that is a non-negative integer, or [Infinity]. *)
Inductive JsNumber := Finite (n : N) | Infinity.

(** The double nearest to the integer [n], ties going to the even
    mantissa: integers of up to 53 bits are doubles, a longer one keeps
    its 53 leading bits, rounded, and [2^1024] is out of range. *)
Definition nearestDouble (n : N) : JsNumber :=
  let bits := N.size n in
  if (bits <=? 53)%N then Finite n
  else
    let shift := (bits - 53)%N in
    let q := N.shiftr n shift in
    let rest := N.land n (N.ones shift) in
    let half := N.shiftl 1 (shift - 1) in
    let q :=
      if (half <? rest)%N || ((rest =? half)%N && N.odd q)
      then (q + 1)%N else q in
    let r := N.shiftl q shift in
    if (N.shiftl 1 1024 <=? r)%N then Infinity else Finite r.

(** The integer a string of decimal digits writes. *)
Definition valueOfDigits (raw : jsstring) : N :=
  fold_left (fun acc c => (acc * 10 + (c - 48))%N) raw 0%N.

(** [Number(raw)] for a string of decimal digits, as Node computes it. *)
Definition numberOfDigits (raw : jsstring) : JsNumber :=
  nearestDouble (valueOfDigits raw).

(** What [parseEntityId] returns: a number or the text. *)
Inductive EntityId :=
| NumericId (n : JsNumber)
| TextId (raw : jsstring).

(** [parseEntityId(value)] *)
Definition parseEntityId (value : option jsstring) : option EntityId :=
  match value with
  | None => None
  | Some v =>
      let raw := trim v in
      if negb (truthy raw) then None
      else if forallb isDigit raw then Some (NumericId (numberOfDigits raw))
      else Some (TextId raw)
  end.

Section WithRuntime.
Context {RT : Runtime}.

Record SeoEntry := {
  seo_metaTitle : option jsstring;
  seo_metaDescription : option jsstring;
  seo_canonicalUrl : option jsstring;
  seo_noindex : bool;
  seo_schemaJson : option Schema
}.

(** The payload of an article; [p_summary] is the [excerpt] of a blog post
    and the [summary] of a news article. *)
Record Payload := {
  p_title : jsstring;
  p_slug : jsstring;
  p_content : jsstring;
  p_summary : option jsstring;
  p_seo : list SeoEntry;
  p_tags : option (list JsId);
  p_publishedAt : option jsstring;
  p_publishDate : option jsstring;
  p_coverImage : option EntityId
}.

Inductive Body :=
| ArticleData (data : Payload)
| TagData (name slug : jsstring) (publishedAt : option jsstring).

(** The requests the script sends: the filtered list
    [GET endpoint?filters[slug][$eq]=slug&pagination[pageSize]=1],
    [POST endpoint] and [PUT endpoint/id]. *)
Inductive Request :=
| Find (endpoint : jsstring) (slug : jsstring)
| Post (endpoint : jsstring) (data : Body)
| Put (endpoint : jsstring) (id : JsId) (data : Body).

(** [normalizeDate(value)] *)
Definition normalizeDate (value : option jsstring) : jsstring :=
  let raw := trim (str value) in
  if negb (truthy raw) then []
  else match isoDateOf raw with Some d => d | None => [] end.

Variable cfg : Config.

(** [mapRowToPayload(row, type, tagIds)] *)
Definition mapRowToPayload (row : Row) (type : ArticleType)
    (tagIds : list JsId) : Error + Payload :=
  let title := trim (str (row_title row)) in
  let slug :=
    orElse (trim (str (row_slug row))) (Normalizer.slugify (Some title)) in
  let content := str (nullish (row_content row) (row_body row)) in
  let summaryField :=
    match type with blog => row_excerpt row | news => row_summary row end in
  let summaryValue :=
    trim (str (nullish summaryField
                 (nullish (row_excerpt row)
                    (nullish (row_summary row) (row_description row))))) in
  let metaTitle := trim (str (nullish (row_metaTitle row) (Some title))) in
  let metaDescriptionRaw :=
    trim (str (nullish (row_metaDescription row) (Some summaryValue))) in
  let metaDescription :=
    Normalizer.buildMetaDescription (Some metaDescriptionRaw)
      (Some (orElse summaryValue (orElse content title))) in
  let canonicalUrl := trim (str (row_canonicalUrl row)) in
  let noindex := Normalizer.parseBoolean (row_noindex row) false in
  match safeJson (row_schemaJson row) (row_line row) with
  | inl e => inl e
  | inr schemaJson =>
      let seoEntry :=
        {| seo_metaTitle := whenTruthy metaTitle;
           seo_metaDescription := whenTruthy metaDescription;
           seo_canonicalUrl := whenTruthy canonicalUrl;
           seo_noindex := noindex;
           seo_schemaJson :=
             match schemaJson with
             | Some v => if jsonTruthy v then Some (Parsed v) else None
             | None => None
             end |} in
      let parsedDate :=
        normalizeDate (nullish (row_publishDate row) (row_date row)) in
      let publishDate := whenTruthy parsedDate in
      let publishDate :=
        match type, publishDate with
        | news, None => Some (slice0 10 nowIso)
        | _, _ => publishDate
        end in
      inr {| p_title := title;
             p_slug := slug;
             p_content := content;
             p_summary := whenTruthy summaryValue;
             p_seo := [seoEntry];
             p_tags := if 0 <? length tagIds then Some tagIds else None;
             p_publishedAt := if FORCE_PUBLISH cfg then Some nowIso else None;
             p_publishDate := publishDate;
             p_coverImage :=
               parseEntityId (nullish (row_coverImageId row)
                                (DEFAULT_COVER_IMAGE_ID cfg)) |}
  end.

(** *** The run *)

Variable Store : Type.
Variable serve : Store -> Request -> Store * Reply.

Definition strapiRequest (req : Request) : Batch.M Request Store ReplyData :=
  Batch.strapiRequest serve req.

Definition findExistingBySlug (endpoint slug : jsstring)
  : Batch.M Request Store (option Entry) :=
  result <- strapiRequest (Find endpoint slug) ;;
  ret (firstEntry result).

Definition findExistingTagBySlug (tagSlug : jsstring)
  : Batch.M Request Store (option Entry) :=
  result <- strapiRequest (Find tagsEndpoint tagSlug) ;;
  ret (firstEntry result).

Definition createEntry (endpoint : jsstring) (data : Payload)
  : Batch.M Request Store ReplyData :=
  strapiRequest (Post endpoint (ArticleData data)).

Definition updateEntry (endpoint : jsstring) (id : JsId) (data : Payload)
  : Batch.M Request Store ReplyData :=
  strapiRequest (Put endpoint id (ArticleData data)).

(** The loop of [ensureTagIds(tagNames)]. *)
Fixpoint ensureTagLoop (tagNames : list jsstring) (ids : list JsId)
  : Batch.M Request Store (list JsId) :=
  match tagNames with
  | [] => ret ids
  | nameRaw :: more =>
      let name := trim nameRaw in
      if negb (truthy name) then ensureTagLoop more ids
      else
        let slug := Normalizer.slugify (Some name) in
        if negb (truthy slug) then ensureTagLoop more ids
        else
          found <- findExistingTagBySlug slug ;;
          existing <-
            match found with
            | None =>
                if negb (DRY_RUN cfg) then
                  created <- strapiRequest
                    (Post tagsEndpoint
                       (TagData name slug
                          (if FORCE_PUBLISH cfg then Some nowIso else None))) ;;
                  ret (createdEntry created)
                else ret None
            | Some e => ret (Some e)
            end ;;
          match existing with
          | Some e =>
              match id e with
              | Some i =>
                  if idTruthy i then ensureTagLoop more (ids ++ [i])
                  else ensureTagLoop more ids
              | None => ensureTagLoop more ids
              end
          | None => ensureTagLoop more ids
          end
  end.

Definition ensureTagIds (tagNames : list jsstring)
  : Batch.M Request Store (list JsId) :=
  ensureTagLoop tagNames [].

(** What follows the lookup in the [try] block of [run]: skip, update or
    create; [line] is [row.__line]. *)
Definition reconcile (line : nat) (slug : jsstring) (payload : Payload)
    (existing : option Entry) : Batch.M Request Store unit :=
  match existing with
  | Some e =>
      match UPSERT_MODE cfg with
      | skip => incSkipped ;;; log (LogSkip slug)
      | update =>
          match getEntryId e with
          | Some entryId =>
              if idTruthy entryId then
                (if negb (DRY_RUN cfg)
                 then updateEntry (endpoint (ARTICLE_TYPE cfg)) entryId payload
                        ;;; ret tt
                 else ret tt) ;;;
                incUpdated ;;; log (LogUpdate slug)
              else incFailed ;;; log (LogCannotUpdate line slug)
          | None => incFailed ;;; log (LogCannotUpdate line slug)
          end
      end
  | None =>
      (if negb (DRY_RUN cfg)
       then createEntry (endpoint (ARTICLE_TYPE cfg)) payload ;;; ret tt
       else ret tt) ;;;
      incCreated ;;; log (LogCreate slug)
  end.

(** The [try] block of [run] after [seenSlugs.add(slug)]: tags, payload,
    lookup, and the action. *)
Definition upsert (row : Row) (slug : jsstring) : Batch.M Request Store unit :=
  let tagNames := parseTags (row_tags row) in
  tagIds <- ensureTagIds tagNames ;;
  payload <- lift (mapRowToPayload row (ARTICLE_TYPE cfg) tagIds) ;;
  existing <- findExistingBySlug (endpoint (ARTICLE_TYPE cfg)) slug ;;
  reconcile (row_line row) slug payload existing.

(** The body of the [try] block of [run], for one row. *)
Definition rowBody (row : Row) : Batch.M Request Store unit :=
  let title := trim (str (row_title row)) in
  let slug :=
    orElse (trim (str (row_slug row))) (Normalizer.slugify (Some title)) in
  if negb (truthy title) || negb (truthy slug) then
    incFailed ;;; log (LogMissingRequired (row_line row) title slug)
  else
    isSeen <- hasSeen slug ;;
    if isSeen then
      incFailed ;;; log (LogDuplicate (row_line row) slug)
    else
      addSeen slug ;;;
      upsert row slug.

(** One turn of the [for] loop of [run]: the [try] block and its [catch]. *)
Definition processRow (row : Row) : Batch.M Request Store unit :=
  tryCatch (rowBody row)
    (fun error =>
       incFailed ;;;
       log (LogFailed (row_line row) (str (row_title row)) error)).

(** The console summary printed after the loop. *)
Definition report : Batch.M Request Store unit :=
  summary ;;;
  match DEFAULT_COVER_IMAGE_ID cfg with
  | Some (_ :: _) => ret tt
  | _ => log LogNote
  end.

(** [run()], from the rows [parseInput] returned. *)
Definition runM (rows : list Row) : Batch.M Request Store unit :=
  if length rows =? 0 then log LogNoRows
  else
    log (LogImporting (length rows)) ;;;
    forEach rows processRow ;;;
    report.

Definition run (rows : list Row) (s : Store)
  : Run Request Store * (Error + unit) :=
  runM rows (start s).

End WithRuntime.

Arguments Find {RT} endpoint slug.
Arguments Post {RT} endpoint data.
Arguments Put {RT} endpoint id data.

(** The title and the natural key [run] computes for a row. *)
Definition titleOf (row : Row) : jsstring := trim (str (row_title row)).

Definition keyOf {RT : Runtime} (row : Row) : jsstring :=
  orElse (trim (str (row_slug row))) (Normalizer.slugify (Some (titleOf row))).


(** Requests that change the store. *)
Definition isWrite {RT : Runtime} (r : Request) : bool :=
  match r with
  | Find _ _ => false
  | Post _ _ => true
  | Put _ _ _ => true
  end.

(** The constants of a run with [DRY_RUN] set to [dry]. *)
Definition withDryRun (dry : bool) (cfg : Config) : Config :=
  {| ARTICLE_TYPE := ARTICLE_TYPE cfg; UPSERT_MODE := UPSERT_MODE cfg;
     DRY_RUN := dry; FORCE_PUBLISH := FORCE_PUBLISH cfg;
     DEFAULT_COVER_IMAGE_ID := DEFAULT_COVER_IMAGE_ID cfg |}.

(** No [POST] or [PUT] among the requests sent so far. *)
Definition onlyLookups {RT : Runtime} {Store} (st : Run Request Store) : Prop :=
  forallb (fun r => negb (isWrite r)) (requests st) = true.

Definition slugOfBody {RT : Runtime} (b : Body) : jsstring :=
  match b with
  | ArticleData p => p_slug p
  | TagData _ slug _ => slug
  end.

(** The write [w] is about the record a lookup of [key] at [endpoint]
    asks for. *)
Definition touches {RT : Runtime} (w : Request) (endpoint key : jsstring)
  : bool :=
  match w with
  | Find _ _ => false
  | Post e b => streq e endpoint && streq (slugOfBody b) key
  | Put e _ b => streq e endpoint && streq (slugOfBody b) key
  end.

(** *** Remote stores on which a live run can be compared with a dry run *)

Section Stores.
Context {RT : Runtime}.
Variable Store : Type.
Variable serve : Store -> Request -> Store * Reply.

(** Every [POST] and [PUT] is answered with success. *)
Definition AcceptsWrites : Prop :=
  forall s w, isWrite w = true -> refused (snd (serve s w)) = false.

(** A lookup leaves the store as it is. *)
Definition LookupsReadOnly : Prop :=
  forall s e k, fst (serve s (Find e k)) = s.

(** A write changes the answer of no lookup but those for its own key. *)
Definition WritesAreLocal : Prop :=
  forall s w e k,
    isWrite w = true -> touches w e k = false ->
    snd (serve (fst (serve s w)) (Find e k)) = snd (serve s (Find e k)).

(** A write does not change whether a lookup is answered or refused. *)
Definition WritesKeepLookupsUp : Prop :=
  forall s w e k,
    isWrite w = true ->
    refused (snd (serve (fst (serve s w)) (Find e k)))
    = refused (snd (serve s (Find e k))).

(** The store after the requests [reqs], sent one after the other to the
    store in the state [s]. *)
Definition storeAfter (s : Store) (reqs : list Request) : Store :=
  fold_left (fun s r => fst (serve s r)) reqs s.

(** No [POST] or [PUT] among the requests [reqs], sent one after the other
    to the store in the state [s], is refused. *)
Fixpoint writesAccepted (s : Store) (reqs : list Request) : bool :=
  match reqs with
  | [] => true
  | r :: more =>
      negb (isWrite r && refused (snd (serve s r)))
      && writesAccepted (fst (serve s r)) more
  end.

(** The run [st] started from the store in the state [s0]: its store is
    what its requests made of [s0]. *)
Definition StartedFrom (s0 : Store) (st : Run Request Store) : Prop :=
  store st = storeAfter s0 (requests st).

(** The store accepted every write the run [st], started from [s0], has
    sent. *)
Definition NoWriteRefused (s0 : Store) (st : Run Request Store) : Prop :=
  writesAccepted s0 (requests st) = true.

(** The store [serve], but for the writes it refuses, which are answered
    with success. *)
Definition accepting (s : Store) (r : Request) : Store * Reply :=
  let (s', reply) := serve s r in
  if isWrite r && refused reply then (s', Answered (DataList []))
  else (s', reply).

(** The computation [m] goes on from a run started from [s0], cannot undo
    a refusal, and does what [m'] does when no write of it is refused. *)
Definition AgreeWhenAccepted (s0 : Store) {A}
    (m m' : Batch.M Request Store A) : Prop :=
  forall st,
    StartedFrom s0 st ->
    StartedFrom s0 (fst (m st))
    /\ (NoWriteRefused s0 (fst (m st)) ->
        NoWriteRefused s0 st /\ m st = m' st).

(** The stores of a dry run ([d]) and of a live run ([l]) answer alike:
    lookups are refused in the one exactly when they are in the other, and
    articles whose key is not among [keys] get the same answer. *)
Definition AnswerAlike (articles : jsstring) (keys : list jsstring)
    (d l : Store) : Prop :=
  (forall e k, refused (snd (serve l (Find e k)))
               = refused (snd (serve d (Find e k))))
  /\ (forall k, includes keys k = false ->
                snd (serve l (Find articles k))
                = snd (serve d (Find articles k))).

(** Two outcomes, of a dry and of a live run: both threw or neither did,
    and the stores they leave answer alike. *)
Definition OutcomesAlike {A B} (articles : jsstring) (keys : list jsstring)
    (od : Run Request Store * (Error + A))
    (ol : Run Request Store * (Error + B)) : Prop :=
  AnswerAlike articles keys (store (fst od)) (store (fst ol))
  /\ threw (snd od) = threw (snd ol).

(** ... and the four counters are the same. *)
Definition StepAlike {A B} (articles : jsstring) (keys : list jsstring)
    (od : Run Request Store * (Error + A))
    (ol : Run Request Store * (Error + B)) : Prop :=
  OutcomesAlike articles keys od ol
  /\ counters (fst od) = counters (fst ol).

(** Two runs, dry and live, that have counted the same rows the same way. *)
Definition InStep (articles : jsstring) (sd sl : Run Request Store) : Prop :=
  seen sd = seen sl /\ counters sd = counters sl
  /\ AnswerAlike articles (seen sl) (store sd) (store sl).

End Stores.

End Articles.

(* ================================================================== *)
(** ** The page importer *)
(* ================================================================== *)

Module Pages.

(** The module-level constants, after [assertConfig] has accepted them. *)
Record Config := {
  UPSERT_MODE : UpsertMode;
  DRY_RUN : bool;
  FORCE_PUBLISH : bool;
  FORCE_UNPUBLISH : bool
}.

Definition pagesEndpoint : jsstring := lit "/api/pages".

(** An input row whose members are strings or absent, which is what the
    CSV parser produces and what the seed file holds.  The rows of a .json
    file that holds other values are those of [PageRows] below, of which
    these are the instance [PageRows.ofTexts]. *)
Record Row := {
  row_routePath : option jsstring;
  row_pageName : option jsstring;
  row_content : option jsstring;
  row_isActive : option jsstring;
  row_metaTitle : option jsstring;
  row_metaDescription : option jsstring;
  row_canonicalUrl : option jsstring;
  row_noindex : option jsstring;
  row_schemaJson : option jsstring;
  row_unpublish : option jsstring;
  row_line : nat
}.

(** The [publishedAt] member of a payload: the time of the run, [null], or
    no member at all. *)
Inductive PublishMark :=
| PublishNow (at_ : jsstring)
| Unpublish
| Untouched.

Section WithRuntime.
Context {RT : Runtime}.

Record Seo := {
  seo_metaTitle : option jsstring;
  seo_metaDescription : option jsstring;
  seo_canonicalUrl : option jsstring;
  seo_noindex : bool;
  seo_schemaJson : option Schema
}.

Record Payload := {
  p_routePath : jsstring;
  p_pageName : jsstring;
  p_content : jsstring;
  p_isActive : bool;
  p_seo : option Seo;
  p_publishedAt : PublishMark
}.

Inductive Request :=
| Find (routePath : jsstring)
| Post (data : Payload)
| Put (id : JsId) (data : Payload).

Variable cfg : Config.

(** [mapRowToPayload(row)] *)
Definition mapRowToPayload (row : Row) : Error + Payload :=
  let routePath := Normalizer.normalizePath (row_routePath row) in
  let pageName := trim (str (row_pageName row)) in
  let metaTitle := trim (str (row_metaTitle row)) in
  let metaDescription := trim (str (row_metaDescription row)) in
  let canonicalUrl := trim (str (row_canonicalUrl row)) in
  let noindex := Normalizer.parseBoolean (row_noindex row) false in
  match safeJson (row_schemaJson row) (row_line row) with
  | inl e => inl e
  | inr parsed =>
      let schemaJson :=
        match parsed with
        | Some v => if jsonTruthy v then Some (Parsed v) else None
        | None => None
        end in
      let seo :=
        if truthy metaTitle || truthy metaDescription || truthy canonicalUrl
           || match schemaJson with Some _ => true | None => false end
           || noindex
        then Some {| seo_metaTitle := whenTruthy metaTitle;
                     seo_metaDescription := whenTruthy metaDescription;
                     seo_canonicalUrl := whenTruthy canonicalUrl;
                     seo_noindex := noindex;
                     seo_schemaJson := schemaJson |}
        else None in
      let shouldUnpublish :=
        FORCE_UNPUBLISH cfg
        || Normalizer.parseBoolean (row_unpublish row) false in
      inr {| p_routePath := routePath;
             p_pageName := pageName;
             p_content := str (row_content row);
             p_isActive := Normalizer.parseBoolean (row_isActive row) true;
             p_seo := seo;
             p_publishedAt :=
               if FORCE_PUBLISH cfg then PublishNow nowIso
               else if shouldUnpublish then Unpublish else Untouched |}
  end.

Variable Store : Type.
Variable serve : Store -> Request -> Store * Reply.

Definition strapiRequest (req : Request) : Batch.M Request Store ReplyData :=
  Batch.strapiRequest serve req.

Definition findExistingByRoute (routePath : jsstring)
  : Batch.M Request Store (option Entry) :=
  result <- strapiRequest (Find routePath) ;;
  ret (firstEntry result).

Definition createPage (data : Payload) : Batch.M Request Store ReplyData :=
  strapiRequest (Post data).

Definition updatePage (id : JsId) (data : Payload)
  : Batch.M Request Store ReplyData :=
  strapiRequest (Put id data).

(** What follows the lookup in the [try] block of [run]; [line] is
    [row.__line]. *)
Definition reconcile (line : nat) (routePath : jsstring) (payload : Payload)
    (existing : option Entry) : Batch.M Request Store unit :=
  match existing with
  | Some e =>
      match UPSERT_MODE cfg with
      | skip => incSkipped ;;; log (LogSkip routePath)
      | update =>
          match getEntryId e with
          | Some entryId =>
              if idTruthy entryId then
                (if negb (DRY_RUN cfg)
                 then updatePage entryId payload ;;; ret tt
                 else ret tt) ;;;
                incUpdated ;;; log (LogUpdate routePath)
              else incFailed ;;; log (LogCannotUpdate line routePath)
          | None => incFailed ;;; log (LogCannotUpdate line routePath)
          end
      end
  | None =>
      (if negb (DRY_RUN cfg) then createPage payload ;;; ret tt else ret tt) ;;;
      incCreated ;;; log (LogCreate routePath)
  end.

(** The [try] block of [run] once the payload is built. *)
Definition checkAndUpsert (line : nat) (payload : Payload)
  : Batch.M Request Store unit :=
  let routePath := p_routePath payload in
  if negb (truthy routePath) || negb (truthy (p_pageName payload)) then
    incFailed ;;;
    log (LogMissingRequired line routePath (p_pageName payload))
  else
    isSeen <- hasSeen routePath ;;
    if isSeen then
      incFailed ;;; log (LogDuplicate line routePath)
    else
      addSeen routePath ;;;
      existing <- findExistingByRoute routePath ;;
      reconcile line routePath payload existing.

(** The body of the [try] block of [run], for one row. *)
Definition rowBody (row : Row) : Batch.M Request Store unit :=
  payload <- lift (mapRowToPayload row) ;;
  checkAndUpsert (row_line row) payload.

(** One turn of the [for] loop of [run]. *)
Definition processRow (row : Row) : Batch.M Request Store unit :=
  tryCatch (rowBody row)
    (fun error =>
       incFailed ;;;
       log (LogFailed (row_line row) (str (row_routePath row)) error)).

Definition report : Batch.M Request Store unit :=
  summary ;;;
  if negb (FORCE_PUBLISH cfg) then log LogNote else ret tt.

(** [run()], from the rows [parseInput] returned. *)
Definition runM (rows : list Row) : Batch.M Request Store unit :=
  if length rows =? 0 then log LogNoRows
  else
    log (LogImporting (length rows)) ;;;
    forEach rows processRow ;;;
    report.

Definition run (rows : list Row) (s : Store)
  : Run Request Store * (Error + unit) :=
  runM rows (start s).

End WithRuntime.

Arguments Find {RT} routePath.
Arguments Post {RT} data.
Arguments Put {RT} id data.

(** The natural key and the name [run] computes for a row. *)
Definition keyOf (row : Row) : jsstring :=
  Normalizer.normalizePath (row_routePath row).



End Pages.

(* ================================================================== *)
(** ** The redirects importer: the run *)
(* ================================================================== *)

Module RedirectsRun.

Record Config := {
  UPSERT_MODE : UpsertMode;
  DRY_RUN : bool;
  FORCE_PUBLISH : bool
}.

(** A row of the CSV file. *)
Record Row := {
  row_fromPath : option jsstring;
  row_toUrl : option jsstring;
  row_statusCode : option jsstring;
  row_isActive : option jsstring;
  row_notes : option jsstring;
  row_line : nat
}.

Record Payload := {
  p_fromPath : jsstring;
  p_toUrl : jsstring;
  p_statusCode : Redirects.JsValue;
  p_isActive : bool;
  p_notes : option jsstring;
  p_publishedAt : option jsstring
}.

Inductive Request :=
| Find (fromPath : jsstring)
| Post (data : Payload)
| Put (id : JsId) (data : Payload).

(** [normalisePath(value)] *)
Definition normalisePath (value : option jsstring) : jsstring :=
  if negb (truthy (str value)) then []
  else
    let trimmed := trim (str value) in
    if negb (truthy trimmed) then []
    else if startsWith [SLASH] trimmed then trimmed else SLASH :: trimmed.

Section WithRuntime.
Context {RT : Runtime}.

Variable cfg : Config.
Variable Store : Type.
Variable serve : Store -> Request -> Store * Reply.

Definition strapiRequest (req : Request) : Batch.M Request Store ReplyData :=
  Batch.strapiRequest serve req.

Definition findExistingByFromPath (fromPath : jsstring)
  : Batch.M Request Store (option Entry) :=
  result <- strapiRequest (Find fromPath) ;;
  ret (firstEntry result).

(** The payload built before the [try] block. *)
Definition payloadOf (row : Row) (fromPath toUrl : jsstring) : Payload :=
  {| p_fromPath := fromPath;
     p_toUrl := toUrl;
     p_statusCode := Redirects.toStatusCode (row_statusCode row);
     p_isActive := Normalizer.parseBoolean (row_isActive row) true;
     p_notes := whenTruthy (trim (str (row_notes row)));
     p_publishedAt := if FORCE_PUBLISH cfg then Some nowIso else None |}.

(** The [try] block of [run]. *)
Definition rowBody (row : Row) (fromPath toUrl : jsstring) (payload : Payload)
  : Batch.M Request Store unit :=
  let label := fromPath ++ lit " -> " ++ toUrl in
  existing <- findExistingByFromPath fromPath ;;
  match existing with
  | Some e =>
      match UPSERT_MODE cfg with
      | skip => incSkipped ;;; log (LogSkip fromPath)
      | update =>
          match getEntryId e with
          | Some entryId =>
              if idTruthy entryId then
                (if negb (DRY_RUN cfg)
                 then strapiRequest (Put entryId payload) ;;; ret tt
                 else ret tt) ;;;
                incUpdated ;;; log (LogUpdate label)
              else incFailed ;;; log (LogCannotUpdate (row_line row) fromPath)
          | None => incFailed ;;; log (LogCannotUpdate (row_line row) fromPath)
          end
      end
  | None =>
      (if negb (DRY_RUN cfg)
       then strapiRequest (Post payload) ;;; ret tt
       else ret tt) ;;;
      incCreated ;;; log (LogCreate label)
  end.

(** One turn of the [for] loop of [run]. *)
Definition processRow (row : Row) : Batch.M Request Store unit :=
  let fromPath := normalisePath (row_fromPath row) in
  let toUrl := trim (str (row_toUrl row)) in
  if negb (truthy fromPath) || negb (truthy toUrl) then
    incFailed ;;; log (LogMissingRequired (row_line row) fromPath toUrl)
  else
    let payload := payloadOf row fromPath toUrl in
    tryCatch (rowBody row fromPath toUrl payload)
      (fun error =>
         incFailed ;;; log (LogFailed (row_line row) fromPath error)).

(** [run()], from the rows [parseCsv] returned. *)
Definition runM (rows : list Row) : Batch.M Request Store unit :=
  if length rows =? 0 then log LogNoRows
  else
    log (LogImporting (length rows)) ;;;
    forEach rows processRow ;;;
    summary.

Definition run (rows : list Row) (s : Store)
  : Run Request Store * (Error + unit) :=
  runM rows (start s).

End WithRuntime.

End RedirectsRun.

(* ================================================================== *)
(** ** The in-place migration of pages
    ([scripts/migrate-page-blocks-inplace.mjs]) *)
(* ================================================================== *)

Module Migration.

Record Config := {
  DRY_RUN : bool;
  FORCE_PUBLISH : bool;
  CLEAR_LEGACY_CONTENT : bool;
  ONLY_WHEN_EMPTY_BLOCKS : bool
}.

(** A page as [fetchAllPages] returned it: its identifiers, and the
    attributes the loop reads; [page_blocks] is the length of its
    [contentBlocks] array, 0 when it has none. *)
Record Page := {
  page_ids : Entry;
  page_routePath : option jsstring;
  page_content : option jsstring;
  page_blocks : nat
}.

Section WithRuntime.
Context {RT : Runtime}.

Record Payload := {
  p_contentBlocks : list Blocks.Block;
  p_content : option jsstring;
  p_publishedAt : option jsstring
}.

(** The lines of the migration. *)
Inductive Line :=
| NoPages
| FailNoId (routePath : jsstring)
| SkipNoContent (routePath : jsstring)
| SkipHasBlocks (routePath : jsstring) (count : nat)
| SkipNoBlocks (routePath : jsstring)
| Updated (routePath : jsstring) (count : nat)
| FailPut (routePath : jsstring) (status body : jsstring)
| Done (scanned updated noContent hasBlocks noBlocks failed : nat).

(** The store: any state, and any way of answering [PUT /api/pages/id]. *)
Variable Store : Type.
Variable serve : Store -> JsId * Payload -> Store * Reply.

Record Tally := {
  store : Store;
  puts : list (JsId * Payload);
  updated : nat;
  skippedNoContent : nat;
  skippedHasBlocks : nat;
  skippedNoBlocksProduced : nat;
  failed : nat;
  console : list Line
}.

Variable cfg : Config.

Definition payloadOf (migratedBlocks : list Blocks.Block) : Payload :=
  {| p_contentBlocks := migratedBlocks;
     p_content := if CLEAR_LEGACY_CONTENT cfg then Some [] else None;
     p_publishedAt := if FORCE_PUBLISH cfg then Some nowIso else None |}.

(** [updated += 1] and its line, after the [PUT] if there was one. *)
Definition countUpdated (st : Tally) (routePath : jsstring) (blocks : nat)
    (s : Store) (sent : list (JsId * Payload)) : Tally :=
  {| store := s; puts := sent; updated := updated st + 1;
     skippedNoContent := skippedNoContent st;
     skippedHasBlocks := skippedHasBlocks st;
     skippedNoBlocksProduced := skippedNoBlocksProduced st;
     failed := failed st;
     console := console st ++ [Updated routePath blocks] |}.

(** The [try] block of [run] and its [catch]. *)
Definition tryUpdate (st : Tally) (routePath : jsstring) (id : JsId)
    (migratedBlocks : list Blocks.Block) : Tally :=
  let payload := payloadOf migratedBlocks in
  if negb (DRY_RUN cfg) then
    match serve (store st) (id, payload) with
    | (s', Answered _) =>
        countUpdated st routePath (length migratedBlocks) s'
          (puts st ++ [(id, payload)])
    | (s', Refused status body) =>
        {| store := s'; puts := puts st ++ [(id, payload)];
           updated := updated st;
           skippedNoContent := skippedNoContent st;
           skippedHasBlocks := skippedHasBlocks st;
           skippedNoBlocksProduced := skippedNoBlocksProduced st;
           failed := failed st + 1;
           console := console st ++ [FailPut routePath status body] |}
    end
  else
    countUpdated st routePath (length migratedBlocks) (store st) (puts st).

(** One turn of the [for] loop of [run], for a page with identifier. *)
Definition migrate (st : Tally) (entry : Page) (routePath : jsstring)
    (id : JsId) : Tally :=
  let content := str (page_content entry) in
  if negb (truthy (trim content)) then
    {| store := store st; puts := puts st; updated := updated st;
       skippedNoContent := skippedNoContent st + 1;
       skippedHasBlocks := skippedHasBlocks st;
       skippedNoBlocksProduced := skippedNoBlocksProduced st;
       failed := failed st;
       console := console st ++ [SkipNoContent routePath] |}
  else if ONLY_WHEN_EMPTY_BLOCKS cfg && (0 <? page_blocks entry) then
    {| store := store st; puts := puts st; updated := updated st;
       skippedNoContent := skippedNoContent st;
       skippedHasBlocks := skippedHasBlocks st + 1;
       skippedNoBlocksProduced := skippedNoBlocksProduced st;
       failed := failed st;
       console := console st ++ [SkipHasBlocks routePath (page_blocks entry)] |}
  else
    let migratedBlocks := Blocks.convertContentToBlocks (lit "page") content in
    if length migratedBlocks =? 0 then
      {| store := store st; puts := puts st; updated := updated st;
         skippedNoContent := skippedNoContent st;
         skippedHasBlocks := skippedHasBlocks st;
         skippedNoBlocksProduced := skippedNoBlocksProduced st + 1;
         failed := failed st;
         console := console st ++ [SkipNoBlocks routePath] |}
    else tryUpdate st routePath id migratedBlocks.

Definition failNoId (st : Tally) (routePath : jsstring) : Tally :=
  {| store := store st; puts := puts st; updated := updated st;
     skippedNoContent := skippedNoContent st;
     skippedHasBlocks := skippedHasBlocks st;
     skippedNoBlocksProduced := skippedNoBlocksProduced st;
     failed := failed st + 1;
     console := console st ++ [FailNoId routePath] |}.

(** One turn of the [for] loop of [run]. *)
Definition step (st : Tally) (entry : Page) : Tally :=
  let routePath :=
    Normalizer.normalizePath
      (match page_routePath entry with
       | Some p => Some p
       | None => Some [SLASH]
       end) in
  match getEntryId (page_ids entry) with
  | Some id =>
      if idTruthy id then migrate st entry routePath id
      else failNoId st routePath
  | None => failNoId st routePath
  end.

Definition start (s : Store) : Tally :=
  {| store := s; puts := []; updated := 0; skippedNoContent := 0;
     skippedHasBlocks := 0; skippedNoBlocksProduced := 0; failed := 0;
     console := [] |}.

(** [run()], from the pages [fetchAllPages] returned. *)
Definition run (pages : list Page) (s : Store) : Tally :=
  match pages with
  | [] =>
      {| store := s; puts := []; updated := 0; skippedNoContent := 0;
         skippedHasBlocks := 0; skippedNoBlocksProduced := 0; failed := 0;
         console := [NoPages] |}
  | _ :: _ =>
      let st := fold_left step pages (start s) in
      {| store := store st; puts := puts st; updated := updated st;
         skippedNoContent := skippedNoContent st;
         skippedHasBlocks := skippedHasBlocks st;
         skippedNoBlocksProduced := skippedNoBlocksProduced st;
         failed := failed st;
         console :=
           console st
           ++ [Done (length pages) (updated st) (skippedNoContent st)
                 (skippedHasBlocks st) (skippedNoBlocksProduced st)
                 (failed st)] |}
  end.

(** The five counters of the summary. *)
Definition counts (st : Tally) : nat * nat * nat * nat * nat :=
  (updated st, skippedNoContent st, skippedHasBlocks st,
   skippedNoBlocksProduced st, failed st).

(** The store after the writes [sent], sent one after the other to the
    store in the state [s]. *)
Definition storeAfter (s : Store) (sent : list (JsId * Payload)) : Store :=
  fold_left (fun s w => fst (serve s w)) sent s.

(** No [PUT] among [sent], sent one after the other to the store in the
    state [s], is refused. *)
Fixpoint putsAccepted (s : Store) (sent : list (JsId * Payload)) : bool :=
  match sent with
  | [] => true
  | w :: more =>
      negb (refused (snd (serve s w))) && putsAccepted (fst (serve s w)) more
  end.

(** The store accepted every [PUT] the run [st], started from [s0], has
    sent. *)
Definition NoPutRefused (s0 : Store) (st : Tally) : Prop :=
  putsAccepted s0 (puts st) = true.

End WithRuntime.

(** The constants of a run with [DRY_RUN] set to [dry]. *)
Definition withDryRun (dry : bool) (cfg : Config) : Config :=
  {| DRY_RUN := dry; FORCE_PUBLISH := FORCE_PUBLISH cfg;
     CLEAR_LEGACY_CONTENT := CLEAR_LEGACY_CONTENT cfg;
     ONLY_WHEN_EMPTY_BLOCKS := ONLY_WHEN_EMPTY_BLOCKS cfg |}.

End Migration.

(* ================================================================== *)
(** ** The two page synchronisers: page content, and page blocks *)
(* ================================================================== *)

Module Sync.

(** [PAGE_CONTENT_UPSERT_MODE] / [PAGE_BLOCKS_UPSERT_MODE]: what to do with
    a route that has no page yet. *)
Inductive Mode := skip | create.

(** The module-level constants, after [assertConfig] has accepted them;
    only the block synchroniser reads [CLEAR_LEGACY_CONTENT]. *)
Record Config := {
  DRY_RUN : bool;
  UPSERT_MODE : Mode;
  FORCE_PUBLISH : bool;
  CLEAR_LEGACY_CONTENT : bool
}.

(** The strings a turn of either loop reads: what the three conversions
    it starts with made of the members of its row ([SyncRows.texts]
    below), or the members themselves when they are strings or absent. *)
Record Row := {
  row_routePath : option jsstring;
  row_pageName : option jsstring;
  row_content : option jsstring;
  row_line : nat
}.

(** The [data] of a write: each member is present or not. *)
Record Data := {
  d_routePath : option jsstring;
  d_pageName : option jsstring;
  d_content : option jsstring;
  d_contentBlocks : option (list Blocks.Block);
  d_isActive : option bool;
  d_publishedAt : option jsstring
}.

(** [GET /api/pages?filters[routePath][$eq]=...], [PUT /api/pages/id] and
    [POST /api/pages]. *)
Inductive Request :=
| Find (routePath : jsstring)
| Put (id : JsId) (data : Data)
| Post (data : Data).

(** The lines the synchronisers print; [blocks] is the number of blocks
    the block synchroniser adds to its lines, [emptyContent] the counter
    only it prints. *)
Inductive Line :=
| NoRows
| Syncing
| MissingRoute (line : nat)
| SkipNoContent (routePath : jsstring)
| MissingId (line : nat) (routePath : jsstring)
| Updated (routePath : jsstring) (blocks : option nat)
| Created (routePath : jsstring) (blocks : option nat)
| SkipAbsent (routePath : jsstring)
| Failed (line : nat) (routePath : jsstring) (status body : jsstring)
| Done (updated created skipped failed : nat) (emptyContent : option nat).

Section WithRuntime.
Context {RT : Runtime}.

(** The store: any state, and any way of answering a request. *)
Variable Store : Type.
Variable serve : Store -> Request -> Store * Reply.

Record Tally := {
  store : Store;
  requests : list Request;
  updated : nat;
  created : nat;
  skipped : nat;
  failed : nat;
  emptyContent : nat;
  console : list Line
}.

Variable cfg : Config.

(** [strapiRequest] was called with [req] and the store is now [s]. *)
Definition sent (req : Request) (s : Store) (st : Tally) : Tally :=
  {| store := s; requests := requests st ++ [req];
     updated := updated st; created := created st; skipped := skipped st;
     failed := failed st; emptyContent := emptyContent st;
     console := console st |}.

Definition failedOne (l : Line) (st : Tally) : Tally :=
  {| store := store st; requests := requests st;
     updated := updated st; created := created st; skipped := skipped st;
     failed := failed st + 1; emptyContent := emptyContent st;
     console := console st ++ [l] |}.

Definition updatedOne (l : Line) (st : Tally) : Tally :=
  {| store := store st; requests := requests st;
     updated := updated st + 1; created := created st;
     skipped := skipped st; failed := failed st;
     emptyContent := emptyContent st; console := console st ++ [l] |}.

Definition createdOne (l : Line) (st : Tally) : Tally :=
  {| store := store st; requests := requests st;
     updated := updated st; created := created st + 1;
     skipped := skipped st; failed := failed st;
     emptyContent := emptyContent st; console := console st ++ [l] |}.

Definition skippedOne (l : Line) (st : Tally) : Tally :=
  {| store := store st; requests := requests st;
     updated := updated st; created := created st;
     skipped := skipped st + 1; failed := failed st;
     emptyContent := emptyContent st; console := console st ++ [l] |}.

(** [emptyContent += 1; skipped += 1] *)
Definition emptyOne (l : Line) (st : Tally) : Tally :=
  {| store := store st; requests := requests st;
     updated := updated st; created := created st;
     skipped := skipped st + 1; failed := failed st;
     emptyContent := emptyContent st + 1; console := console st ++ [l] |}.

Definition say (l : Line) (st : Tally) : Tally :=
  {| store := store st; requests := requests st;
     updated := updated st; created := created st; skipped := skipped st;
     failed := failed st; emptyContent := emptyContent st;
     console := console st ++ [l] |}.

(** [...(FORCE_PUBLISH ? { publishedAt: new Date().toISOString() } : {})] *)
Definition publishedNow : option jsstring :=
  if FORCE_PUBLISH cfg then Some nowIso else None.

(** One write inside the [try] block: when it is refused the [catch]
    counts the row as failed, otherwise [counted] counts it. *)
Definition write (st : Tally) (row : Row) (routePath : jsstring)
    (req : Request) (counted : Tally -> Tally) : Tally :=
  if negb (DRY_RUN cfg) then
    match serve (store st) req with
    | (s, Refused status body) =>
        failedOne (Failed (row_line row) routePath status body)
          (sent req s st)
    | (s, Answered _) => counted (sent req s st)
    end
  else counted st.

(** The [try] block the two scripts share, and its [catch]; [payload] is
    what an update carries, [createPayload] what a creation carries. *)
Definition trySync (st : Tally) (row : Row) (routePath : jsstring)
    (payload createPayload : Data) (blocks : option nat) : Tally :=
  match serve (store st) (Find routePath) with
  | (s, Refused status body) =>
      failedOne (Failed (row_line row) routePath status body)
        (sent (Find routePath) s st)
  | (s, Answered result) =>
      let st := sent (Find routePath) s st in
      match firstEntry result with
      | Some existing =>
          match getEntryId existing with
          | Some id =>
              if idTruthy id then
                write st row routePath (Put id payload)
                  (updatedOne (Updated routePath blocks))
              else failedOne (MissingId (row_line row) routePath) st
          | None => failedOne (MissingId (row_line row) routePath) st
          end
      | None =>
          match UPSERT_MODE cfg with
          | create =>
              write st row routePath (Post createPayload)
                (createdOne (Created routePath blocks))
          | skip => skippedOne (SkipAbsent routePath) st
          end
      end
  end.

(** One turn of the loop of the content synchroniser. *)
Definition syncContent (st : Tally) (row : Row) : Tally :=
  let routePath := Normalizer.normalizePath (row_routePath row) in
  let pageName := orElse (trim (str (row_pageName row))) routePath in
  let content := str (row_content row) in
  if negb (truthy routePath) then
    failedOne (MissingRoute (row_line row)) st
  else
    trySync st row routePath
      {| d_routePath := None; d_pageName := None; d_content := Some content;
         d_contentBlocks := None; d_isActive := None;
         d_publishedAt := publishedNow |}
      {| d_routePath := Some routePath; d_pageName := Some pageName;
         d_content := Some content; d_contentBlocks := None;
         d_isActive := Some true; d_publishedAt := publishedNow |}
      None.

(** One turn of the loop of the block synchroniser. *)
Definition syncBlocks (st : Tally) (row : Row) : Tally :=
  let routePath := Normalizer.normalizePath (row_routePath row) in
  let pageName := orElse (trim (str (row_pageName row))) routePath in
  let content := str (row_content row) in
  if negb (truthy routePath) then
    failedOne (MissingRoute (row_line row)) st
  else if negb (truthy (trim content)) then
    emptyOne (SkipNoContent routePath) st
  else
    let contentBlocks := Blocks.convertContentToBlocks (lit "page") content in
    trySync st row routePath
      {| d_routePath := None; d_pageName := None;
         d_content := if CLEAR_LEGACY_CONTENT cfg then Some [] else None;
         d_contentBlocks := Some contentBlocks; d_isActive := None;
         d_publishedAt := publishedNow |}
      {| d_routePath := Some routePath; d_pageName := Some pageName;
         d_content := Some content; d_contentBlocks := Some contentBlocks;
         d_isActive := Some true; d_publishedAt := publishedNow |}
      (Some (length contentBlocks)).

Definition start (s : Store) : Tally :=
  {| store := s; requests := []; updated := 0; created := 0; skipped := 0;
     failed := 0; emptyContent := 0; console := [] |}.

(** [run()] of the content synchroniser, from the rows [readRows]
    returned. *)
Definition runContent (rows : list Row) (s : Store) : Tally :=
  match rows with
  | [] => say NoRows (start s)
  | _ :: _ =>
      let st := fold_left syncContent rows (say Syncing (start s)) in
      say (Done (updated st) (created st) (skipped st) (failed st) None) st
  end.

(** [run()] of the block synchroniser, from the rows [parseInput]
    returned. *)
Definition runBlocks (rows : list Row) (s : Store) : Tally :=
  match rows with
  | [] => say NoRows (start s)
  | _ :: _ =>
      let st := fold_left syncBlocks rows (say Syncing (start s)) in
      say (Done (updated st) (created st) (skipped st) (failed st)
             (Some (emptyContent st))) st
  end.

End WithRuntime.

(** The rows counted so far. *)
Definition counted {Store : Type} (st : Tally Store) : nat :=
  updated st + created st + skipped st + failed st.

Definition isFind (r : Request) : bool :=
  match r with Find _ => true | _ => false end.

Definition isPost (r : Request) : bool :=
  match r with Post _ => true | _ => false end.

(** Every write among [reqs] comes right after a lookup, and a creation
    right after the lookup of the route it creates. *)
Fixpoint looksBeforeWriting (previous : option Request) (reqs : list Request)
  : bool :=
  match reqs with
  | [] => true
  | r :: more =>
      match r, previous with
      | Find _, _ => true
      | Put _ _, Some (Find _) => true
      | Post d, Some (Find k) =>
          match d_routePath d with Some k' => streq k k' | None => false end
      | _, _ => false
      end
      && looksBeforeWriting (Some r) more
  end.

(** What one turn of either loop does: the row is counted once, one line
    is printed, and the requests sent are a lookup, or a lookup and the
    write it leads to, or nothing. *)
Definition Turn {Store : Type} (cfg : Config) (route : option jsstring)
    (st st' : Tally Store) : Prop :=
  counted st' = S (counted st)
  /\ length (console st') = S (length (console st))
  /\ emptyContent st <= emptyContent st'
  /\ emptyContent st' + skipped st <= emptyContent st + skipped st'
  /\ exists new,
       requests st' = requests st ++ new
       /\ (new = []
           \/ exists k, route = Some k
              /\ (new = [Find k]
                  \/ DRY_RUN cfg = false
                     /\ ((exists id d, new = [Find k; Put id d])
                         \/ UPSERT_MODE cfg = create
                            /\ exists d, d_routePath d = Some k
                                         /\ new = [Find k; Post d]))).

(** What a creation carries: a route and a page name, neither empty, the
    content, and the active flag set. *)
Definition createsPage (d : Data) : Prop :=
  (exists k, d_routePath d = Some k /\ k <> [])
  /\ (exists n, d_pageName d = Some n /\ n <> [])
  /\ d_content d <> None /\ d_isActive d = Some true.

(** What a write of the block synchroniser carries: at least one block. *)
Definition carriesBlocks (d : Data) : Prop :=
  exists blocks, d_contentBlocks d = Some blocks /\ blocks <> [].

(** The writes of the content synchroniser, and those of the block
    synchroniser. *)
Definition contentWrite (r : Request) : Prop :=
  match r with
  | Find _ => True
  | Put id d => idTruthy id = true /\ d_content d <> None
  | Post d => createsPage d
  end.

Definition blocksWrite (r : Request) : Prop :=
  match r with
  | Find _ => True
  | Put id d => idTruthy id = true /\ carriesBlocks d
  | Post d => createsPage d /\ carriesBlocks d
  end.

End Sync.

(* ================================================================== *)
(** ** Reading all the pages of a collection
    ([fetchAllPages] of [scripts/migrate-page-blocks-inplace.mjs],
    [fetchAllEntries] of its article sibling) *)
(* ================================================================== *)

Module Paging.

(** [GET endpoint?pagination[page]=..&pagination[pageSize]=..
    &populate[0]=contentBlocks], with the filter when there is one. *)
Record Query := {
  q_page : nat;
  q_pageSize : nat;
  q_filter : option jsstring
}.

(** [payload?.meta?.pagination?.pageCount]: missing or [null]; a value
    that [Number] turns into a finite number, held as the largest natural
    number not above it ([0] for a negative one), which compares with a
    page number as the number itself does; a value that [Number] turns
    into [Infinity]; or one it turns into [NaN]. *)
Inductive Reported :=
| Missing
| Pages (n : nat)
| Endless
| NotANumber.

(** What [pageCount] holds. *)
Inductive Count :=
| Finite (n : nat)
| Infinity
| NaN.

(** [Number(pagination?.pageCount ?? 1)] *)
Definition numberOf (r : Reported) : Count :=
  match r with
  | Missing => Finite 1
  | Pages n => Finite n
  | Endless => Infinity
  | NotANumber => NaN
  end.

(** [page <= pageCount], which is false for [NaN]. *)
Definition withinCount (page : nat) (pageCount : Count) : bool :=
  match pageCount with
  | Finite n => page <=? n
  | Infinity => true
  | NaN => false
  end.

Section Fetch.

(** The records of the collection, and the store. *)
Variable Item : Type.
Variable Store : Type.

(** The envelope of an answer: [data], when it is an array, and the
    page count. *)
Record Envelope := {
  data : option (list Item);
  pageCount : Reported
}.

Inductive Answer :=
| Refused (status body : jsstring)
| Answered (payload : Envelope).

Variable serve : Store -> Query -> Store * Answer.

(** [PAGE_SIZE], and the filter: [normalizePath(ROUTE_FILTER)] or
    [SLUG_FILTER], when the constant is not empty. *)
Variable PAGE_SIZE : nat.
Variable filter_ : option jsstring.

(** How a call ends: with the rows, with the error [strapiRequest]
    threw, or not within the turns allowed. *)
Inductive Outcome :=
| Fetched (rows : list Item)
| Thrown (status body : jsstring)
| StillFetching.

Definition queryOf (page : nat) : Query :=
  {| q_page := page; q_pageSize := PAGE_SIZE; q_filter := filter_ |}.

(** [Array.isArray(payload?.data) ? payload.data : []] *)
Definition dataOf (payload : Envelope) : list Item :=
  match data payload with Some items => items | None => [] end.

(** The [while] loop, for at most [turns] turns; the state is the store,
    the queries sent, [rows], [page] and [pageCount]. *)
Fixpoint fetchLoop (turns : nat) (s : Store) (sent : list Query)
    (rows : list Item) (page : nat) (count : Count)
  : Store * list Query * Outcome :=
  if withinCount page count then
    match turns with
    | 0 => (s, sent, StillFetching)
    | S turns' =>
        match serve s (queryOf page) with
        | (s', Refused status body) =>
            (s', sent ++ [queryOf page], Thrown status body)
        | (s', Answered payload) =>
            fetchLoop turns' s' (sent ++ [queryOf page])
              (rows ++ dataOf payload) (page + 1)
              (numberOf (pageCount payload))
        end
    end
  else (s, sent, Fetched rows).

(** [fetchAllPages()] / [fetchAllEntries(typeConfig)] *)
Definition fetchAll (turns : nat) (s : Store) : Store * list Query * Outcome :=
  fetchLoop turns s [] [] 1 (Finite 1).

End Fetch.

Arguments Refused {Item} status body.
Arguments Fetched {Item} rows.
Arguments Thrown {Item} status body.
Arguments StillFetching {Item}.

End Paging.

(* ================================================================== *)
(** ** The summary of a news article
    ([src/api/news-article/content-types/news-article/lifecycles.ts]) *)
(* ================================================================== *)

Module Lifecycle.

Definition MAX_SUMMARY_LENGTH : nat := 170.

Definition LT : jschar := 60%N.
Definition GT : jschar := 62%N.

(** A character of a pattern under the flag [i]: a letter [a-z] matches
    itself and its capital, any other character itself. *)
Definition matchesNoCase (pattern c : jschar) : bool :=
  chareq pattern c || (isLowerAZ pattern && chareq (pattern - 32)%N c).

(** A literal of the pattern at the start of [s]: what follows it. *)
Fixpoint skipLiteral (name s : jsstring) : option jsstring :=
  match name, s with
  | [], _ => Some s
  | n :: name', c :: s' =>
      if matchesNoCase n c then skipLiteral name' s' else None
  | _ :: _, [] => None
  end.

(** [h[1-6]] *)
Definition skipHeading (s : jsstring) : option jsstring :=
  match s with
  | h :: d :: r =>
      if matchesNoCase 104%N h && ((49 <=? d) && (d <=? 54))%N then Some r
      else None
  | _ => None
  end.

(** [(p|div|br|h[1-6]|li|ul|ol|blockquote)]: the alternatives in order;
    no two of them match at the same place. *)
Definition skipTagName (s : jsstring) : option jsstring :=
  match skipLiteral (lit "p") s with Some r => Some r | None =>
  match skipLiteral (lit "div") s with Some r => Some r | None =>
  match skipLiteral (lit "br") s with Some r => Some r | None =>
  match skipHeading s with Some r => Some r | None =>
  match skipLiteral (lit "li") s with Some r => Some r | None =>
  match skipLiteral (lit "ul") s with Some r => Some r | None =>
  match skipLiteral (lit "ol") s with Some r => Some r | None =>
  skipLiteral (lit "blockquote") s
  end end end end end end end.

(** [/<\/?(p|div|br|h[1-6]|li|ul|ol|blockquote)[^>]*>/i] at the start of
    [s]: the tag runs through the first [>], which must exist. *)
Definition matchBlockTag (s : jsstring) : bool :=
  match s with
  | c :: r =>
      chareq c LT
      && match skipTagName
                 (match r with
                  | c2 :: r' => if chareq c2 SLASH then r' else r
                  | [] => r
                  end) with
         | Some rest => existsb (chareq GT) rest
         | None => false
         end
  | [] => false
  end.

(** [.replace(/<\/?(p|...)[^>]*>/gi, "\n")]; [inTag] is true while the scan
    is inside a tag it has matched. *)
Fixpoint replaceBlockTags (s : jsstring) (inTag : bool) : jsstring :=
  match s with
  | [] => []
  | c :: r =>
      if inTag then
        if chareq c GT then replaceBlockTags r false
        else replaceBlockTags r true
      else if matchBlockTag s then LF :: replaceBlockTags r true
      else c :: replaceBlockTags r false
  end.

(** [/<[^>]+>/] at the start of [s] *)
Definition matchAnyTag (s : jsstring) : bool :=
  match s with
  | c :: c2 :: r =>
      chareq c LT && negb (chareq c2 GT) && existsb (chareq GT) r
  | _ => false
  end.

(** [.replace(/<[^>]+>/g, "")] *)
Fixpoint removeTags (s : jsstring) (inTag : bool) : jsstring :=
  match s with
  | [] => []
  | c :: r =>
      if inTag then
        if chareq c GT then removeTags r false else removeTags r true
      else if matchAnyTag s then removeTags r true
      else c :: removeTags r false
  end.

(** A line feed in the run of blanks [s] starts with. *)
Definition blanksHoldLF (s : jsstring) : bool :=
  existsb (chareq LF) (takeWhile isSpace s).

(** [.replace(/\s+\n/g, "\n")]: a match starts at a blank that has a line
    feed later in its run of blanks, and runs through the last one;
    [inMatch] is true while the scan is inside a match. *)
Fixpoint collapseBeforeLF (s : jsstring) (inMatch : bool) : jsstring :=
  match s with
  | [] => []
  | c :: r =>
      if inMatch then collapseBeforeLF r (blanksHoldLF r)
      else if isSpace c && blanksHoldLF r then LF :: collapseBeforeLF r true
      else c :: collapseBeforeLF r false
  end.

(** [.replace(/\n{3,}/g, "\n\n")] *)
Fixpoint squeezeLFs (s : jsstring) (inRun : bool) : jsstring :=
  match s with
  | [] => []
  | c :: r =>
      if inRun then
        if chareq c LF then squeezeLFs r true else c :: squeezeLFs r false
      else if chareq c LF
              && match r with
                 | c2 :: c3 :: _ => chareq c2 LF && chareq c3 LF
                 | _ => false
                 end
      then LF :: LF :: squeezeLFs r true
      else c :: squeezeLFs r false
  end.

(** [stripHtml(value)] *)
Definition stripHtml (value : option jsstring) : jsstring :=
  trim
    (squeezeLFs
       (collapseBeforeLF
          (removeTags (replaceBlockTags (str value) false) false) false)
       false).

(** [plain.split(/\n\s*\n/)]: a separator starts at a line feed that has
    another one in the run of blanks after it, and runs through the last
    one. *)
Fixpoint splitParagraphs (s : jsstring) (cur : jsstring) (inSep : bool)
  : list jsstring :=
  match s with
  | [] => [rev cur]
  | c :: r =>
      if inSep then splitParagraphs r cur (blanksHoldLF r)
      else if chareq c LF && blanksHoldLF r
      then rev cur :: splitParagraphs r [] true
      else splitParagraphs r (c :: cur) false
  end.

(** [parts.find(Boolean) ?? ""] *)
Definition firstTruthy (parts : list jsstring) : jsstring :=
  match filter truthy parts with p :: _ => p | [] => [] end.

(** [firstParagraph(value)] *)
Definition firstParagraph (value : option jsstring) : jsstring :=
  let source := trim (str value) in
  if negb (truthy source) then []
  else
    let plain := stripHtml (Some source) in
    firstTruthy (map trim (splitParagraphs plain [] false)).

(** [text.slice(0, maxLength - 1)]: a negative end counts from the end of
    the text. *)
Definition sliceBelow (maxLength : nat) (text : jsstring) : jsstring :=
  if maxLength =? 0 then removelast text else firstn (maxLength - 1) text.

(** [truncate(value, maxLength)] *)
Definition truncate (value : option jsstring) (maxLength : nat) : jsstring :=
  let text := Normalizer.squeeze (str value) in
  if length text <=? maxLength then text
  else trimEnd (sliceBelow maxLength text) ++ [ELLIPSIS].

(** What [applySummary] reads and writes of [event.params.data]. *)
Record Data := {
  summary : option jsstring;
  content : option jsstring
}.

(** [applySummary(data)], which [beforeCreate] and [beforeUpdate] call:
    the data as it leaves it. *)
Definition applySummary (data : Data) : Data :=
  let existing := trim (str (summary data)) in
  if truthy existing then data
  else
    let fromContent :=
      truncate (Some (firstParagraph (content data))) MAX_SUMMARY_LENGTH in
    if truthy fromContent then
      {| summary := Some fromContent; content := content data |}
    else data.

End Lifecycle.

(* ================================================================== *)
(** ** The importers on the rows of any input file

    A row of a .csv file holds strings; a row of a .json file holds
    whatever the file holds.  The modules above describe the scripts on
    rows of strings; here the same scripts read rows of any values, and
    every conversion to a string is a step that can throw. *)
(* ================================================================== *)

Module Rows.
Import Input.

Section WithRuntime.
Context {RT : Runtime}.

(** [parseBoolean(value, fallback)]: the fallback for [undefined], [null]
    and the empty string, otherwise what the string form says (an empty
    string form says nothing, so the fallback again). *)
Definition parseBoolean (value : Cell) (fallback : bool) : Error + bool :=
  match value with
  | Absent => inr fallback
  | _ =>
      s <~ stringOf value ;;
      inr (Normalizer.parseBoolean (Some s) fallback)
  end.

(** [safeJson(value, lineNumber)]: nothing for a value that is not
    truthy, the value itself for an array or an object, and what
    [JSON.parse] makes of the trimmed string form otherwise. *)
Definition safeJson (value : Cell) (lineNumber : nat)
  : Error + option Schema :=
  if negb (cellTruthy value) then inr None
  else
    match value with
    | ArrayOf _ | ObjectOf _ => inr (Some (Given value))
    | _ =>
        s <~ stringOf value ;;
        match safeJson (Some s) lineNumber with
        | inl e => inl e
        | inr (Some v) => inr (Some (Parsed v))
        | inr None => inr None
        end
    end.

(** [...(schemaJson ? { schemaJson } : {})] *)
Definition keptSchema (schemaJson : option Schema) : option Schema :=
  match schemaJson with
  | Some (Parsed v) => if jsonTruthy v then Some (Parsed v) else None
  | Some (Given c) => Some (Given c)
  | None => None
  end.

(** [normalizePath(pathname)], which starts with
    [String(pathname ?? "")]. *)
Definition normalizePath (pathname : Cell) : Error + jsstring :=
  s <~ stringOrEmpty pathname ;;
  inr (Normalizer.normalizePath (Some s)).

End WithRuntime.

(** [items.map((item) => String(item))] *)
Fixpoint stringsOf (items : list Cell) : Error + list jsstring :=
  match items with
  | [] => inr []
  | item :: more =>
      s <~ stringOf item ;;
      ss <~ stringsOf more ;;
      inr (s :: ss)
  end.

End Rows.

(* ================================================================== *)
(** *** The article importer ([scripts/import-articles.mjs]) *)
(* ================================================================== *)

Module ArticleRows.
Import Input.

(** A row of the input: the members the importer reads, and [__line]. *)
Record Row := {
  r_title : Cell;
  r_slug : Cell;
  r_content : Cell;
  r_body : Cell;
  r_excerpt : Cell;
  r_summary : Cell;
  r_description : Cell;
  r_metaTitle : Cell;
  r_metaDescription : Cell;
  r_canonicalUrl : Cell;
  r_noindex : Cell;
  r_schemaJson : Cell;
  r_tags : Cell;
  r_publishDate : Cell;
  r_date : Cell;
  r_coverImageId : Cell;
  r_line : nat
}.

(** A row of strings as a row of values. *)
Definition ofTexts (row : Articles.Row) : Row :=
  {| r_title := cellOf (Articles.row_title row);
     r_slug := cellOf (Articles.row_slug row);
     r_content := cellOf (Articles.row_content row);
     r_body := cellOf (Articles.row_body row);
     r_excerpt := cellOf (Articles.row_excerpt row);
     r_summary := cellOf (Articles.row_summary row);
     r_description := cellOf (Articles.row_description row);
     r_metaTitle := cellOf (Articles.row_metaTitle row);
     r_metaDescription := cellOf (Articles.row_metaDescription row);
     r_canonicalUrl := cellOf (Articles.row_canonicalUrl row);
     r_noindex := cellOf (Articles.row_noindex row);
     r_schemaJson := cellOf (Articles.row_schemaJson row);
     r_tags :=
       match Articles.row_tags row with
       | Articles.TagArray items => ArrayOf (map Text items)
       | Articles.TagText value => cellOf value
       end;
     r_publishDate := cellOf (Articles.row_publishDate row);
     r_date := cellOf (Articles.row_date row);
     r_coverImageId := cellOf (Articles.row_coverImageId row);
     r_line := Articles.row_line row |}.

(** [parseTags(value)] *)
Definition parseTags (value : Cell) : Error + list jsstring :=
  match value with
  | ArrayOf items =>
      texts <~ Rows.stringsOf items ;;
      inr (filter truthy (map trim texts))
  | _ =>
      s <~ stringOrEmpty value ;;
      inr (Articles.parseTags (Articles.TagText (Some s)))
  end.

(** [parseEntityId(value)] *)
Definition parseEntityId (value : Cell)
  : Error + option Articles.EntityId :=
  match value with
  | Absent => inr None
  | _ =>
      s <~ stringOf value ;;
      inr (Articles.parseEntityId (Some s))
  end.

Section WithRuntime.
Context {RT : Runtime}.

(** [normalizeDate(value)], which starts with [String(value ?? "")]. *)
Definition normalizeDate (value : Cell) : Error + jsstring :=
  s <~ stringOrEmpty value ;;
  inr (Articles.normalizeDate (Some s)).

Variable cfg : Articles.Config.

(** [mapRowToPayload(row, type, tagIds)], the conversions in the order
    of the source. *)
Definition mapRowToPayload (row : Row) (type : Articles.ArticleType)
    (tagIds : list JsId) : Error + Articles.Payload :=
  titleText <~ stringOrEmpty (r_title row) ;;
  let title := trim titleText in
  slugText <~ stringOrEmpty (r_slug row) ;;
  let slug := orElse (trim slugText) (Normalizer.slugify (Some title)) in
  content <~ stringOrEmpty (orCell (r_content row) (r_body row)) ;;
  let summaryField :=
    match type with
    | Articles.blog => r_excerpt row
    | Articles.news => r_summary row
    end in
  summaryText <~
    stringOrEmpty
      (orCell summaryField
         (orCell (r_excerpt row)
            (orCell (r_summary row) (r_description row)))) ;;
  let summaryValue := trim summaryText in
  metaTitleText <~ stringOf (orCell (r_metaTitle row) (Text title)) ;;
  let metaTitle := trim metaTitleText in
  rawText <~ stringOf (orCell (r_metaDescription row) (Text summaryValue)) ;;
  let metaDescriptionRaw := trim rawText in
  let metaDescription :=
    Normalizer.buildMetaDescription (Some metaDescriptionRaw)
      (Some (orElse summaryValue (orElse content title))) in
  canonicalText <~ stringOrEmpty (r_canonicalUrl row) ;;
  let canonicalUrl := trim canonicalText in
  noindex <~ Rows.parseBoolean (r_noindex row) false ;;
  schemaJson <~ Rows.safeJson (r_schemaJson row) (r_line row) ;;
  let seoEntry :=
    {| Articles.seo_metaTitle := whenTruthy metaTitle;
       Articles.seo_metaDescription := whenTruthy metaDescription;
       Articles.seo_canonicalUrl := whenTruthy canonicalUrl;
       Articles.seo_noindex := noindex;
       Articles.seo_schemaJson := Rows.keptSchema schemaJson |} in
  parsedDate <~ normalizeDate (orCell (r_publishDate row) (r_date row)) ;;
  let publishDate := whenTruthy parsedDate in
  let publishDate :=
    match type, publishDate with
    | Articles.news, None => Some (slice0 10 nowIso)
    | _, _ => publishDate
    end in
  coverImage <~
    parseEntityId
      (orCell (r_coverImageId row)
         (cellOf (Articles.DEFAULT_COVER_IMAGE_ID cfg))) ;;
  inr {| Articles.p_title := title;
         Articles.p_slug := slug;
         Articles.p_content := content;
         Articles.p_summary := whenTruthy summaryValue;
         Articles.p_seo := [seoEntry];
         Articles.p_tags :=
           if 0 <? length tagIds then Some tagIds else None;
         Articles.p_publishedAt :=
           if Articles.FORCE_PUBLISH cfg then Some nowIso else None;
         Articles.p_publishDate := publishDate;
         Articles.p_coverImage := coverImage |}.

Variable Store : Type.
Variable serve : Store -> Articles.Request -> Store * Reply.

(** The [try] block of [run] after [seenSlugs.add(slug)]. *)
Definition upsert (row : Row) (slug : jsstring)
  : Batch.M Articles.Request Store unit :=
  tagNames <- lift (parseTags (r_tags row)) ;;
  tagIds <- Articles.ensureTagIds cfg serve tagNames ;;
  payload <- lift (mapRowToPayload row (Articles.ARTICLE_TYPE cfg) tagIds) ;;
  existing <-
    Articles.findExistingBySlug serve
      (Articles.endpoint (Articles.ARTICLE_TYPE cfg)) slug ;;
  Articles.reconcile cfg serve (r_line row) slug payload existing.

(** The body of the [try] block of [run], for one row. *)
Definition rowBody (row : Row) : Batch.M Articles.Request Store unit :=
  titleText <- lift (stringOrEmpty (r_title row)) ;;
  let title := trim titleText in
  slugText <- lift (stringOrEmpty (r_slug row)) ;;
  let slug := orElse (trim slugText) (Normalizer.slugify (Some title)) in
  if negb (truthy title) || negb (truthy slug) then
    incFailed ;;; log (LogMissingRequired (r_line row) title slug)
  else
    isSeen <- hasSeen slug ;;
    if isSeen then
      incFailed ;;; log (LogDuplicate (r_line row) slug)
    else
      addSeen slug ;;;
      upsert row slug.

(** The [catch] of the loop: the counter, then the line, whose template
    converts [row.title ?? ""] once more. *)
Definition handler (row : Row) (error : Error)
  : Batch.M Articles.Request Store unit :=
  incFailed ;;;
  what <- lift (stringOrEmpty (r_title row)) ;;
  log (LogFailed (r_line row) what error).

(** One turn of the [for] loop of [run]: the [try] block and its
    [catch]. *)
Definition processRow (row : Row) : Batch.M Articles.Request Store unit :=
  tryCatch (rowBody row) (handler row).

(** [run()], from the rows [parseInput] returned; what it throws ends
    the script with ["Import failed"]. *)
Definition runM (rows : list Row) : Batch.M Articles.Request Store unit :=
  if length rows =? 0 then log LogNoRows
  else
    log (LogImporting (length rows)) ;;;
    forEach rows processRow ;;;
    @Articles.report RT cfg Store.

Definition run (rows : list Row) (s : Store)
  : Run Articles.Request Store * (Error + unit) :=
  runM rows (start s).

End WithRuntime.


End ArticleRows.

(* ================================================================== *)
(** *** The page importer *)
(* ================================================================== *)

Module PageRows.
Import Input.

Record Row := {
  r_routePath : Cell;
  r_pageName : Cell;
  r_content : Cell;
  r_isActive : Cell;
  r_metaTitle : Cell;
  r_metaDescription : Cell;
  r_canonicalUrl : Cell;
  r_noindex : Cell;
  r_schemaJson : Cell;
  r_unpublish : Cell;
  r_line : nat
}.

(** A row of strings as a row of values. *)
Definition ofTexts (row : Pages.Row) : Row :=
  {| r_routePath := cellOf (Pages.row_routePath row);
     r_pageName := cellOf (Pages.row_pageName row);
     r_content := cellOf (Pages.row_content row);
     r_isActive := cellOf (Pages.row_isActive row);
     r_metaTitle := cellOf (Pages.row_metaTitle row);
     r_metaDescription := cellOf (Pages.row_metaDescription row);
     r_canonicalUrl := cellOf (Pages.row_canonicalUrl row);
     r_noindex := cellOf (Pages.row_noindex row);
     r_schemaJson := cellOf (Pages.row_schemaJson row);
     r_unpublish := cellOf (Pages.row_unpublish row);
     r_line := Pages.row_line row |}.

Section WithRuntime.
Context {RT : Runtime}.

Variable cfg : Pages.Config.

(** [mapRowToPayload(row)], the conversions in the order of the
    source. *)
Definition mapRowToPayload (row : Row) : Error + Pages.Payload :=
  routePath <~ Rows.normalizePath (r_routePath row) ;;
  pageNameText <~ stringOrEmpty (r_pageName row) ;;
  let pageName := trim pageNameText in
  metaTitleText <~ stringOrEmpty (r_metaTitle row) ;;
  let metaTitle := trim metaTitleText in
  metaDescriptionText <~ stringOrEmpty (r_metaDescription row) ;;
  let metaDescription := trim metaDescriptionText in
  canonicalText <~ stringOrEmpty (r_canonicalUrl row) ;;
  let canonicalUrl := trim canonicalText in
  noindex <~ Rows.parseBoolean (r_noindex row) false ;;
  parsed <~ Rows.safeJson (r_schemaJson row) (r_line row) ;;
  let schemaJson := Rows.keptSchema parsed in
  let seo :=
    if truthy metaTitle || truthy metaDescription || truthy canonicalUrl
       || match schemaJson with Some _ => true | None => false end
       || noindex
    then Some {| Pages.seo_metaTitle := whenTruthy metaTitle;
                 Pages.seo_metaDescription := whenTruthy metaDescription;
                 Pages.seo_canonicalUrl := whenTruthy canonicalUrl;
                 Pages.seo_noindex := noindex;
                 Pages.seo_schemaJson := schemaJson |}
    else None in
  shouldUnpublish <~
    (if Pages.FORCE_UNPUBLISH cfg then inr true
     else Rows.parseBoolean (r_unpublish row) false) ;;
  content <~ stringOrEmpty (r_content row) ;;
  isActive <~ Rows.parseBoolean (r_isActive row) true ;;
  inr {| Pages.p_routePath := routePath;
         Pages.p_pageName := pageName;
         Pages.p_content := content;
         Pages.p_isActive := isActive;
         Pages.p_seo := seo;
         Pages.p_publishedAt :=
           if Pages.FORCE_PUBLISH cfg then Pages.PublishNow nowIso
           else if shouldUnpublish then Pages.Unpublish
                else Pages.Untouched |}.

Variable Store : Type.
Variable serve : Store -> Pages.Request -> Store * Reply.

(** The body of the [try] block of [run], for one row. *)
Definition rowBody (row : Row) : Batch.M Pages.Request Store unit :=
  payload <- lift (mapRowToPayload row) ;;
  Pages.checkAndUpsert cfg serve (r_line row) payload.

(** The [catch] of the loop: the counter, then the line, whose template
    converts [row.routePath ?? ""]. *)
Definition handler (row : Row) (error : Error)
  : Batch.M Pages.Request Store unit :=
  incFailed ;;;
  what <- lift (stringOrEmpty (r_routePath row)) ;;
  log (LogFailed (r_line row) what error).

(** One turn of the [for] loop of [run]. *)
Definition processRow (row : Row) : Batch.M Pages.Request Store unit :=
  tryCatch (rowBody row) (handler row).

(** [run()], from the rows [parseInput] returned. *)
Definition runM (rows : list Row) : Batch.M Pages.Request Store unit :=
  if length rows =? 0 then log LogNoRows
  else
    log (LogImporting (length rows)) ;;;
    forEach rows processRow ;;;
    @Pages.report RT cfg Store.

Definition run (rows : list Row) (s : Store)
  : Run Pages.Request Store * (Error + unit) :=
  runM rows (start s).

End WithRuntime.


End PageRows.

(* ================================================================== *)
(** *** The two page synchronisers *)
(* ================================================================== *)

Module SyncRows.
Import Input.

Record Row := {
  r_routePath : Cell;
  r_pageName : Cell;
  r_content : Cell;
  r_line : nat
}.

(** A row of strings as a row of values. *)
Definition ofTexts (row : Sync.Row) : Row :=
  {| r_routePath := cellOf (Sync.row_routePath row);
     r_pageName := cellOf (Sync.row_pageName row);
     r_content := cellOf (Sync.row_content row);
     r_line := Sync.row_line row |}.

(** The strings a turn reads from a row of strings: an absent member
    reads as the empty string. *)
Definition readAs (row : Sync.Row) : Sync.Row :=
  {| Sync.row_routePath := Some (str (Sync.row_routePath row));
     Sync.row_pageName := Some (str (Sync.row_pageName row));
     Sync.row_content := Some (str (Sync.row_content row));
     Sync.row_line := Sync.row_line row |}.

(** The three conversions a turn of either loop starts with, before its
    [try] block: [normalizePath(row.routePath)],
    [String(row.pageName ?? "")] and [String(row.content ?? "")].  The
    row of strings they give is what the rest of the turn reads. *)
Definition texts (row : Row) : Error + Sync.Row :=
  routePath <~ stringOrEmpty (r_routePath row) ;;
  pageName <~ stringOrEmpty (r_pageName row) ;;
  content <~ stringOrEmpty (r_content row) ;;
  inr {| Sync.row_routePath := Some routePath;
         Sync.row_pageName := Some pageName;
         Sync.row_content := Some content;
         Sync.row_line := r_line row |}.

(** The rows of strings the turns of a loop read when every row
    converts. *)
Fixpoint allTexts (rows : list Row) : Error + list Sync.Row :=
  match rows with
  | [] => inr []
  | row :: more =>
      r <~ texts row ;;
      rs <~ allTexts more ;;
      inr (r :: rs)
  end.

Section WithRuntime.
Context {RT : Runtime}.

Variable Store : Type.
Variable serve : Store -> Sync.Request -> Store * Reply.
Variable cfg : Sync.Config.

(** How a run ends: with its summary, or with what a conversion threw,
    which ends the script with ["Sync failed"]. *)
Inductive Ending :=
| Finished (st : Sync.Tally Store)
| Aborted (st : Sync.Tally Store) (error : Error).

(** The [for] loop of [run]; [turn] is the rest of a turn. *)
Fixpoint loop (turn : Sync.Tally Store -> Sync.Row -> Sync.Tally Store)
    (rows : list Row) (st : Sync.Tally Store) : Ending :=
  match rows with
  | [] => Finished st
  | row :: more =>
      match texts row with
      | inl error => Aborted st error
      | inr r => loop turn more (turn st r)
      end
  end.

(** [run()] of the content synchroniser, from the rows [readRows]
    returned. *)
Definition runContent (rows : list Row) (s : Store) : Ending :=
  match rows with
  | [] => Finished (Sync.say Sync.NoRows (Sync.start s))
  | _ :: _ =>
      match loop (Sync.syncContent serve cfg) rows
              (Sync.say Sync.Syncing (Sync.start s)) with
      | Finished st =>
          Finished
            (Sync.say
               (Sync.Done (Sync.updated st) (Sync.created st)
                  (Sync.skipped st) (Sync.failed st) None) st)
      | Aborted st error => Aborted st error
      end
  end.

(** [run()] of the block synchroniser, from the rows [parseInput]
    returned. *)
Definition runBlocks (rows : list Row) (s : Store) : Ending :=
  match rows with
  | [] => Finished (Sync.say Sync.NoRows (Sync.start s))
  | _ :: _ =>
      match loop (Sync.syncBlocks serve cfg) rows
              (Sync.say Sync.Syncing (Sync.start s)) with
      | Finished st =>
          Finished
            (Sync.say
               (Sync.Done (Sync.updated st) (Sync.created st)
                  (Sync.skipped st) (Sync.failed st)
                  (Some (Sync.emptyContent st))) st)
      | Aborted st error => Aborted st error
      end
  end.

End WithRuntime.

Arguments Finished {Store} st.
Arguments Aborted {Store} st error.

End SyncRows.

(* ================================================================== *)
(** ** Patterns and sample inputs used in the statements *)
(* ================================================================== *)

Module Samples.
Import Blocks.

(** The language of the pattern of the code, [^(#{1,4})\s+([\s\S]+)$]:
    one to four markers, at least one blank, at least one more character. *)
Definition MatchesHeading (b : jsstring) : Prop :=
  exists k ws rest,
    b = repeat HASH k ++ ws ++ rest /\ 1 <= k <= 4 /\
    ws <> [] /\ forallb isSpace ws = true /\ rest <> [].

(** The language of the pattern of the specification,
    [^(#{1,4})\s+(.+)$]: as above, but [.] refuses line terminators. *)
Definition MatchesSpecHeading (b : jsstring) : Prop :=
  exists k ws rest,
    b = repeat HASH k ++ ws ++ rest /\ 1 <= k <= 4 /\
    ws <> [] /\ forallb isSpace ws = true /\ rest <> [] /\
    forallb (fun c => negb (isLineTerminator c)) rest = true.

(** A candidate block whose heading runs over a line break. *)
Definition twoLineHeading : jsstring := lit "# a" ++ [LF] ++ lit "b".

(** The text of scenario C. *)
Definition scenarioC : jsstring :=
  lit "# Title" ++ [LF; LF] ++ lit "Some body text." ++ [LF; LF]
  ++ lit "- a" ++ [LF] ++ lit "- b".




(** A CSV text with a quoted comma, a blank record and a last line
    without line break. *)
Definition threeRecords : jsstring :=
  lit "title,slug" ++ [LF; QUOTE] ++ lit "A, B" ++ [QUOTE] ++ lit ",a-b"
  ++ [CR; LF] ++ lit " , " ++ [LF] ++ lit "C,c".

(** *** Sample stores and rows for the article importer *)

Import Articles.

Definition entry1 : Entry :=
  {| documentId := None; id := Some (IdNumber 1) |}.

(** A store that holds nothing and refuses every write. *)
Definition refusing (s : unit) (r : Request) : unit * Reply :=
  match r with
  | Find _ _ => (tt, Answered (DataList []))
  | _ => (tt, Refused (lit "403 Forbidden") (lit "denied"))
  end.

(** A store that remembers, per endpoint, the keys of the records it
    holds, and accepts every write. *)
Definition Memory : Type := list (jsstring * jsstring).

Definition holds (s : Memory) (e k : jsstring) : bool :=
  existsb (fun r => streq (fst r) e && streq (snd r) k) s.

Definition memory (s : Memory) (r : Request) : Memory * Reply :=
  match r with
  | Find e k =>
      (s, Answered (DataList (if holds s e k then [entry1] else [])))
  | Post e b => ((e, slugOfBody b) :: s, Answered (DataEntry entry1))
  | Put e _ b => ((e, slugOfBody b) :: s, Answered (DataEntry entry1))
  end.

Definition liveUpdate : Config :=
  {| ARTICLE_TYPE := blog; UPSERT_MODE := update; DRY_RUN := false;
     FORCE_PUBLISH := false; DEFAULT_COVER_IMAGE_ID := None |}.

(** A row with the given title, slug, tags and [schemaJson]. *)
Definition rowOf (title slug : option jsstring) (tags : option jsstring)
    (schemaJson : option jsstring) (line : nat) : Row :=
  {| row_title := title; row_slug := slug; row_content := None;
     row_body := None; row_excerpt := None; row_summary := None;
     row_description := None; row_metaTitle := None;
     row_metaDescription := None; row_canonicalUrl := None;
     row_noindex := None; row_schemaJson := schemaJson;
     row_tags := TagText tags; row_publishDate := None; row_date := None;
     row_coverImageId := None; row_line := line |}.

Definition helloRow : Row :=
  rowOf (Some (lit "Hello World")) None (Some (lit "news, travel")) None 1.

Definition titledA : Row :=
  rowOf (Some (lit "Title")) (Some (lit "a")) None None 2.
Definition againA : Row :=
  rowOf (Some (lit "Again")) (Some (lit "a")) None None 3.

(** *** Sample stores and rows for the page importer *)





(** *** Sample store and rows for the redirects importer *)




(** *** Sample store and page for the migration *)

Definition migrateAll : Migration.Config :=
  {| Migration.DRY_RUN := false; Migration.FORCE_PUBLISH := false;
     Migration.CLEAR_LEGACY_CONTENT := false;
     Migration.ONLY_WHEN_EMPTY_BLOCKS := true |}.

Definition legacyPage : Migration.Page :=
  {| Migration.page_ids :=
       {| documentId := Some (IdString (lit "p7")); id := None |};
     Migration.page_routePath := Some (lit "/legacy");
     Migration.page_content := Some scenarioC;
     Migration.page_blocks := 0 |}.

Definition putRefusing (s : unit) (w : JsId * Migration.Payload)
  : unit * Reply := (tt, Refused (lit "400 Bad Request") (lit "invalid")).

Definition putAccepting (s : nat) (w : JsId * Migration.Payload)
  : nat * Reply := (S s, Answered (DataEntry entry1)).

(** *** Rows of a .json file *)

(** The value [{"toString": null}], which has no string form. *)
Definition noText : Input.Cell :=
  Input.ObjectOf [(lit "toString", Input.Absent)].

(** The row of a .json file that holds a title and a slug. *)
Definition jsonRowOf (title slug : Input.Cell) (line : nat)
  : ArticleRows.Row :=
  {| ArticleRows.r_title := title; ArticleRows.r_slug := slug;
     ArticleRows.r_content := Input.Absent;
     ArticleRows.r_body := Input.Absent;
     ArticleRows.r_excerpt := Input.Absent;
     ArticleRows.r_summary := Input.Absent;
     ArticleRows.r_description := Input.Absent;
     ArticleRows.r_metaTitle := Input.Absent;
     ArticleRows.r_metaDescription := Input.Absent;
     ArticleRows.r_canonicalUrl := Input.Absent;
     ArticleRows.r_noindex := Input.Absent;
     ArticleRows.r_schemaJson := Input.Absent;
     ArticleRows.r_tags := Input.Absent;
     ArticleRows.r_publishDate := Input.Absent;
     ArticleRows.r_date := Input.Absent;
     ArticleRows.r_coverImageId := Input.Absent;
     ArticleRows.r_line := line |}.

(** Three rows of a .json file: the slug of the first and the title of
    the second are [{"toString": null}]. *)
Definition unreadableSlug : ArticleRows.Row :=
  jsonRowOf (Input.Text (lit "First")) noText 1.
Definition readableTitle : ArticleRows.Row :=
  jsonRowOf (Input.Text (lit "Third")) (Input.Text (lit "c")) 3.

(** The row of a .json file that holds a route, a page name and a
    content. *)
Definition jsonPageOf (routePath pageName content : Input.Cell) (line : nat)
  : PageRows.Row :=
  {| PageRows.r_routePath := routePath; PageRows.r_pageName := pageName;
     PageRows.r_content := content; PageRows.r_isActive := Input.Absent;
     PageRows.r_metaTitle := Input.Absent;
     PageRows.r_metaDescription := Input.Absent;
     PageRows.r_canonicalUrl := Input.Absent;
     PageRows.r_noindex := Input.Absent;
     PageRows.r_schemaJson := Input.Absent;
     PageRows.r_unpublish := Input.Absent; PageRows.r_line := line |}.

End Samples.
Import Samples.

(* ================================================================== *)
(** ** Shapes of texts, files and requests used in the further properties *)
(* ================================================================== *)

(** A string with a character outside the class [p] at either end. *)
Definition Ends (p : jschar -> bool) (s : jsstring) : Prop :=
  (exists c r, s = c :: r /\ p c = false)
  /\ (exists a d, s = a ++ [d] /\ p d = false).

(** A text with a character that is neither blank nor a slash at either
    end: what is left of a path when the blanks and slashes around it are
    taken away. *)
Definition plainEnds (core : jsstring) : bool :=
  match core with
  | [] => false
  | c :: _ =>
      negb (isSpace c || chareq SLASH c)
      && negb (isSpace (last core c) || chareq SLASH (last core c))
  end.

(** The text does not start with a blank. *)
Definition headClear (s : jsstring) : bool :=
  match s with d :: _ => negb (isSpace d) | [] => true end.

(** Every blank of the text is a space, followed by a character that is
    not blank when anything follows. *)
Fixpoint spaced (s : jsstring) : bool :=
  match s with
  | [] => true
  | c :: r =>
      (negb (isSpace c)
       || chareq SPACE c
          && match r with d :: _ => negb (isSpace d) | [] => true end)
      && spaced r
  end.

(** The text of [buildMetaDescription] after its fallback step. *)
Definition combined (value fallback : option jsstring) : jsstring :=
  let text := Normalizer.squeeze (str value) in
  let fallbackText := Normalizer.squeeze (str fallback) in
  if (length text <? 120) && truthy fallbackText then
    Normalizer.squeeze (if truthy text then text ++ [SPACE] ++ fallbackText
             else fallbackText)
  else text.

(** The characters at which [parseTags] cuts a text. *)
Definition isTagSeparator (c : jschar) : bool :=
  chareq c PIPE || chareq c COMMA.

(** What the content types require of the components the converter
    emits: a heading has a text, a list has items, each on a line of its
    own after ["- "], a rich text has a body; texts carry no blank at
    either end. *)
Definition wellFormedBlock (b : Blocks.Block) : Prop :=
  match b with
  | Blocks.SectionHeading _ text _ => Ends isSpace text
  | Blocks.ListBlock _ _ itemsText =>
      exists items,
        items <> []
        /\ (forall i, In i items -> Ends isSpace i /\ ~ In LF i)
        /\ itemsText = join [LF] (map (fun item => lit "- " ++ item) items)
  | Blocks.RichText _ body => Ends isSpace body
  end.

(** *** Writing CSV, to state what the parsers read back *)

(** The quotes of a cell doubled. *)
Definition escapeQuotes (cell : jsstring) : jsstring :=
  flat_map (fun c => if chareq c QUOTE then [QUOTE; QUOTE] else [c]) cell.

(** A cell between quotes, its own quotes doubled. *)
Definition quoteCell (cell : jsstring) : jsstring :=
  QUOTE :: escapeQuotes cell ++ [QUOTE].

(** A record: its cells quoted and joined by commas. *)
Definition encodeRecord (cells : list jsstring) : jsstring :=
  join [COMMA] (map quoteCell cells).

(** A file: every record followed by the line break [eol]. *)
Definition encodeCsv (eol : jsstring) (recs : list (list jsstring))
  : jsstring :=
  flat_map (fun cells => encodeRecord cells ++ eol) recs.

(** The three line breaks the scan knows. *)
Definition isLineBreak (eol : jsstring) : bool :=
  streq eol [LF] || streq eol [CR] || streq eol [CR; LF].

(** The data records with their record numbers, the header being
    record 1. *)
Definition numbered (recs : list (list jsstring))
  : list (nat * list jsstring) :=
  combine (seq 2 (length recs)) recs.

(** The scan numbers its records 1, 2, 3, ...: a line break inside quotes
    does not count. *)
Definition Numbered (st : Csv.Scan) : Prop :=
  Csv.recordStartLines st = seq 1 (length (Csv.records st))
  /\ Csv.line st = S (length (Csv.records st))
  /\ Csv.rowStartLine st = Csv.line st.


(** The state of the scan after a quoted cell [x]. *)
Definition afterCell (x : jsstring) (st : Csv.Scan) : Csv.Scan :=
  Csv.toggleQuotes
    (fold_left (fun s c => Csv.addChar c s) x (Csv.toggleQuotes st)).

(** The scan is between two cells, outside quotes. *)
Definition Idle (st : Csv.Scan) : Prop :=
  Csv.cell st = [] /\ Csv.inQuotes st = false.

(** *** Requests on the wire *)







(** The write a live run of the article importer sends once the lookup
    has given [existing]: a creation when there is no record, an update
    when the record has an identifier and the mode is not [skip], and
    none otherwise. *)
Definition articleWrite {RT : Runtime} (cfg : Articles.Config)
    (payload : Articles.Payload) (existing : option Entry)
  : option Articles.Request :=
  let articles := Articles.endpoint (Articles.ARTICLE_TYPE cfg) in
  match existing with
  | None => Some (Articles.Post articles (Articles.ArticleData payload))
  | Some e =>
      match Articles.UPSERT_MODE cfg, getEntryId e with
      | update, Some id =>
          if idTruthy id
          then Some (Articles.Put articles id (Articles.ArticleData payload))
          else None
      | _, _ => None
      end
  end.

(** *** The in-place migration *)

(** The pages the migration has counted so far. *)
Definition countedPages {Store : Type} (st : Migration.Tally Store) : nat :=
  Migration.updated st + Migration.skippedNoContent st
  + Migration.skippedHasBlocks st + Migration.skippedNoBlocksProduced st
  + Migration.failed st.

(** The write [w] is the update of [page]: to its identifier, with the
    blocks converted from its content, which is not blank. *)
Definition updateOf {RT : Runtime} (cfg : Migration.Config)
    (page : Migration.Page) (w : JsId * Migration.Payload) : Prop :=
  getEntryId (Migration.page_ids page) = Some (fst w)
  /\ idTruthy (fst w) = true
  /\ truthy (trim (str (Migration.page_content page))) = true
  /\ (Migration.ONLY_WHEN_EMPTY_BLOCKS cfg = true ->
      Migration.page_blocks page = 0)
  /\ snd w
     = Migration.payloadOf cfg
         (Blocks.convertContentToBlocks (lit "page")
            (str (Migration.page_content page)))
  /\ Migration.p_contentBlocks (snd w) <> [].

(** No tag is left in the text: no [<] is followed by a character other
    than [>] and by a [>] later on. *)
Fixpoint tagFree (s : jsstring) : bool :=
  match s with
  | [] => true
  | _ :: r => negb (Lifecycle.matchAnyTag s) && tagFree r
  end.

(** The text starts with a line feed. *)
Definition startsLF (s : jsstring) : bool :=
  match s with d :: _ => chareq LF d | [] => false end.

(** No line feed of the text follows a blank, so that no line of it is
    empty or ends with a blank. *)
Fixpoint tightLines (s : jsstring) : bool :=
  match s with
  | [] => true
  | c :: r => negb (isSpace c && startsLF r) && tightLines r
  end.




(* ================================================================== *)
(** * Properties *)
(* ================================================================== *)

(** ** Strings *)

Lemma chareq_true (a b : jschar) : chareq a b = true <-> a = b.
Proof. unfold chareq. apply N.eqb_eq. Qed.

Lemma chareq_refl (a : jschar) : chareq a a = true.
Proof. apply chareq_true. reflexivity. Qed.

Lemma chareq_sym (a b : jschar) : chareq a b = chareq b a.
Proof. apply N.eqb_sym. Qed.

Lemma streq_true (a b : jsstring) : streq a b = true <-> a = b.
Proof.
  revert b. induction a as [|x a IH]; intros [|y b]; simpl; split;
    try congruence; try reflexivity.
  - intros H. apply andb_true_iff in H. destruct H as [H1 H2].
    apply chareq_true in H1. apply IH in H2. congruence.
  - intros H. injection H as -> ->. rewrite chareq_refl.
    apply IH. reflexivity.
Qed.

Lemma take_drop_while (p : jschar -> bool) (s : jsstring) :
  takeWhile p s ++ dropWhile p s = s.
Proof.
  induction s as [|c r IH]; simpl; [reflexivity|].
  destruct (p c); simpl; [now rewrite IH | reflexivity].
Qed.

Lemma takeWhile_all (p : jschar -> bool) (s : jsstring) :
  forallb p (takeWhile p s) = true.
Proof.
  induction s as [|c r IH]; simpl; [reflexivity|].
  destruct (p c) eqn:E; simpl; [now rewrite E | reflexivity].
Qed.

Lemma takeWhile_app (p : jschar -> bool) (a b : jsstring) :
  forallb p a = true -> takeWhile p (a ++ b) = a ++ takeWhile p b.
Proof.
  induction a as [|c a IH]; simpl; [reflexivity|].
  intros H. apply andb_true_iff in H. destruct H as [Hc Ha].
  rewrite Hc, IH by assumption. reflexivity.
Qed.

Lemma dropWhile_app (p : jschar -> bool) (a b : jsstring) :
  forallb p a = true -> dropWhile p (a ++ b) = dropWhile p b.
Proof.
  induction a as [|c a IH]; simpl; [reflexivity|].
  intros H. apply andb_true_iff in H. destruct H as [Hc Ha].
  rewrite Hc. now apply IH.
Qed.

Lemma takeWhile_stop (p : jschar -> bool) (c : jschar) (r : jsstring) :
  p c = false -> takeWhile p (c :: r) = [].
Proof. intros H. simpl. now rewrite H. Qed.

Lemma dropWhile_stop (p : jschar -> bool) (c : jschar) (r : jsstring) :
  p c = false -> dropWhile p (c :: r) = c :: r.
Proof. intros H. simpl. now rewrite H. Qed.

Lemma dropWhile_all (p : jschar -> bool) (s : jsstring) :
  forallb p s = true -> dropWhile p s = [].
Proof.
  intros H. rewrite <- (app_nil_r s). now rewrite dropWhile_app.
Qed.

Lemma dropWhile_head (p : jschar -> bool) (s : jsstring) c r :
  dropWhile p s = c :: r -> p c = false.
Proof.
  induction s as [|x s IH]; simpl; [discriminate|].
  destruct (p x) eqn:E; [assumption|].
  intros H. injection H as -> _. assumption.
Qed.

Lemma dropWhile_idem (p : jschar -> bool) (s : jsstring) :
  dropWhile p (dropWhile p s) = dropWhile p s.
Proof.
  destruct (dropWhile p s) as [|c r] eqn:E; [reflexivity|].
  simpl. now rewrite (dropWhile_head _ _ E).
Qed.

Lemma all_repeat (s : jsstring) (c : jschar) :
  forallb (chareq c) s = true -> s = repeat c (length s).
Proof.
  induction s as [|x s IH]; simpl; [reflexivity|].
  intros H. apply andb_true_iff in H. destruct H as [Hx Hs].
  apply chareq_true in Hx. subst x. f_equal. now apply IH.
Qed.

Lemma repeat_all (c : jschar) (k : nat) :
  forallb (chareq c) (repeat c k) = true.
Proof.
  induction k; simpl; [reflexivity|]. now rewrite chareq_refl.
Qed.

Lemma last_all (p : jschar -> bool) (l : jsstring) (d : jschar) :
  p d = true -> forallb p l = true -> p (last l d) = true.
Proof.
  intros Hd. induction l as [|x l IH]; simpl; [intros _; exact Hd|].
  intros H. apply andb_true_iff in H. destruct H as [Hx Hl].
  destruct l; [exact Hx | now apply IH].
Qed.

Lemma trim_blank (s : jsstring) : forallb isSpace s = true -> trim s = [].
Proof.
  intros H. unfold trim, trimStart. now rewrite dropWhile_all.
Qed.

Lemma trim_trimStart (s : jsstring) : trim (dropWhile isSpace s) = trim s.
Proof. unfold trim, trimStart. now rewrite dropWhile_idem. Qed.

Lemma trim_app_blank (ws s : jsstring) :
  forallb isSpace ws = true -> trim (ws ++ s) = trim s.
Proof.
  intros H. unfold trim, trimStart. now rewrite dropWhile_app.
Qed.

Lemma space_not_hash (c : jschar) : isSpace c = true -> chareq HASH c = false.
Proof.
  intros H. destruct (chareq HASH c) eqn:E; [|reflexivity].
  apply chareq_true in E. subst c. discriminate H.
Qed.

(** ** The block converter *)

Section BlockFacts.
Import Blocks.

Variable family : jsstring.

Lemma convert_fold (blocks : list jsstring) (dz : list Block) :
  fold_left (convertBlock family) blocks dz
  = dz ++ flat_map (convertBlock family []) blocks.
Proof.
  revert dz. induction blocks as [|b bs IH]; intros dz; simpl.
  - now rewrite app_nil_r.
  - rewrite IH. rewrite app_assoc. f_equal.
    unfold convertBlock.
    destruct (matchHeading b) as [[marks text]|]; [reflexivity|].
    repeat match goal with
           | |- context [if ?c then _ else _] => destruct c
           end; simpl; now rewrite ?app_nil_r.
Qed.

Lemma matchHeading_decomposed (k : nat) (ws rest : jsstring) :
  1 <= k <= 4 -> ws <> [] -> forallb isSpace ws = true -> rest <> [] ->
  exists text,
    matchHeading (repeat HASH k ++ ws ++ rest) = Some (repeat HASH k, text)
    /\ trim text = trim rest.
Proof.
  intros Hk Hws Hsp Hrest. unfold matchHeading.
  destruct ws as [|w ws]; [congruence|].
  assert (Hw : isSpace w = true)
    by (simpl in Hsp; now apply andb_true_iff in Hsp).
  assert (Htake : takeWhile (chareq HASH) (repeat HASH k ++ (w :: ws) ++ rest)
                  = repeat HASH k).
  { rewrite takeWhile_app by apply repeat_all.
    rewrite <- app_comm_cons.
    rewrite takeWhile_stop by now apply space_not_hash.
    apply app_nil_r. }
  assert (Hdrop : dropWhile (chareq HASH) (repeat HASH k ++ (w :: ws) ++ rest)
                  = (w :: ws) ++ rest).
  { rewrite dropWhile_app by apply repeat_all.
    rewrite <- app_comm_cons.
    rewrite dropWhile_stop by now apply space_not_hash.
    reflexivity. }
  rewrite Htake, Hdrop, repeat_length.
  replace ((1 <=? k) && (k <=? 4)) with true
    by (symmetry; apply andb_true_iff; split; apply Nat.leb_le; lia).
  rewrite takeWhile_app, dropWhile_app by assumption.
  destruct (dropWhile isSpace rest) as [|c r] eqn:Erest.
  - (* only blanks follow the markers: [\s+] gives its last blank back *)
    assert (Hall : takeWhile isSpace rest = rest).
    { rewrite <- (take_drop_while isSpace rest) at 2.
      rewrite Erest. now rewrite app_nil_r. }
    rewrite Hall. destruct rest as [|x rest]; [congruence|].
    assert (Hblank : forallb isSpace (x :: rest) = true).
    { rewrite <- Hall. apply takeWhile_all. }
    rewrite <- app_comm_cons.
    assert (Hbl : forallb isSpace (ws ++ x :: rest) = true).
    { rewrite forallb_app. apply andb_true_iff. split; [|assumption].
      cbn [forallb] in Hsp. apply andb_true_iff in Hsp. apply Hsp. }
    destruct (ws ++ x :: rest) as [|y l] eqn:E.
    { now destruct ws. }
    exists [last (y :: l) w]. split; [reflexivity|].
    rewrite (trim_blank _ Hblank). apply trim_blank.
    cbn [forallb]. rewrite andb_true_r. now apply last_all.
  - rewrite <- app_comm_cons. exists (c :: r).
    split; [now destruct (ws ++ takeWhile isSpace rest)|].
    rewrite <- Erest. apply trim_trimStart.
Qed.

Lemma matchHeading_matches (b marks text : jsstring) :
  matchHeading b = Some (marks, text) ->
  MatchesHeading b /\ marks = repeat HASH (length marks)
  /\ 1 <= length marks <= 4.
Proof.
  unfold matchHeading. intros H.
  pose proof (take_drop_while (chareq HASH) b) as Hb.
  pose proof (takeWhile_all (chareq HASH) b) as Hm.
  set (m := takeWhile (chareq HASH) b) in *.
  set (after := dropWhile (chareq HASH) b) in *.
  destruct ((1 <=? length m) && (length m <=? 4)) eqn:Hk; [|discriminate].
  apply andb_true_iff in Hk. destruct Hk as [Hk1 Hk4].
  apply Nat.leb_le in Hk1. apply Nat.leb_le in Hk4.
  pose proof (take_drop_while isSpace after) as Ha.
  pose proof (takeWhile_all isSpace after) as Hs.
  assert (Hrep : m = repeat HASH (length m)) by now apply all_repeat.
  destruct (takeWhile isSpace after) as [|w ws] eqn:Ews; [discriminate|].
  destruct (dropWhile isSpace after) as [|c r] eqn:Er.
  - destruct ws as [|w2 ws]; [discriminate|].
    injection H as <- <-. split; [|split; [assumption|lia]].
    exists (length m), (removelast (w :: w2 :: ws)), [last (w2 :: ws) w].
    repeat split; try lia.
    + rewrite <- Hrep.
      change [last (w2 :: ws) w] with [last (w :: w2 :: ws) w].
      rewrite <- app_removelast_last by discriminate.
      rewrite <- Hb. f_equal. now rewrite <- Ha, app_nil_r.
    + simpl. discriminate.
    + apply forallb_forall. intros x Hx.
      assert (Hin : In x (w :: w2 :: ws)).
      { rewrite (app_removelast_last (l := w :: w2 :: ws) w) by discriminate.
        apply in_or_app. left. exact Hx. }
      now apply (proj1 (forallb_forall _ _) Hs).
    + discriminate.
  - assert (H' : Some (m, c :: r) = Some (marks, text))
      by (destruct ws; exact H).
    clear H. injection H' as <- <-. split; [|split; [assumption|lia]].
    exists (length m), (w :: ws), (c :: r).
    repeat split; try lia; try discriminate; try assumption.
    rewrite <- Hrep, Ha. now symmetry.
Qed.

(** C2 (amended). A candidate block becomes a heading exactly when it
    matches [^(#{1,4})\s+([\s\S]+)$]: one to four markers, blanks, and any
    text after them, line breaks included.  One, two, three and four
    markers give the levels h1, h2, h3 and h4, and the heading text is the
    trimmed text after the markers. *)
Theorem heading_rule (dz : list Block) (b : jsstring) :
  (forall k ws rest,
      b = repeat HASH k ++ ws ++ rest -> 1 <= k <= 4 ->
      ws <> [] -> forallb isSpace ws = true -> rest <> [] ->
      convertBlock family dz b
      = dz ++ [SectionHeading (componentName family "section-heading")
                 (trim rest) (nth (k - 1) [h1; h2; h3; h4] h4)])
  /\ (forall component text level,
         convertBlock family dz b
         = dz ++ [SectionHeading component text level] ->
         MatchesHeading b).
Proof.
  split.
  - intros k ws rest -> Hk Hws Hsp Hrest.
    destruct (matchHeading_decomposed Hk Hws Hsp Hrest) as [text [Hm Ht]].
    unfold convertBlock. rewrite Hm, Ht, repeat_length.
    do 3 f_equal.
    destruct Hk as [H1 H4].
    destruct k as [|[|[|[|[|k]]]]]; try lia; reflexivity.
  - intros component text level H. unfold convertBlock in H.
    destruct (matchHeading b) as [[marks t]|] eqn:Hm.
    + now apply matchHeading_matches in Hm.
    + exfalso.
      repeat match type of H with
             | context [if ?c then _ else _] => destruct c
             end;
        first [ apply app_inv_head in H; discriminate
              | apply (f_equal (@length _)) in H;
                rewrite length_app in H; simpl in H; lia ].
Qed.

End BlockFacts.

(** C2, as stated, fails: the block ["# a\nb"] is one candidate block and
    becomes a heading, although [.+] cannot cross its line break. *)
Lemma heading_spans_lines :
  Blocks.splitTextBlocks twoLineHeading = [twoLineHeading]
  /\ Blocks.convertContentToBlocks (lit "page") twoLineHeading
     = [Blocks.SectionHeading (lit "page.section-heading")
          (lit "a" ++ [LF] ++ lit "b") Blocks.h1]
  /\ ~ MatchesSpecHeading twoLineHeading.
Proof.
  split; [reflexivity|]. split; [reflexivity|].
  intros (k & ws & rest & Hb & Hk & Hws & Hsp & Hrest & Hdot).
  destruct k as [|[|k]]; [lia| |].
  - cbn in Hb. injection Hb as Hb.
    destruct ws as [|w ws]; [congruence|].
    cbn in Hb. injection Hb as <- Hb.
    destruct ws as [|w2 ws].
    + cbn in Hb. subst rest. discriminate Hdot.
    + cbn in Hb. injection Hb as <- _. discriminate Hsp.
  - cbn in Hb. discriminate Hb.
Qed.

Lemma heading_rule_witness :
  Blocks.convertBlock (lit "page") [] (lit "## Getting there")
  = [Blocks.SectionHeading (lit "page.section-heading")
       (lit "Getting there") Blocks.h2].
Proof.
  apply (proj1 (heading_rule (lit "page") [] (lit "## Getting there"))
           2 [SPACE] (lit "Getting there")).
  - reflexivity.
  - lia.
  - discriminate.
  - reflexivity.
  - discriminate.
Defined.

(** C3. Scenario C: the text ["# Title\n\nSome body text.\n\n- a\n- b"]
    becomes a level-h1 heading "Title", a rich-text block "Some body text."
    and an unordered list whose items "a" and "b" are joined as
    ["- a\n- b"]. *)
Theorem scenario_C_blocks :
  Blocks.convertContentToBlocks (lit "page") scenarioC
  = [ Blocks.SectionHeading (lit "page.section-heading") (lit "Title")
        Blocks.h1;
      Blocks.RichText (lit "page.rich-text") (lit "Some body text.");
      Blocks.ListBlock (lit "page.list") Blocks.unordered
        (lit "- a" ++ [LF] ++ lit "- b") ]
  /\ Blocks.normalizeListLines [lit "- a"; lit "- b"] = [lit "a"; lit "b"].
Proof. split; reflexivity. Qed.

(** ** The batch runner *)

Section RunnerFacts.

Variable Request : Type.
Variable Store : Type.
Variable serve : Store -> Request -> Store * Reply.

Lemma quiet_ret {A} (a : A) : quiet (@Batch.ret Request Store A a).
Proof. intros st. repeat split. Qed.

Lemma quiet_throw {A} (e : Error) : quiet (@Batch.throw Request Store A e).
Proof. intros st. repeat split. Qed.

Lemma quiet_lift {A} (r : Error + A) : quiet (@Batch.lift Request Store A r).
Proof. destruct r; [apply quiet_throw | apply quiet_ret]. Qed.

Lemma quiet_bind {A B} (m : Batch.M Request Store A)
    (k : A -> Batch.M Request Store B) :
  quiet m -> (forall a, quiet (k a)) -> quiet (Batch.bind m k).
Proof.
  intros Hm Hk st. unfold Batch.bind.
  specialize (Hm st). destruct (m st) as [st' [e|a]]; simpl in *.
  - exact Hm.
  - specialize (Hk a st'). destruct Hm as (H1 & H2 & H3).
    destruct Hk as (K1 & K2 & K3). repeat split; congruence.
Qed.

Lemma quiet_strapiRequest (req : Request) :
  quiet (Batch.strapiRequest serve req).
Proof.
  intros st. unfold Batch.strapiRequest.
  destruct (serve (store st) req) as [s' [status body|d]]; repeat split.
Qed.

Lemma bind_run {A B} (m : Batch.M Request Store A)
    (k : A -> Batch.M Request Store B) (st st' : Run Request Store)
    (r : Error + A) :
  m st = (st', r) ->
  Batch.bind m k st
  = match r with inr a => k a st' | inl e => (st', inl e) end.
Proof. intros H. unfold Batch.bind. rewrite H. now destruct r. Qed.

Section Preserved.

Variable P : Run Request Store -> Prop.

Lemma preserves_ret {A} (a : A) : preserves P (@Batch.ret Request Store A a).
Proof. intros st H. exact H. Qed.

Lemma preserves_lift {A} (r : Error + A) :
  preserves P (@Batch.lift Request Store A r).
Proof. destruct r; intros st H; exact H. Qed.

Lemma preserves_bind {A B} (m : Batch.M Request Store A)
    (k : A -> Batch.M Request Store B) :
  preserves P m -> (forall a, preserves P (k a)) ->
  preserves P (Batch.bind m k).
Proof.
  intros Hm Hk st H. unfold Batch.bind. specialize (Hm st H).
  destruct (m st) as [st' [e|a]]; simpl in *; [exact Hm|].
  now apply Hk.
Qed.

Lemma preserves_tryCatch {A} (m : Batch.M Request Store A)
    (h : Error -> Batch.M Request Store A) :
  preserves P m -> (forall e, preserves P (h e)) ->
  preserves P (Batch.tryCatch m h).
Proof.
  intros Hm Hh st H. unfold Batch.tryCatch. specialize (Hm st H).
  destruct (m st) as [st' [e|a]]; simpl in *; [|exact Hm].
  now apply Hh.
Qed.

Lemma preserves_forEach {R} (rows : list R)
    (body : R -> Batch.M Request Store unit) :
  (forall r, preserves P (body r)) -> preserves P (Batch.forEach rows body).
Proof.
  intros Hb. induction rows as [|r rows IH]; simpl.
  - apply preserves_ret.
  - apply preserves_bind; [apply Hb | intros _; exact IH].
Qed.

End Preserved.


Lemma bodyEffect_quiet {A} (m : Batch.M Request Store A)
    (k : A -> Batch.M Request Store unit) (st : Run Request Store) :
  quiet m ->
  (forall a st1, counters st1 = counters st -> console st1 = console st ->
                 bodyEffect st1 (k a st1)) ->
  bodyEffect st (Batch.bind m k st).
Proof.
  intros Hq Hk. unfold Batch.bind. destruct (Hq st) as (_ & Hc & Hl).
  destruct (m st) as [st1 [e|a]]; simpl in *.
  - split; assumption.
  - specialize (Hk a st1 Hc Hl). unfold bodyEffect in *.
    destruct (k a st1) as [st2 [e|u]].
    + destruct Hk. split; congruence.
    + destruct Hk as [Hcount [l Hlog]]. split.
      * unfold Counted, total, counters in *.
        injection Hc as H1 H2 H3 H4. lia.
      * exists l. congruence.
Qed.



End RunnerFacts.

(** ** The article importer *)

Section ArticleFacts.
Import Articles.
Context {RT : Runtime}.

Variable cfg : Config.
Variable Store : Type.
Variable serve : Store -> Request -> Store * Reply.

Lemma quiet_find (e k : jsstring) :
  quiet (bind (strapiRequest serve (Find e k)) (fun r => ret (firstEntry r))).
Proof.
  apply quiet_bind; [apply quiet_strapiRequest | intros; apply quiet_ret].
Qed.

Lemma quiet_ensureTagLoop (names : list jsstring) (ids : list JsId) :
  quiet (ensureTagLoop cfg serve names ids).
Proof.
  revert ids. induction names as [|nameRaw more IH]; intros ids; simpl.
  - apply quiet_ret.
  - destruct (negb (truthy (trim nameRaw))); [apply IH|].
    destruct (negb (truthy (Normalizer.slugify (Some (trim nameRaw)))));
      [apply IH|].
    apply quiet_bind; [apply quiet_find|]. intros found.
    apply quiet_bind.
    + destruct found; [apply quiet_ret|].
      destruct (negb (DRY_RUN cfg)); [|apply quiet_ret].
      apply quiet_bind; [apply quiet_strapiRequest | intros; apply quiet_ret].
    + intros [e|]; [|apply IH].
      destruct (id e) as [i|]; [|apply IH].
      destruct (idTruthy i); apply IH.
Qed.

Ltac count_done :=
  unfold bodyEffect, Counted, total, counters; simpl;
  repeat split; try lia; try congruence; try (eexists; reflexivity).

Lemma reconcile_effect (line : nat) (slug : jsstring) (payload : Payload)
    (existing : option Entry) (st : Run Request Store) :
  bodyEffect st (reconcile cfg serve line slug payload existing st).
Proof.
  unfold reconcile, updateEntry, createEntry, strapiRequest,
    Batch.strapiRequest.
  destruct existing as [e|].
  - destruct (UPSERT_MODE cfg); [|count_done].
    destruct (getEntryId e) as [entryId|]; [|count_done].
    destruct (idTruthy entryId); [|count_done].
    destruct (DRY_RUN cfg); simpl; [count_done|].
    unfold Batch.bind.
    destruct (serve (store st) _) as [s' [status body|d]]; count_done.
  - destruct (DRY_RUN cfg); simpl; [count_done|].
    unfold Batch.bind.
    destruct (serve (store st) _) as [s' [status body|d]]; count_done.
Qed.







(** *** Duplicate keys *)

Lemma includes_cons (k x : jsstring) (l : list jsstring) :
  includes (k :: l) x = streq x k || includes l x.
Proof. reflexivity. Qed.

Lemma streq_refl (a : jsstring) : streq a a = true.
Proof. now apply streq_true. Qed.

Lemma streq_sym (a b : jsstring) : streq a b = streq b a.
Proof.
  destruct (streq a b) eqn:E.
  - apply streq_true in E. subst. symmetry. apply streq_refl.
  - destruct (streq b a) eqn:E'; [|reflexivity].
    apply streq_true in E'. subst. now rewrite streq_refl in E.
Qed.

Lemma seen_reconcile (line : nat) (slug : jsstring) (payload : Payload)
    (existing : option Entry) (st : Run Request Store) :
  seen (fst (reconcile cfg serve line slug payload existing st)) = seen st.
Proof.
  unfold reconcile, updateEntry, createEntry, strapiRequest,
    Batch.strapiRequest.
  destruct existing as [e|].
  - destruct (UPSERT_MODE cfg); [|reflexivity].
    destruct (getEntryId e) as [entryId|]; [|reflexivity].
    destruct (idTruthy entryId); [|reflexivity].
    destruct (DRY_RUN cfg); simpl; [reflexivity|].
    unfold Batch.bind.
    now destruct (serve (store st) _) as [s' [status body|d]].
  - destruct (DRY_RUN cfg); simpl; [reflexivity|].
    unfold Batch.bind.
    now destruct (serve (store st) _) as [s' [status body|d]].
Qed.

Lemma seen_bind_quiet {A B} (m : Batch.M Request Store A)
    (k : A -> Batch.M Request Store B) (st : Run Request Store) :
  quiet m ->
  (forall a st1, seen (fst (k a st1)) = seen st1) ->
  seen (fst (Batch.bind m k st)) = seen st.
Proof.
  intros Hq Hk. unfold Batch.bind. destruct (Hq st) as (Hs & _ & _).
  destruct (m st) as [st1 [e|a]]; simpl in *; [assumption|].
  now rewrite Hk.
Qed.







(** *** Dry runs *)

Lemma lookups_update (f : Run Request Store -> Run Request Store) :
  (forall st, requests (f st) = requests st) ->
  preserves onlyLookups (Batch.update_ f).
Proof.
  intros Hf st H. unfold onlyLookups in *. simpl. now rewrite Hf.
Qed.

Lemma lookups_find (e k : jsstring) :
  preserves onlyLookups
    (bind (strapiRequest serve (Find e k)) (fun r => ret (firstEntry r))).
Proof.
  apply preserves_bind; [|intros; apply preserves_ret].
  intros st H. unfold strapiRequest, Batch.strapiRequest, onlyLookups in *.
  destruct (serve (store st) (Find e k)) as [s' [status body|d]]; simpl;
    rewrite forallb_app, H; reflexivity.
Qed.

Ltac lookups_book :=
  repeat first
    [ apply preserves_bind; [|intros ?]
    | apply preserves_ret
    | apply lookups_update; intros ?; reflexivity ].

Lemma lookups_ensureTagLoop (names : list jsstring) (ids : list JsId) :
  DRY_RUN cfg = true ->
  preserves onlyLookups (ensureTagLoop cfg serve names ids).
Proof.
  intros Hdry. revert ids.
  induction names as [|nameRaw more IH]; intros ids; simpl.
  - apply preserves_ret.
  - destruct (negb (truthy (trim nameRaw))); [apply IH|].
    destruct (negb (truthy (Normalizer.slugify (Some (trim nameRaw)))));
      [apply IH|].
    apply preserves_bind; [apply lookups_find|]. intros found.
    rewrite Hdry. simpl. apply preserves_bind.
    + destruct found; apply preserves_ret.
    + intros [e|]; [|apply IH].
      destruct (id e) as [i|]; [|apply IH].
      destruct (idTruthy i); apply IH.
Qed.

Lemma lookups_reconcile (line : nat) (slug : jsstring) (payload : Payload)
    (existing : option Entry) :
  DRY_RUN cfg = true ->
  preserves onlyLookups (reconcile cfg serve line slug payload existing).
Proof.
  intros Hdry. unfold reconcile. rewrite Hdry. simpl.
  destruct existing as [e|]; [|unfold incCreated, log; lookups_book].
  destruct (UPSERT_MODE cfg); [|unfold incSkipped, log; lookups_book].
  destruct (getEntryId e) as [entryId|];
    [|unfold incFailed, log; lookups_book].
  destruct (idTruthy entryId);
    unfold incFailed, incUpdated, log; lookups_book.
Qed.

End ArticleFacts.

(** *** A dry run against a live run *)

Section DryVersusLive.
Import Articles.
Context {RT : Runtime}.

Variable cfg : Config.
Variable Store : Type.
Variable serve : Store -> Request -> Store * Reply.

Hypothesis accepts : AcceptsWrites serve.
Hypothesis readOnly : LookupsReadOnly serve.
Hypothesis local_ : WritesAreLocal serve.
Hypothesis keepUp : WritesKeepLookupsUp serve.

Let dry := withDryRun true cfg.
Let live := withDryRun false cfg.
Let articles := endpoint (ARTICLE_TYPE cfg).

Lemma find_result (st : Run Request Store) (e k : jsstring) :
  exists st',
    bind (strapiRequest serve (Find e k)) (fun r => ret (firstEntry r)) st
    = (st', match snd (serve (store st) (Find e k)) with
            | Refused a b => inl (HttpError a b)
            | Answered d => inr (firstEntry d)
            end)
    /\ store st' = store st /\ seen st' = seen st
    /\ counters st' = counters st.
Proof.
  unfold Batch.bind, strapiRequest, Batch.strapiRequest.
  pose proof (readOnly (store st) e k) as Hro.
  destruct (serve (store st) (Find e k)) as [s' [a b|d]]; simpl in *;
    eexists; (split; [reflexivity|]); simpl; auto.
Qed.

Lemma write_result (st : Run Request Store) (w : Request) :
  isWrite w = true ->
  exists st' d,
    strapiRequest serve w st = (st', inr d)
    /\ store st' = fst (serve (store st) w) /\ seen st' = seen st
    /\ counters st' = counters st.
Proof.
  intros Hw. unfold strapiRequest, Batch.strapiRequest.
  pose proof (accepts (store st) w Hw) as Hacc.
  destruct (serve (store st) w) as [s' [a b|d]]; simpl in *;
    [discriminate|].
  eexists. eexists. split; [reflexivity|]. simpl. auto.
Qed.

Lemma alike_more (keys : list jsstring) (k0 : jsstring) (d l : Store) :
  AnswerAlike serve articles keys d l ->
  AnswerAlike serve articles (k0 :: keys) d l.
Proof.
  intros [H1 H2]. split; [exact H1|]. intros k Hk. apply H2.
  rewrite includes_cons in Hk. now apply orb_false_iff in Hk.
Qed.

Lemma alike_write (keys : list jsstring) (d l : Store) (w : Request) :
  AnswerAlike serve articles keys d l -> isWrite w = true ->
  (forall k, includes keys k = false -> touches w articles k = false) ->
  AnswerAlike serve articles keys d (fst (serve l w)).
Proof.
  intros [H1 H2] Hw Ht. split.
  - intros e k. rewrite keepUp by assumption. apply H1.
  - intros k Hk. rewrite local_ by auto. now apply H2.
Qed.

Lemma tags_elsewhere (b : Body) (k : jsstring) :
  touches (Post tagsEndpoint b) articles k = false.
Proof.
  unfold touches, articles. now destruct (ARTICLE_TYPE cfg).
Qed.

Lemma tag_next (c : Config) (more : list jsstring) (ids : list JsId)
    (existing : option Entry) :
  exists ids',
    match existing with
    | Some e =>
        match id e with
        | Some i =>
            if idTruthy i
            then ensureTagLoop c serve more (ids ++ [i])
            else ensureTagLoop c serve more ids
        | None => ensureTagLoop c serve more ids
        end
    | None => ensureTagLoop c serve more ids
    end = ensureTagLoop c serve more ids'.
Proof.
  destruct existing as [e|]; [|now eexists].
  destruct (id e) as [i|]; [|now eexists].
  destruct (idTruthy i); now eexists.
Qed.

(** The tag loop of a dry run and of a live run, from stores that answer
    alike: they throw together, and the stores still answer alike. *)
Lemma tags_sim (keys : list jsstring) (names : list jsstring) :
  forall (idsd idsl : list JsId) (sd sl : Run Request Store),
    AnswerAlike serve articles keys (store sd) (store sl) ->
    OutcomesAlike serve articles keys
      (ensureTagLoop dry serve names idsd sd)
      (ensureTagLoop live serve names idsl sl).
Proof.
  induction names as [|nameRaw more IH]; intros idsd idsl sd sl Halike.
  - split; [exact Halike|reflexivity].
  - cbn [ensureTagLoop].
    destruct (negb (truthy (trim nameRaw))); [now apply IH|].
    destruct (negb (truthy (Normalizer.slugify (Some (trim nameRaw)))));
      [now apply IH|].
    set (slug := Normalizer.slugify (Some (trim nameRaw))).
    unfold findExistingTagBySlug.
    destruct (find_result sd tagsEndpoint slug) as (sd1 & Ed & Sd & _).
    destruct (find_result sl tagsEndpoint slug) as (sl1 & El & Sl & _).
    rewrite (@bind_run _ _ _ _ _ _ _ _ _ Ed), (@bind_run _ _ _ _ _ _ _ _ _ El).
    pose proof (proj1 Halike tagsEndpoint slug) as Href.
    destruct (snd (serve (store sd) (Find tagsEndpoint slug)))
      as [a b|dd];
      destruct (snd (serve (store sl) (Find tagsEndpoint slug)))
        as [a' b'|dl]; try discriminate Href.
    + split; [cbn [fst]; now rewrite Sd, Sl | reflexivity].
    + change (DRY_RUN dry) with true. change (DRY_RUN live) with false.
      cbn [negb].
      (* the dry run keeps what it found *)
      assert (Hd : exists ids,
                 forall k : option Entry -> Batch.M Request Store (list JsId),
                   Batch.bind
                     match firstEntry dd with
                     | Some e => ret (Some e)
                     | None => ret None
                     end k sd1
                   = k ids sd1).
      { destruct (firstEntry dd); eexists; intros k; reflexivity. }
      destruct Hd as [fd Hd]. rewrite Hd.
      destruct (tag_next dry more idsd fd) as [idsd' ->].
      (* the live run creates the tag it did not find *)
      destruct (firstEntry dl) as [e|].
      * unfold Batch.bind at 1. cbn [ret].
        destruct (tag_next live more idsl (Some e)) as [idsl' ->].
        apply IH. now rewrite Sd, Sl.
      * set (w := Post tagsEndpoint
                    (TagData (trim nameRaw) slug
                       (if FORCE_PUBLISH live then Some nowIso else None))).
        destruct (write_result sl1 w eq_refl) as (sl2 & d & Ew & Sw & _).
        unfold Batch.bind at 1. rewrite (@bind_run _ _ _ _ _ _ _ _ _ Ew).
        cbn [ret].
        destruct (tag_next live more idsl (createdEntry d)) as [idsl' ->].
        apply IH. rewrite Sd, Sw, Sl.
        apply alike_write; [assumption|reflexivity|].
        intros k _. apply tags_elsewhere.
Qed.

Lemma article_write_local (keys : list jsstring) (key k : jsstring) :
  includes (key :: keys) k = false -> streq key k = false.
Proof.
  rewrite includes_cons. intros H. apply orb_false_iff in H.
  rewrite streq_sym. apply H.
Qed.

(** The action after the lookup, in a dry and in a live run: the same
    counter goes up, and the stores answer alike for every key but those
    seen so far. *)
Lemma reconcile_sim (line : nat) (key : jsstring) (pd pl : Payload)
    (existing : option Entry) (keys : list jsstring)
    (sd sl : Run Request Store) :
  p_slug pl = key ->
  AnswerAlike serve articles keys (store sd) (store sl) ->
  counters sd = counters sl ->
  StepAlike serve articles (key :: keys)
    (reconcile dry serve line key pd existing sd)
    (reconcile live serve line key pl existing sl).
Proof.
  intros Hslug Halike Hc. unfold StepAlike.
  apply alike_more with (k0 := key) in Halike.
  unfold counters in Hc. injection Hc as C1 C2 C3 C4.
  assert (Hwrite : forall w,
             isWrite w = true -> slugOfBody
               match w with
               | Find _ _ => TagData [] [] None
               | Post _ b => b
               | Put _ _ b => b
               end = key ->
             match w with
             | Find _ _ => True
             | Post e _ => e = articles
             | Put e _ _ => e = articles
             end ->
             exists sl' d,
               strapiRequest serve w sl = (sl', inr d)
               /\ AnswerAlike serve articles (key :: keys)
                    (store sd) (store sl')
               /\ counters sl' = counters sl).
  { intros w Hw Hk He.
    destruct (write_result sl w Hw) as (sl' & d & Ew & Sw & _ & Cw).
    exists sl', d. split; [exact Ew|]. split; [|exact Cw].
    rewrite Sw. apply alike_write; [assumption|assumption|].
    intros k Hk'. apply article_write_local in Hk'.
    destruct w as [e k0|e b|e i b]; [discriminate Hw| |];
      cbn [touches]; rewrite Hk, Hk'; apply andb_false_r. }
  unfold reconcile.
  change (DRY_RUN dry) with true. change (DRY_RUN live) with false.
  change (UPSERT_MODE dry) with (UPSERT_MODE cfg).
  change (UPSERT_MODE live) with (UPSERT_MODE cfg).
  change (ARTICLE_TYPE live) with (ARTICLE_TYPE cfg).
  cbn [negb].
  destruct existing as [e|].
  - destruct (UPSERT_MODE cfg).
    + destruct (getEntryId e) as [entryId|].
      * destruct (idTruthy entryId).
        -- unfold updateEntry.
           destruct (Hwrite (Put articles entryId (ArticleData pl))
                       eq_refl Hslug eq_refl)
             as (sl' & d & Ew & Ha & Cw).
           fold articles.
           rewrite (@bind_run _ _ _ _ _ _ _ _ _
                      (@bind_run _ _ _ _ _ (fun _ => ret tt) _ _ _ Ew)).
           unfold counters in Cw. injection Cw as D1 D2 D3 D4.
           split; [split; [exact Ha|reflexivity]|].
           unfold counters; simpl. congruence.
        -- split; [split; [exact Halike|reflexivity]|].
           unfold counters; simpl. congruence.
      * split; [split; [exact Halike|reflexivity]|].
        unfold counters; simpl. congruence.
    + split; [split; [exact Halike|reflexivity]|].
      unfold counters; simpl. congruence.
  - unfold createEntry.
    destruct (Hwrite (Post articles (ArticleData pl)) eq_refl Hslug eq_refl)
      as (sl' & d & Ew & Ha & Cw).
    fold articles.
    rewrite (@bind_run _ _ _ _ _ _ _ _ _
               (@bind_run _ _ _ _ _ (fun _ => ret tt) _ _ _ Ew)).
    unfold counters in Cw. injection Cw as D1 D2 D3 D4.
    split; [split; [exact Ha|reflexivity]|].
    unfold counters; simpl. congruence.
Qed.

End DryVersusLive.

Lemma memory_readOnly : Articles.LookupsReadOnly memory.
Proof. intros s e k. reflexivity. Qed.

Lemma memory_local : Articles.WritesAreLocal memory.
Proof.
  intros s [e0 k0|e0 b|e0 i b] e k Hw Ht; [discriminate Hw| |];
    cbn [memory fst snd Articles.touches] in *;
    unfold holds; cbn [existsb fst snd]; now rewrite Ht.
Qed.

Lemma memory_keepUp : Articles.WritesKeepLookupsUp memory.
Proof. intros s [e0 k0|e0 b|e0 i b] e k Hw; reflexivity. Qed.

(** ** The SEO description *)

Lemma length_dropWhile (p : jschar -> bool) (s : jsstring) :
  length (dropWhile p s) <= length s.
Proof.
  induction s as [|c r IH]; simpl; [lia|]. destruct (p c); simpl; lia.
Qed.

Lemma length_stripTrailing (p : jschar -> bool) (s : jsstring) :
  length (stripTrailing p s) <= length s.
Proof.
  unfold stripTrailing. rewrite length_rev.
  rewrite <- (length_rev s). apply length_dropWhile.
Qed.

Lemma buildMetaDescription_max (value fallback : option jsstring) :
  length (Normalizer.buildMetaDescription value fallback) <= 155.
Proof.
  unfold Normalizer.buildMetaDescription.
  match goal with
  | |- context [if 155 <? length ?t then _ else _] =>
      generalize t; intros text
  end.
  destruct (155 <? length text) eqn:E.
  - rewrite length_app. cbn [length]. change (155 - 1) with 154.
    pose proof (length_stripTrailing isSpace (slice0 154 text)) as H.
    unfold trimEnd. unfold slice0 in *. rewrite length_firstn in H. lia.
  - apply Nat.ltb_ge in E. exact E.
Qed.

(** C4.  The description never exceeds 155 code units, but the canned
    padding is 116 code units long and is appended once: an article whose
    title is ["Hi"], without summary, content or description, gets a
    description of 119 code units, and empty inputs give the bare padding,
    116 code units. *)
Theorem metaDescription_below_minimum :
  length Normalizer.padding = 116
  /\ length (Normalizer.buildMetaDescription (Some []) (Some (lit "Hi"))) = 119
  /\ length (Normalizer.buildMetaDescription None None) = 116
  /\ (exists p,
        Articles.mapRowToPayload liveUpdate
          (rowOf (Some (lit "Hi")) None None None 1) Articles.blog []
        = inr p
        /\ map (fun e => option_map (@length jschar)
                           (Articles.seo_metaDescription e))
             (Articles.p_seo p) = [Some 119])
  /\ (forall value fallback,
         length (Normalizer.buildMetaDescription value fallback) <= 155).
Proof.
  split; [reflexivity|]. split; [reflexivity|]. split; [reflexivity|].
  split; [eexists; split; reflexivity|].
  apply buildMetaDescription_max.
Qed.

(** ** Status codes of the redirects importer *)

(** C10.  [STATUS_MAP[normalized]] also finds what the object inherits:
    for the cell ["constructor"] [toStatusCode] returns the [Object]
    function, and for ["__proto__"] the prototype object, neither of which
    is one of the two enumeration values. *)
Theorem toStatusCode_inherited_property :
  Redirects.toStatusCode (Some (lit "constructor"))
  = Redirects.VObjectConstructor
  /\ Redirects.toStatusCode (Some (lit " __PROTO__ "))
     = Redirects.VObjectPrototype
  /\ Redirects.toStatusCode (Some (lit "302"))
     = Redirects.VString (lit "Redirecct-302")
  /\ Redirects.toStatusCode (Some (lit "permanent"))
     = Redirects.VString (lit "Redirect-301")
  /\ Redirects.toStatusCode None = Redirects.VString (lit "Redirect-301").
Proof. repeat split. Qed.

Lemma ownProperty_STATUS_MAP (key v : jsstring) :
  Redirects.ownProperty Redirects.STATUS_MAP key = Some v ->
  v = lit "Redirect-301" \/ v = lit "Redirecct-302".
Proof.
  unfold Redirects.STATUS_MAP. cbn [Redirects.ownProperty].
  repeat match goal with
         | |- context [if ?c then _ else _] => destruct c
         end; intros H; try discriminate H; injection H as <-; auto.
Qed.

(** Away from the inherited names, the result is one of the two values. *)
Lemma toStatusCode_two_values {RT : Runtime} (value : option jsstring) :
  let normalized := toLowerCase (trim (str value)) in
  streq normalized (lit "constructor") = false ->
  streq normalized (lit "__proto__") = false ->
  includes Redirects.objectPrototypeMethods normalized = false ->
  Redirects.toStatusCode value = Redirects.VString (lit "Redirect-301")
  \/ Redirects.toStatusCode value = Redirects.VString (lit "Redirecct-302").
Proof.
  intros normalized H1 H2 H3. unfold Redirects.toStatusCode.
  destruct (negb (truthy (str value))); [now left|].
  fold normalized. unfold Redirects.getProperty.
  destruct (Redirects.ownProperty Redirects.STATUS_MAP normalized)
    as [v|] eqn:E.
  - apply ownProperty_STATUS_MAP in E. destruct E as [-> | ->]; auto.
  - rewrite H1, H2, H3. now left.
Qed.

(** ** Natural keys *)

Lemma stripTrailing_prefix (p : jschar -> bool) (s : jsstring) :
  exists dropped, s = stripTrailing p s ++ dropped.
Proof.
  unfold stripTrailing.
  exists (rev (takeWhile p (rev s))).
  rewrite <- rev_app_distr, take_drop_while. symmetry. apply rev_involutive.
Qed.

Lemma stripTrailing_last (p : jschar -> bool) (s a : jsstring) (c : jschar) :
  stripTrailing p s = a ++ [c] -> p c = false.
Proof.
  unfold stripTrailing. intros H.
  apply (f_equal (@rev jschar)) in H.
  rewrite rev_involutive, rev_app_distr in H. simpl in H.
  now apply dropWhile_head in H.
Qed.



Lemma dropWhile_snoc_stop (p : jschar -> bool) (a : jsstring) (c : jschar) :
  p c = false -> dropWhile p (a ++ [c]) = dropWhile p a ++ [c].
Proof.
  intros Hc. induction a as [|x a IH]; simpl.
  - now rewrite Hc.
  - destruct (p x); [exact IH | reflexivity].
Qed.

Lemma stripTrailing_keeps (p : jschar -> bool) (c : jschar) (s : jsstring) :
  p c = false -> stripTrailing p (c :: s) = c :: stripTrailing p s.
Proof.
  intros Hc. unfold stripTrailing. simpl.
  rewrite dropWhile_snoc_stop by assumption.
  now rewrite rev_app_distr.
Qed.

Lemma forallb_rev_true (p : jschar -> bool) (s : jsstring) :
  forallb p s = true -> forallb p (rev s) = true.
Proof.
  intros H. apply forallb_forall. intros x Hx. apply in_rev in Hx.
  rewrite forallb_forall in H. now apply H.
Qed.

Lemma stripTrailing_app_all (p : jschar -> bool) (a b : jsstring) :
  forallb p b = true -> stripTrailing p (a ++ b) = stripTrailing p a.
Proof.
  intros H. unfold stripTrailing. rewrite rev_app_distr.
  now rewrite dropWhile_app by now apply forallb_rev_true.
Qed.

Lemma stripTrailing_snoc_stop (p : jschar -> bool) (a : jsstring)
    (c : jschar) :
  p c = false -> stripTrailing p (a ++ [c]) = a ++ [c].
Proof.
  intros Hc. unfold stripTrailing. rewrite rev_app_distr. cbn [rev app].
  rewrite dropWhile_stop by assumption. cbn [rev].
  now rewrite rev_involutive.
Qed.

Lemma stripTrailing_all (p : jschar -> bool) (s : jsstring) :
  forallb p s = true -> stripTrailing p s = [].
Proof.
  intros H. unfold stripTrailing.
  now rewrite dropWhile_all by now apply forallb_rev_true.
Qed.




Section SlugFacts.
Import Normalizer.

(** No hyphen doubled anywhere in [s]. *)
Local Notation "'NoDouble' s" :=
  (forall a b, s <> a ++ [HYPHEN; HYPHEN] ++ b) (at level 10).

Lemma hyphen_slug : isSlugChar HYPHEN = true.
Proof. reflexivity. Qed.

Lemma spaces_to_hyphens (s : jsstring) (inRun : bool) :
  forallb isSlugSource s = true ->
  forallb isSlugChar (replaceRuns isSpace [HYPHEN] s inRun) = true.
Proof.
  revert inRun. induction s as [|c r IH]; intros inRun H; [reflexivity|].
  cbn [forallb] in H. apply andb_true_iff in H. destruct H as [Hc Hr].
  cbn [replaceRuns]. destruct (isSpace c) eqn:Es.
  - destruct inRun; [now apply IH|].
    cbn [app forallb]. rewrite hyphen_slug. now apply IH.
  - cbn [forallb]. rewrite IH by assumption.
    unfold isSlugSource in Hc. unfold isSlugChar. rewrite Es in Hc.
    rewrite orb_false_r in Hc. now rewrite Hc.
Qed.

Lemma hyphens_collapsed_chars (s : jsstring) (inRun : bool) :
  forallb isSlugChar s = true ->
  forallb isSlugChar (replaceRuns (chareq HYPHEN) [HYPHEN] s inRun) = true.
Proof.
  revert inRun. induction s as [|c r IH]; intros inRun H; [reflexivity|].
  cbn [forallb] in H. apply andb_true_iff in H. destruct H as [Hc Hr].
  cbn [replaceRuns]. destruct (chareq HYPHEN c).
  - destruct inRun; [now apply IH|].
    cbn [app forallb]. rewrite hyphen_slug. now apply IH.
  - cbn [forallb]. now rewrite Hc, IH.
Qed.

Lemma hyphens_collapsed (s : jsstring) :
  NoDouble (replaceRuns (chareq HYPHEN) [HYPHEN] s false)
  /\ NoDouble (replaceRuns (chareq HYPHEN) [HYPHEN] s true)
  /\ (forall r, replaceRuns (chareq HYPHEN) [HYPHEN] s true <> HYPHEN :: r).
Proof.
  induction s as [|c s (IHf & IHt & IHh)].
  - cbn [replaceRuns]. repeat split; intros; try discriminate;
      now destruct a.
  - cbn [replaceRuns]. destruct (chareq HYPHEN c) eqn:Ec.
    + split; [|split; assumption].
      intros [|x a] b H; cbn [app] in H;
        apply (f_equal (@tl jschar)) in H; cbn [tl] in H.
      * now apply IHh in H.
      * now apply IHt in H.
    + assert (Hsame : forall a b,
                 c :: replaceRuns (chareq HYPHEN) [HYPHEN] s false
                 <> a ++ [HYPHEN; HYPHEN] ++ b).
      { intros [|x a] b H; cbn [app] in H.
        - injection H as -> _. now rewrite chareq_refl in Ec.
        - apply (f_equal (@tl jschar)) in H. cbn [tl] in H.
          now apply IHf in H. }
      repeat split; try assumption.
      intros r H. injection H as -> _. now rewrite chareq_refl in Ec.
Qed.

Lemma dropLastHyphen_cases (s : jsstring) :
  (s = dropLastHyphen s ++ [HYPHEN])
  \/ (dropLastHyphen s = s /\ forall r, s <> r ++ [HYPHEN]).
Proof.
  unfold dropLastHyphen.
  destruct (rev s) as [|c r] eqn:E.
  - right. apply (f_equal (@rev jschar)) in E.
    rewrite rev_involutive in E. subst s. split; [reflexivity|].
    intros r H. now destruct r.
  - apply (f_equal (@rev jschar)) in E. rewrite rev_involutive in E.
    cbn [rev] in E. destruct (chareq c HYPHEN) eqn:Ec.
    + left. apply chareq_true in Ec. now subst c.
    + right. split; [reflexivity|]. intros r0 H. rewrite E in H.
      apply app_inj_tail in H. destruct H as [_ ->].
      now rewrite chareq_refl in Ec.
Qed.

(** The edges of a string without doubled hyphen, once stripped. *)
Lemma stripEdgeHyphens_shape (s : jsstring) :
  NoDouble s ->
  exists pre post,
    s = pre ++ stripEdgeHyphens s ++ post
    /\ (forall r, stripEdgeHyphens s <> HYPHEN :: r)
    /\ (forall r, stripEdgeHyphens s <> r ++ [HYPHEN]).
Proof.
  intros Hnd.
  assert (Hu : exists pre u,
             s = pre ++ u /\ (forall r, u <> HYPHEN :: r)
             /\ stripEdgeHyphens s = dropLastHyphen u).
  { unfold stripEdgeHyphens. destruct s as [|c r].
    - exists [], []. repeat split. intros r H. discriminate H.
    - destruct (chareq c HYPHEN) eqn:Ec.
      + apply chareq_true in Ec. subst c. exists [HYPHEN], r.
        repeat split. intros r0 H. subst r.
        now apply (Hnd [] r0).
      + exists [], (c :: r). repeat split.
        intros r0 H. injection H as -> _. now rewrite chareq_refl in Ec. }
  destruct Hu as (pre & u & Hs & Hhead & ->).
  destruct (dropLastHyphen_cases u) as [Hlast | [Hsame Hlast]].
  - exists pre, [HYPHEN]. split; [now rewrite <- Hlast|]. split.
    + intros r H. rewrite H in Hlast. now apply (Hhead (r ++ [HYPHEN])).
    + intros r H. rewrite H in Hlast. subst u.
      apply (Hnd (pre ++ r) []). rewrite Hs. cbn [app].
      now rewrite <- !app_assoc.
  - exists pre, []. rewrite Hsame, app_nil_r. auto.
Qed.

Lemma forallb_infix (p : jschar -> bool) (pre mid post : jsstring) :
  forallb p (pre ++ mid ++ post) = true -> forallb p mid = true.
Proof.
  rewrite !forallb_app. intros H.
  apply andb_true_iff in H. destruct H as [_ H].
  apply andb_true_iff in H. apply H.
Qed.

(** The slug of any value, whatever the lower-casing of the runtime. *)
Lemma slugify_shape {RT : Runtime} (value : option jsstring) :
  let s := slugify value in
  forallb isSlugChar s = true
  /\ (forall r, s <> HYPHEN :: r)
  /\ (forall r, s <> r ++ [HYPHEN])
  /\ (forall a b, s <> a ++ [HYPHEN; HYPHEN] ++ b).
Proof.
  unfold slugify.
  set (s1 := filter isSlugSource (toLowerCase (trim (str value)))).
  set (s3 := replaceRuns (chareq HYPHEN) [HYPHEN]
               (replaceRuns isSpace [HYPHEN] s1 false) false).
  assert (H1 : forallb isSlugSource s1 = true).
  { apply forallb_forall. intros x Hx. unfold s1 in Hx.
    now apply filter_In in Hx. }
  assert (H3 : forallb isSlugChar s3 = true)
    by (apply hyphens_collapsed_chars; now apply spaces_to_hyphens).
  assert (Hnd : forall a b, s3 <> a ++ [HYPHEN; HYPHEN] ++ b)
    by apply hyphens_collapsed.
  destruct (stripEdgeHyphens_shape Hnd) as (pre & post & Hs & Hh & Hl).
  cbn zeta. split; [|split; [exact Hh|split; [exact Hl|]]].
  - rewrite Hs in H3. now apply forallb_infix in H3.
  - intros a b H. apply (Hnd (pre ++ a) (b ++ post)).
    rewrite Hs at 1. rewrite H. now rewrite <- !app_assoc.
Qed.

End SlugFacts.




(** ** The tabular parser *)

Section CsvFacts.
Import Csv.






Lemma mapRows_fields (headers : list jsstring)
    (dataRows : list (list jsstring)) :
  forall (dataLines : list nat) (i : nat) (mapped : list RowData),
    map fields (mapRows headers dataRows dataLines i mapped)
    = map fields mapped
      ++ map (rowCells headers) (filter hasAnyValue dataRows).
Proof.
  induction dataRows as [|cells more IH]; intros dataLines i mapped.
  - simpl. now rewrite app_nil_r.
  - cbn [mapRows filter]. destruct (hasAnyValue cells); cbn [negb].
    + rewrite IH, map_app, <- app_assoc. reflexivity.
    + apply IH.
Qed.

Lemma parseCsv_rows (text : jsstring) :
  inQuotes (scanned text) = false ->
  exists rows,
    parseCsv text = inr rows
    /\ map fields rows
       = map (rowCells (headerOf text))
           (filter hasAnyValue (dataRecords text)).
Proof.
  intros Hq. unfold parseCsv, headerOf, dataRecords, flushed. rewrite Hq.
  set (st := if negb (length (cell (scanned text)) =? 0)
                || negb (length (row (scanned text)) =? 0)
             then pushRow (scanned text) else scanned text).
  destruct (records st) as [|first dataRows] eqn:Er.
  - exists []. split; reflexivity.
  - destruct dataRows as [|second more].
    + exists []. split; reflexivity.
    + cbn [length Nat.ltb Nat.leb]. eexists. split; [reflexivity|].
      rewrite mapRows_fields. reflexivity.
Qed.

Lemma length_mapLines (headers lines : list jsstring) (index : nat) :
  length (mapLines headers lines index) = length lines.
Proof.
  revert index. induction lines as [|ln more IH]; intros index;
    [reflexivity|].
  cbn [mapLines length]. now rewrite IH.
Qed.


End CsvFacts.




(** ** The page importer *)

Section PageFacts.
Import Pages.
Context {RT : Runtime}.

Variable cfg : Config.
Variable Store : Type.
Variable serve : Store -> Request -> Store * Reply.

Ltac count_done :=
  unfold bodyEffect, Counted, total, counters; simpl;
  repeat split; try lia; try congruence; try (eexists; reflexivity).










End PageFacts.

(** ** The redirects importer *)

Section RedirectRunFacts.
Import RedirectsRun.
Context {RT : Runtime}.

Variable cfg : Config.
Variable Store : Type.
Variable serve : Store -> Request -> Store * Reply.

Ltac count_done :=
  unfold bodyEffect, Counted, total, counters; simpl;
  repeat split; try lia; try congruence; try (eexists; reflexivity).




End RedirectRunFacts.

(** ** The in-place migration *)

Section MigrationFacts.
Import Migration.
Context {RT : Runtime}.

Variable cfg : Config.
Variable Store : Type.
Variable serve : Store -> JsId * Payload -> Store * Reply.

Let dry := withDryRun true cfg.
Let live := withDryRun false cfg.

Lemma step_dry_puts (st : Tally Store) (entry : Page) :
  puts (step serve dry st entry) = puts st.
Proof.
  unfold step, failNoId, migrate, tryUpdate.
  change (DRY_RUN dry) with true. cbn [negb].
  destruct (getEntryId (page_ids entry)) as [i|]; [|reflexivity].
  destruct (idTruthy i); [|reflexivity].
  destruct (negb (truthy (trim (str (page_content entry)))));
    [reflexivity|].
  destruct (ONLY_WHEN_EMPTY_BLOCKS dry && (0 <? page_blocks entry));
    [reflexivity|].
  destruct (length _ =? 0); reflexivity.
Qed.

Lemma loop_dry_puts (pages : list Page) (st : Tally Store) :
  puts (fold_left (step serve dry) pages st) = puts st.
Proof.
  revert st. induction pages as [|p ps IH]; intros st; [reflexivity|].
  simpl. now rewrite IH, step_dry_puts.
Qed.

Lemma putsAccepted_app (s : Store) (a b : list (JsId * Payload)) :
  putsAccepted serve s (a ++ b)
  = putsAccepted serve s a && putsAccepted serve (storeAfter serve s a) b.
Proof.
  revert s. induction a as [|w a IH]; intros s; [reflexivity|].
  cbn [app putsAccepted]. rewrite IH, andb_assoc. reflexivity.
Qed.

(** One turn of a live run: it sends nothing, or one [PUT]; and it counts
    the page as the dry run does unless that [PUT] is refused. *)
Lemma step_live (sl : Tally Store) (entry : Page) :
  exists sent,
    puts (step serve live sl entry) = puts sl ++ sent
    /\ store (step serve live sl entry) = storeAfter serve (store sl) sent
    /\ (putsAccepted serve (store sl) sent = true ->
        forall sd,
          counts sd = counts sl ->
          counts (step serve dry sd entry)
          = counts (step serve live sl entry)).
Proof.
  assert (Hnone : forall st : Tally Store,
             puts st = puts sl -> store st = store sl ->
             (forall sd, counts sd = counts sl ->
                         counts (step serve dry sd entry) = counts st) ->
             exists sent,
               puts st = puts sl ++ sent
               /\ store st = storeAfter serve (store sl) sent
               /\ (putsAccepted serve (store sl) sent = true ->
                   forall sd,
                     counts sd = counts sl ->
                     counts (step serve dry sd entry) = counts st)).
  { intros st Hp Hs Hc. exists []. rewrite app_nil_r. auto. }
  unfold step, failNoId, migrate, tryUpdate, payloadOf in *.
  change (DRY_RUN dry) with true in *. change (DRY_RUN live) with false.
  change (ONLY_WHEN_EMPTY_BLOCKS dry) with (ONLY_WHEN_EMPTY_BLOCKS cfg) in *.
  change (ONLY_WHEN_EMPTY_BLOCKS live) with (ONLY_WHEN_EMPTY_BLOCKS cfg).
  change (CLEAR_LEGACY_CONTENT dry) with (CLEAR_LEGACY_CONTENT cfg) in *.
  change (CLEAR_LEGACY_CONTENT live) with (CLEAR_LEGACY_CONTENT cfg).
  change (FORCE_PUBLISH dry) with (FORCE_PUBLISH cfg) in *.
  change (FORCE_PUBLISH live) with (FORCE_PUBLISH cfg).
  cbn [negb] in *.
  destruct (getEntryId (page_ids entry)) as [i|];
    [|apply Hnone; try reflexivity; intros sd Hc;
      unfold counts in *; simpl; congruence].
  destruct (idTruthy i);
    [|apply Hnone; try reflexivity; intros sd Hc;
      unfold counts in *; simpl; congruence].
  destruct (negb (truthy (trim (str (page_content entry)))));
    [apply Hnone; try reflexivity; intros sd Hc;
     unfold counts in *; simpl; congruence|].
  destruct (ONLY_WHEN_EMPTY_BLOCKS cfg && (0 <? page_blocks entry));
    [apply Hnone; try reflexivity; intros sd Hc;
     unfold counts in *; simpl; congruence|].
  destruct (length _ =? 0);
    [apply Hnone; try reflexivity; intros sd Hc;
     unfold counts in *; simpl; congruence|].
  clear Hnone.
  match goal with
  | |- context [serve ?s ?w] =>
      exists [w]; cbn [putsAccepted storeAfter fold_left];
      destruct (serve s w) as [s' [a b|d]]
  end.
  - split; [reflexivity|]. split; [reflexivity|]. discriminate.
  - split; [reflexivity|]. split; [reflexivity|]. intros _ sd Hc.
    unfold counts, countUpdated in *; simpl; congruence.
Qed.

Lemma loop_counts (s0 : Store) (pages : list Page) (sd sl : Tally Store) :
  store sl = storeAfter serve s0 (puts sl) ->
  counts sd = counts sl ->
  NoPutRefused serve s0 (fold_left (step serve live) pages sl) ->
  counts (fold_left (step serve dry) pages sd)
  = counts (fold_left (step serve live) pages sl).
Proof.
  revert sd sl.
  induction pages as [|p ps IH]; intros sd sl Hs Hc Hok; [exact Hc|].
  cbn [fold_left] in *.
  destruct (step_live sl p) as (sent & Hp & Hst & Hcount).
  assert (Hs1 : store (step serve live sl p)
                = storeAfter serve s0 (puts (step serve live sl p))).
  { rewrite Hst, Hp, Hs. unfold storeAfter. now rewrite fold_left_app. }
  assert (Hgrow : forall (qs : list Page) (st : Tally Store),
             exists more,
               puts (fold_left (step serve live) qs st) = puts st ++ more).
  { induction qs as [|q qs IHq]; intros st.
    - exists []. now rewrite app_nil_r.
    - cbn [fold_left]. destruct (IHq (step serve live st q)) as [more Hm].
      destruct (step_live st q) as (sent' & Hp' & _).
      exists (sent' ++ more). now rewrite Hm, Hp', app_assoc. }
  destruct (Hgrow ps (step serve live sl p)) as [more Hmore].
  assert (Hsent : putsAccepted serve (store sl) sent = true).
  { unfold NoPutRefused in Hok. rewrite Hmore, Hp in Hok.
    rewrite !putsAccepted_app in Hok.
    apply andb_true_iff in Hok. destruct Hok as [Hok _].
    apply andb_true_iff in Hok. destruct Hok as [_ Hok].
    now rewrite Hs. }
  apply IH; [exact Hs1 | now apply Hcount | exact Hok].
Qed.

(** A dry run of the migration against a live run none of whose writes
    is refused. *)
Lemma migration_dry_mirrors (pages : list Page) (s : Store) :
  puts (run serve dry pages s) = []
  /\ (NoPutRefused serve s (run serve live pages s) ->
      counts (run serve dry pages s) = counts (run serve live pages s)).
Proof.
  unfold run. destruct pages as [|p ps]; [split; reflexivity|].
  split.
  - cbn [puts]. now rewrite loop_dry_puts.
  - intros Hok.
    pose proof (@loop_counts s (p :: ps) (start s) (start s) eq_refl eq_refl
                  Hok) as H.
    unfold counts in *. cbn [updated skippedNoContent skippedHasBlocks
                               skippedNoBlocksProduced failed]. exact H.
Qed.

End MigrationFacts.

(** *** A write the store refuses *)

Lemma article_refused_write {RT : Runtime} (cfg : Articles.Config)
    (Store : Type) (serve : Store -> Articles.Request -> Store * Reply)
    (line : nat) (slug : jsstring) (payload : Articles.Payload)
    (existing : option Entry) (w : Articles.Request)
    (st : Run Articles.Request Store) :
  articleWrite cfg payload existing = Some w ->
  refused (snd (serve (store st) w)) = true ->
  (exists st' e,
      Articles.reconcile (Articles.withDryRun false cfg) serve line slug
        payload existing st = (st', inl e)
      /\ counters st' = counters st
      /\ requests st' = requests st ++ [w])
  /\ (exists st',
         Articles.reconcile (Articles.withDryRun true cfg) serve line slug
           payload existing st = (st', inr tt)
         /\ created st' + updated st' = created st + updated st + 1
         /\ skipped st' = skipped st /\ failed st' = failed st
         /\ requests st' = requests st).
Proof.
  unfold articleWrite, Articles.reconcile, Articles.updateEntry,
    Articles.createEntry, Articles.strapiRequest, Batch.strapiRequest.
  cbn [Articles.withDryRun Articles.DRY_RUN Articles.UPSERT_MODE
       Articles.ARTICLE_TYPE negb].
  intros Hw Href.
  destruct existing as [e|].
  - destruct (Articles.UPSERT_MODE cfg); [|discriminate Hw].
    destruct (getEntryId e) as [i|]; [|discriminate Hw].
    destruct (idTruthy i); [|discriminate Hw].
    injection Hw as <-. unfold Batch.bind at 1 2 3.
    destruct (serve (store st) _) as [s' [status body|d]];
      [|discriminate Href].
    split; [eexists; eexists; repeat split|].
    eexists. split; [reflexivity|]. cbn. repeat split; lia.
  - injection Hw as <-. unfold Batch.bind at 1 2 3.
    destruct (serve (store st) _) as [s' [status body|d]];
      [|discriminate Href].
    split; [eexists; eexists; repeat split|].
    eexists. split; [reflexivity|]. cbn. repeat split; lia.
Qed.

Lemma migration_refused_write {RT : Runtime} (cfg : Migration.Config)
    (Store : Type)
    (serve : Store -> JsId * Migration.Payload -> Store * Reply)
    (st : Migration.Tally Store) (routePath : jsstring) (id : JsId)
    (blocks : list Blocks.Block) :
  refused (snd (serve (Migration.store st)
                  (id, Migration.payloadOf cfg blocks))) = true ->
  let live :=
    Migration.tryUpdate serve (Migration.withDryRun false cfg) st routePath
      id blocks in
  let dry :=
    Migration.tryUpdate serve (Migration.withDryRun true cfg) st routePath
      id blocks in
  Migration.failed live = Migration.failed st + 1
  /\ Migration.updated live = Migration.updated st
  /\ Migration.puts live
     = Migration.puts st ++ [(id, Migration.payloadOf cfg blocks)]
  /\ Migration.updated dry = Migration.updated st + 1
  /\ Migration.failed dry = Migration.failed st
  /\ Migration.puts dry = Migration.puts st.
Proof.
  intros Href. cbv zeta. unfold Migration.tryUpdate.
  cbn [Migration.withDryRun Migration.DRY_RUN negb].
  change (Migration.payloadOf (Migration.withDryRun false cfg) blocks)
    with (Migration.payloadOf cfg blocks).
  destruct (serve (Migration.store st) _) as [s' [status body|d]];
    [|discriminate Href].
  repeat split.
Qed.

(** ** Dry runs, duplicate keys and failing rows, over the scripts *)



(* ================================================================== *)
(** * The importers on the rows of any input file *)
(* ================================================================== *)

(** ** Rows of strings among the rows of values *)


Lemma bind_lift_value {Request Store A B : Type} (a : A)
    (k : A -> Batch.M Request Store B) (st : Run Request Store) :
  Batch.bind (lift (inr a)) k st = k a st.
Proof. reflexivity. Qed.

Lemma bind_lift_thrown {Request Store A B : Type} (e : Error)
    (k : A -> Batch.M Request Store B) (st : Run Request Store) :
  Batch.bind (lift (inl e)) k st = (st, inl e).
Proof. reflexivity. Qed.

Section ConversionFacts.
Import Input.
Context {RT : Runtime}.

Lemma stringOrEmpty_cellOf (v : option jsstring) :
  stringOrEmpty (cellOf v) = inr (str v).
Proof. now destruct v. Qed.





Lemma keptSchema_parsed (parsed : option JsonValue) :
  Rows.keptSchema
    match parsed with Some j => Some (Parsed j) | None => None end
  = match parsed with
    | Some v => if jsonTruthy v then Some (Parsed v) else None
    | None => None
    end.
Proof. now destruct parsed. Qed.








Lemma sync_texts_ofTexts (row : Sync.Row) :
  SyncRows.texts (SyncRows.ofTexts row) = inr (SyncRows.readAs row).
Proof.
  unfold SyncRows.texts.
  cbn [SyncRows.ofTexts SyncRows.r_routePath SyncRows.r_pageName
       SyncRows.r_content SyncRows.r_line].
  now rewrite !stringOrEmpty_cellOf.
Qed.

End ConversionFacts.

(** ** What a turn that reaches its lookup comes to *)



(** ** The article importer *)

Section ArticleRowFacts.
Import Input.
Context {RT : Runtime}.

Variable cfg : Articles.Config.
Variable Store : Type.
Variable serve : Store -> Articles.Request -> Store * Reply.

Ltac count_done :=
  unfold bodyEffect, Counted, total, counters; simpl;
  repeat split; try lia; try congruence; try (eexists; reflexivity).

Lemma article_handler_converts (row : ArticleRows.Row) (what : jsstring)
    (e : Error) (st : Run Articles.Request Store) :
  stringOrEmpty (ArticleRows.r_title row) = inr what ->
  ArticleRows.handler row e st
  = (markFailed (LogFailed (ArticleRows.r_line row) what e) st, inr tt).
Proof.
  intros H. unfold ArticleRows.handler, Batch.bind. cbn. now rewrite H.
Qed.

Lemma article_handler_throws (row : ArticleRows.Row) (e thrown : Error)
    (st : Run Articles.Request Store) :
  stringOrEmpty (ArticleRows.r_title row) = inl thrown ->
  ArticleRows.handler row e st = (fst (incFailed st), inl thrown).
Proof.
  intros H. unfold ArticleRows.handler, Batch.bind. cbn. now rewrite H.
Qed.

Lemma article_rows_upsert_effect (row : ArticleRows.Row) (slug : jsstring)
    (st : Run Articles.Request Store) :
  bodyEffect st (ArticleRows.upsert cfg serve row slug st).
Proof.
  unfold ArticleRows.upsert.
  apply bodyEffect_quiet; [apply quiet_lift|]. intros names st0 _ _.
  apply bodyEffect_quiet; [apply quiet_ensureTagLoop|].
  intros tagIds st1 _ _.
  apply bodyEffect_quiet; [apply quiet_lift|]. intros payload st2 _ _.
  apply bodyEffect_quiet; [apply quiet_find|]. intros existing st3 _ _.
  apply reconcile_effect.
Qed.

Lemma article_rows_body_effect (row : ArticleRows.Row)
    (st : Run Articles.Request Store) :
  bodyEffect st (ArticleRows.rowBody cfg serve row st).
Proof.
  unfold ArticleRows.rowBody.
  apply bodyEffect_quiet; [apply quiet_lift|]. intros titleText st1 _ _.
  apply bodyEffect_quiet; [apply quiet_lift|]. intros slugText st2 _ _.
  cbv zeta. destruct (negb (truthy (trim titleText)) || _); [count_done|].
  unfold Batch.bind at 1. unfold hasSeen at 1.
  destruct (includes (seen st2) _); [count_done|].
  unfold Batch.bind at 1. unfold addSeen at 1, Batch.update_ at 1.
  match goal with
  | |- bodyEffect _ (ArticleRows.upsert _ _ ?r ?k ?s1) =>
      pose proof (article_rows_upsert_effect r k s1) as Hb
  end.
  unfold bodyEffect in *.
  match goal with
  | |- match ?x with _ => _ end => destruct x as [st' [e|u]]
  end; simpl in *; exact Hb.
Qed.

(** A turn whose row has a title with a string form ends normally and
    counts the row once; what its [try] block threw is what the line of
    the failed row shows. *)
Lemma article_rows_turn (row : ArticleRows.Row) (what : jsstring)
    (st : Run Articles.Request Store) :
  stringOrEmpty (ArticleRows.r_title row) = inr what ->
  exists st',
    ArticleRows.processRow cfg serve row st = (st', inr tt)
    /\ Counted st st' /\ (exists l, console st' = console st ++ [l])
    /\ (forall stx e,
           ArticleRows.rowBody cfg serve row st = (stx, inl e) ->
           st' = markFailed (LogFailed (ArticleRows.r_line row) what e) stx
           /\ CountedFailed st st').
Proof.
  intros Hwhat. pose proof (article_rows_body_effect row st) as H.
  unfold ArticleRows.processRow, Batch.tryCatch, bodyEffect in *.
  destruct (ArticleRows.rowBody cfg serve row st) as [st1 [e|[]]].
  - destruct H as [Hc Hl]. rewrite (article_handler_converts _ _ _ Hwhat).
    eexists. split; [reflexivity|].
    unfold Counted, CountedFailed, total, counters in *. simpl.
    injection Hc as H1 H2 H3 H4.
    split; [lia|]. split.
    + eexists. now rewrite Hl.
    + intros stx e0 He. injection He as -> ->. split; [reflexivity|lia].
  - destruct H as [Hc Hl]. exists st1.
    split; [reflexivity|]. split; [assumption|]. split; [assumption|].
    intros stx e He. discriminate He.
Qed.

(** A turn whose row has a title without string form: the [catch] counts
    the row as failed and then throws itself. *)
Lemma article_rows_turn_aborts (row : ArticleRows.Row) (thrown : Error)
    (st : Run Articles.Request Store) :
  stringOrEmpty (ArticleRows.r_title row) = inl thrown ->
  ArticleRows.processRow cfg serve row st = (fst (incFailed st), inl thrown).
Proof.
  intros H. unfold ArticleRows.processRow, Batch.tryCatch.
  assert (Hb : ArticleRows.rowBody cfg serve row st = (st, inl thrown)).
  { unfold ArticleRows.rowBody, Batch.bind. now rewrite H. }
  rewrite Hb. now apply article_handler_throws.
Qed.



Section OneRow.

Variable row : ArticleRows.Row.
Variables titleText slugText : jsstring.
Hypothesis Htitle : stringOrEmpty (ArticleRows.r_title row) = inr titleText.
Hypothesis Hslug : stringOrEmpty (ArticleRows.r_slug row) = inr slugText.

Let title := trim titleText.
Let key := orElse (trim slugText) (Normalizer.slugify (Some title)).

Lemma article_rows_missing (st : Run Articles.Request Store) :
  truthy title = false \/ truthy key = false ->
  ArticleRows.processRow cfg serve row st
  = (markFailed (LogMissingRequired (ArticleRows.r_line row) title key) st,
     inr tt).
Proof.
  intros H.
  unfold ArticleRows.processRow, Batch.tryCatch, ArticleRows.rowBody.
  unfold Batch.bind at 1. rewrite Htitle. cbn [lift ret].
  unfold Batch.bind at 1. rewrite Hslug. cbn [lift ret].
  fold title. fold key.
  replace (negb (truthy title) || negb (truthy key)) with true.
  - reflexivity.
  - symmetry. apply orb_true_iff. destruct H as [H|H]; rewrite H; auto.
Qed.

Lemma article_rows_duplicate (st : Run Articles.Request Store) :
  truthy title = true -> truthy key = true ->
  includes (seen st) key = true ->
  ArticleRows.processRow cfg serve row st
  = (markFailed (LogDuplicate (ArticleRows.r_line row) key) st, inr tt).
Proof.
  intros Ht Hk Hs.
  unfold ArticleRows.processRow, Batch.tryCatch, ArticleRows.rowBody.
  unfold Batch.bind at 1. rewrite Htitle. cbn [lift ret].
  unfold Batch.bind at 1. rewrite Hslug. cbn [lift ret].
  fold title. fold key. rewrite Ht, Hk. cbn [negb orb].
  unfold Batch.bind at 1. unfold hasSeen at 1. rewrite Hs. reflexivity.
Qed.

(** The [try] block of a row with its required fields and a new key comes
    to the tags, the payload, the lookup and what follows it. *)
Lemma article_rows_body_fresh (st : Run Articles.Request Store) :
  truthy title = true -> truthy key = true ->
  includes (seen st) key = false ->
  ArticleRows.rowBody cfg serve row st
  = ArticleRows.upsert cfg serve row key (fst (addSeen key st)).
Proof.
  intros Ht Hk Hs. unfold ArticleRows.rowBody.
  unfold Batch.bind at 1. rewrite Htitle. cbn [lift ret].
  unfold Batch.bind at 1. rewrite Hslug. cbn [lift ret].
  fold title. fold key. rewrite Ht, Hk. cbn [negb orb].
  unfold Batch.bind at 1. unfold hasSeen at 1. rewrite Hs.
  reflexivity.
Qed.



End OneRow.







End ArticleRowFacts.

(** ** The redirects importer *)

Section RedirectTurn.
Import RedirectsRun.
Context {RT : Runtime}.

Variable cfg : Config.
Variable Store : Type.
Variable serve : Store -> Request -> Store * Reply.


End RedirectTurn.




(** ** The page importer *)

Section PageRowFacts.
Import Input.
Context {RT : Runtime}.

Variable cfg : Pages.Config.
Variable Store : Type.
Variable serve : Store -> Pages.Request -> Store * Reply.

Ltac count_done :=
  unfold bodyEffect, Counted, total, counters; simpl;
  repeat split; try lia; try congruence; try (eexists; reflexivity).










Section OnePage.

Variable row : PageRows.Row.
Variable what : jsstring.
Variable payload : Pages.Payload.
Hypothesis Hwhat : stringOrEmpty (PageRows.r_routePath row) = inr what.
Hypothesis Hpayload : PageRows.mapRowToPayload cfg row = inr payload.

Let key := Pages.p_routePath payload.
Let name := Pages.p_pageName payload.




End OnePage.






End PageRowFacts.

(** ** A dry run of the article importer against a live run, on the rows
    of any input file *)

Section ArticleRowsLookups.
Import Input.
Context {RT : Runtime}.

Variable cfg : Articles.Config.
Variable Store : Type.
Variable serve : Store -> Articles.Request -> Store * Reply.

Ltac lookups_book :=
  repeat first
    [ apply preserves_bind; [|intros ?]
    | apply preserves_ret
    | apply preserves_lift
    | apply lookups_update; intros ?; reflexivity ].

Lemma article_rows_lookups_turn (row : ArticleRows.Row) :
  Articles.DRY_RUN cfg = true ->
  preserves Articles.onlyLookups (ArticleRows.processRow cfg serve row).
Proof.
  intros Hdry. unfold ArticleRows.processRow.
  apply preserves_tryCatch;
    [|intros e; unfold ArticleRows.handler, incFailed, log; lookups_book].
  unfold ArticleRows.rowBody.
  apply preserves_bind; [apply preserves_lift|]. intros titleText.
  apply preserves_bind; [apply preserves_lift|]. intros slugText.
  cbv zeta.
  destruct (negb (truthy (trim titleText)) || _);
    [unfold incFailed, log; lookups_book|].
  apply preserves_bind; [intros st H; exact H|]. intros isSeen.
  destruct isSeen; [unfold incFailed, log; lookups_book|].
  apply preserves_bind;
    [unfold addSeen; apply lookups_update; intros ?; reflexivity|].
  intros _. unfold ArticleRows.upsert.
  apply preserves_bind; [apply preserves_lift|]. intros names.
  apply preserves_bind; [now apply lookups_ensureTagLoop|]. intros ids.
  apply preserves_bind; [apply preserves_lift|]. intros payload.
  apply preserves_bind; [apply lookups_find|]. intros existing.
  now apply lookups_reconcile.
Qed.

Lemma article_rows_lookups_run (rows : list ArticleRows.Row) (s : Store) :
  Articles.DRY_RUN cfg = true ->
  Articles.onlyLookups (fst (ArticleRows.run cfg serve rows s)).
Proof.
  intros Hdry. unfold ArticleRows.run.
  assert (H0 : Articles.onlyLookups (@start Articles.Request Store s))
    by reflexivity.
  revert H0. generalize (@start Articles.Request Store s).
  change (preserves Articles.onlyLookups (ArticleRows.runM cfg serve rows)).
  unfold ArticleRows.runM.
  destruct (length rows =? 0);
    [unfold log; apply lookups_update; intros ?; reflexivity|].
  apply preserves_bind;
    [unfold log; apply lookups_update; intros ?; reflexivity|].
  intros _. apply preserves_bind.
  - apply preserves_forEach. intros r. now apply article_rows_lookups_turn.
  - intros _. unfold Articles.report, summary.
    apply preserves_bind.
    + intros st H.
      unfold log, Batch.update_, Batch.bind, Articles.onlyLookups in *.
      simpl. exact H.
    + intros _. destruct (Articles.DEFAULT_COVER_IMAGE_ID cfg) as [[|c r]|];
        unfold log; lookups_book.
Qed.

(** The seen keys after the [try] block of a row that reached its tags. *)
Lemma article_rows_seen_upsert (row : ArticleRows.Row) (slug : jsstring)
    (st : Run Articles.Request Store) :
  seen (fst (ArticleRows.upsert cfg serve row slug st)) = seen st.
Proof.
  unfold ArticleRows.upsert.
  rewrite seen_bind_quiet; [reflexivity|apply quiet_lift|].
  intros names st0.
  rewrite seen_bind_quiet; [reflexivity|apply quiet_ensureTagLoop|].
  intros ids st1.
  rewrite seen_bind_quiet; [reflexivity|apply quiet_lift|].
  intros payload st2.
  rewrite seen_bind_quiet; [reflexivity|apply quiet_find|].
  intros existing st3. apply seen_reconcile.
Qed.

End ArticleRowsLookups.

(** ** A store that accepts the writes a run sends *)

Section AcceptedWrites.
Import Input.
Context {RT : Runtime}.

Variable Store : Type.
Variable serve : Store -> Articles.Request -> Store * Reply.
Variable s0 : Store.

Lemma storeAfter_app (s : Store) (a b : list Articles.Request) :
  Articles.storeAfter serve s (a ++ b)
  = Articles.storeAfter serve (Articles.storeAfter serve s a) b.
Proof. unfold Articles.storeAfter. apply fold_left_app. Qed.

Lemma writesAccepted_app (s : Store) (a b : list Articles.Request) :
  Articles.writesAccepted serve s (a ++ b)
  = Articles.writesAccepted serve s a
    && Articles.writesAccepted serve (Articles.storeAfter serve s a) b.
Proof.
  revert s. induction a as [|r a IH]; intros s; [reflexivity|].
  cbn [app Articles.writesAccepted]. rewrite IH, andb_assoc. reflexivity.
Qed.

Lemma writesAccepted_lookups (s : Store) (reqs : list Articles.Request) :
  forallb (fun r => negb (Articles.isWrite r)) reqs = true ->
  Articles.writesAccepted serve s reqs = true.
Proof.
  revert s. induction reqs as [|r reqs IH]; intros s H; [reflexivity|].
  cbn [forallb Articles.writesAccepted] in *.
  apply andb_true_iff in H. destruct H as [Hr H].
  apply negb_true_iff in Hr. rewrite Hr. cbn [andb negb]. now apply IH.
Qed.

(** A computation that sends nothing. *)
Lemma agree_silent {A} (m : Batch.M Articles.Request Store A) :
  (forall st, requests (fst (m st)) = requests st
              /\ store (fst (m st)) = store st) ->
  Articles.AgreeWhenAccepted serve s0 m m.
Proof.
  intros H st Hst. destruct (H st) as [Hr Hs].
  unfold Articles.StartedFrom, Articles.NoWriteRefused in *.
  rewrite Hr, Hs. auto.
Qed.

Lemma agree_ret {A} (a : A) :
  Articles.AgreeWhenAccepted serve s0 (ret a) (ret a).
Proof. apply agree_silent. intros st. split; reflexivity. Qed.

Lemma agree_lift {A} (r : Error + A) :
  Articles.AgreeWhenAccepted serve s0 (lift r) (lift r).
Proof. apply agree_silent. intros st. destruct r; split; reflexivity. Qed.

Lemma agree_update (f : Run Articles.Request Store
                       -> Run Articles.Request Store) :
  (forall st, requests (f st) = requests st /\ store (f st) = store st) ->
  Articles.AgreeWhenAccepted serve s0 (Batch.update_ f) (Batch.update_ f).
Proof. intros H. apply agree_silent. intros st. apply H. Qed.

Lemma agree_hasSeen (k : jsstring) :
  Articles.AgreeWhenAccepted serve s0 (hasSeen k) (hasSeen k).
Proof. apply agree_silent. intros st. split; reflexivity. Qed.

Lemma agree_bind {A B} (m m' : Batch.M Articles.Request Store A)
    (k k' : A -> Batch.M Articles.Request Store B) :
  Articles.AgreeWhenAccepted serve s0 m m' ->
  (forall a, Articles.AgreeWhenAccepted serve s0 (k a) (k' a)) ->
  Articles.AgreeWhenAccepted serve s0 (Batch.bind m k) (Batch.bind m' k').
Proof.
  intros Hm Hk st Hst. destruct (Hm st Hst) as [H1 H2].
  unfold Batch.bind.
  destruct (m st) as [st1 [e|a]] eqn:Em; cbn [fst] in *.
  - split; [exact H1|]. intros Hc. destruct (H2 Hc) as [Hc0 <-].
    auto.
  - destruct (Hk a st1 H1) as [K1 K2]. split; [exact K1|].
    intros Hc. destruct (K2 Hc) as [Hc1 Ek].
    destruct (H2 Hc1) as [Hc0 <-]. auto.
Qed.

Lemma agree_tryCatch {A} (m m' : Batch.M Articles.Request Store A)
    (h h' : Error -> Batch.M Articles.Request Store A) :
  Articles.AgreeWhenAccepted serve s0 m m' ->
  (forall e, Articles.AgreeWhenAccepted serve s0 (h e) (h' e)) ->
  Articles.AgreeWhenAccepted serve s0 (Batch.tryCatch m h)
    (Batch.tryCatch m' h').
Proof.
  intros Hm Hh st Hst. destruct (Hm st Hst) as [H1 H2].
  unfold Batch.tryCatch.
  destruct (m st) as [st1 [e|a]] eqn:Em; cbn [fst] in *.
  - destruct (Hh e st1 H1) as [K1 K2]. split; [exact K1|].
    intros Hc. destruct (K2 Hc) as [Hc1 Ek].
    destruct (H2 Hc1) as [Hc0 <-]. auto.
  - split; [exact H1|]. intros Hc. destruct (H2 Hc) as [Hc0 <-].
    auto.
Qed.

Lemma agree_forEach {R} (rows : list R)
    (body body' : R -> Batch.M Articles.Request Store unit) :
  (forall r, Articles.AgreeWhenAccepted serve s0 (body r) (body' r)) ->
  Articles.AgreeWhenAccepted serve s0 (Batch.forEach rows body)
    (Batch.forEach rows body').
Proof.
  intros Hb. induction rows as [|r rows IH]; cbn [Batch.forEach].
  - apply agree_ret.
  - apply agree_bind; [apply Hb | intros _; exact IH].
Qed.

(** A request: when it is a write the store refuses, the run shows it. *)
Lemma agree_request (req : Articles.Request) :
  Articles.AgreeWhenAccepted serve s0 (Batch.strapiRequest serve req)
    (Batch.strapiRequest (Articles.accepting serve) req).
Proof.
  intros st Hst.
  unfold Batch.strapiRequest, Articles.accepting, Articles.StartedFrom,
    Articles.NoWriteRefused in *.
  assert (Hreq : requests (fst (
             let '(s', reply) := serve (store st) req in
             match reply with
             | Refused status body =>
                 ({| store := s'; requests := requests st ++ [req];
                     seen := seen st; created := created st;
                     updated := updated st; skipped := skipped st;
                     failed := failed st; console := console st |},
                  @inl Error ReplyData (HttpError status body))
             | Answered d =>
                 ({| store := s'; requests := requests st ++ [req];
                     seen := seen st; created := created st;
                     updated := updated st; skipped := skipped st;
                     failed := failed st; console := console st |},
                  inr d)
             end)) = requests st ++ [req]
           /\ store (fst (
             let '(s', reply) := serve (store st) req in
             match reply with
             | Refused status body =>
                 ({| store := s'; requests := requests st ++ [req];
                     seen := seen st; created := created st;
                     updated := updated st; skipped := skipped st;
                     failed := failed st; console := console st |},
                  @inl Error ReplyData (HttpError status body))
             | Answered d =>
                 ({| store := s'; requests := requests st ++ [req];
                     seen := seen st; created := created st;
                     updated := updated st; skipped := skipped st;
                     failed := failed st; console := console st |},
                  inr d)
             end)) = fst (serve (store st) req)).
  { destruct (serve (store st) req) as [s' [status body|d]];
      split; reflexivity. }
  destruct Hreq as [Hr Hs]. rewrite Hr, Hs. split.
  - rewrite storeAfter_app, <- Hst. reflexivity.
  - rewrite writesAccepted_app, <- Hst. cbn [Articles.writesAccepted].
    intros Hc. apply andb_true_iff in Hc. destruct Hc as [Hc0 Hc].
    split; [exact Hc0|].
    rewrite andb_true_r in Hc. apply negb_true_iff in Hc.
    destruct (serve (store st) req) as [s' reply]. cbn [snd] in Hc.
    now rewrite Hc.
Qed.

Ltac agree_book :=
  repeat first
    [ apply agree_bind; [|intros ?]
    | apply agree_ret
    | apply agree_lift
    | apply agree_hasSeen
    | apply agree_request
    | apply agree_update; intros ?; split; reflexivity ].

Lemma agree_find (e k : jsstring) :
  Articles.AgreeWhenAccepted serve s0
    (Articles.findExistingBySlug serve e k)
    (Articles.findExistingBySlug (Articles.accepting serve) e k).
Proof.
  unfold Articles.findExistingBySlug, Articles.strapiRequest. agree_book.
Qed.

Lemma agree_ensureTagLoop (c : Articles.Config) (names : list jsstring)
    (ids : list JsId) :
  Articles.AgreeWhenAccepted serve s0
    (Articles.ensureTagLoop c serve names ids)
    (Articles.ensureTagLoop c (Articles.accepting serve) names ids).
Proof.
  revert ids. induction names as [|nameRaw more IH]; intros ids;
    cbn [Articles.ensureTagLoop].
  - apply agree_ret.
  - destruct (negb (truthy (trim nameRaw))); [apply IH|].
    destruct (negb (truthy (Normalizer.slugify (Some (trim nameRaw)))));
      [apply IH|].
    apply agree_bind.
    { unfold Articles.findExistingTagBySlug, Articles.strapiRequest.
      agree_book. }
    intros found. apply agree_bind.
    + destruct found; [apply agree_ret|].
      destruct (negb (Articles.DRY_RUN c)); [|apply agree_ret].
      unfold Articles.strapiRequest. agree_book.
    + intros [e|]; [|apply IH].
      destruct (id e) as [i|]; [|apply IH].
      destruct (idTruthy i); apply IH.
Qed.

Lemma agree_reconcile (c : Articles.Config) (line : nat) (slug : jsstring)
    (payload : Articles.Payload) (existing : option Entry) :
  Articles.AgreeWhenAccepted serve s0
    (Articles.reconcile c serve line slug payload existing)
    (Articles.reconcile c (Articles.accepting serve) line slug payload
       existing).
Proof.
  unfold Articles.reconcile, Articles.updateEntry, Articles.createEntry,
    Articles.strapiRequest.
  destruct existing as [e|].
  - destruct (Articles.UPSERT_MODE c);
      [|unfold incSkipped, log; agree_book].
    destruct (getEntryId e) as [entryId|];
      [|unfold incFailed, log; agree_book].
    destruct (idTruthy entryId); [|unfold incFailed, log; agree_book].
    destruct (negb (Articles.DRY_RUN c));
      unfold incUpdated, log; agree_book.
  - destruct (negb (Articles.DRY_RUN c));
      unfold incCreated, log; agree_book.
Qed.

Lemma agree_turn (c : Articles.Config) (row : ArticleRows.Row) :
  Articles.AgreeWhenAccepted serve s0
    (ArticleRows.processRow c serve row)
    (ArticleRows.processRow c (Articles.accepting serve) row).
Proof.
  unfold ArticleRows.processRow.
  apply agree_tryCatch;
    [|intros e; unfold ArticleRows.handler, incFailed, log; agree_book].
  unfold ArticleRows.rowBody.
  apply agree_bind; [apply agree_lift|]. intros titleText.
  apply agree_bind; [apply agree_lift|]. intros slugText.
  cbv zeta.
  destruct (negb (truthy (trim titleText)) || _);
    [unfold incFailed, log; agree_book|].
  apply agree_bind; [apply agree_hasSeen|]. intros isSeen.
  destruct isSeen; [unfold incFailed, log; agree_book|].
  apply agree_bind; [unfold addSeen; agree_book|]. intros _.
  unfold ArticleRows.upsert.
  apply agree_bind; [apply agree_lift|]. intros names.
  apply agree_bind; [apply agree_ensureTagLoop|]. intros ids.
  apply agree_bind; [apply agree_lift|]. intros payload.
  apply agree_bind; [apply agree_find|]. intros existing.
  apply agree_reconcile.
Qed.

Lemma agree_run (c : Articles.Config) (rows : list ArticleRows.Row) :
  Articles.AgreeWhenAccepted serve s0
    (ArticleRows.runM c serve rows)
    (ArticleRows.runM c (Articles.accepting serve) rows).
Proof.
  unfold ArticleRows.runM.
  destruct (length rows =? 0); [unfold log; agree_book|].
  apply agree_bind; [unfold log; agree_book|]. intros _.
  apply agree_bind.
  - apply agree_forEach. intros r. apply agree_turn.
  - intros _. unfold Articles.report.
    apply agree_bind.
    + apply agree_silent. intros st. split; reflexivity.
    + intros _. destruct (Articles.DEFAULT_COVER_IMAGE_ID c) as [[|ch r]|];
        unfold log; agree_book.
Qed.

(** A run none of whose writes is refused is the run against the store
    that accepts them. *)
Lemma run_accepting (c : Articles.Config) (rows : list ArticleRows.Row) :
  Articles.NoWriteRefused serve s0 (fst (ArticleRows.run c serve rows s0)) ->
  ArticleRows.run c serve rows s0
  = ArticleRows.run c (Articles.accepting serve) rows s0.
Proof.
  intros H. unfold ArticleRows.run in *.
  destruct (@agree_run c rows (start s0)) as [_ Hrun]; [reflexivity|].
  now apply Hrun.
Qed.

(** What the store that accepts them keeps of [serve]. *)
Lemma accepting_accepts : Articles.AcceptsWrites (Articles.accepting serve).
Proof.
  intros s w Hw. unfold Articles.accepting.
  destruct (serve s w) as [s' reply]. rewrite Hw. cbn [andb].
  now destruct reply.
Qed.

Lemma accepting_lookup (s : Store) (e k : jsstring) :
  Articles.accepting serve s (Articles.Find e k)
  = serve s (Articles.Find e k).
Proof.
  unfold Articles.accepting. now destruct (serve s (Articles.Find e k)).
Qed.

Lemma accepting_store (s : Store) (w : Articles.Request) :
  fst (Articles.accepting serve s w) = fst (serve s w).
Proof.
  unfold Articles.accepting. destruct (serve s w) as [s' reply].
  now destruct (Articles.isWrite w && refused reply).
Qed.

Lemma accepting_readOnly :
  Articles.LookupsReadOnly serve ->
  Articles.LookupsReadOnly (Articles.accepting serve).
Proof. intros H s e k. rewrite accepting_lookup. apply H. Qed.

Lemma accepting_local :
  Articles.WritesAreLocal serve ->
  Articles.WritesAreLocal (Articles.accepting serve).
Proof.
  intros H s w e k Hw Ht. rewrite !accepting_lookup, accepting_store.
  now apply H.
Qed.

Lemma accepting_keepUp :
  Articles.WritesKeepLookupsUp serve ->
  Articles.WritesKeepLookupsUp (Articles.accepting serve).
Proof.
  intros H s w e k Hw. rewrite !accepting_lookup, accepting_store.
  now apply H.
Qed.

End AcceptedWrites.

Section ArticleRowsDryLive.
Import Input.
Context {RT : Runtime}.

Variable cfg : Articles.Config.
Variable Store : Type.
Variable serve : Store -> Articles.Request -> Store * Reply.

Hypothesis accepts : Articles.AcceptsWrites serve.
Hypothesis readOnly : Articles.LookupsReadOnly serve.
Hypothesis local_ : Articles.WritesAreLocal serve.
Hypothesis keepUp : Articles.WritesKeepLookupsUp serve.

Let dry := Articles.withDryRun true cfg.
Let live := Articles.withDryRun false cfg.
Let articles := Articles.endpoint (Articles.ARTICLE_TYPE cfg).

(** The payloads of a dry and of a live run: both are thrown or neither
    is, and the slug of the payload is the key of the row. *)
Lemma article_rows_payload_sim (row : ArticleRows.Row)
    (idsd idsl : list JsId) :
  match ArticleRows.mapRowToPayload dry row (Articles.ARTICLE_TYPE cfg) idsd,
        ArticleRows.mapRowToPayload live row (Articles.ARTICLE_TYPE cfg) idsl
  with
  | inl _, inl _ => True
  | inr _, inr pl =>
      forall titleText slugText,
        stringOrEmpty (ArticleRows.r_title row) = inr titleText ->
        stringOrEmpty (ArticleRows.r_slug row) = inr slugText ->
        Articles.p_slug pl
        = orElse (trim slugText)
            (Normalizer.slugify (Some (trim titleText)))
  | _, _ => False
  end.
Proof.
  unfold ArticleRows.mapRowToPayload.
  change (Articles.DEFAULT_COVER_IMAGE_ID dry)
    with (Articles.DEFAULT_COVER_IMAGE_ID cfg).
  change (Articles.DEFAULT_COVER_IMAGE_ID live)
    with (Articles.DEFAULT_COVER_IMAGE_ID cfg).
  repeat match goal with
         | |- context [andThen ?r _] =>
             destruct r; cbn [andThen]; [exact I|]
         end.
  intros titleText slugText Ht Hs.
  injection Ht as <-. injection Hs as <-. reflexivity.
Qed.

Lemma article_rows_upsert_sim (row : ArticleRows.Row) (key : jsstring)
    (keys : list jsstring) (sd sl : Run Articles.Request Store) :
  (forall idsl pl,
      ArticleRows.mapRowToPayload live row (Articles.ARTICLE_TYPE cfg) idsl
      = inr pl -> Articles.p_slug pl = key) ->
  Articles.AnswerAlike serve articles keys (store sd) (store sl) ->
  includes keys key = false ->
  counters sd = counters sl ->
  Articles.StepAlike serve articles (key :: keys)
    (ArticleRows.upsert dry serve row key sd)
    (ArticleRows.upsert live serve row key sl).
Proof.
  intros Hkey Halike Hfresh Hc. unfold ArticleRows.upsert.
  change (Articles.ARTICLE_TYPE dry) with (Articles.ARTICLE_TYPE cfg).
  change (Articles.ARTICLE_TYPE live) with (Articles.ARTICLE_TYPE cfg).
  fold articles.
  (* the names of the tags *)
  destruct (ArticleRows.parseTags (ArticleRows.r_tags row)) as [e|names].
  { rewrite !bind_lift_thrown.
    split; [split; [now apply alike_more|reflexivity]|exact Hc]. }
  rewrite !bind_lift_value.
  (* the tags *)
  unfold Articles.ensureTagIds.
  destruct (tags_sim cfg accepts readOnly local_ keepUp names [] [] _ _
              Halike) as [Ha1 Ht1].
  destruct (quiet_ensureTagLoop dry serve names [] sd) as (_ & Cd1 & _).
  destruct (quiet_ensureTagLoop live serve names [] sl) as (_ & Cl1 & _).
  fold dry in Ha1, Ht1. fold live in Ha1, Ht1. fold articles in Ha1.
  destruct (Articles.ensureTagLoop dry serve names [] sd)
    as [sd1 rd1] eqn:Ed1.
  destruct (Articles.ensureTagLoop live serve names [] sl)
    as [sl1 rl1] eqn:El1.
  cbn [fst snd] in *.
  rewrite (@bind_run _ _ _ _ _ _ _ _ _ Ed1), (@bind_run _ _ _ _ _ _ _ _ _ El1).
  destruct rd1 as [ed|idsd]; destruct rl1 as [el|idsl]; try discriminate Ht1.
  { split; [split; [now apply alike_more|reflexivity]|].
    cbn [fst]. congruence. }
  (* the payload *)
  pose proof (article_rows_payload_sim row idsd idsl) as Hp.
  pose proof (Hkey idsl) as Hk.
  destruct (ArticleRows.mapRowToPayload dry row (Articles.ARTICLE_TYPE cfg)
              idsd) as [ed|pd];
    destruct (ArticleRows.mapRowToPayload live row
                (Articles.ARTICLE_TYPE cfg) idsl) as [el|pl];
    try contradiction.
  { rewrite !bind_lift_thrown.
    split; [split; [now apply alike_more|reflexivity]|].
    cbn [fst]. congruence. }
  rewrite !bind_lift_value.
  (* the lookup *)
  unfold Articles.findExistingBySlug.
  destruct (find_result readOnly sd1 articles key)
    as (sd2 & Ed2 & Sd2 & _ & Cd2).
  destruct (find_result readOnly sl1 articles key)
    as (sl2 & El2 & Sl2 & _ & Cl2).
  rewrite (@bind_run _ _ _ _ _ _ _ _ _ Ed2), (@bind_run _ _ _ _ _ _ _ _ _ El2).
  rewrite (proj2 Ha1 key Hfresh).
  destruct (snd (serve (store sd1) (Articles.Find articles key)))
    as [a b|d].
  { split; [split; [cbn [fst]; rewrite Sd2, Sl2; now apply alike_more
                   |reflexivity]|].
    cbn [fst]. congruence. }
  apply (reconcile_sim cfg accepts local_ keepUp);
    [now apply Hk| |congruence].
  now rewrite Sd2, Sl2.
Qed.

Section OneRow.

Variable row : ArticleRows.Row.
Variables titleText slugText : jsstring.
Hypothesis Htitle : stringOrEmpty (ArticleRows.r_title row) = inr titleText.

(** What the [try] block threw on the slug is counted as failed. *)
Lemma article_rows_slug_throws (c : Articles.Config) (e : Error)
    (st : Run Articles.Request Store) :
  stringOrEmpty (ArticleRows.r_slug row) = inl e ->
  ArticleRows.processRow c serve row st
  = (markFailed (LogFailed (ArticleRows.r_line row) titleText e) st, inr tt).
Proof.
  intros Hslug. unfold ArticleRows.processRow, Batch.tryCatch.
  assert (Hb : ArticleRows.rowBody c serve row st = (st, inl e)).
  { unfold ArticleRows.rowBody.
    unfold Batch.bind at 1. rewrite Htitle. cbn [lift ret].
    unfold Batch.bind at 1. now rewrite Hslug. }
  rewrite Hb. now apply article_handler_converts.
Qed.

Hypothesis Hslug : stringOrEmpty (ArticleRows.r_slug row) = inr slugText.

Let title := trim titleText.
Let key := orElse (trim slugText) (Normalizer.slugify (Some title)).

Lemma article_rows_turn_fresh (c : Articles.Config)
    (st : Run Articles.Request Store) :
  truthy title = true -> truthy key = true ->
  includes (seen st) key = false ->
  ArticleRows.processRow c serve row st
  = match ArticleRows.upsert c serve row key (fst (addSeen key st)) with
    | (st', inr u) => (st', inr u)
    | (st', inl e) =>
        (markFailed (LogFailed (ArticleRows.r_line row) titleText e) st',
         inr tt)
    end.
Proof.
  intros Ht Hk Hs. unfold ArticleRows.processRow, Batch.tryCatch.
  rewrite (@article_rows_body_fresh RT c Store serve row titleText slugText
             Htitle Hslug st Ht Hk Hs).
  fold title. fold key.
  destruct (ArticleRows.upsert c serve row key _) as [st' [e|u]];
    [|reflexivity].
  now apply article_handler_converts.
Qed.

End OneRow.

(** One row, in a dry run and in a live run that are in step: the runs
    stay in step, and one turn throws exactly when the other does. *)
Lemma article_rows_row_sim (row : ArticleRows.Row)
    (sd sl : Run Articles.Request Store) :
  Articles.InStep serve articles sd sl ->
  Articles.InStep serve articles
    (fst (ArticleRows.processRow dry serve row sd))
    (fst (ArticleRows.processRow live serve row sl))
  /\ threw (snd (ArticleRows.processRow dry serve row sd))
     = threw (snd (ArticleRows.processRow live serve row sl)).
Proof.
  intros (Hs & Hc & Ha).
  assert (Hfailed : forall l,
             Articles.InStep serve articles (markFailed l sd)
               (markFailed l sl)).
  { intros l. unfold Articles.InStep, counters in *. simpl.
    injection Hc as -> -> -> ->. auto. }
  destruct (stringOrEmpty (ArticleRows.r_title row)) as [e|titleText]
    eqn:Htitle.
  { rewrite !(article_rows_turn_aborts _ _ row _ Htitle).
    split; [|reflexivity].
    unfold Articles.InStep, counters in *. simpl.
    injection Hc as -> -> -> ->. auto. }
  destruct (stringOrEmpty (ArticleRows.r_slug row)) as [e|slugText]
    eqn:Hslug.
  { rewrite !(@article_rows_slug_throws row titleText Htitle _ e _ Hslug).
    split; [apply Hfailed|reflexivity]. }
  set (title := trim titleText).
  set (key := orElse (trim slugText) (Normalizer.slugify (Some title))).
  destruct (truthy title) eqn:Ht; [destruct (truthy key) eqn:Hk|].
  - destruct (includes (seen sl) key) eqn:Hseen.
    + rewrite !(@article_rows_duplicate RT _ Store serve row titleText
                  slugText Htitle Hslug)
        by (try assumption; now rewrite Hs).
      split; [apply Hfailed|reflexivity].
    + assert (Hseen' : includes (seen sd) key = false) by now rewrite Hs.
      rewrite (@article_rows_turn_fresh row titleText slugText Htitle Hslug
                 dry sd Ht Hk Hseen').
      rewrite (@article_rows_turn_fresh row titleText slugText Htitle Hslug
                 live sl Ht Hk Hseen).
      fold title. fold key.
      pose proof (article_rows_seen_upsert dry serve row key
                    (fst (addSeen key sd))) as Sd.
      pose proof (article_rows_seen_upsert live serve row key
                    (fst (addSeen key sl))) as Sl.
      assert (Ha' : Articles.AnswerAlike serve articles (seen sl)
                      (store (fst (addSeen (Request:=Articles.Request)
                                     key sd)))
                      (store (fst (addSeen (Request:=Articles.Request)
                                     key sl))))
        by exact Ha.
      assert (Hc' : counters (fst (addSeen (Request:=Articles.Request)
                                     key sd))
                    = counters (fst (addSeen (Request:=Articles.Request)
                                       key sl)))
        by exact Hc.
      assert (Hkey : forall idsl pl,
                 ArticleRows.mapRowToPayload live row
                   (Articles.ARTICLE_TYPE cfg) idsl = inr pl ->
                 Articles.p_slug pl = key).
      { intros idsl pl Hpl.
        pose proof (article_rows_payload_sim row idsl idsl) as Hp.
        rewrite Hpl in Hp.
        destruct (ArticleRows.mapRowToPayload dry row _ idsl);
          [contradiction|].
        now apply Hp. }
      destruct (@article_rows_upsert_sim row key _ _ _ Hkey Ha' Hseen Hc')
        as [[Hal Hth] Hco].
      destruct (ArticleRows.upsert dry serve row key _) as [sd' [ed|ud]];
        destruct (ArticleRows.upsert live serve row key _) as [sl' [el|ul]];
        try discriminate Hth; cbn [fst snd] in *.
      * split; [|reflexivity].
        unfold Articles.InStep. cbn [seen store markFailed].
        rewrite Sd, Sl. cbn [seen addSeen Batch.update_ fst]. rewrite Hs.
        split; [reflexivity|]. split; [|exact Hal].
        unfold counters in *. simpl. injection Hco as -> -> -> ->.
        reflexivity.
      * split; [|reflexivity].
        unfold Articles.InStep. rewrite Sd, Sl.
        cbn [seen addSeen Batch.update_ fst]. rewrite Hs. auto.
  - rewrite !(@article_rows_missing RT _ Store serve row titleText slugText
                Htitle Hslug) by now right.
    split; [apply Hfailed|reflexivity].
  - rewrite !(@article_rows_missing RT _ Store serve row titleText slugText
                Htitle Hslug) by now left.
    split; [apply Hfailed|reflexivity].
Qed.

Lemma article_rows_sim (rows : list ArticleRows.Row)
    (sd sl : Run Articles.Request Store) :
  Articles.InStep serve articles sd sl ->
  Articles.InStep serve articles
    (fst (Batch.forEach rows (ArticleRows.processRow dry serve) sd))
    (fst (Batch.forEach rows (ArticleRows.processRow live serve) sl)).
Proof.
  revert sd sl. induction rows as [|row rows IH]; intros sd sl H.
  - exact H.
  - cbn [Batch.forEach]. unfold Batch.bind.
    destruct (article_rows_row_sim row H) as [H1 H2].
    destruct (ArticleRows.processRow dry serve row sd) as [sd1 [ed|ud]];
      destruct (ArticleRows.processRow live serve row sl) as [sl1 [el|ul]];
      try discriminate H2; cbn [fst] in *.
    + exact H1.
    + now apply IH.
Qed.

Lemma article_rows_run_counters (c : Articles.Config)
    (rows : list ArticleRows.Row) (s : Store) :
  counters (fst (ArticleRows.run c serve rows s))
  = counters
      (fst (Batch.forEach rows (ArticleRows.processRow c serve)
              (fst (log (LogImporting (length rows)) (start s))))).
Proof.
  unfold ArticleRows.run, ArticleRows.runM.
  destruct rows as [|row rows]; [reflexivity|].
  set (all := row :: rows).
  replace (length all =? 0) with false by reflexivity.
  unfold Batch.bind at 1. cbn [log Batch.update_ fst].
  unfold Batch.bind at 1.
  destruct (Batch.forEach all (ArticleRows.processRow c serve) _)
    as [st1 [e|u]]; [reflexivity|].
  cbn [fst]. unfold Articles.report, summary.
  destruct (Articles.DEFAULT_COVER_IMAGE_ID c) as [[|ch r]|]; reflexivity.
Qed.

End ArticleRowsDryLive.

(** A dry run of the article importer against a live run, on a store
    that accepts every write. *)
Lemma article_rows_mirror_accepting {RT : Runtime} (cfg : Articles.Config)
    (Store : Type) (serve : Store -> Articles.Request -> Store * Reply)
    (rows : list ArticleRows.Row) (s : Store) :
  Articles.AcceptsWrites serve -> Articles.LookupsReadOnly serve ->
  Articles.WritesAreLocal serve -> Articles.WritesKeepLookupsUp serve ->
  counters
    (fst (ArticleRows.run (Articles.withDryRun true cfg) serve rows s))
  = counters
      (fst (ArticleRows.run (Articles.withDryRun false cfg) serve rows s)).
Proof.
  intros H1 H2 H3 H4. rewrite !article_rows_run_counters.
  apply (article_rows_sim cfg H1 H2 H3 H4). unfold Articles.InStep.
  split; [reflexivity|]. split; [reflexivity|].
  split; intros; reflexivity.
Qed.

(** A dry run of the article importer against a live run none of whose
    writes is refused. *)
Lemma article_rows_dry_mirrors {RT : Runtime} (cfg : Articles.Config)
    (Store : Type) (serve : Store -> Articles.Request -> Store * Reply)
    (rows : list ArticleRows.Row) (s : Store) :
  Articles.onlyLookups
    (fst (ArticleRows.run (Articles.withDryRun true cfg) serve rows s))
  /\ (Articles.NoWriteRefused serve s
        (fst (ArticleRows.run (Articles.withDryRun false cfg) serve rows s)) ->
      Articles.LookupsReadOnly serve ->
      Articles.WritesAreLocal serve -> Articles.WritesKeepLookupsUp serve ->
      counters
        (fst (ArticleRows.run (Articles.withDryRun true cfg) serve rows s))
      = counters
          (fst (ArticleRows.run (Articles.withDryRun false cfg) serve
                  rows s))).
Proof.
  assert (Hdry : Articles.onlyLookups
                   (fst (ArticleRows.run (Articles.withDryRun true cfg)
                           serve rows s)))
    by now apply article_rows_lookups_run.
  split; [exact Hdry|].
  intros Hlive H2 H3 H4.
  rewrite (@run_accepting RT Store serve s (Articles.withDryRun false cfg)
             rows Hlive).
  rewrite (@run_accepting RT Store serve s (Articles.withDryRun true cfg)
             rows).
  - apply article_rows_mirror_accepting.
    + apply accepting_accepts.
    + now apply accepting_readOnly.
    + now apply accepting_local.
    + now apply accepting_keepUp.
  - now apply writesAccepted_lookups.
Qed.

(** ** Dry runs and live runs *)

(** C6 (amended).  A dry run sends no [POST] and no [PUT], whatever the
    rows of the input file hold and whatever the remote store answers.
    The counters of a dry run of the article importer are those of a live
    run on the same rows and the same initial store when the store
    accepts every write the live run sends, lookups leave the store as it
    is, and a write changes only the answer of lookups for its own key,
    never whether a lookup is answered; those of the page migration, when
    the store accepts every write the live run sends.  When the store
    refuses the write a turn has come to, the live run throws on it,
    which its [catch] counts as failed, and the dry run counts the row as
    created or updated. *)
Theorem dry_run_mirrors_live :
  (forall (RT : Runtime) (cfg : Articles.Config) (Store : Type)
          (serve : Store -> Articles.Request -> Store * Reply)
          (rows : list ArticleRows.Row) (s : Store),
      Articles.onlyLookups
        (fst (ArticleRows.run (Articles.withDryRun true cfg) serve rows s))
      /\ (Articles.NoWriteRefused serve s
            (fst (ArticleRows.run (Articles.withDryRun false cfg)
                    serve rows s)) ->
          Articles.LookupsReadOnly serve ->
          Articles.WritesAreLocal serve ->
          Articles.WritesKeepLookupsUp serve ->
          counters (fst (ArticleRows.run (Articles.withDryRun true cfg)
                           serve rows s))
          = counters (fst (ArticleRows.run (Articles.withDryRun false cfg)
                             serve rows s))))
  /\ (forall (RT : Runtime) (cfg : Migration.Config) (Store : Type)
             (serve : Store -> JsId * Migration.Payload -> Store * Reply)
             (pages : list Migration.Page) (s : Store),
         Migration.puts
           (Migration.run serve (Migration.withDryRun true cfg) pages s) = []
         /\ (Migration.NoPutRefused serve s
               (Migration.run serve (Migration.withDryRun false cfg)
                  pages s) ->
             Migration.counts
               (Migration.run serve (Migration.withDryRun true cfg) pages s)
             = Migration.counts
                 (Migration.run serve (Migration.withDryRun false cfg)
                    pages s)))
  /\ (forall (RT : Runtime) (cfg : Articles.Config) (Store : Type)
             (serve : Store -> Articles.Request -> Store * Reply),
         (forall line slug payload existing w st,
             articleWrite cfg payload existing = Some w ->
             refused (snd (serve (store st) w)) = true ->
             (exists st' e,
                 Articles.reconcile (Articles.withDryRun false cfg) serve
                   line slug payload existing st = (st', inl e)
                 /\ counters st' = counters st
                 /\ requests st' = requests st ++ [w])
             /\ (exists st',
                    Articles.reconcile (Articles.withDryRun true cfg) serve
                      line slug payload existing st = (st', inr tt)
                    /\ created st' + updated st'
                       = created st + updated st + 1
                    /\ skipped st' = skipped st /\ failed st' = failed st
                    /\ requests st' = requests st))
         /\ (forall row what st stx e,
                Input.stringOrEmpty (ArticleRows.r_title row) = inr what ->
                ArticleRows.rowBody cfg serve row st = (stx, inl e) ->
                exists st',
                  ArticleRows.processRow cfg serve row st = (st', inr tt)
                  /\ CountedFailed st st'))
  /\ (forall (RT : Runtime) (cfg : Migration.Config) (Store : Type)
             (serve : Store -> JsId * Migration.Payload -> Store * Reply)
             (st : Migration.Tally Store) (routePath : jsstring) (id : JsId)
             (blocks : list Blocks.Block),
         refused (snd (serve (Migration.store st)
                         (id, Migration.payloadOf cfg blocks))) = true ->
         let live :=
           Migration.tryUpdate serve (Migration.withDryRun false cfg) st
             routePath id blocks in
         let dry :=
           Migration.tryUpdate serve (Migration.withDryRun true cfg) st
             routePath id blocks in
         Migration.failed live = Migration.failed st + 1
         /\ Migration.updated live = Migration.updated st
         /\ Migration.puts live
            = Migration.puts st ++ [(id, Migration.payloadOf cfg blocks)]
         /\ Migration.updated dry = Migration.updated st + 1
         /\ Migration.failed dry = Migration.failed st
         /\ Migration.puts dry = Migration.puts st).
Proof.
  split; [|split; [|split]].
  - intros. apply article_rows_dry_mirrors.
  - intros. apply migration_dry_mirrors.
  - intros RT cfg Store serve. split.
    + intros. now apply article_refused_write.
    + intros row what st stx e Hwhat H.
      destruct (article_rows_turn cfg serve row st Hwhat)
        as (st' & H1 & _ & _ & H2).
      exists st'. split; [exact H1 | now apply (H2 stx e)].
  - intros. now apply migration_refused_write.
Qed.

Lemma dry_run_mirrors_live_witness :
  counters (fst (ArticleRows.run (Articles.withDryRun true liveUpdate) memory
                   (unreadableSlug
                    :: map ArticleRows.ofTexts [helloRow; titledA; againA])
                   []))
  = counters (fst (ArticleRows.run (Articles.withDryRun false liveUpdate)
                     memory
                     (unreadableSlug
                      :: map ArticleRows.ofTexts [helloRow; titledA; againA])
                     []))
  /\ Migration.counts
       (Migration.run putAccepting (Migration.withDryRun true migrateAll)
          [legacyPage] 0)
     = Migration.counts
         (Migration.run putAccepting (Migration.withDryRun false migrateAll)
            [legacyPage] 0).
Proof.
  split.
  - apply (proj2 (proj1 dry_run_mirrors_live asciiRuntime liveUpdate
                    (list (jsstring * jsstring)) memory
                    (unreadableSlug
                     :: map ArticleRows.ofTexts [helloRow; titledA; againA])
                    [])).
    + reflexivity.
    + exact memory_readOnly.
    + exact memory_local.
    + exact memory_keepUp.
  - apply (proj2 (proj1 (proj2 dry_run_mirrors_live) asciiRuntime migrateAll
                    nat putAccepting [legacyPage] 0)).
    reflexivity.
Defined.

(** C6, as stated, fails: against a store that refuses the write, the dry
    run counts the row as created (the page as updated) and the live run
    counts it as failed. *)
Lemma dry_run_counts_refused_write :
  counters (fst (ArticleRows.run (Articles.withDryRun true liveUpdate)
                   refusing [readableTitle] tt)) = (1, 0, 0, 0)
  /\ counters (fst (ArticleRows.run (Articles.withDryRun false liveUpdate)
                      refusing [readableTitle] tt)) = (0, 0, 0, 1)
  /\ Migration.counts
       (Migration.run putRefusing (Migration.withDryRun true migrateAll)
          [legacyPage] tt) = (1, 0, 0, 0, 0)
  /\ Migration.counts
       (Migration.run putRefusing (Migration.withDryRun false migrateAll)
          [legacyPage] tt) = (0, 0, 0, 0, 1).
Proof. repeat split. Qed.
(* ================================================================== *)
(** * Further properties of the code *)
(* ================================================================== *)

(** ** More on strings *)

Lemma trim_kept (s : jsstring) : Ends isSpace s -> trim s = s.
Proof.
  intros [(c & r & Hs & Hc) (a & d & Hs' & Hd)].
  unfold trim, trimStart, trimEnd. rewrite Hs at 1.
  rewrite dropWhile_stop by assumption. rewrite <- Hs, Hs'.
  now apply stripTrailing_snoc_stop.
Qed.

Lemma snoc_cases (s : jsstring) : s = [] \/ exists a d, s = a ++ [d].
Proof.
  destruct s as [|c r]; [now left|]. right.
  destruct (exists_last (l := c :: r)) as (a & d & H); [discriminate|].
  now exists a, d.
Qed.

Lemma trim_edges (s : jsstring) : trim s = [] \/ Ends isSpace (trim s).
Proof.
  unfold trim, trimStart, trimEnd.
  destruct (dropWhile isSpace s) as [|c r] eqn:E; [now left|]. right.
  pose proof (dropWhile_head _ _ E) as Hc.
  rewrite stripTrailing_keeps by assumption. split.
  - now exists c, (stripTrailing isSpace r).
  - destruct (snoc_cases (c :: stripTrailing isSpace r)) as [H|(a & d & H)];
      [discriminate H|].
    exists a, d. split; [assumption|].
    rewrite <- (@stripTrailing_keeps isSpace c r Hc) in H.
    now apply stripTrailing_last in H.
Qed.

Lemma trim_idem (s : jsstring) : trim (trim s) = trim s.
Proof.
  destruct (trim_edges s) as [H|H]; [now rewrite H | now apply trim_kept].
Qed.

Lemma trim_wrap (ws1 ws2 s : jsstring) :
  forallb isSpace ws1 = true -> forallb isSpace ws2 = true ->
  Ends isSpace s -> trim (ws1 ++ s ++ ws2) = s.
Proof.
  intros H1 H2 Hs. rewrite trim_app_blank by assumption.
  destruct Hs as [(c & r & Hs & Hc) (a & d & Hs' & Hd)].
  unfold trim, trimStart, trimEnd. rewrite Hs at 1. cbn [app].
  rewrite dropWhile_stop by assumption.
  change (c :: r ++ ws2) with ((c :: r) ++ ws2). rewrite <- Hs.
  rewrite stripTrailing_app_all by assumption. rewrite Hs'.
  now apply stripTrailing_snoc_stop.
Qed.

Lemma dropWhile_nil_all (p : jschar -> bool) (s : jsstring) :
  dropWhile p s = [] -> forallb p s = true.
Proof.
  induction s as [|c r IH]; simpl; [reflexivity|].
  destruct (p c); [exact IH | discriminate].
Qed.

Lemma stripTrailing_nil_all (p : jschar -> bool) (s : jsstring) :
  stripTrailing p s = [] -> forallb p s = true.
Proof.
  unfold stripTrailing. intros H.
  apply (f_equal (@rev jschar)) in H. rewrite rev_involutive in H.
  cbn [rev] in H. apply dropWhile_nil_all in H.
  apply forallb_rev_true in H. now rewrite rev_involutive in H.
Qed.

(** ** Route paths in all their spellings *)

Lemma plainEnds_ends (core : jsstring) :
  plainEnds core = true ->
  (exists c r, core = c :: r /\ isSpace c = false /\ chareq SLASH c = false)
  /\ (exists a d,
         core = a ++ [d] /\ isSpace d = false /\ chareq SLASH d = false).
Proof.
  destruct core as [|c r]; [discriminate|]. unfold plainEnds.
  intros H. apply andb_true_iff in H. destruct H as [H1 H2].
  apply negb_true_iff, orb_false_iff in H1.
  apply negb_true_iff, orb_false_iff in H2. split.
  - now exists c, r.
  - exists (removelast (c :: r)), (last (c :: r) c). split; [|exact H2].
    apply app_removelast_last. discriminate.
Qed.

Lemma normalizePath_core (ws1 ws2 core : jsstring) (j k : nat) :
  forallb isSpace ws1 = true -> forallb isSpace ws2 = true -> j <= 1 ->
  plainEnds core = true ->
  Normalizer.normalizePath
    (Some (ws1 ++ (repeat SLASH j ++ core ++ repeat SLASH k) ++ ws2))
  = SLASH :: core.
Proof.
  intros H1 H2 Hj Hcore.
  destruct (plainEnds_ends _ Hcore)
    as [(c & r & Hc & Hcs & Hcl) (a & d & Ha & Hds & Hdl)].
  set (x := repeat SLASH j ++ core ++ repeat SLASH k).
  assert (Hx : Ends isSpace x).
  { split.
    - destruct j as [|j]; [exists c, (r ++ repeat SLASH k)|].
      + split; [|assumption]. unfold x. cbn [repeat app]. now rewrite Hc.
      + exists SLASH, (repeat SLASH j ++ core ++ repeat SLASH k).
        split; reflexivity.
    - destruct k as [|k].
      + exists (repeat SLASH j ++ a), d. split; [|assumption].
        unfold x. cbn [repeat]. rewrite app_nil_r, Ha.
        now rewrite app_assoc.
      + exists (repeat SLASH j ++ core ++ repeat SLASH k), SLASH.
        split; [|reflexivity]. unfold x.
        replace (repeat SLASH (S k)) with (repeat SLASH k ++ [SLASH])
          by (now rewrite <- repeat_cons).
        now rewrite <- !app_assoc. }
  unfold Normalizer.normalizePath. cbn [str]. cbv zeta.
  rewrite (trim_wrap ws1 ws2 H1 H2 Hx).
  assert (Hne : negb (truthy x) || streq x [SLASH] = false).
  { destruct (streq x [SLASH]) eqn:E.
    - exfalso. apply streq_true in E.
      assert (Hin : In c x).
      { unfold x. rewrite Hc. apply in_or_app. right. now left. }
      rewrite E in Hin. destruct Hin as [Hin|[]]. subst c.
      now rewrite chareq_refl in Hcl.
    - destruct Hx as [(c0 & r0 & Hx & _) _]. now rewrite Hx. }
  rewrite Hne.
  match goal with
  | |- stripTrailing _ ?w = _ =>
      assert (Hw : w = (SLASH :: core) ++ repeat SLASH k)
  end.
  { unfold x. destruct j as [|[|j]]; [| |lia].
    - cbn [repeat app]. rewrite Hc. cbn [app startsWith].
      rewrite Hcl. reflexivity.
    - cbn [repeat app startsWith]. now rewrite chareq_refl. }
  rewrite Hw.
  rewrite stripTrailing_app_all by apply repeat_all.
  change (SLASH :: core) with ([SLASH] ++ core). rewrite Ha, app_assoc.
  now apply stripTrailing_snoc_stop.
Qed.

Lemma normalizePath_core_witness :
  Normalizer.normalizePath
    (Some (lit "  " ++ (repeat SLASH 0 ++ lit "about/us" ++ repeat SLASH 2)
           ++ [LF]))
  = SLASH :: lit "about/us".
Proof.
  apply normalizePath_core; [reflexivity | reflexivity | lia | reflexivity].
Defined.

Lemma normalizePath_empty (pathname : option jsstring) :
  Normalizer.normalizePath pathname = []
  <-> exists k, 2 <= k /\ trim (str pathname) = repeat SLASH k.
Proof.
  unfold Normalizer.normalizePath. cbv zeta.
  set (t := trim (str pathname)). split.
  - destruct (negb (truthy t) || streq t [SLASH]) eqn:E; [discriminate|].
    apply orb_false_iff in E. destruct E as [Et Es]. intros H.
    apply stripTrailing_nil_all in H.
    destruct t as [|c r]; [discriminate Et|].
    cbn [startsWith] in H. destruct (chareq SLASH c) eqn:Ec.
    + cbn [andb] in H. apply all_repeat in H.
      exists (length (c :: r)). split; [|exact H].
      destruct r as [|c2 r]; [|cbn [length]; lia].
      exfalso. apply chareq_true in Ec. subst c. discriminate Es.
    + cbn [andb forallb] in H. rewrite Ec in H.
      apply andb_true_iff in H. destruct H as [_ H].
      apply andb_true_iff in H. destruct H as [H _]. discriminate H.
  - intros (k & Hk & Ht). rewrite Ht.
    destruct k as [|[|k]]; [lia | lia |].
    cbn [repeat truthy negb orb streq startsWith]. rewrite chareq_refl.
    cbn [andb]. apply (@stripTrailing_all (chareq SLASH)).
    apply (repeat_all SLASH (S (S k))).
Qed.

(** ** The paths of the redirects importer *)

Lemma normalisePath_cases (value : option jsstring) :
  let t := trim (str value) in
  RedirectsRun.normalisePath value
  = if truthy t then (if startsWith [SLASH] t then t else SLASH :: t) else [].
Proof.
  unfold RedirectsRun.normalisePath. cbv zeta.
  destruct value as [[|c s]|]; reflexivity || idtac.
  cbn [str truthy negb]. now destruct (truthy (trim (c :: s))).
Qed.

Lemma ends_cons (p : jschar -> bool) (c : jschar) (s : jsstring) :
  p c = false -> s = [] \/ Ends p s -> Ends p (c :: s).
Proof.
  intros Hc Hs. split; [now exists c, s|].
  destruct Hs as [->|[_ (a & d & -> & Hd)]].
  - now exists [], c.
  - now exists (c :: a), d.
Qed.

Lemma normalisePath_fixed (value : option jsstring) :
  RedirectsRun.normalisePath (Some (RedirectsRun.normalisePath value))
  = RedirectsRun.normalisePath value.
Proof.
  rewrite (normalisePath_cases value). cbv zeta.
  set (t := trim (str value)).
  destruct (truthy t) eqn:Et; [|reflexivity].
  assert (Ht : Ends isSpace t).
  { destruct (trim_edges (str value)) as [H|H]; [|exact H].
    fold t in H. rewrite H in Et. discriminate Et. }
  rewrite normalisePath_cases. cbv zeta. cbn [str].
  destruct (startsWith [SLASH] t) eqn:Es.
  - rewrite (trim_kept Ht), Et, Es. reflexivity.
  - rewrite trim_kept by (apply ends_cons; [reflexivity | now right]).
    cbn [truthy startsWith]. now rewrite chareq_refl.
Qed.

(** ** Slugs *)

Section MoreSlugFacts.
Import Normalizer.

Lemma slugChar_not_space (c : jschar) :
  isSlugChar c = true -> isSpace c = false.
Proof.
  unfold isSlugChar, isLowerAZ, isDigit, chareq, HYPHEN, isSpace.
  intros H. apply not_true_is_false. intros Hs.
  repeat rewrite ?orb_true_iff, ?andb_true_iff, ?N.leb_le, ?N.eqb_eq in H.
  repeat rewrite ?orb_true_iff, ?andb_true_iff, ?N.leb_le, ?N.eqb_eq in Hs.
  lia.
Qed.

Lemma slugChar_source (c : jschar) :
  isSlugChar c = true -> isSlugSource c = true.
Proof.
  unfold isSlugChar, isSlugSource. intros H.
  apply orb_true_iff in H. destruct H as [H|H].
  - apply orb_true_iff in H. destruct H as [H|H]; rewrite H;
      [reflexivity | now rewrite orb_true_r].
  - rewrite H. now rewrite !orb_true_r.
Qed.

Lemma filter_all {A} (p : A -> bool) (s : list A) :
  forallb p s = true -> filter p s = s.
Proof.
  induction s as [|c r IH]; simpl; [reflexivity|]. intros H.
  apply andb_true_iff in H. destruct H as [-> H]. now rewrite IH.
Qed.

Lemma replaceRuns_none (p : jschar -> bool) (by_ s : jsstring) (b : bool) :
  forallb (fun c => negb (p c)) s = true -> replaceRuns p by_ s b = s.
Proof.
  revert b. induction s as [|c r IH]; intros b; simpl; [reflexivity|].
  intros H. apply andb_true_iff in H. destruct H as [Hc H].
  apply negb_true_iff in Hc. rewrite Hc. now rewrite IH.
Qed.

(** Collapsing runs leaves a string without doubled character alone. *)
Lemma replaceRuns_single (h : jschar) (s : jsstring) :
  (forall a b, s <> a ++ [h; h] ++ b) ->
  replaceRuns (chareq h) [h] s false = s
  /\ ((forall r, s <> h :: r) -> replaceRuns (chareq h) [h] s true = s).
Proof.
  induction s as [|c r IH]; intros Hnd; [now split|].
  assert (Hr : forall a b, r <> a ++ [h; h] ++ b).
  { intros a b H. apply (Hnd (c :: a) b). now rewrite H. }
  destruct (IH Hr) as [IH1 IH2]. cbn [replaceRuns].
  destruct (chareq h c) eqn:E.
  - apply chareq_true in E. subst c. split.
    + cbn [app]. rewrite IH2; [reflexivity|].
      intros r' H. apply (Hnd [] r'). now rewrite H.
    + intros H. exfalso. now apply (H r).
  - split; [now rewrite IH1 | intros _; now rewrite IH1].
Qed.

Lemma stripEdgeHyphens_none (s : jsstring) :
  (forall r, s <> HYPHEN :: r) -> (forall r, s <> r ++ [HYPHEN]) ->
  stripEdgeHyphens s = s.
Proof.
  intros Hh Hl. destruct s as [|c r]; [reflexivity|].
  unfold stripEdgeHyphens.
  destruct (chareq c HYPHEN) eqn:E.
  - apply chareq_true in E. subst c. exfalso. now apply (Hh r).
  - unfold dropLastHyphen.
    destruct (rev (c :: r)) as [|d r'] eqn:Er; [|].
    + apply (f_equal (@rev jschar)) in Er. rewrite rev_involutive in Er.
      discriminate Er.
    + destruct (chareq d HYPHEN) eqn:Ed; [|reflexivity].
      apply chareq_true in Ed. subst d. exfalso.
      apply (Hl (rev r')). apply (f_equal (@rev jschar)) in Er.
      rewrite rev_involutive in Er. exact Er.
Qed.

Lemma all_ends (p q : jschar -> bool) (s : jsstring) :
  (forall c, q c = true -> p c = false) -> forallb q s = true ->
  s = [] \/ Ends p s.
Proof.
  intros Hpq Hs. destruct s as [|c r]; [now left|]. right.
  rewrite forallb_forall in Hs. split.
  - exists c, r. split; [reflexivity|]. apply Hpq, Hs. now left.
  - destruct (snoc_cases (c :: r)) as [H|(a & d & H)]; [discriminate H|].
    exists a, d. split; [exact H|]. apply Hpq, Hs. rewrite H.
    apply in_or_app. right. now left.
Qed.

Lemma slugify_fixed {RT : Runtime} (value : option jsstring) :
  (forall s, forallb isSlugChar s = true -> toLowerCase s = s) ->
  slugify (Some (slugify value)) = slugify value.
Proof.
  intros Hlow. destruct (slugify_shape value) as (Hc & Hh & Hl & Hnd).
  cbv zeta in Hc, Hh, Hl, Hnd. set (s := slugify value) in *.
  unfold slugify at 1. cbn [str].
  assert (Ht : trim s = s).
  { destruct (all_ends isSpace isSlugChar s slugChar_not_space Hc) as [->|H];
      [reflexivity | now apply trim_kept]. }
  rewrite Ht, (Hlow s Hc).
  rewrite filter_all
    by (apply forallb_forall; intros x Hx; apply slugChar_source;
        rewrite forallb_forall in Hc; now apply Hc).
  rewrite (@replaceRuns_none isSpace [HYPHEN] s false)
    by (apply forallb_forall; intros x Hx; apply negb_true_iff,
        slugChar_not_space; rewrite forallb_forall in Hc; now apply Hc).
  rewrite (proj1 (@replaceRuns_single HYPHEN s Hnd)).
  now apply stripEdgeHyphens_none.
Qed.

End MoreSlugFacts.

Section EmptySlug.
Import Normalizer.

Lemma forallb_false_ex {A} (p : A -> bool) (l : list A) :
  forallb p l = false -> exists x, In x l /\ p x = false.
Proof.
  induction l as [|x l IH]; simpl; [discriminate|].
  destruct (p x) eqn:E; cbn [andb].
  - intros H. destruct (IH H) as (y & Hy & Hp). exists y. auto.
  - intros _. exists x. auto.
Qed.

Lemma replaceRuns_keeps (p : jschar -> bool) (by_ s : jsstring) (b : bool)
    (c : jschar) :
  In c s -> p c = false -> In c (replaceRuns p by_ s b).
Proof.
  intros Hin Hc. revert b. induction s as [|x r IH]; intros b; [destruct Hin|].
  cbn [replaceRuns]. destruct Hin as [->|Hin].
  - rewrite Hc. now left.
  - destruct (p x); [destruct b|].
    + now apply IH.
    + apply in_or_app. right. now apply IH.
    + right. now apply IH.
Qed.

Lemma dropLastHyphen_keeps (s : jsstring) (c : jschar) :
  In c s -> chareq c HYPHEN = false -> In c (dropLastHyphen s).
Proof.
  intros Hin Hc. unfold dropLastHyphen.
  destruct (rev s) as [|d r] eqn:Er.
  - apply in_rev in Hin. rewrite Er in Hin. destruct Hin.
  - destruct (chareq d HYPHEN) eqn:Ed; [|exact Hin].
    apply in_rev in Hin. rewrite Er in Hin. apply in_rev.
    rewrite rev_involutive. destruct Hin as [->|Hin]; [congruence|exact Hin].
Qed.

Lemma stripEdgeHyphens_keeps (s : jsstring) (c : jschar) :
  In c s -> chareq c HYPHEN = false -> In c (stripEdgeHyphens s).
Proof.
  intros Hin Hc. destruct s as [|x r]; [destruct Hin|].
  unfold stripEdgeHyphens. destruct (chareq x HYPHEN) eqn:Ex.
  - destruct Hin as [->|Hin]; [congruence|]. now apply dropLastHyphen_keeps.
  - now apply dropLastHyphen_keeps.
Qed.

Lemma hyphens_of_blanks (s : jsstring) (b : bool) :
  forallb (fun c => isSpace c || chareq c HYPHEN) s = true ->
  forallb (chareq HYPHEN) (replaceRuns isSpace [HYPHEN] s b) = true.
Proof.
  revert b. induction s as [|c r IH]; intros b; [reflexivity|].
  cbn [forallb replaceRuns]. intros H.
  apply andb_true_iff in H. destruct H as [Hc H].
  destruct (isSpace c) eqn:Es.
  - destruct b; [now apply IH|]. cbn [app forallb].
    rewrite chareq_refl. now apply IH.
  - cbn [orb] in Hc. apply chareq_true in Hc. subst c.
    cbn [forallb]. rewrite chareq_refl. now apply IH.
Qed.

Lemma hyphens_to_one (s : jsstring) :
  forallb (chareq HYPHEN) s = true ->
  replaceRuns (chareq HYPHEN) [HYPHEN] s true = []
  /\ (replaceRuns (chareq HYPHEN) [HYPHEN] s false = []
      \/ replaceRuns (chareq HYPHEN) [HYPHEN] s false = [HYPHEN]).
Proof.
  induction s as [|c r IH]; [intros _; split; [reflexivity | now left]|].
  cbn [forallb replaceRuns]. intros H.
  apply andb_true_iff in H. destruct H as [Hc H]. rewrite Hc.
  destruct (IH H) as [IH1 _]. rewrite IH1. split; [reflexivity | now right].
Qed.

Lemma alnum_not (c : jschar) :
  isLowerAZ c || isDigit c = true ->
  isSpace c = false /\ chareq HYPHEN c = false /\ chareq c HYPHEN = false
  /\ isSlugSource c = true.
Proof.
  intros H.
  assert (Hs : isSlugChar c = true) by (unfold isSlugChar; now rewrite H).
  assert (Hh : chareq c HYPHEN = false).
  { apply not_true_is_false. intros E. apply chareq_true in E. subst c.
    discriminate H. }
  split; [now apply slugChar_not_space|]. split; [|split].
  - unfold chareq in *. now rewrite N.eqb_sym.
  - exact Hh.
  - now apply slugChar_source.
Qed.

Lemma slugify_nil {RT : Runtime} (value : option jsstring) :
  slugify value = []
  <-> forallb (fun c => negb (isLowerAZ c || isDigit c))
        (toLowerCase (trim (str value))) = true.
Proof.
  unfold slugify. cbv zeta. set (L := toLowerCase (trim (str value))).
  split.
  - intros H.
    destruct (forallb (fun c => negb (isLowerAZ c || isDigit c)) L) eqn:E;
      [reflexivity|]. exfalso.
    apply forallb_false_ex in E. destruct E as (c & Hin & Hc).
    apply negb_false_iff, alnum_not in Hc.
    destruct Hc as (Hs & Hh & Hh' & Hsrc).
    assert (Hin' : In c (stripEdgeHyphens
              (replaceRuns (chareq HYPHEN) [HYPHEN]
                 (replaceRuns isSpace [HYPHEN]
                    (filter isSlugSource L) false) false))).
    { apply stripEdgeHyphens_keeps; [|exact Hh'].
      apply replaceRuns_keeps; [|exact Hh].
      apply replaceRuns_keeps; [|exact Hs].
      apply filter_In. now split. }
    rewrite H in Hin'. destruct Hin'.
  - intros H.
    assert (H1 : forallb (fun c => isSpace c || chareq c HYPHEN)
                   (filter isSlugSource L) = true).
    { apply forallb_forall. intros c Hc. apply filter_In in Hc.
      destruct Hc as [Hin Hsrc]. rewrite forallb_forall in H.
      specialize (H c Hin). apply negb_true_iff in H.
      unfold isSlugSource in Hsrc. rewrite <- !orb_assoc in Hsrc.
      rewrite orb_assoc, H in Hsrc. exact Hsrc. }
    apply (hyphens_of_blanks _ false) in H1. apply hyphens_to_one in H1.
    destruct H1 as [_ [-> | ->]]; reflexivity.
Qed.

End EmptySlug.

(** ** The SEO description: when the minimum is reached *)

Section Squeezed.
Import Normalizer.

Lemma spaced_tail (c : jschar) (r : jsstring) :
  spaced (c :: r) = true -> spaced r = true.
Proof. cbn [spaced]. intros H. now apply andb_true_iff in H. Qed.

Lemma spaced_suffix (a b : jsstring) :
  spaced (a ++ b) = true -> spaced b = true.
Proof.
  induction a as [|c a IH]; [auto|]. intros H. apply IH.
  now apply spaced_tail in H.
Qed.

Lemma spaced_prefix (a b : jsstring) :
  spaced (a ++ b) = true -> spaced a = true.
Proof.
  induction a as [|c a IH]; [reflexivity|]. cbn [app spaced]. intros H.
  apply andb_true_iff in H. destruct H as [Hc H].
  rewrite (IH H), andb_true_r.
  destruct (isSpace c); [|reflexivity]. cbn [negb orb] in Hc |- *.
  apply andb_true_iff in Hc. destruct Hc as [-> Hn]. cbn [andb].
  destruct a as [|d a]; [reflexivity | exact Hn].
Qed.

Lemma replaceRuns_spaced (s : jsstring) (b : bool) :
  spaced (replaceRuns isSpace [SPACE] s b) = true
  /\ (b = true -> headClear (replaceRuns isSpace [SPACE] s b) = true).
Proof.
  revert b. induction s as [|c r IH]; intros b; [now split|].
  cbn [replaceRuns]. destruct (isSpace c) eqn:Ec.
  - destruct b.
    + apply IH.
    + destruct (IH true) as [IH1 IH2]. split; [|discriminate].
      cbn [app spaced]. rewrite IH1, andb_true_r. cbn [isSpace].
      specialize (IH2 eq_refl). unfold headClear in IH2.
      now rewrite IH2.
  - destruct (IH false) as [IH1 _]. split.
    + cbn [spaced]. now rewrite Ec, IH1.
    + intros _. cbn [headClear]. now rewrite Ec.
Qed.

Lemma squeeze_spaced (s : jsstring) : spaced (squeeze s) = true.
Proof.
  unfold squeeze, trim, trimStart, trimEnd.
  set (r := replaceRuns isSpace [SPACE] s false).
  assert (Hr : spaced r = true) by apply replaceRuns_spaced.
  assert (Hd : spaced (dropWhile isSpace r) = true).
  { apply (spaced_suffix (takeWhile isSpace r)). now rewrite take_drop_while. }
  destruct (stripTrailing_prefix isSpace (dropWhile isSpace r)) as [x Hx].
  rewrite Hx in Hd. now apply spaced_prefix in Hd.
Qed.

Lemma squeeze_trimmed (s : jsstring) : trim (squeeze s) = squeeze s.
Proof. unfold squeeze. apply trim_idem. Qed.

(** A text is in squeezed form when squeezing has nothing left to do. *)
Lemma replaceRuns_squeezed (t : jsstring) :
  spaced t = true -> (forall a d, t = a ++ [d] -> isSpace d = false) ->
  replaceRuns isSpace [SPACE] t false = t
  /\ (headClear t = true -> replaceRuns isSpace [SPACE] t true = t).
Proof.
  induction t as [|c r IH]; intros Hs Hl; [now split|].
  assert (Hl' : forall a d, r = a ++ [d] -> isSpace d = false).
  { intros a d H. apply (Hl (c :: a) d). now rewrite H. }
  destruct (IH (spaced_tail _ _ Hs) Hl') as [IH1 IH2].
  cbn [replaceRuns]. cbn [spaced] in Hs.
  apply andb_true_iff in Hs. destruct Hs as [Hc _].
  destruct (isSpace c) eqn:Ec.
  - cbn [negb orb] in Hc. apply andb_true_iff in Hc. destruct Hc as [Hc Hn].
    apply chareq_true in Hc. subst c. split; [|discriminate].
    cbn [app]. rewrite IH2; [reflexivity|].
    destruct r as [|d r]; [|exact Hn].
    exfalso. specialize (Hl [] SPACE eq_refl). discriminate Hl.
  - split; [now rewrite IH1 | intros _; now rewrite IH1].
Qed.

Lemma trimmed_last (t a : jsstring) (d : jschar) :
  trim t = t -> t = a ++ [d] -> isSpace d = false.
Proof.
  intros Ht H. destruct (trim_edges t) as [E|[_ (a' & d' & E & Hd)]];
    rewrite Ht in E.
  - rewrite E in H. now destruct a.
  - rewrite E in H. apply app_inj_tail in H. destruct H as [_ <-]. exact Hd.
Qed.

Lemma squeeze_fixed (t : jsstring) :
  spaced t = true -> trim t = t -> squeeze t = t.
Proof.
  intros Hs Ht. unfold squeeze.
  rewrite (proj1 (replaceRuns_squeezed Hs (fun a d => @trimmed_last t a d Ht))).
  exact Ht.
Qed.

Lemma spaced_glue (t u : jsstring) :
  spaced t = true -> (forall a d, t = a ++ [d] -> isSpace d = false) ->
  spaced u = true -> headClear u = true ->
  spaced (t ++ SPACE :: u) = true.
Proof.
  intros Ht Hl Hu Hh. induction t as [|c r IH].
  - cbn [app spaced]. rewrite Hu, andb_true_r. cbn [isSpace negb orb].
    unfold headClear in Hh. now rewrite chareq_refl.
  - cbn [app spaced]. rewrite IH.
    + rewrite andb_true_r. cbn [spaced] in Ht.
      apply andb_true_iff in Ht. destruct Ht as [Hc _].
      destruct (isSpace c) eqn:Ec; [|reflexivity].
      cbn [negb orb] in Hc |- *. apply andb_true_iff in Hc.
      destruct Hc as [-> Hn]. cbn [andb].
      destruct r as [|d r]; [|exact Hn].
      exfalso. specialize (Hl [] c eq_refl). congruence.
    + now apply spaced_tail in Ht.
    + intros a d H. apply (Hl (c :: a) d). now rewrite H.
Qed.

Lemma squeeze_glue (t u : jsstring) :
  spaced t = true -> trim t = t -> t <> [] ->
  spaced u = true -> trim u = u -> u <> [] ->
  squeeze (t ++ [SPACE] ++ u) = t ++ [SPACE] ++ u.
Proof.
  intros Hst Ht Hnt Hsu Hu Hnu.
  pose proof (trim_edges t) as Et. rewrite Ht in Et.
  destruct Et as [E|[(c & r & Ec & Hc) _]]; [contradiction|].
  pose proof (trim_edges u) as Eu. rewrite Hu in Eu.
  destruct Eu as [E|[(c' & r' & Ec' & Hc') (a & d & Ea & Hd)]];
    [contradiction|].
  apply squeeze_fixed.
  - apply spaced_glue; auto.
    + intros a0 d0. now apply trimmed_last.
    + rewrite Ec'. cbn [headClear]. now rewrite Hc'.
  - apply trim_kept. split.
    + exists c, (r ++ [SPACE] ++ u). split; [now rewrite Ec|exact Hc].
    + exists (t ++ [SPACE] ++ a), d. split; [|exact Hd].
      rewrite Ea. now rewrite <- !app_assoc.
Qed.

Lemma spaced_pair (a : jsstring) (e d : jschar) (r : jsstring) :
  spaced (a ++ e :: d :: r) = true -> isSpace e = true -> isSpace d = false.
Proof.
  intros H He. apply spaced_suffix in H. cbn [spaced] in H.
  apply andb_true_iff in H. destruct H as [H _]. rewrite He in H.
  cbn [negb orb] in H. apply andb_true_iff in H. destruct H as [_ H].
  now apply negb_true_iff in H.
Qed.

Lemma trimEnd_spaced (x : jsstring) :
  spaced x = true -> length x <= S (length (trimEnd x)).
Proof.
  intros Hs. unfold trimEnd.
  destruct (snoc_cases x) as [->|(a & d & ->)]; [cbn; lia|].
  destruct (isSpace d) eqn:Ed.
  - rewrite stripTrailing_app_all by (cbn; now rewrite Ed).
    destruct (snoc_cases a) as [->|(a' & e & ->)]; [cbn; lia|].
    destruct (isSpace e) eqn:Ee.
    + exfalso. rewrite <- app_assoc in Hs. cbn [app] in Hs.
      apply spaced_pair in Hs; [congruence | exact Ee].
    + rewrite stripTrailing_snoc_stop by exact Ee.
      rewrite !length_app. cbn [length]. lia.
  - rewrite stripTrailing_snoc_stop by exact Ed. lia.
Qed.

End Squeezed.

Section Minimum.
Import Normalizer.

Lemma combined_squeezed (value fallback : option jsstring) :
  spaced (combined value fallback) = true
  /\ trim (combined value fallback) = combined value fallback.
Proof.
  unfold combined. cbv zeta.
  destruct ((length (squeeze (str value)) <? 120)
            && truthy (squeeze (str fallback)));
    split; auto using squeeze_spaced, squeeze_trimmed.
Qed.

Lemma truncated_length (text : jsstring) :
  spaced text = true -> 155 < length text ->
  154 <= length (trimEnd (slice0 (155 - 1) text) ++ [ELLIPSIS]).
Proof.
  intros Hs Hl. rewrite length_app. cbn [length].
  assert (Hp : spaced (slice0 (155 - 1) text) = true).
  { apply (spaced_prefix _ (skipn (155 - 1) text)). unfold slice0.
    now rewrite firstn_skipn. }
  apply trimEnd_spaced in Hp. unfold slice0 in Hp |- *.
  rewrite length_firstn in Hp. lia.
Qed.

Lemma metaDescription_from_combined (value fallback : option jsstring) :
  buildMetaDescription value fallback
  = let text := combined value fallback in
    let text :=
      if length text <? 120 then
        squeeze (if truthy text then text ++ [SPACE] ++ padding else padding)
      else text in
    if 155 <? length text then
      trimEnd (slice0 (155 - 1) text) ++ [ELLIPSIS]
    else text.
Proof. reflexivity. Qed.

Lemma metaDescription_reaches (value fallback : option jsstring) :
  120 <= length (buildMetaDescription value fallback)
  <-> 3 <= length (combined value fallback).
Proof.
  rewrite metaDescription_from_combined. cbv zeta.
  destruct (combined_squeezed value fallback) as [Hs Ht].
  set (C := combined value fallback) in *.
  assert (Hp : spaced padding = true /\ trim padding = padding
               /\ length padding = 116) by (repeat split).
  destruct Hp as (Hps & Hpt & Hpl).
  destruct (length C <? 120) eqn:E120.
  - apply Nat.ltb_lt in E120. destruct C as [|c C'] eqn:EC.
    + cbn [truthy]. rewrite (squeeze_fixed Hps Hpt).
      rewrite Hpl. cbn [Nat.ltb Nat.leb length]. lia.
    + cbn [truthy]. rewrite <- EC in *.
      rewrite squeeze_glue; auto; try (rewrite EC; discriminate);
        try (intros H; rewrite H in Hpl; discriminate Hpl).
      assert (Hlen : length (C ++ [SPACE] ++ padding) = length C + 117)
        by (rewrite !length_app, Hpl; cbn [length]; lia).
      destruct (155 <? length (C ++ [SPACE] ++ padding)) eqn:E155.
      * apply Nat.ltb_lt in E155.
        assert (Hsp : spaced (C ++ [SPACE] ++ padding) = true).
        { rewrite <- (squeeze_glue (t := C) (u := padding)); auto;
            try (rewrite EC; discriminate);
            try (intros H; rewrite H in Hpl; discriminate Hpl).
          apply squeeze_spaced. }
        pose proof (@truncated_length _ Hsp E155). lia.
      * lia.
  - apply Nat.ltb_ge in E120.
    destruct (155 <? length C) eqn:E155.
    + apply Nat.ltb_lt in E155. pose proof (@truncated_length _ Hs E155). lia.
    + lia.
Qed.

End Minimum.

(** ** Tags *)

Section TagFacts.
Import Articles.

Lemma trim_sub (s : jsstring) (c : jschar) : In c (trim s) -> In c s.
Proof.
  unfold trim, trimStart, trimEnd. intros H.
  destruct (stripTrailing_prefix isSpace (dropWhile isSpace s)) as [x Hx].
  rewrite <- (take_drop_while isSpace s). apply in_or_app. right.
  rewrite Hx. apply in_or_app. now left.
Qed.

Lemma trimmed_items (items : list jsstring) (t : jsstring) :
  In t (filter truthy (map trim items)) ->
  t <> [] /\ trim t = t /\ exists x, In x items /\ t = trim x.
Proof.
  intros H. apply filter_In in H. destruct H as [H Ht].
  apply in_map_iff in H. destruct H as (x & <- & Hx). split; [|split].
  - intros E. rewrite E in Ht. discriminate Ht.
  - apply trim_idem.
  - now exists x.
Qed.

Lemma splitTags_pieces (s cur : jsstring) (piece : jsstring) (c : jschar) :
  In piece (splitTags s cur) -> In c piece ->
  (forall x, In x cur -> isTagSeparator x = false) ->
  isTagSeparator c = false.
Proof.
  revert cur. induction s as [|x r IH]; intros cur Hp Hc Hcur.
  - destruct Hp as [<-|[]]. apply Hcur. now apply in_rev.
  - cbn [splitTags] in Hp. fold (isTagSeparator x) in Hp.
    destruct (isTagSeparator x) eqn:Ex.
    + destruct Hp as [<-|Hp].
      * apply Hcur. now apply in_rev.
      * apply (IH [] Hp Hc). intros y [].
    + apply (IH (x :: cur) Hp Hc). intros y [<-|Hy]; auto.
Qed.

Lemma splitTags_plain (x rest cur : jsstring) :
  forallb (fun c => negb (isTagSeparator c)) x = true ->
  splitTags (x ++ rest) cur = splitTags rest (rev x ++ cur).
Proof.
  revert cur. induction x as [|c x IH]; intros cur H; [reflexivity|].
  cbn [forallb] in H. apply andb_true_iff in H. destruct H as [Hc H].
  apply negb_true_iff in Hc. unfold isTagSeparator in Hc.
  cbn [app splitTags]. rewrite Hc, IH by assumption.
  cbn [rev]. now rewrite <- app_assoc.
Qed.

Lemma blank_not_separator (ws : jsstring) :
  forallb isSpace ws = true ->
  forallb (fun c => negb (isTagSeparator c)) ws = true.
Proof.
  intros H. apply forallb_forall. intros c Hc.
  rewrite forallb_forall in H. specialize (H c Hc).
  apply negb_true_iff. unfold isTagSeparator.
  apply orb_false_iff. split; apply not_true_is_false; intros E;
    apply chareq_true in E; subst c; discriminate H.
Qed.

Lemma forallb_app_true {A} (p : A -> bool) (a b : list A) :
  forallb p a = true -> forallb p b = true -> forallb p (a ++ b) = true.
Proof. intros Ha Hb. now rewrite forallb_app, Ha, Hb. Qed.

Lemma splitTags_join (ws1 ws2 : jsstring) (c : jschar) (tags : list jsstring) :
  forallb isSpace ws1 = true -> forallb isSpace ws2 = true ->
  isTagSeparator c = true ->
  (forall t, In t tags ->
     Ends isSpace t /\ forallb (fun c => negb (isTagSeparator c)) t = true) ->
  tags <> [] ->
  forall pre, forallb isSpace pre = true ->
    map trim (splitTags (pre ++ join (ws1 ++ [c] ++ ws2) tags) []) = tags.
Proof.
  intros H1 H2 Hc. induction tags as [|t more IH]; intros Ht Hne pre Hpre;
    [contradiction|].
  destruct (Ht t (or_introl eq_refl)) as [Hte Htn].
  destruct more as [|t' more].
  - cbn [join].
    rewrite <- (app_nil_r (pre ++ t)).
    rewrite splitTags_plain
      by (apply forallb_app_true; auto using blank_not_separator).
    cbn [splitTags map]. rewrite app_nil_r, rev_involutive.
    rewrite <- (app_nil_r t) at 1. rewrite trim_wrap; auto.
  - change (join (ws1 ++ [c] ++ ws2) (t :: t' :: more))
      with (t ++ (ws1 ++ [c] ++ ws2) ++ join (ws1 ++ [c] ++ ws2) (t' :: more)).
    replace (pre ++ t ++ (ws1 ++ [c] ++ ws2)
             ++ join (ws1 ++ [c] ++ ws2) (t' :: more))
      with ((pre ++ t ++ ws1)
            ++ c :: ws2 ++ join (ws1 ++ [c] ++ ws2) (t' :: more))
      by (now rewrite <- !app_assoc).
    rewrite splitTags_plain
      by (repeat apply forallb_app_true; auto using blank_not_separator).
    cbn [splitTags]. fold (isTagSeparator c). rewrite Hc.
    cbn [map]. rewrite app_nil_r, rev_involutive.
    rewrite trim_wrap by auto. f_equal.
    apply IH; [|discriminate|exact H2].
    intros u Hu. apply Ht. now right.
Qed.

Lemma parseTags_items (value : Tags) (t : jsstring) :
  In t (parseTags value) -> t <> [] /\ trim t = t.
Proof.
  destruct value as [items|v]; cbn [parseTags].
  - intros H. apply trimmed_items in H. tauto.
  - destruct (negb (truthy (trim (str v)))); [intros []|].
    intros H. apply trimmed_items in H. tauto.
Qed.

Lemma parseTags_text (v : option jsstring) (t : jsstring) (c : jschar) :
  In t (parseTags (TagText v)) -> In c t -> isTagSeparator c = false.
Proof.
  cbn [parseTags]. destruct (negb (truthy (trim (str v)))); [intros []|].
  intros H Hc. apply trimmed_items in H.
  destruct H as (_ & _ & x & Hx & ->). apply trim_sub in Hc.
  apply (@splitTags_pieces _ _ _ _ Hx Hc). intros y [].
Qed.

Lemma parseTags_join (ws1 ws2 : jsstring) (c : jschar) (tags : list jsstring) :
  forallb isSpace ws1 = true -> forallb isSpace ws2 = true ->
  isTagSeparator c = true ->
  (forall t, In t tags ->
     Ends isSpace t /\ forallb (fun c => negb (isTagSeparator c)) t = true) ->
  parseTags (TagText (Some (join (ws1 ++ [c] ++ ws2) tags))) = tags.
Proof.
  intros H1 H2 Hc Ht. destruct tags as [|t more]; [reflexivity|].
  cbn [parseTags str].
  set (text := join (ws1 ++ [c] ++ ws2) (t :: more)).
  assert (Htext : Ends isSpace text).
  { unfold text. clear - Ht. revert t Ht.
    induction more as [|t' more IH]; intros t Ht.
    - apply Ht. now left.
    - change (join (ws1 ++ [c] ++ ws2) (t :: t' :: more))
        with (t ++ (ws1 ++ [c] ++ ws2)
              ++ join (ws1 ++ [c] ++ ws2) (t' :: more)).
      destruct (Ht t (or_introl eq_refl)) as [[(x & r & -> & Hx) _] _].
      destruct (IH t') as [_ (a & d & -> & Hd)].
      { intros u Hu. apply Ht. now right. }
      split.
      + now exists x, (r ++ (ws1 ++ [c] ++ ws2) ++ a ++ [d]).
      + exists ((x :: r) ++ (ws1 ++ [c] ++ ws2) ++ a), d.
        split; [now rewrite <- !app_assoc | exact Hd]. }
  rewrite (trim_kept Htext).
  destruct Htext as [(x & r & Hx & _) _]. rewrite Hx at 1.
  cbn [truthy negb]. unfold text.
  change (join (ws1 ++ [c] ++ ws2) (t :: more))
    with ([] ++ join (ws1 ++ [c] ++ ws2) (t :: more)).
  rewrite (@splitTags_join ws1 ws2 c (t :: more) H1 H2 Hc Ht
             ltac:(discriminate) [] eq_refl).
  apply filter_all. apply forallb_forall. intros u Hu.
  destruct (Ht u Hu) as [[(y & r' & -> & _) _] _]. reflexivity.
Qed.

End TagFacts.

(** ** The block converter: one block for every candidate *)

Section MoreBlockFacts.
Import Blocks.

Lemma ends_truthy (p : jschar -> bool) (s : jsstring) :
  Ends p s -> truthy s = true.
Proof. intros [(c & r & -> & _) _]. reflexivity. Qed.

Lemma ends_nonempty (p : jschar -> bool) (s : jsstring) : Ends p s -> s <> [].
Proof. intros [(c & r & -> & _) _]. discriminate. Qed.

Lemma trimmed_ends (s : jsstring) :
  truthy (trim s) = true -> Ends isSpace (trim s).
Proof.
  intros H. destruct (trim_edges s) as [E|E]; [|exact E].
  rewrite E in H. discriminate H.
Qed.

Lemma lines_ends (xs : list jsstring) (l : jsstring) :
  In l (filter truthy (map trim xs)) -> Ends isSpace l.
Proof.
  intros H. apply filter_In in H. destruct H as [H Ht].
  apply in_map_iff in H. destruct H as (x & <- & _).
  now apply trimmed_ends.
Qed.

Lemma suffix_last (pre suf a : jsstring) (d : jschar) :
  pre ++ suf = a ++ [d] -> suf <> [] -> exists a', suf = a' ++ [d].
Proof.
  intros H Hne. destruct (snoc_cases suf) as [->|(a' & d' & ->)];
    [contradiction|].
  rewrite app_assoc in H. apply app_inj_tail in H. destruct H as [_ ->].
  now exists a'.
Qed.

Lemma dropWhile_ends (p : jschar -> bool) (x a : jsstring) (d : jschar) :
  x = a ++ [d] -> p d = false -> Ends p (dropWhile p x).
Proof.
  intros -> Hd. rewrite dropWhile_snoc_stop by assumption. split.
  - destruct (dropWhile p a ++ [d]) as [|c r] eqn:E.
    + now destruct (dropWhile p a).
    + exists c, r. split; [reflexivity|].
      rewrite <- (@dropWhile_snoc_stop p a d Hd) in E.
      now apply dropWhile_head in E.
  - now exists (dropWhile p a), d.
Qed.

Lemma stripBullet_ends (l : jsstring) :
  Ends isSpace l -> Ends isSpace (stripBullet l).
Proof.
  intros Hl. unfold stripBullet.
  destruct (testBullet l) eqn:E; [|exact Hl].
  destruct l as [|c [|w rest]]; try discriminate E.
  destruct Hl as [_ (a & d & Ha & Hd)]. cbn [tl].
  destruct (@suffix_last [c] (w :: rest) a d Ha ltac:(discriminate))
    as (a' & Ha').
  exact (@dropWhile_ends isSpace _ _ _ Ha' Hd).
Qed.

Lemma stripNumbered_ends (l : jsstring) :
  Ends isSpace l -> Ends isSpace (stripNumbered l).
Proof.
  intros Hl. unfold stripNumbered.
  destruct (testNumbered l) eqn:E; [|exact Hl].
  unfold testNumbered in E.
  destruct (takeWhile isDigit l) as [|x xs] eqn:Et; [discriminate E|].
  destruct (dropWhile isDigit l) as [|dot [|w rest]] eqn:Ed;
    try discriminate E.
  destruct Hl as [_ (a & d & Ha & Hd)]. cbn [tl].
  pose proof (take_drop_while isDigit l) as Hsplit.
  rewrite Et, Ed, Ha in Hsplit.
  destruct (@suffix_last ((x :: xs) ++ [dot]) (w :: rest) a d)
    as (a' & Ha'); [now rewrite <- app_assoc | discriminate |].
  exact (@dropWhile_ends isSpace _ _ _ Ha' Hd).
Qed.

Lemma normalizeListLines_items (lines : list jsstring) :
  (forall l, In l lines -> Ends isSpace l) ->
  normalizeListLines lines
  = map (fun l => stripNumbered (stripBullet l)) lines
  /\ forall i, In i (normalizeListLines lines) -> Ends isSpace i.
Proof.
  intros H. unfold normalizeListLines.
  assert (H1 : filter truthy (map trim lines) = lines).
  { rewrite (map_ext_in trim (fun l => l)), map_id
      by (intros l Hl; apply trim_kept; auto).
    apply filter_all, forallb_forall. intros l Hl.
    apply (@ends_truthy isSpace). auto. }
  rewrite H1.
  assert (H2 : map (fun l => trim (stripNumbered (stripBullet l))) lines
               = map (fun l => stripNumbered (stripBullet l)) lines).
  { apply map_ext_in. intros l Hl. apply trim_kept.
    apply stripNumbered_ends, stripBullet_ends. auto. }
  rewrite H2.
  assert (H3 : forall i,
             In i (map (fun l => stripNumbered (stripBullet l)) lines) ->
             Ends isSpace i).
  { intros i Hi. apply in_map_iff in Hi. destruct Hi as (l & <- & Hl).
    apply stripNumbered_ends, stripBullet_ends. auto. }
  assert (H4 : filter truthy
                 (map (fun l => stripNumbered (stripBullet l)) lines)
               = map (fun l => stripNumbered (stripBullet l)) lines).
  { apply filter_all, forallb_forall. intros i Hi.
    apply (@ends_truthy isSpace). auto. }
  rewrite H4. split; [reflexivity | exact H3].
Qed.

(** The lines of a candidate block, as [convertContentToBlocks] reads
    them. *)
Lemma convertBlock_list (family block : jsstring) :
  let lines := filter truthy (map trim (splitChar LF block [])) in
  (negb (length lines =? 0) && forallb testBullet lines)
  || (negb (length lines =? 0) && forallb testNumbered lines) = true ->
  negb (length (normalizeListLines lines) =? 0) = true.
Proof.
  intros lines H.
  destruct (@normalizeListLines_items lines) as [-> _].
  { intros l. apply lines_ends. }
  rewrite length_map.
  apply orb_true_iff in H. destruct H as [H|H];
    apply andb_true_iff in H; apply H.
Qed.

Lemma convertBlock_one (family block : jsstring) :
  exists blk, convertBlock family [] block = [blk].
Proof.
  unfold convertBlock.
  destruct (matchHeading block) as [[marks text]|]; [eexists; reflexivity|].
  cbv zeta.
  match goal with
  | |- context [if ?c then _ else _] => destruct c eqn:E
  end; [|eexists; reflexivity].
  rewrite (convertBlock_list family block E). eexists. reflexivity.
Qed.

Lemma length_flat_map_one {A B} (f : A -> list B) (l : list A) :
  (forall x, exists y, f x = [y]) -> length (flat_map f l) = length l.
Proof.
  intros H. induction l as [|x l IH]; [reflexivity|].
  cbn [flat_map]. destruct (H x) as [y ->]. cbn [app length]. now rewrite IH.
Qed.

Lemma convert_length (family content : jsstring) :
  length (convertContentToBlocks family content)
  = length (splitTextBlocks content).
Proof.
  unfold convertContentToBlocks. rewrite convert_fold. cbn [app].
  apply length_flat_map_one. intros b. apply convertBlock_one.
Qed.

End MoreBlockFacts.

Section CandidateBlocks.
Import Blocks.

Lemma LF_blank (c : jschar) : isSpace c = false -> chareq c LF = false.
Proof.
  intros H. apply not_true_is_false. intros E. apply chareq_true in E.
  subst c. discriminate H.
Qed.

Lemma split_from (s : jsstring) :
  forall (cur : jsstring) (sk : bool) (piece : jsstring) (c : jschar),
    In piece (splitBlankLines s cur sk) -> In c piece -> In c s \/ In c cur.
Proof.
  induction s as [|x r IH]; intros cur sk piece c Hp Hc.
  - destruct Hp as [<-|[]]. right. now apply in_rev.
  - cbn [splitBlankLines] in Hp.
    assert (Hrec : forall cur' sk',
               In piece (splitBlankLines r cur' sk') ->
               (forall y, In y cur' -> y = x \/ In y cur) ->
               In c (x :: r) \/ In c cur).
    { intros cur' sk' H Hcur. destruct (IH cur' sk' piece c H Hc) as [H'|H'].
      - left. now right.
      - destruct (Hcur c H') as [->|H'']; [left; now left | now right]. }
    destruct (chareq x LF).
    + destruct sk; [apply (Hrec cur true Hp); auto|].
      destruct r as [|c2 r'].
      * apply (Hrec (x :: cur) false Hp). intros y [<-|Hy]; auto.
      * destruct (chareq c2 LF).
        -- destruct Hp as [<-|Hp].
           ++ right. now apply in_rev.
           ++ apply (Hrec [] true Hp). intros y [].
        -- apply (Hrec (x :: cur) false Hp). intros y [<-|Hy]; auto.
    + apply (Hrec (x :: cur) false Hp). intros y [<-|Hy]; auto.
Qed.

Lemma split_cover (s : jsstring) :
  forall (cur : jsstring) (sk : bool) (c : jschar),
    In c cur \/ (In c s /\ chareq c LF = false) ->
    exists piece, In piece (splitBlankLines s cur sk) /\ In c piece.
Proof.
  induction s as [|x r IH]; intros cur sk c H.
  - destruct H as [H|[[] _]]. exists (rev cur). split; [now left|].
    now apply in_rev in H.
  - cbn [splitBlankLines].
    assert (Hrec : forall sk',
               exists piece,
                 In piece (splitBlankLines r (x :: cur) sk') /\ In c piece).
    { intros sk'. apply IH. destruct H as [H|[[->|H] Hc]].
      - left. now right.
      - left. now left.
      - right. now split. }
    destruct (chareq x LF) eqn:Ex; [|apply Hrec].
    assert (H' : In c cur \/ In c r /\ chareq c LF = false).
    { destruct H as [H|[[->|H] Hc]]; [now left | congruence | now right]. }
    destruct sk; [now apply IH|].
    destruct r as [|c2 r']; [apply Hrec|].
    destruct (chareq c2 LF); [|apply Hrec].
    destruct H' as [H'|H'].
    + exists (rev cur). split; [now left | now apply in_rev in H'].
    + destruct (IH [] true c (or_intror H')) as (piece & Hp & Hc).
      exists piece. split; [now right | exact Hc].
Qed.

Lemma nodouble_snoc (x : jsstring) (d : jschar) :
  (forall a b, x <> a ++ [LF; LF] ++ b) ->
  chareq d LF = false \/ (forall a, x <> a ++ [LF]) ->
  forall a b, x ++ [d] <> a ++ [LF; LF] ++ b.
Proof.
  intros Hx Hd a b H.
  destruct (snoc_cases b) as [->|(b' & e & ->)].
  - change (a ++ [LF; LF] ++ []) with (a ++ [LF] ++ [LF]) in H.
    rewrite app_assoc in H. apply app_inj_tail in H. destruct H as [H ->].
    destruct Hd as [Hd|Hd]; [now rewrite chareq_refl in Hd|].
    now apply (Hd a).
  - replace (a ++ [LF; LF] ++ b' ++ [e]) with ((a ++ [LF; LF] ++ b') ++ [e])
      in H by (now rewrite <- !app_assoc).
    apply app_inj_tail in H. destruct H as [H _]. now apply (Hx a b').
Qed.

Lemma split_nodouble (s : jsstring) :
  forall (cur : jsstring) (sk : bool) (piece : jsstring),
    (forall a b, rev cur <> a ++ [LF; LF] ++ b) ->
    (forall cur', cur = LF :: cur' -> forall r, s <> LF :: r) ->
    In piece (splitBlankLines s cur sk) ->
    forall a b, piece <> a ++ [LF; LF] ++ b.
Proof.
  induction s as [|x r IH]; intros cur sk piece Hnd Hlf Hp.
  - destruct Hp as [<-|[]]. exact Hnd.
  - cbn [splitBlankLines] in Hp.
    assert (Hpush : forall sk',
               (chareq x LF = true ->
                (forall cur', cur <> LF :: cur') /\ forall r', r <> LF :: r') ->
               In piece (splitBlankLines r (x :: cur) sk') ->
               forall a b, piece <> a ++ [LF; LF] ++ b).
    { intros sk' Hx H. apply (IH (x :: cur) sk'); [| |exact H].
      - cbn [rev]. apply nodouble_snoc; [exact Hnd|].
        destruct (chareq x LF) eqn:Ex; [right|now left].
        intros a E. destruct (Hx eq_refl) as [Hcur _].
        apply (f_equal (@rev jschar)) in E.
        rewrite rev_involutive, rev_app_distr in E. now apply Hcur in E.
      - intros cur' E. injection E as -> _. intros r' ->.
        destruct (Hx (chareq_refl LF)) as [_ Hr]. now apply (Hr r'). }
    destruct (chareq x LF) eqn:Ex.
    + apply chareq_true in Ex. subst x.
      assert (Hcur : forall cur', cur <> LF :: cur').
      { intros cur' E. now apply (Hlf cur' E r). }
      destruct sk.
      * apply (IH cur true); [exact Hnd| |exact Hp].
        intros cur' E. now apply Hcur in E.
      * destruct r as [|c2 r'].
        -- apply (Hpush false); [|exact Hp]. intros _. split; [exact Hcur|].
           discriminate.
        -- destruct (chareq c2 LF) eqn:E2.
           ++ destruct Hp as [<-|Hp]; [exact Hnd|].
              apply (IH [] true); [|discriminate|exact Hp].
              intros a b. cbn [rev]. now destruct a.
           ++ apply (Hpush false); [|exact Hp]. intros _.
              split; [exact Hcur|]. intros r'' E. injection E as -> _.
              now rewrite chareq_refl in E2.
    + apply (Hpush false); [discriminate | exact Hp].
Qed.

Lemma trim_infix (s : jsstring) : exists pre post, s = pre ++ trim s ++ post.
Proof.
  unfold trim, trimStart, trimEnd.
  destruct (stripTrailing_prefix isSpace (dropWhile isSpace s)) as [x Hx].
  exists (takeWhile isSpace s), x. rewrite <- Hx. symmetry.
  apply take_drop_while.
Qed.

Lemma trim_nil_blank (s : jsstring) : trim s = [] -> forallb isSpace s = true.
Proof.
  unfold trim, trimStart, trimEnd. intros H.
  apply stripTrailing_nil_all in H.
  destruct (dropWhile isSpace s) as [|c r] eqn:E.
  - now apply dropWhile_nil_all.
  - apply dropWhile_head in E. cbn [forallb] in H. rewrite E in H.
    discriminate H.
Qed.

Lemma splitTextBlocks_blocks (content b : jsstring) :
  In b (splitTextBlocks content) ->
  Ends isSpace b /\ forall a c, b <> a ++ [LF; LF] ++ c.
Proof.
  intros H. split; [now apply lines_ends in H|].
  unfold splitTextBlocks in H. apply filter_In in H. destruct H as [H _].
  apply in_map_iff in H. destruct H as (piece & <- & Hp).
  intros a c E. destruct (trim_infix piece) as (pre & post & Hpiece).
  apply (@split_nodouble content [] false piece) with (a := pre ++ a)
    (b := c ++ post); try exact Hp.
  - intros a' b'. cbn [rev]. now destruct a'.
  - discriminate.
  - rewrite Hpiece at 1. rewrite E. now rewrite <- !app_assoc.
Qed.

Lemma splitTextBlocks_none (content : jsstring) :
  splitTextBlocks content = [] <-> trim content = [].
Proof.
  unfold splitTextBlocks. split.
  - intros H.
    destruct (forallb isSpace content) eqn:E; [now apply trim_blank|].
    exfalso. apply forallb_false_ex in E. destruct E as (c & Hin & Hc).
    destruct (@split_cover content [] false c) as (piece & Hp & Hcp).
    { right. split; [exact Hin | now apply LF_blank]. }
    assert (Hb : In (trim piece)
                   (filter truthy
                      (map trim (splitBlankLines content [] false)))).
    { apply filter_In. split; [now apply in_map|].
      destruct (trim piece) eqn:Et; [|reflexivity].
      apply trim_nil_blank in Et. rewrite forallb_forall in Et.
      rewrite (Et c Hcp) in Hc. discriminate Hc. }
    rewrite H in Hb. destruct Hb.
  - intros H. apply trim_nil_blank in H.
    destruct (filter truthy (map trim (splitBlankLines content [] false)))
      as [|b bs] eqn:E; [reflexivity|]. exfalso.
    assert (Hb : In b (b :: bs)) by now left.
    rewrite <- E in Hb. apply filter_In in Hb. destruct Hb as [Hb Ht].
    apply in_map_iff in Hb. destruct Hb as (piece & <- & Hp).
    rewrite trim_blank in Ht; [discriminate Ht|].
    apply forallb_forall. intros c Hc.
    destruct (@split_from content [] false piece c Hp Hc) as [Hin|[]].
    rewrite forallb_forall in H. now apply H.
Qed.

End CandidateBlocks.

Section RequiredFields.
Import Blocks.

Lemma splitChar_pieces (sep : jschar) (s : jsstring) :
  forall (cur piece : jsstring) (c : jschar),
    In piece (splitChar sep s cur) -> In c piece ->
    (forall x, In x cur -> chareq x sep = false) ->
    chareq c sep = false.
Proof.
  induction s as [|x r IH]; intros cur piece c Hp Hc Hcur.
  - destruct Hp as [<-|[]]. apply Hcur. now apply in_rev.
  - cbn [splitChar] in Hp. destruct (chareq x sep) eqn:Ex.
    + destruct Hp as [<-|Hp].
      * apply Hcur. now apply in_rev.
      * apply (IH [] piece c Hp Hc). intros y [].
    + apply (IH (x :: cur) piece c Hp Hc). intros y [<-|Hy]; auto.
Qed.

Lemma dropWhile_sub (p : jschar -> bool) (s : jsstring) (c : jschar) :
  In c (dropWhile p s) -> In c s.
Proof.
  intros H. rewrite <- (take_drop_while p s). apply in_or_app. now right.
Qed.

Lemma tl_sub (s : jsstring) (c : jschar) : In c (tl s) -> In c s.
Proof. destruct s; [auto | now right]. Qed.

Lemma stripBullet_sub (l : jsstring) (c : jschar) :
  In c (stripBullet l) -> In c l.
Proof.
  unfold stripBullet. destruct (testBullet l); [|auto].
  intros H. now apply tl_sub, (@dropWhile_sub isSpace).
Qed.

Lemma stripNumbered_sub (l : jsstring) (c : jschar) :
  In c (stripNumbered l) -> In c l.
Proof.
  unfold stripNumbered. destruct (testNumbered l); [|auto].
  intros H. apply (@dropWhile_sub isDigit), tl_sub.
  now apply (@dropWhile_sub isSpace).
Qed.

Lemma matchHeading_text (b marks text : jsstring) :
  Ends isSpace b -> matchHeading b = Some (marks, text) ->
  Ends isSpace (trim text).
Proof.
  intros Hb. unfold matchHeading.
  set (after := dropWhile (chareq HASH) b).
  destruct ((1 <=? length (takeWhile (chareq HASH) b))
            && (length (takeWhile (chareq HASH) b) <=? 4));
    [|discriminate].
  destruct (takeWhile isSpace after) as [|w ws] eqn:Et; [discriminate|].
  destruct (dropWhile isSpace after) as [|c rest] eqn:Ed.
  - exfalso.
    assert (Hall : forallb isSpace after = true)
      by now apply dropWhile_nil_all.
    assert (Hne : after <> []).
    { intros E. rewrite E in Et. discriminate Et. }
    destruct Hb as [_ (a & d & Ha & Hd)].
    pose proof (take_drop_while (chareq HASH) b) as Hsplit.
   fold after in Hsplit.
    rewrite Ha in Hsplit.
    destruct (@suffix_last _ _ _ _ Hsplit Hne) as (a' & Ha').
    rewrite Ha', forallb_app in Hall. cbn [forallb] in Hall.
    rewrite Hd, andb_false_r in Hall. discriminate Hall.
  - intros H. assert (Ht : text = c :: rest)
      by (destruct ws; now injection H as _ <-).
    subst text. apply trimmed_ends.
    pose proof (dropWhile_head _ _ Ed) as Hc.
    unfold trim, trimStart, trimEnd.
    rewrite dropWhile_stop, stripTrailing_keeps by assumption. reflexivity.
Qed.

Lemma convertBlock_wellFormed (family b : jsstring) (blk : Block) :
  Ends isSpace b -> In blk (convertBlock family [] b) -> wellFormedBlock blk.
Proof.
  intros Hb. unfold convertBlock.
  destruct (matchHeading b) as [[marks text]|] eqn:Eh.
  - intros [<-|[]]. cbn [wellFormedBlock].
    exact (matchHeading_text Hb Eh).
  - cbv zeta. set (lines := filter truthy (map trim (splitChar LF b []))).
    match goal with
    | |- context [if ?c then _ else _] => destruct c eqn:E
    end.
    + pose proof (convertBlock_list family b E) as Hlen.
      fold lines in Hlen. rewrite Hlen. cbn [app].
      intros [<-|[]]. cbn [wellFormedBlock].
      exists (normalizeListLines lines).
      destruct (@normalizeListLines_items lines) as [Hitems Hends].
      { intros l. apply lines_ends. }
      split; [|split; [|reflexivity]].
      * intros E0. rewrite E0 in Hlen. discriminate Hlen.
      * intros i Hi. split; [now apply Hends|].
        rewrite Hitems in Hi. apply in_map_iff in Hi.
        destruct Hi as (l & <- & Hl). intros Hlf.
        apply stripNumbered_sub, stripBullet_sub in Hlf.
        unfold lines in Hl. apply filter_In in Hl. destruct Hl as [Hl _].
        apply in_map_iff in Hl. destruct Hl as (piece & <- & Hp).
        apply trim_sub in Hlf.
        assert (Habs : chareq LF LF = false).
        { apply (@splitChar_pieces LF b [] piece LF Hp Hlf). intros y []. }
        now rewrite chareq_refl in Habs.
    + intros [<-|[]]. exact Hb.
Qed.

Lemma convert_wellFormed (family content : jsstring) (blk : Block) :
  In blk (convertContentToBlocks family content) -> wellFormedBlock blk.
Proof.
  unfold convertContentToBlocks. rewrite convert_fold. cbn [app].
  intros H. apply in_flat_map in H. destruct H as (b & Hb & Hblk).
  apply (@convertBlock_wellFormed family b blk); [|exact Hblk].
  now apply splitTextBlocks_blocks in Hb.
Qed.

End RequiredFields.

(** ** The tabular parser: record numbers, row mappings, round trips *)

Section MoreCsvFacts.
Import Csv.

Lemma seq_snoc (a n : nat) : seq a (S n) = seq a n ++ [a + n].
Proof. now rewrite seq_S. Qed.

Lemma numbered_pushRow (st : Scan) :
  Numbered st -> Numbered (nextLine (pushRow st)).
Proof.
  intros (H1 & H2 & H3). unfold Numbered. cbn.
  rewrite !length_app, H1, H3, H2. cbn [length].
  rewrite Nat.add_1_r, seq_snoc. repeat split; try lia.
Qed.

Lemma scan_numbered (n : nat) :
  forall (source : jsstring) (st : Scan),
    length source <= n -> Numbered st -> Numbered (scan source st).
Proof.
  induction n as [|n IH]; intros source st Hn Hst.
  - destruct source; [exact Hst | cbn in Hn; lia].
  - destruct source as [|char rest]; [exact Hst|].
    cbn [length] in Hn. cbn [scan].
    destruct (chareq char QUOTE).
    + destruct rest as [|next rest']; [apply IH; [cbn; lia | exact Hst]|].
      destruct (inQuotes st && chareq next QUOTE);
        apply IH; cbn [length] in *; try lia; exact Hst.
    + destruct (negb (inQuotes st) && chareq char COMMA);
        [apply IH; [lia | exact Hst]|].
      destruct (negb (inQuotes st) && (chareq char LF || chareq char CR));
        [|apply IH; [lia | exact Hst]].
      destruct rest as [|next rest'];
        [apply IH; [cbn; lia | now apply numbered_pushRow]|].
      destruct (chareq char CR && chareq next LF);
        apply IH; cbn [length] in *; try lia; now apply numbered_pushRow.
Qed.

Lemma flushed_lines (text : jsstring) :
  recordStartLines (flushed text)
  = seq 1 (length (records (flushed text))).
Proof.
  assert (H : Numbered (scanned text)).
  { unfold scanned. destruct text as [|c rest].
    - cbn. repeat split.
    - destruct (chareq c BOM);
        eapply scan_numbered; try apply le_n; repeat split. }
  unfold flushed.
  destruct (negb (length (cell (scanned text)) =? 0)
            || negb (length (row (scanned text)) =? 0)); [|apply H].
  destruct H as (H1 & H2 & H3). cbn.
  rewrite length_app, H1, H3, H2. cbn [length].
  rewrite Nat.add_1_r, seq_snoc. reflexivity.
Qed.

Lemma mapRows_lines (headers : list jsstring)
    (dataRows : list (list jsstring)) :
  forall (i a : nat) (mapped : list RowData),
    map line_ (mapRows headers dataRows (seq a (length dataRows)) i mapped)
    = map line_ mapped
      ++ map fst (filter (fun p => hasAnyValue (snd p))
                    (combine (seq a (length dataRows)) dataRows)).
Proof.
  induction dataRows as [|cells more IH]; intros i a mapped.
  - cbn. now rewrite app_nil_r.
  - cbn [length seq mapRows combine filter tl snd].
    destruct (hasAnyValue cells); cbn [negb].
    + rewrite IH, map_app, <- app_assoc. reflexivity.
    + apply IH.
Qed.

Lemma parseCsv_lines (text : jsstring) (rows : list RowData) :
  parseCsv text = inr rows ->
  map line_ rows
  = map fst (filter (fun p => hasAnyValue (snd p))
               (numbered (dataRecords text))).
Proof.
  unfold parseCsv, numbered, dataRecords.
  destruct (inQuotes (scanned text)); [discriminate|].
  pose proof (flushed_lines text) as Hl. unfold flushed in Hl.
  set (st := if negb (length (cell (scanned text)) =? 0)
                || negb (length (row (scanned text)) =? 0)
             then pushRow (scanned text) else scanned text) in *.
  change (flushed text) with st.
  destruct (records st) as [|first dataRows] eqn:Er.
  - intros H. injection H as <-. reflexivity.
  - destruct dataRows as [|second more].
    + intros H. injection H as <-. reflexivity.
    + cbn [length Nat.ltb Nat.leb]. intros H. injection H as <-.
      rewrite Hl.
      exact (mapRows_lines (map trim first) (second :: more) 0 2 []).
Qed.

(** *** Reading a cell of a row *)

Lemma ownProperty_putField (obj : list (jsstring * jsstring))
    (k v h : jsstring) :
  Redirects.ownProperty (putField obj k v) h
  = if streq k h then Some v else Redirects.ownProperty obj h.
Proof.
  induction obj as [|[k' v'] rest IH]; cbn [putField Redirects.ownProperty].
  - reflexivity.
  - destruct (streq k' k) eqn:Ek.
    + apply streq_true in Ek. subst k'. cbn [Redirects.ownProperty].
      now destruct (streq k h).
    + cbn [Redirects.ownProperty]. destruct (streq k' h) eqn:Eh.
      * apply streq_true in Eh. subst k'.
        rewrite streq_sym in Ek. now rewrite Ek.
      * exact IH.
Qed.

Lemma ownProperty_setField (obj : list (jsstring * jsstring))
    (k v h : jsstring) :
  Redirects.ownProperty (setField obj k v) h
  = if streq k PROTO_KEY then Redirects.ownProperty obj h
    else if streq k h then Some v else Redirects.ownProperty obj h.
Proof.
  unfold setField. destruct (streq k PROTO_KEY); [reflexivity|].
  apply ownProperty_putField.
Qed.

Lemma assignCells_other (headers cells : list jsstring)
    (obj : list (jsstring * jsstring)) (h : jsstring) :
  ~ In h headers ->
  Redirects.ownProperty (assignCells headers cells obj) h
  = Redirects.ownProperty obj h.
Proof.
  revert cells obj. induction headers as [|h0 hs IH]; intros cells obj Hn;
    [reflexivity|].
  cbn [assignCells]. rewrite IH by (intros H; apply Hn; now right).
  rewrite ownProperty_setField.
  destruct (streq h0 PROTO_KEY); [reflexivity|].
  destruct (streq h0 h) eqn:E; [|reflexivity].
  apply streq_true in E. exfalso. apply Hn. now left.
Qed.

Lemma assignCells_proto (headers cells : list jsstring)
    (obj : list (jsstring * jsstring)) :
  Redirects.ownProperty obj PROTO_KEY = None ->
  Redirects.ownProperty (assignCells headers cells obj) PROTO_KEY = None.
Proof.
  revert cells obj. induction headers as [|h0 hs IH]; intros cells obj H;
    [exact H|].
  cbn [assignCells]. apply IH. rewrite ownProperty_setField.
  destruct (streq h0 PROTO_KEY); exact H.
Qed.

Lemma assignCells_nth (headers : list jsstring) :
  forall (cells : list jsstring) (obj : list (jsstring * jsstring)) (i : nat),
    NoDup headers -> i < length headers ->
    nth i headers [] <> PROTO_KEY ->
    Redirects.ownProperty (assignCells headers cells obj) (nth i headers [])
    = Some (nth i cells []).
Proof.
  induction headers as [|h0 hs IH]; intros cells obj i Hnd Hi Hp;
    [cbn in Hi; lia|].
  inversion Hnd as [|? ? Hnotin Hnd']; subst. cbn [assignCells].
  destruct i as [|i].
  - cbn [nth] in *. rewrite assignCells_other by assumption.
    rewrite ownProperty_setField, streq_refl.
    destruct (streq h0 PROTO_KEY) eqn:E;
      [apply streq_true in E; contradiction|].
    now destruct cells.
  - cbn [nth length] in *. rewrite IH by (auto; lia).
    destruct cells; [now destruct i | reflexivity].
Qed.

Lemma ownProperty_without (obj : list (jsstring * jsstring))
    (key h : jsstring) :
  Redirects.ownProperty
    (filter (fun p => negb (streq (fst p) key)) obj) h
  = if streq key h then None else Redirects.ownProperty obj h.
Proof.
  induction obj as [|[k' v'] rest IH]; cbn [filter fst].
  - now destruct (streq key h).
  - destruct (streq k' key) eqn:Ek; cbn [negb].
    + apply streq_true in Ek. subst k'. rewrite IH.
      cbn [Redirects.ownProperty]. now destruct (streq key h).
    + cbn [Redirects.ownProperty]. rewrite IH.
      destruct (streq k' h) eqn:Eh; [|reflexivity].
      apply streq_true in Eh. subst k'. rewrite streq_sym in Ek.
      now rewrite Ek.
Qed.

(** What a row holds under a header, under [__proto__] and under
    [__line]. *)
Lemma rowCells_lookup (headers cells : list jsstring) (n : nat) :
  let row := setLine (assignCells headers cells []) n in
  (forall i, NoDup headers -> i < length headers ->
     nth i headers [] <> PROTO_KEY -> nth i headers [] <> LINE_KEY ->
     Redirects.ownProperty (fields row) (nth i headers [])
     = Some (nth i cells []))
  /\ Redirects.ownProperty (fields row) PROTO_KEY = None
  /\ Redirects.ownProperty (fields row) LINE_KEY = None
  /\ line_ row = n.
Proof.
  cbv zeta. unfold setLine. cbn [fields line_]. split; [|split; [|split]].
  - intros i Hnd Hi Hp Hl. rewrite ownProperty_without.
    destruct (streq LINE_KEY (nth i headers [])) eqn:E.
    + apply streq_true in E. now elim Hl.
    + now apply assignCells_nth.
  - rewrite ownProperty_without. cbn [streq LINE_KEY PROTO_KEY].
    change (streq LINE_KEY PROTO_KEY) with false. cbv iota.
    now apply assignCells_proto.
  - rewrite ownProperty_without. now rewrite streq_refl.
  - reflexivity.
Qed.

End MoreCsvFacts.

Section CsvRoundTrip.
Import Csv.

Lemma addChars_fields (x : jsstring) :
  forall st,
    let st' := fold_left (fun s c => addChar c s) x st in
    records st' = records st /\ row st' = row st
    /\ cell st' = cell st ++ x /\ inQuotes st' = inQuotes st.
Proof.
  induction x as [|c x IH]; intros st; cbn [fold_left].
  - cbv zeta. now rewrite app_nil_r.
  - destruct (IH (addChar c st)) as (H1 & H2 & H3 & H4). cbv zeta.
    rewrite H1, H2, H3, H4. cbn. now rewrite <- app_assoc.
Qed.

Lemma afterCell_fields (x : jsstring) (st : Scan) :
  records (afterCell x st) = records st /\ row (afterCell x st) = row st
  /\ cell (afterCell x st) = cell st ++ x
  /\ inQuotes (afterCell x st) = inQuotes st.
Proof.
  unfold afterCell.
  destruct (addChars_fields x (toggleQuotes st)) as (H1 & H2 & H3 & H4).
  cbv zeta in *. cbn [toggleQuotes records row cell inQuotes] in *.
  rewrite H1, H2, H3, H4. now rewrite negb_involutive.
Qed.

Lemma scan_escaped (x : jsstring) :
  forall (rest : jsstring) (st : Scan),
    inQuotes st = true -> (forall r, rest <> QUOTE :: r) ->
    scan (escapeQuotes x ++ QUOTE :: rest) st
    = scan rest (toggleQuotes (fold_left (fun s c => addChar c s) x st)).
Proof.
  induction x as [|c x IH]; intros rest st Hq Hrest.
  - cbn [escapeQuotes flat_map app fold_left scan]. rewrite chareq_refl.
    destruct rest as [|next rest']; [reflexivity|].
    destruct (chareq next QUOTE) eqn:E.
    + apply chareq_true in E. subst next. now destruct (Hrest rest').
    + now rewrite andb_false_r.
  - unfold escapeQuotes. cbn [flat_map fold_left]. fold (escapeQuotes x).
    destruct (chareq c QUOTE) eqn:Ec.
    + apply chareq_true in Ec. subst c. cbn [app scan].
      rewrite chareq_refl, Hq. cbn [andb]. now apply IH.
    + cbn [app scan]. rewrite Ec, Hq. cbn [negb andb]. now apply IH.
Qed.

Lemma scan_cell (x rest : jsstring) (st : Scan) :
  inQuotes st = false -> (forall r, rest <> QUOTE :: r) ->
  scan (quoteCell x ++ rest) st = scan rest (afterCell x st).
Proof.
  intros Hq Hrest. unfold quoteCell, afterCell.
  cbn [app]. rewrite <- app_assoc. cbn [app scan].
  rewrite chareq_refl, Hq. cbn [andb].
  rewrite <- (@scan_escaped x rest (toggleQuotes st)); auto;
    [|cbn; now rewrite Hq].
  now destruct (escapeQuotes x ++ QUOTE :: rest).
Qed.

Lemma scan_lineBreak (eol rest : jsstring) (st : Scan) :
  isLineBreak eol = true -> inQuotes st = false ->
  (forall r, rest <> LF :: r) ->
  scan (eol ++ rest) st = scan rest (nextLine (pushRow st)).
Proof.
  intros He Hq Hrest. unfold isLineBreak in He.
  apply orb_true_iff in He. destruct He as [He|He];
    [apply orb_true_iff in He; destruct He as [He|He]|];
    apply streq_true in He; subst eol; cbn [app scan];
    rewrite Hq; cbn.
  - now destruct rest.
  - destruct rest as [|next rest']; [reflexivity|].
    destruct (chareq next LF) eqn:E; [|reflexivity].
    apply chareq_true in E. subst next. now destruct (Hrest rest').
  - reflexivity.
Qed.

Lemma lineBreak_head (eol rest : jsstring) :
  isLineBreak eol = true -> forall r, eol ++ rest <> QUOTE :: r.
Proof.
  unfold isLineBreak. intros He r H.
  apply orb_true_iff in He. destruct He as [He|He];
    [apply orb_true_iff in He; destruct He as [He|He]|];
    apply streq_true in He; subst eol; discriminate H.
Qed.

(** One record, then its line break. *)
Lemma scan_record (eol rest : jsstring) (cells : list jsstring) :
  isLineBreak eol = true -> (forall r, rest <> LF :: r) -> cells <> [] ->
  forall st, Idle st ->
    exists st',
      scan (encodeRecord cells ++ eol ++ rest) st = scan rest st'
      /\ Idle st' /\ row st' = []
      /\ records st' = records st ++ [row st ++ cells].
Proof.
  intros He Hrest. induction cells as [|x more IH]; intros Hne st [Hc Hq];
    [contradiction|].
  destruct (afterCell_fields x st) as (F1 & F2 & F3 & F4).
  rewrite Hc in F3. rewrite Hq in F4. cbn [app] in F3.
  destruct more as [|y more].
  - unfold encodeRecord. cbn [map join].
    rewrite scan_cell by (auto using lineBreak_head).
    rewrite scan_lineBreak by assumption.
    exists (nextLine (pushRow (afterCell x st))).
    split; [reflexivity|]. unfold Idle.
    cbn [nextLine pushRow pushCell records row cell inQuotes].
    rewrite F1, F2, F3. repeat split. exact F4.
  - change (encodeRecord (x :: y :: more))
      with (quoteCell x ++ [COMMA] ++ encodeRecord (y :: more)).
    rewrite <- !app_assoc.
    rewrite scan_cell by (auto; cbn; discriminate).
    cbn [app scan]. rewrite F4. cbn.
    destruct (IH ltac:(discriminate) (pushCell (afterCell x st)))
      as (st' & Hs & Hi & Hr & Hrec).
    { split; [reflexivity | exact F4]. }
    exists st'. split; [exact Hs|]. split; [exact Hi|]. split; [exact Hr|].
    rewrite Hrec. cbn [pushCell records row cell].
    rewrite F1, F2, F3. now rewrite <- app_assoc.
Qed.

Lemma encodeCsv_head (eol : jsstring) (recs : list (list jsstring)) :
  (forall r, In r recs -> r <> []) ->
  encodeCsv eol recs = []
  \/ exists rest, encodeCsv eol recs = QUOTE :: rest.
Proof.
  intros H. destruct recs as [|[|x cells] more]; [now left | |right].
  - now destruct (H [] (or_introl eq_refl)).
  - unfold encodeCsv. cbn [flat_map]. unfold encodeRecord. cbn [map].
    destruct (map quoteCell cells); cbn [join quoteCell app];
      eexists; reflexivity.
Qed.

Lemma scan_file (eol : jsstring) (recs : list (list jsstring)) :
  isLineBreak eol = true -> (forall r, In r recs -> r <> []) ->
  forall st, Idle st -> row st = [] ->
    Idle (scan (encodeCsv eol recs) st)
    /\ row (scan (encodeCsv eol recs) st) = []
    /\ records (scan (encodeCsv eol recs) st) = records st ++ recs.
Proof.
  intros He. induction recs as [|cells more IH]; intros Hne st Hi Hr.
  - cbn. now rewrite app_nil_r.
  - assert (Hmore : forall r, In r more -> r <> [])
      by (intros r Hin; apply Hne; now right).
    unfold encodeCsv. cbn [flat_map]. fold (encodeCsv eol more).
    rewrite <- app_assoc.
    destruct (@scan_record eol (encodeCsv eol more) cells He)
      with (st := st) as (st' & Hs & Hi' & Hr' & Hrec); auto.
    { intros r E. destruct (@encodeCsv_head eol more Hmore) as [E'|[rest E']];
        rewrite E' in E; discriminate E. }
    { apply Hne. now left. }
    rewrite Hs. destruct (IH Hmore st' Hi' Hr') as (G1 & G2 & G3).
    split; [exact G1|]. split; [exact G2|].
    rewrite G3, Hrec, Hr. cbn [app]. now rewrite <- app_assoc.
Qed.

Lemma parseCsv_written (eol : jsstring) (header : list jsstring)
    (data : list (list jsstring)) :
  isLineBreak eol = true -> (forall r, In r (header :: data) -> r <> []) ->
  exists rows,
    parseCsv (encodeCsv eol (header :: data)) = inr rows
    /\ map fields rows
       = map (rowCells (map trim header)) (filter hasAnyValue data)
    /\ map line_ rows
       = map fst (filter (fun p => hasAnyValue (snd p)) (numbered data)).
Proof.
  intros He Hne. set (text := encodeCsv eol (header :: data)).
  assert (Hscanned : scanned text = scan text initial).
  { unfold scanned.
    destruct (@encodeCsv_head eol (header :: data) Hne) as [E|[rest E]];
      fold text in E; rewrite E; reflexivity. }
  destruct (@scan_file eol (header :: data) He Hne initial)
    as ([Hc Hq] & Hr & Hrec); [split; reflexivity | reflexivity |].
  fold text in Hc, Hq, Hr, Hrec. rewrite <- Hscanned in Hc, Hq, Hr, Hrec.
  assert (Hflushed : flushed text = scanned text).
  { unfold flushed. now rewrite Hc, Hr. }
  destruct (parseCsv_rows text Hq) as (rows & Hrows & Hfields).
  exists rows. split; [exact Hrows|].
  pose proof (parseCsv_lines text Hrows) as Hlines.
  unfold headerOf, dataRecords in Hfields, Hlines.
  rewrite Hflushed, Hrec in Hfields, Hlines. cbn [app hd tl] in *.
  split; assumption.
Qed.

(** *** The line parser of the redirects importer *)

Lemma lineLoop_escaped (x : jsstring) :
  forall (rest : jsstring) (cells : list jsstring) (current : jsstring),
    (forall r, rest <> QUOTE :: r) ->
    lineLoop (escapeQuotes x ++ QUOTE :: rest) cells current true
    = lineLoop rest cells (current ++ x) false.
Proof.
  induction x as [|c x IH]; intros rest cells current Hrest.
  - cbn [escapeQuotes flat_map app lineLoop]. rewrite chareq_refl, app_nil_r.
    destruct rest as [|next rest']; [reflexivity|].
    destruct (chareq next QUOTE) eqn:E; [|reflexivity].
    apply chareq_true in E. subst next. now destruct (Hrest rest').
  - unfold escapeQuotes. cbn [flat_map]. fold (escapeQuotes x).
    destruct (chareq c QUOTE) eqn:Ec.
    + apply chareq_true in Ec. subst c. cbn [app lineLoop].
      rewrite chareq_refl. cbn [andb]. rewrite IH by assumption.
      now rewrite <- app_assoc.
    + cbn [app lineLoop]. rewrite Ec. cbn [negb andb].
      rewrite andb_false_r. rewrite IH by assumption.
      now rewrite <- app_assoc.
Qed.

Lemma lineLoop_cell (x rest : jsstring) (cells : list jsstring) :
  (forall r, rest <> QUOTE :: r) ->
  lineLoop (quoteCell x ++ rest) cells [] false = lineLoop rest cells x false.
Proof.
  intros Hrest. unfold quoteCell. cbn [app]. rewrite <- app_assoc.
  cbn [app lineLoop]. rewrite chareq_refl. cbn [andb negb].
  pose proof (@lineLoop_escaped x rest cells [] Hrest) as H.
  cbn [app] in H. rewrite <- H.
  now destruct (escapeQuotes x ++ QUOTE :: rest).
Qed.

Lemma lineLoop_record (cells : list jsstring) :
  cells <> [] ->
  forall done,
    lineLoop (encodeRecord cells) done [] false
    = (done ++ map trim (removelast cells), last cells []).
Proof.
  induction cells as [|x more IH]; intros Hne done; [contradiction|].
  destruct more as [|y more].
  - unfold encodeRecord. cbn [map join removelast last].
    rewrite <- (app_nil_r (quoteCell x)).
    rewrite lineLoop_cell by discriminate. cbn. now rewrite app_nil_r.
  - change (encodeRecord (x :: y :: more))
      with (quoteCell x ++ [COMMA] ++ encodeRecord (y :: more)).
    rewrite lineLoop_cell by (cbn; discriminate).
    cbn [app lineLoop].
    replace (chareq COMMA QUOTE) with false by reflexivity.
    rewrite chareq_refl. cbn [andb negb].
    rewrite IH by discriminate.
    change (removelast (x :: y :: more)) with (x :: removelast (y :: more)).
    change (last (x :: y :: more) []) with (last (y :: more) []).
    cbn [map]. now rewrite <- app_assoc.
Qed.

Lemma parseCsvLine_written (cells : list jsstring) :
  cells <> [] -> parseCsvLine (encodeRecord cells) = map trim cells.
Proof.
  intros Hne. unfold parseCsvLine. rewrite lineLoop_record by assumption.
  cbn [app]. rewrite (app_removelast_last [] Hne) at 3.
  now rewrite map_app.
Qed.

End CsvRoundTrip.

Section RedirectLines.
Import Csv.

Lemma mapLines_lines (headers lines : list jsstring) (index : nat) :
  map line_ (mapLines headers lines index) = seq (index + 2) (length lines).
Proof.
  revert index. induction lines as [|ln more IH]; intros index;
    [reflexivity|].
  cbn [mapLines map length seq line_]. now rewrite IH.
Qed.

Lemma parseCsvRedirects_lines (text : jsstring) :
  map line_ (parseCsvRedirects text)
  = seq 2 (length (parseCsvRedirects text)).
Proof.
  unfold parseCsvRedirects.
  destruct (filter truthy (map trim (splitLines text []))) as [|first more];
    [reflexivity|].
  destruct more as [|second more]; [reflexivity|].
  cbn [length Nat.ltb Nat.leb].
  now rewrite mapLines_lines, length_mapLines.
Qed.

Lemma mapLines_cells (headers lines : list jsstring) (index : nat)
    (r : RowData) :
  In r (mapLines headers lines index) ->
  exists ln, In ln lines /\ fields r = rowCells headers (parseCsvLine ln).
Proof.
  revert index. induction lines as [|ln more IH]; intros index; [intros []|].
  cbn [mapLines]. intros [<-|H].
  - exists ln. split; [now left | reflexivity].
  - destruct (IH _ H) as (ln' & Hin & Hf). exists ln'. split; [now right|auto].
Qed.

End RedirectLines.

(** ** Keys *)

(** X1.  All the spellings of a route give one key: blanks around the
    path, a leading slash or none, and any number of trailing slashes do
    not change what [normalizePath] returns, which is the slash followed
    by the path without them. *)
Theorem normalizePath_spellings (ws1 ws2 core : jsstring) (j k : nat) :
  forallb isSpace ws1 = true -> forallb isSpace ws2 = true -> j <= 1 ->
  plainEnds core = true ->
  Normalizer.normalizePath
    (Some (ws1 ++ (repeat SLASH j ++ core ++ repeat SLASH k) ++ ws2))
  = SLASH :: core.
Proof. apply normalizePath_core. Qed.

Lemma normalizePath_spellings_witness :
  Normalizer.normalizePath
    (Some (lit "  " ++ (repeat SLASH 0 ++ lit "about/us" ++ repeat SLASH 2)
           ++ [LF]))
  = SLASH :: lit "about/us".
Proof.
  apply normalizePath_spellings;
    [reflexivity | reflexivity | lia | reflexivity].
Defined.

(** X2.  [normalizePath] returns the empty string, which the importers
    take for a missing route, exactly for a path that is made of two or
    more slashes once trimmed. *)
Theorem normalizePath_empty_only_slashes (pathname : option jsstring) :
  Normalizer.normalizePath pathname = []
  <-> exists k, 2 <= k /\ trim (str pathname) = repeat SLASH k.
Proof. apply normalizePath_empty. Qed.

(** X3.  [normalisePath] of the redirects importer is idempotent; its
    result is empty exactly for a missing or blank value, and otherwise
    starts with a slash and carries no blank at either end.  Trailing
    slashes stay. *)
Theorem normalisePath_idempotent (value : option jsstring) :
  let r := RedirectsRun.normalisePath value in
  RedirectsRun.normalisePath (Some r) = r
  /\ (r = [] <-> trim (str value) = [])
  /\ (r <> [] -> (exists rest, r = SLASH :: rest) /\ trim r = r)
  /\ (forall s, trim (str value) = s ++ [SLASH] ->
      exists s', r = s' ++ [SLASH]).
Proof.
  cbv zeta. split; [apply normalisePath_fixed|].
  rewrite normalisePath_cases. cbv zeta.
  set (t := trim (str value)).
  assert (Ht : t = [] \/ Ends isSpace t) by apply trim_edges.
  destruct (truthy t) eqn:Et.
  - assert (Hne : t <> []) by (intros E; rewrite E in Et; discriminate Et).
    destruct Ht as [Ht|Ht]; [contradiction|].
    destruct (startsWith [SLASH] t) eqn:Es.
    + split; [split; [intros E; contradiction | intros E; contradiction]|].
      split.
      * intros _. split; [|now apply trim_kept].
        destruct t as [|c r]; [discriminate Et|].
        cbn [startsWith] in Es. apply andb_true_iff in Es.
        destruct Es as [Es _]. apply chareq_true in Es. subst c.
        now exists r.
      * intros s Hs. now exists s.
    + split; [split; [discriminate | intros E; contradiction]|].
      split.
      * intros _. split; [now exists t|].
        apply trim_kept, ends_cons; [reflexivity | now right].
      * intros s Hs. exists (SLASH :: s). now rewrite Hs.
  - destruct t; [|discriminate Et].
    split; [split; reflexivity|]. split; [intros E; contradiction|].
    intros s Hs. now destruct s.
Qed.

(** X4.  [slugify] is idempotent: a slug it has produced is its own slug,
    so a row may carry the derived key as its explicit [slug] column.
    The lower-casing of the runtime is only asked to leave strings of
    [[a-z0-9-]] alone. *)
Theorem slugify_idempotent {RT : Runtime} (value : option jsstring) :
  (forall s, forallb Normalizer.isSlugChar s = true -> toLowerCase s = s) ->
  Normalizer.slugify (Some (Normalizer.slugify value))
  = Normalizer.slugify value.
Proof. apply slugify_fixed. Qed.

Lemma asciiLower_slug (s : jsstring) :
  forallb Normalizer.isSlugChar s = true -> map asciiLower s = s.
Proof.
  induction s as [|c r IH]; [reflexivity|]. cbn [forallb map]. intros H.
  apply andb_true_iff in H. destruct H as [Hc H]. rewrite (IH H). f_equal.
  unfold asciiLower.
  destruct ((65 <=? c)%N && (c <=? 90)%N) eqn:E; [|reflexivity].
  exfalso. revert Hc E.
  unfold Normalizer.isSlugChar, isLowerAZ, isDigit, chareq, HYPHEN.
  rewrite !orb_true_iff, !andb_true_iff, !N.leb_le, N.eqb_eq. lia.
Qed.

Lemma slugify_idempotent_witness :
  Normalizer.slugify
    (Some (Normalizer.slugify (Some (lit "  Hello,  World -- 2024! "))))
  = Normalizer.slugify (Some (lit "  Hello,  World -- 2024! ")).
Proof. apply slugify_idempotent. exact asciiLower_slug. Defined.

(** X5.  [slugify] returns the empty string, for which the article
    importer fails a row that has no [slug] column, exactly when the
    trimmed and lower-cased value holds no character of [[a-z0-9]]. *)
Theorem slugify_empty_without_alnum {RT : Runtime} (value : option jsstring) :
  Normalizer.slugify value = []
  <-> forallb (fun c => negb (isLowerAZ c || isDigit c))
        (toLowerCase (trim (str value))) = true.
Proof. apply slugify_nil. Qed.

(** ** The SEO description *)

(** X6.  [buildMetaDescription] reaches its minimum of 120 code units
    exactly when the text it has after the fallback step holds at least 3:
    the canned sentence it appends has 116, and one space joins the two. *)
Theorem metaDescription_minimum_reached (value fallback : option jsstring) :
  120 <= length (Normalizer.buildMetaDescription value fallback)
  <-> 3 <= length (combined value fallback).
Proof. apply metaDescription_reaches. Qed.

(** ** Tags *)

(** X7.  Every tag name [parseTags] returns holds a character, has no
    blank at either end, and, when the column is a text, neither a bar
    nor a comma. *)
Theorem parseTags_names_clean (value : Articles.Tags) (t : jsstring) :
  In t (Articles.parseTags value) ->
  t <> [] /\ trim t = t
  /\ (forall v c, value = Articles.TagText v -> In c t ->
      isTagSeparator c = false).
Proof.
  intros H. destruct (parseTags_items _ _ H) as [H1 H2].
  split; [exact H1|]. split; [exact H2|].
  intros v c -> Hc. exact (parseTags_text _ _ _ H Hc).
Qed.

Lemma parseTags_names_clean_witness :
  lit "travel" <> [] /\ trim (lit "travel") = lit "travel"
  /\ (forall v c, Articles.TagText (Some (lit "news, travel| "))
                  = Articles.TagText v ->
      In c (lit "travel") -> isTagSeparator c = false).
Proof.
  apply (@parseTags_names_clean
           (Articles.TagText (Some (lit "news, travel| "))) (lit "travel")).
  right. left. reflexivity.
Defined.

(** X8.  [parseTags] reads back the names that were joined: names without
    bar or comma and without blank at either end, joined by a bar or a
    comma with any blanks around it, are returned as they are, in
    order. *)
Theorem parseTags_reads_joined (ws1 ws2 : jsstring) (c : jschar)
    (tags : list jsstring) :
  forallb isSpace ws1 = true -> forallb isSpace ws2 = true ->
  isTagSeparator c = true ->
  (forall t, In t tags ->
     Ends isSpace t /\ forallb (fun c => negb (isTagSeparator c)) t = true) ->
  Articles.parseTags
    (Articles.TagText (Some (join (ws1 ++ [c] ++ ws2) tags)))
  = tags.
Proof. apply parseTags_join. Qed.

Lemma ends_lit_witness (s : jsstring) (c d : jschar) (r a : jsstring) :
  s = c :: r -> s = a ++ [d] -> isSpace c = false -> isSpace d = false ->
  Ends isSpace s.
Proof. intros -> E Hc Hd. split; [now exists c, r | now exists a, d]. Qed.

Lemma parseTags_reads_joined_witness :
  Articles.parseTags
    (Articles.TagText
       (Some (join ([SPACE] ++ [PIPE] ++ [SPACE])
                [lit "news"; lit "road works"])))
  = [lit "news"; lit "road works"].
Proof.
  apply parseTags_reads_joined; try reflexivity.
  intros t [<-|[<-|[]]]; (split; [|reflexivity]).
  - now apply (@ends_lit_witness _ 110%N 115%N (lit "ews") (lit "new")).
  - now apply (@ends_lit_witness _ 114%N 115%N (lit "oad works")
                 (lit "road work")).
Defined.

(** ** The block converter *)

(** X9.  The candidate blocks [splitTextBlocks] returns hold a character
    that is not blank at either end, so none is empty, and no blank line;
    there is none exactly when the content is blank. *)
Theorem splitTextBlocks_candidates (content : jsstring) :
  (forall b, In b (Blocks.splitTextBlocks content) ->
     Ends isSpace b /\ trim b = b /\ forall a c, b <> a ++ [LF; LF] ++ c)
  /\ (Blocks.splitTextBlocks content = [] <-> trim content = []).
Proof.
  split; [|apply splitTextBlocks_none].
  intros b H. destruct (splitTextBlocks_blocks _ _ H) as [H1 H2].
  split; [exact H1|]. split; [now apply trim_kept | exact H2].
Qed.

Lemma splitTextBlocks_candidates_witness :
  Ends isSpace (lit "Some body text.")
  /\ trim (lit "Some body text.") = lit "Some body text."
  /\ forall a c, lit "Some body text." <> a ++ [LF; LF] ++ c.
Proof.
  apply (proj1 (splitTextBlocks_candidates scenarioC)).
  right. left. reflexivity.
Defined.

(** X10.  The converter emits exactly one block for every candidate
    block, headings, lists and rich texts alike: a list always has an
    item, so the test of an empty item list never drops a block, and the
    sequence is empty exactly when the content is blank. *)
Theorem one_block_per_candidate (family content : jsstring) :
  length (Blocks.convertContentToBlocks family content)
  = length (Blocks.splitTextBlocks content)
  /\ (Blocks.convertContentToBlocks family content = []
      <-> trim content = []).
Proof.
  split; [apply convert_length|].
  rewrite <- splitTextBlocks_none.
  pose proof (convert_length family content) as H.
  split; intros E; rewrite E in H; cbn [length] in H.
  - now destruct (Blocks.splitTextBlocks content).
  - now destruct (Blocks.convertContentToBlocks family content).
Qed.

(** X11.  Every block the converter emits has what its content type
    requires: a heading has a text and a rich text a body, with a
    character that is not blank at either end, and a list has at least
    one item, each on a line of its own after ["- "]. *)
Theorem emitted_blocks_wellFormed (family content : jsstring)
    (blk : Blocks.Block) :
  In blk (Blocks.convertContentToBlocks family content) ->
  wellFormedBlock blk.
Proof. apply convert_wellFormed. Qed.

Lemma emitted_blocks_wellFormed_witness :
  wellFormedBlock
    (Blocks.ListBlock (lit "page.list") Blocks.unordered
       (lit "- a" ++ [LF] ++ lit "- b")).
Proof.
  apply (@emitted_blocks_wellFormed (lit "page") scenarioC).
  right. right. left. reflexivity.
Defined.

(** ** The tabular parsers *)

(** X12.  The [__line] of a row [parseCsv] returns is the number of its
    record, the header being record 1 and records without value being
    counted: line breaks inside quoted cells do not advance it. *)
Theorem parseCsv_record_numbers (text : jsstring) (rows : list Csv.RowData) :
  Csv.parseCsv text = inr rows ->
  map Csv.line_ rows
  = map fst (filter (fun p => Csv.hasAnyValue (snd p))
               (numbered (Csv.dataRecords text))).
Proof. apply parseCsv_lines. Qed.

Lemma parseCsv_record_numbers_witness :
  map Csv.line_
    [ {| Csv.fields := [(lit "title", lit "A, B"); (lit "slug", lit "a-b")];
         Csv.line_ := 2 |};
      {| Csv.fields := [(lit "title", lit "C"); (lit "slug", lit "c")];
         Csv.line_ := 4 |} ]
  = map fst (filter (fun p => Csv.hasAnyValue (snd p))
               (numbered (Csv.dataRecords threeRecords))).
Proof. apply parseCsv_record_numbers. reflexivity. Defined.

(** X13.  In a row built for distinct headers, the member named after
    the header of column [i] holds the cell of column [i], and the empty
    string when the record is too short, unless the header is
    [__proto__] or [__line]: nothing is stored under [__proto__], and
    [__line] holds the line number, not a cell. *)
Theorem row_cell_lookup (headers cells : list jsstring) (i n : nat) :
  NoDup headers -> i < length headers ->
  let row := Csv.setLine (Csv.assignCells headers cells []) n in
  (nth i headers [] <> Csv.PROTO_KEY -> nth i headers [] <> Csv.LINE_KEY ->
   Redirects.ownProperty (Csv.fields row) (nth i headers [])
   = Some (nth i cells []))
  /\ Redirects.ownProperty (Csv.fields row) Csv.PROTO_KEY = None
  /\ Redirects.ownProperty (Csv.fields row) Csv.LINE_KEY = None
  /\ Csv.line_ row = n.
Proof.
  intros Hnd Hi.
  destruct (rowCells_lookup headers cells n) as (H1 & H2 & H3 & H4).
  cbv zeta in *. split; [|auto]. intros Hp Hl. now apply H1.
Qed.

Lemma row_cell_lookup_witness :
  let headers :=
    [lit "fromPath"; lit "__proto__"; lit "__line"; lit "toUrl"] in
  let cells := [lit "/old"; lit "a"; lit "b"] in
  let row := Csv.setLine (Csv.assignCells headers cells []) 2 in
  (nth 3 headers [] <> Csv.PROTO_KEY -> nth 3 headers [] <> Csv.LINE_KEY ->
   Redirects.ownProperty (Csv.fields row) (nth 3 headers [])
   = Some (nth 3 cells []))
  /\ Redirects.ownProperty (Csv.fields row) Csv.PROTO_KEY = None
  /\ Redirects.ownProperty (Csv.fields row) Csv.LINE_KEY = None
  /\ Csv.line_ row = 2.
Proof.
  cbv zeta.
  apply (@row_cell_lookup
           [lit "fromPath"; lit "__proto__"; lit "__line"; lit "toUrl"]
           [lit "/old"; lit "a"; lit "b"] 3 2); [|cbn; lia].
  repeat constructor; cbn; intuition discriminate.
Defined.

(** X14.  [parseCsv] reads back what was written: for a header and data
    records written with every cell between quotes, quotes doubled, cells
    joined by commas and records ended by a line break (LF, CR or CR LF),
    it returns one row for every data record that has a value, built from
    the trimmed headers and the cells written, commas, quotes and line
    breaks included, with the record number as [__line].  When the
    trimmed headers are distinct, the row holds the cell of a column
    under its header, unless that header is [__proto__] or [__line]. *)
Theorem parseCsv_reads_written (eol : jsstring) (header : list jsstring)
    (data : list (list jsstring)) :
  isLineBreak eol = true -> (forall r, In r (header :: data) -> r <> []) ->
  exists rows,
    Csv.parseCsv (encodeCsv eol (header :: data)) = inr rows
    /\ map Csv.fields rows
       = map (Csv.rowCells (map trim header)) (filter Csv.hasAnyValue data)
    /\ map Csv.line_ rows
       = map fst (filter (fun p => Csv.hasAnyValue (snd p)) (numbered data))
    /\ (NoDup (map trim header) ->
        forall cells i,
          i < length header ->
          nth i (map trim header) [] <> Csv.PROTO_KEY ->
          nth i (map trim header) [] <> Csv.LINE_KEY ->
          Redirects.ownProperty (Csv.rowCells (map trim header) cells)
            (nth i (map trim header) [])
          = Some (nth i cells [])).
Proof.
  intros He Hne.
  destruct (parseCsv_written eol He Hne) as (rows & H1 & H2 & H3).
  exists rows. split; [exact H1|]. split; [exact H2|]. split; [exact H3|].
  intros Hnd cells i Hi Hp Hl.
  apply (proj1 (rowCells_lookup (map trim header) cells 0));
    [exact Hnd | now rewrite length_map | exact Hp | exact Hl].
Qed.

Lemma parseCsv_reads_written_witness :
  exists rows,
    Csv.parseCsv
      (encodeCsv [CR; LF]
         ([lit "title"; lit " slug "]
          :: [[QUOTE :: lit "A, B" ++ [QUOTE; LF]; lit "a-b"]; [[]; []];
              [lit "C"]])) = inr rows
    /\ map Csv.fields rows
       = map (Csv.rowCells (map trim [lit "title"; lit " slug "]))
           (filter Csv.hasAnyValue
              [[QUOTE :: lit "A, B" ++ [QUOTE; LF]; lit "a-b"]; [[]; []];
               [lit "C"]])
    /\ map Csv.line_ rows
       = map fst (filter (fun p => Csv.hasAnyValue (snd p))
                    (numbered
                       [[QUOTE :: lit "A, B" ++ [QUOTE; LF]; lit "a-b"];
                        [[]; []]; [lit "C"]]))
    /\ (NoDup (map trim [lit "title"; lit " slug "]) ->
        forall cells i,
          i < length [lit "title"; lit " slug "] ->
          nth i (map trim [lit "title"; lit " slug "]) [] <> Csv.PROTO_KEY ->
          nth i (map trim [lit "title"; lit " slug "]) [] <> Csv.LINE_KEY ->
          Redirects.ownProperty
            (Csv.rowCells (map trim [lit "title"; lit " slug "]) cells)
            (nth i (map trim [lit "title"; lit " slug "]) [])
          = Some (nth i cells [])).
Proof.
  apply parseCsv_reads_written; [reflexivity|].
  intros r [<-|[<-|[<-|[<-|[]]]]]; discriminate.
Defined.

(** X15.  [parseCsvLine] of the redirects importer reads back the cells of
    a line written with every cell between quotes, quotes doubled, and
    joined by commas; it returns them trimmed. *)
Theorem parseCsvLine_reads_written (cells : list jsstring) :
  cells <> [] ->
  Csv.parseCsvLine (encodeRecord cells) = map trim cells.
Proof. apply parseCsvLine_written. Qed.

Lemma parseCsvLine_reads_written_witness :
  Csv.parseCsvLine (encodeRecord [lit "/old, path"; lit " /new "; []])
  = map trim [lit "/old, path"; lit " /new "; []].
Proof. apply parseCsvLine_reads_written. discriminate. Defined.

(** X16.  The rows the redirects importer parses carry the line numbers
    2, 3, 4, ... in order: blank lines are dropped before the lines are
    numbered. *)
Theorem parseCsvRedirects_line_numbers (text : jsstring) :
  map Csv.line_ (Csv.parseCsvRedirects text)
  = seq 2 (length (Csv.parseCsvRedirects text)).
Proof. apply parseCsvRedirects_lines. Qed.

(** ** What the importers never send *)

Section Wire.

Variable Request : Type.
Variable Store : Type.
Variable serve : Store -> Request -> Store * Reply.
Variable allowed : Request -> bool.





End Wire.


Section PageWire.
Import Pages.
Context {RT : Runtime}.
Variable cfg : Config.
Variable Store : Type.
Variable serve : Store -> Request -> Store * Reply.


End PageWire.

Section RedirectWire.
Import RedirectsRun.
Context {RT : Runtime}.
Variable cfg : Config.
Variable Store : Type.
Variable serve : Store -> Request -> Store * Reply.


End RedirectWire.

Section ArticleWire.
Import Articles.
Context {RT : Runtime}.
Variable cfg : Config.
Variable Store : Type.
Variable serve : Store -> Request -> Store * Reply.


End ArticleWire.


(** ** The page importer: every row is counted *)


(** ** The in-place migration: what is counted and what is written *)

Section MoreMigrationFacts.
Import Migration.
Context {RT : Runtime}.

Variable cfg : Config.
Variable Store : Type.
Variable serve : Store -> JsId * Payload -> Store * Reply.

Lemma convert_nonblank (family content : jsstring) :
  truthy (trim content) = true ->
  (length (Blocks.convertContentToBlocks family content) =? 0) = false.
Proof.
  intros H. rewrite convert_length. apply Nat.eqb_neq. intros E.
  apply length_zero_iff_nil, splitTextBlocks_none in E.
  rewrite E in H. discriminate H.
Qed.

Lemma step_effect (st : Tally Store) (entry : Page) :
  let st' := step serve cfg st entry in
  countedPages st' = S (countedPages st)
  /\ skippedNoBlocksProduced st' = skippedNoBlocksProduced st
  /\ length (console st') = S (length (console st))
  /\ (puts st' = puts st
      \/ DRY_RUN cfg = false
         /\ length (puts st') + updated st + failed st
            <= length (puts st) + updated st' + failed st'
         /\ exists w, puts st' = puts st ++ [w] /\ updateOf cfg entry w).
Proof.
  cbv zeta. unfold step, failNoId, migrate, tryUpdate, countedPages.
  destruct (getEntryId (page_ids entry)) as [i|] eqn:Ei;
    [|cbn; rewrite length_app; cbn; repeat split; try lia; now left].
  destruct (idTruthy i) eqn:Et;
    [|cbn; rewrite length_app; cbn; repeat split; try lia; now left].
  destruct (truthy (trim (str (page_content entry)))) eqn:Ec; cbn [negb];
    [|cbn; rewrite length_app; cbn; repeat split; try lia; now left].
  destruct (ONLY_WHEN_EMPTY_BLOCKS cfg && (0 <? page_blocks entry)) eqn:Eb;
    [cbn; rewrite length_app; cbn; repeat split; try lia; now left|].
  rewrite (convert_nonblank (lit "page") _ Ec).
  destruct (DRY_RUN cfg) eqn:Ed; cbn [negb];
    [cbn; rewrite length_app; cbn; repeat split; try lia; now left|].
  assert (Hw : updateOf cfg entry
                 (i, payloadOf cfg
                       (Blocks.convertContentToBlocks (lit "page")
                          (str (page_content entry))))).
  { unfold updateOf. cbn [fst snd]. repeat split; auto.
    - intros Ho. rewrite Ho in Eb. cbn [andb] in Eb.
      apply Nat.ltb_ge in Eb. lia.
    - cbn [payloadOf p_contentBlocks]. intros E.
      pose proof (convert_nonblank (lit "page") _ Ec) as Hn.
      rewrite E in Hn. discriminate Hn. }
  destruct (serve (store st) _) as [s' [status body|d]];
    cbn; rewrite !length_app; cbn; repeat split; try lia;
    right; (split; [reflexivity|]); (split; [lia|]);
    eexists; (split; [reflexivity | exact Hw]).
Qed.

Lemma loop_effect (pages : list Page) :
  forall st : Tally Store,
    let st' := fold_left (step serve cfg) pages st in
    countedPages st' = countedPages st + length pages
    /\ skippedNoBlocksProduced st' = skippedNoBlocksProduced st
    /\ length (console st') = length (console st) + length pages
    /\ length (puts st') + updated st + failed st
       <= length (puts st) + updated st' + failed st'
    /\ (forall w, In w (puts st') ->
        In w (puts st)
        \/ DRY_RUN cfg = false
           /\ exists page, In page pages /\ updateOf cfg page w).
Proof.
  induction pages as [|p ps IH]; intros st; cbv zeta.
  - cbn. repeat split; try lia. intros w H. now left.
  - cbn [fold_left length].
    destruct (step_effect st p) as (A1 & A2 & A3 & A4).
    destruct (IH (step serve cfg st p)) as (B1 & B2 & B3 & B4 & B5).
    cbv zeta in *. split; [lia|]. split; [congruence|]. split; [lia|].
    assert (Hmono : updated st + failed st
                    <= updated (step serve cfg st p)
                       + failed (step serve cfg st p)).
    { clear - A1 A2. unfold countedPages in A1.
      unfold step, failNoId, migrate, tryUpdate, countUpdated.
      repeat match goal with
             | |- context [match ?x with _ => _ end] => destruct x
             end; cbn; lia. }
    split.
    + destruct A4 as [A4|(_ & A4 & _)]; [rewrite A4 in B4|]; lia.
    + intros w Hw. destruct (B5 w Hw) as [H|(Hd & page & Hin & Hup)].
      * destruct A4 as [A4|(Hd & _ & w' & A4 & Hup)].
        -- left. now rewrite <- A4.
        -- rewrite A4 in H. apply in_app_or in H.
           destruct H as [H|[<-|[]]]; [now left|].
           right. split; [exact Hd|]. exists p. split; [now left|exact Hup].
      * right. split; [exact Hd|]. exists page. split; [now right|exact Hup].
Qed.

Lemma migration_tally (pages : list Page) (s : Store) :
  let st := run serve cfg pages s in
  countedPages st = length pages
  /\ skippedNoBlocksProduced st = 0
  /\ length (puts st) <= updated st + failed st
  /\ length (console st) = S (length pages)
  /\ (forall w, In w (puts st) ->
      DRY_RUN cfg = false
      /\ exists page, In page pages /\ updateOf cfg page w).
Proof.
  cbv zeta. unfold run. destruct pages as [|p ps].
  - cbn. split; [lia|]. split; [lia|]. split; [lia|]. split; [lia|].
    intros w [].
  - destruct (loop_effect (p :: ps) (start s)) as (A1 & A2 & A3 & A4 & A5).
    cbv zeta in *. unfold countedPages in *.
    cbn [updated skippedNoContent skippedHasBlocks skippedNoBlocksProduced
           failed puts console start] in *.
    rewrite length_app. cbn [length] in *.
    split; [lia|]. split; [lia|]. split; [lia|]. split; [lia|].
    intros w Hw. destruct (A5 w Hw) as [[]|H]. exact H.
Qed.

End MoreMigrationFacts.

(** X20.  The migration counts every page it scans exactly once and
    prints one line for it; the counter of pages whose conversion gave no
    block always stays 0, since content that is not blank always gives a
    block; and it never sends more updates than it counts as updated or
    failed. *)
Theorem migration_counts_every_page {RT : Runtime}
    (cfg : Migration.Config) (Store : Type)
    (serve : Store -> JsId * Migration.Payload -> Store * Reply)
    (pages : list Migration.Page) (s : Store) :
  let st := Migration.run serve cfg pages s in
  countedPages st = length pages
  /\ Migration.skippedNoBlocksProduced st = 0
  /\ length (Migration.puts st)
     <= Migration.updated st + Migration.failed st
  /\ length (Migration.console st) = S (length pages).
Proof.
  destruct (migration_tally cfg serve pages s) as (H1 & H2 & H3 & H4 & _).
  cbv zeta. auto.
Qed.

(** X21.  Every update the migration sends is the update of one of the
    pages it was given: to the identifier of that page, whose content is
    not blank and which, with [ONLY_WHEN_EMPTY_BLOCKS], has no block yet,
    carrying the blocks converted from that content, at least one.  A
    page that already has blocks is never overwritten then. *)
Theorem migration_updates_own_pages {RT : Runtime}
    (cfg : Migration.Config) (Store : Type)
    (serve : Store -> JsId * Migration.Payload -> Store * Reply)
    (pages : list Migration.Page) (s : Store)
    (w : JsId * Migration.Payload) :
  In w (Migration.puts (Migration.run serve cfg pages s)) ->
  Migration.DRY_RUN cfg = false
  /\ exists page, In page pages /\ updateOf cfg page w.
Proof.
  destruct (migration_tally cfg serve pages s) as (_ & _ & _ & _ & H).
  apply H.
Qed.

Lemma migration_updates_own_pages_witness :
  Migration.DRY_RUN migrateAll = false
  /\ exists page,
       In page [legacyPage]
       /\ updateOf migrateAll page
            (IdString (lit "p7"),
             Migration.payloadOf migrateAll
               (Blocks.convertContentToBlocks (lit "page") scenarioC)).
Proof.
  apply (@migration_updates_own_pages asciiRuntime migrateAll nat
           putAccepting [legacyPage] 0).
  left. reflexivity.
Defined.

(** ** The page synchronisers *)

Section SyncFacts.
Import Sync.
Context {RT : Runtime}.

Variable Store : Type.
Variable serve : Store -> Request -> Store * Reply.
Variable cfg : Config.

Lemma write_turn (st0 st : Tally Store) (row : Row) (k : jsstring)
    (req : Request) (bump : Tally Store -> Tally Store) (l : Line) :
  (bump = updatedOne l \/ bump = createdOne l) ->
  counted st = counted st0 -> console st = console st0 ->
  emptyContent st = emptyContent st0 -> skipped st = skipped st0 ->
  requests st = requests st0 ++ [Find k] ->
  ((exists id d, req = Put id d)
   \/ UPSERT_MODE cfg = create
      /\ exists d, d_routePath d = Some k /\ req = Post d) ->
  Turn cfg (Some k) st0 (write serve cfg st row k req bump).
Proof.
  intros Hb Hc Hl He Hs Hr Hreq. unfold write.
  destruct (DRY_RUN cfg) eqn:Ed; cbn [negb].
  - destruct Hb as [-> | ->]; unfold Turn, counted in *; cbn;
      rewrite ?length_app; cbn; rewrite ?Hl;
      (split; [lia|]); (split; [lia|]);
      (split; [lia|]); (split; [lia|]);
      exists [Find k]; (split; [exact Hr|]); right; exists k; auto.
  - assert (Hres : requests st ++ [req] = requests st0 ++ [Find k; req])
      by (now rewrite Hr, <- app_assoc).
    assert (Hkind : [Find k; req] = []
                    \/ exists k0, Some k = Some k0
                       /\ ([Find k; req] = [Find k0]
                           \/ DRY_RUN cfg = false
                              /\ ((exists id d,
                                      [Find k; req] = [Find k0; Put id d])
                                  \/ UPSERT_MODE cfg = create
                                     /\ exists d,
                                          d_routePath d = Some k0
                                          /\ [Find k; req]
                                             = [Find k0; Post d]))).
    { right. exists k. split; [reflexivity|]. right. split; [exact Ed|].
      destruct Hreq as [(id & d & ->)|(Hm & d & Hd & ->)].
      - left. now exists id, d.
      - right. split; [exact Hm|]. now exists d. }
    destruct (serve (store st) req) as [s [status body|d]].
    + unfold Turn, counted in *; cbn; rewrite ?length_app; cbn;
        rewrite ?Hl.
      split; [lia|]. split; [lia|]. split; [lia|]. split; [lia|].
      exists [Find k; req]. split; assumption.
    + destruct Hb as [-> | ->]; unfold Turn, counted in *; cbn;
        rewrite ?length_app; cbn; rewrite ?Hl;
        (split; [lia|]); (split; [lia|]);
        (split; [lia|]); (split; [lia|]);
        exists [Find k; req]; split; assumption.
Qed.

Lemma trySync_turn (st : Tally Store) (row : Row) (k : jsstring)
    (payload createPayload : Data) (blocks : option nat) :
  d_routePath createPayload = Some k ->
  Turn cfg (Some k) st
    (trySync serve cfg st row k payload createPayload blocks).
Proof.
  intros Hk. unfold trySync.
  assert (Hlook : forall s l,
             Turn cfg (Some k) st (failedOne l (sent (Find k) s st))
             /\ Turn cfg (Some k) st (skippedOne l (sent (Find k) s st))).
  { intros s l; split; unfold Turn, counted; cbn;
      rewrite ?length_app; cbn;
      (split; [lia|]); (split; [lia|]);
      (split; [lia|]); (split; [lia|]);
      exists [Find k]; (split; [reflexivity|]); right; exists k; auto. }
  destruct (serve (store st) (Find k)) as [s [status body|result]];
    [apply Hlook|].
  cbv zeta. destruct (firstEntry result) as [existing|].
  - destruct (getEntryId existing) as [id|]; [|apply Hlook].
    destruct (idTruthy id); [|apply Hlook].
    apply write_turn with (l := Updated k blocks); auto.
    left. now exists id, payload.
  - destruct (UPSERT_MODE cfg) eqn:Em; [apply Hlook|].
    apply write_turn with (l := Created k blocks); auto.
    right. split; [exact Em|]. now exists createPayload.
Qed.

Lemma syncContent_turn (st : Tally Store) (row : Row) :
  Turn cfg (Some (Normalizer.normalizePath (row_routePath row))) st
    (syncContent serve cfg st row)
  /\ emptyContent (syncContent serve cfg st row) = emptyContent st.
Proof.
  unfold syncContent. cbv zeta.
  destruct (negb (truthy (Normalizer.normalizePath (row_routePath row)))).
  - split; [|reflexivity]. unfold Turn, counted. cbn.
    rewrite length_app. cbn.
    split; [lia|]. split; [lia|]. split; [lia|]. split; [lia|].
    exists []. split; [now rewrite app_nil_r | now left].
  - split; [now apply trySync_turn|].
    unfold trySync, write.
    repeat match goal with
           | |- context [match ?x with _ => _ end] => destruct x
           end; reflexivity.
Qed.

Lemma syncBlocks_turn (st : Tally Store) (row : Row) :
  Turn cfg (Some (Normalizer.normalizePath (row_routePath row))) st
    (syncBlocks serve cfg st row).
Proof.
  unfold syncBlocks. cbv zeta.
  destruct (negb (truthy (Normalizer.normalizePath (row_routePath row)))).
  - unfold Turn, counted. cbn. rewrite length_app. cbn.
    split; [lia|]. split; [lia|]. split; [lia|]. split; [lia|].
    exists []. split; [now rewrite app_nil_r | now left].
  - destruct (negb (truthy (trim (str (row_content row))))).
    + unfold Turn, counted. cbn. rewrite length_app. cbn.
      split; [lia|]. split; [lia|]. split; [lia|]. split; [lia|].
      exists []. split; [now rewrite app_nil_r | now left].
    + now apply trySync_turn.
Qed.

Lemma looks_app (a b : list Request) (previous : option Request) :
  looksBeforeWriting previous a = true ->
  (forall p, looksBeforeWriting p b = true) ->
  looksBeforeWriting previous (a ++ b) = true.
Proof.
  revert previous. induction a as [|r a IH]; intros previous Ha Hb;
    [apply Hb|].
  cbn [app looksBeforeWriting] in *.
  apply andb_true_iff in Ha. destruct Ha as [-> Ha]. now apply IH.
Qed.

(** What a loop of such turns adds up to. *)
Lemma turns_add_up (step : Tally Store -> Row -> Tally Store) :
  (forall st row,
      Turn cfg (Some (Normalizer.normalizePath (row_routePath row))) st
        (step st row)) ->
  forall (rows : list Row) (st : Tally Store),
    let st' := fold_left step rows st in
    counted st' = counted st + length rows
    /\ length (console st') = length (console st) + length rows
    /\ emptyContent st' + skipped st <= emptyContent st + skipped st'
    /\ length (requests st') <= length (requests st) + 2 * length rows
    /\ (DRY_RUN cfg = true ->
        forallb isFind (requests st) = true ->
        forallb isFind (requests st') = true)
    /\ (UPSERT_MODE cfg = skip ->
        forallb (fun r => negb (isPost r)) (requests st) = true ->
        forallb (fun r => negb (isPost r)) (requests st') = true)
    /\ (looksBeforeWriting None (requests st) = true ->
        looksBeforeWriting None (requests st') = true).
Proof.
  intros Hstep rows. induction rows as [|row rows IH]; intros st; cbv zeta.
  - cbn. repeat split; auto; lia.
  - cbn [fold_left length].
    destruct (Hstep st row) as (A1 & A2 & A3 & A4 & new & A5 & A6).
    destruct (IH (step st row)) as (B1 & B2 & B3 & B4 & B5 & B6 & B7).
    cbv zeta in *.
    assert (Hnew : length new <= 2
                   /\ (DRY_RUN cfg = true -> forallb isFind new = true)
                   /\ (UPSERT_MODE cfg = skip ->
                       forallb (fun r => negb (isPost r)) new = true)
                   /\ forall p, looksBeforeWriting p new = true).
    { destruct A6 as [->|(k & Hk & [->|(Hd & [(id & d & ->)
                                               |(Hm & d & Hdk & ->)])])].
      - cbn. repeat split; auto.
      - cbn. repeat split; auto.
      - cbn. repeat split; auto; congruence.
      - cbn. rewrite Hdk, streq_refl. repeat split; auto; congruence. }
    destruct Hnew as (N1 & N2 & N3 & N4).
    split; [lia|]. split; [lia|]. split; [lia|]. split.
    { rewrite A5, length_app in B4. lia. }
    split; [|split].
    + intros Hd H. apply B5; [exact Hd|].
      rewrite A5, forallb_app, H. now apply N2.
    + intros Hm H. apply B6; [exact Hm|].
      rewrite A5, forallb_app, H. now apply N3.
    + intros H. apply B7. rewrite A5. now apply looks_app.
Qed.

Lemma sync_run_facts
    (run : list Row -> Store -> Tally Store)
    (step : Tally Store -> Row -> Tally Store) :
  (forall st row,
      Turn cfg (Some (Normalizer.normalizePath (row_routePath row))) st
        (step st row)) ->
  (forall s, run [] s = say NoRows (start s)) ->
  (forall r rs s,
      exists d,
        run (r :: rs) s
        = say d (fold_left step (r :: rs) (say Syncing (start s)))) ->
  forall rows s,
    let st := run rows s in
    counted st = length rows
    /\ emptyContent st <= skipped st
    /\ length (requests st) <= 2 * length rows
    /\ (rows <> [] -> length (console st) = length rows + 2)
    /\ (DRY_RUN cfg = true -> forallb isFind (requests st) = true)
    /\ (UPSERT_MODE cfg = skip ->
        forallb (fun r => negb (isPost r)) (requests st) = true)
    /\ looksBeforeWriting None (requests st) = true.
Proof.
  intros Hstep Hnil Hcons rows s. cbv zeta. destruct rows as [|r rs].
  - rewrite Hnil. cbn. repeat split; auto; try lia. congruence.
  - destruct (Hcons r rs s) as (d & ->).
    destruct (@turns_add_up step Hstep (r :: rs) (say Syncing (start s)))
      as (B1 & B2 & B3 & B4 & B5 & B6 & B7).
    cbv zeta in *. unfold counted in *. cbn [say start updated created
      skipped failed emptyContent requests console length app] in *.
    rewrite length_app. cbn [length] in *.
    split; [lia|]. split; [lia|]. split; [lia|]. split; [lia|].
    split; [intros H; now apply B5|]. split; [intros H; now apply B6|].
    now apply B7.
Qed.

Lemma content_run_facts (rows : list Row) (s : Store) :
  let st := runContent serve cfg rows s in
  counted st = length rows
  /\ emptyContent st <= skipped st
  /\ length (requests st) <= 2 * length rows
  /\ (rows <> [] -> length (console st) = length rows + 2)
  /\ (DRY_RUN cfg = true -> forallb isFind (requests st) = true)
  /\ (UPSERT_MODE cfg = skip ->
      forallb (fun r => negb (isPost r)) (requests st) = true)
  /\ looksBeforeWriting None (requests st) = true.
Proof.
  apply (@sync_run_facts (runContent serve cfg) (syncContent serve cfg)).
  - intros. apply syncContent_turn.
  - reflexivity.
  - intros. eexists. reflexivity.
Qed.

Lemma blocks_run_facts (rows : list Row) (s : Store) :
  let st := runBlocks serve cfg rows s in
  counted st = length rows
  /\ emptyContent st <= skipped st
  /\ length (requests st) <= 2 * length rows
  /\ (rows <> [] -> length (console st) = length rows + 2)
  /\ (DRY_RUN cfg = true -> forallb isFind (requests st) = true)
  /\ (UPSERT_MODE cfg = skip ->
      forallb (fun r => negb (isPost r)) (requests st) = true)
  /\ looksBeforeWriting None (requests st) = true.
Proof.
  apply (@sync_run_facts (runBlocks serve cfg) (syncBlocks serve cfg)).
  - intros. apply syncBlocks_turn.
  - reflexivity.
  - intros. eexists. reflexivity.
Qed.

End SyncFacts.

(** ** The page synchronisers on the rows of any input file *)

Section SyncRowFacts.
Import Input.
Context {RT : Runtime}.

Variable Store : Type.
Variable serve : Store -> Sync.Request -> Store * Reply.
Variable cfg : Sync.Config.

Lemma allTexts_length (rows : list SyncRows.Row) (rs : list Sync.Row) :
  SyncRows.allTexts rows = inr rs -> length rs = length rows.
Proof.
  revert rs. induction rows as [|row rows IH]; intros rs H.
  - injection H as <-. reflexivity.
  - cbn [SyncRows.allTexts] in H.
    destruct (SyncRows.texts row) as [e|r]; [discriminate H|].
    cbn [andThen] in H.
    destruct (SyncRows.allTexts rows) as [e|rs']; [discriminate H|].
    injection H as <-. cbn [length]. now rewrite (IH rs').
Qed.

(** A loop over rows that convert takes every turn. *)
Lemma sync_loop_converts
    (turn : Sync.Tally Store -> Sync.Row -> Sync.Tally Store)
    (rows : list SyncRows.Row) (rs : list Sync.Row) (st : Sync.Tally Store) :
  SyncRows.allTexts rows = inr rs ->
  SyncRows.loop turn rows st = SyncRows.Finished (fold_left turn rs st).
Proof.
  revert rs st. induction rows as [|row rows IH]; intros rs st H.
  - injection H as <-. reflexivity.
  - cbn [SyncRows.allTexts] in H. cbn [SyncRows.loop].
    destruct (SyncRows.texts row) as [e|r]; [discriminate H|].
    cbn [andThen] in H.
    destruct (SyncRows.allTexts rows) as [e|rs']; [discriminate H|].
    injection H as <-. cbn [fold_left]. now apply IH.
Qed.

(** A loop stops at the first row that does not convert, before
    anything is counted or printed for it. *)
Lemma sync_loop_aborts
    (turn : Sync.Tally Store -> Sync.Row -> Sync.Tally Store)
    (before after : list SyncRows.Row) (bad : SyncRows.Row)
    (rs : list Sync.Row) (e : Error) (st : Sync.Tally Store) :
  SyncRows.allTexts before = inr rs -> SyncRows.texts bad = inl e ->
  SyncRows.loop turn (before ++ bad :: after) st
  = SyncRows.Aborted (fold_left turn rs st) e.
Proof.
  revert rs st. induction before as [|row rows IH]; intros rs st H Hbad.
  - injection H as <-. cbn [app SyncRows.loop]. now rewrite Hbad.
  - cbn [SyncRows.allTexts] in H. cbn [app SyncRows.loop].
    destruct (SyncRows.texts row) as [e'|r]; [discriminate H|].
    cbn [andThen] in H.
    destruct (SyncRows.allTexts rows) as [e'|rs']; [discriminate H|].
    injection H as <-. cbn [fold_left]. now apply IH.
Qed.

Lemma allTexts_ofTexts (rows : list Sync.Row) :
  SyncRows.allTexts (map SyncRows.ofTexts rows)
  = inr (map SyncRows.readAs rows).
Proof.
  induction rows as [|row rows IH]; [reflexivity|].
  cbn [map SyncRows.allTexts]. rewrite sync_texts_ofTexts, IH. reflexivity.
Qed.

Lemma turns_readAs
    (turn : Sync.Tally Store -> Sync.Row -> Sync.Tally Store) :
  (forall st row, turn st (SyncRows.readAs row) = turn st row) ->
  forall rows st,
    fold_left turn (map SyncRows.readAs rows) st = fold_left turn rows st.
Proof.
  intros H rows. induction rows as [|row rows IH]; intros st; [reflexivity|].
  cbn [map fold_left]. now rewrite H, IH.
Qed.

Lemma syncContent_readAs (st : Sync.Tally Store) (row : Sync.Row) :
  Sync.syncContent serve cfg st (SyncRows.readAs row)
  = Sync.syncContent serve cfg st row.
Proof. destruct row as [[a|] [b|] [c|] l]; reflexivity. Qed.

Lemma syncBlocks_readAs (st : Sync.Tally Store) (row : Sync.Row) :
  Sync.syncBlocks serve cfg st (SyncRows.readAs row)
  = Sync.syncBlocks serve cfg st row.
Proof. destruct row as [[a|] [b|] [c|] l]; reflexivity. Qed.

(** What a turn sends: at most two requests. *)
Lemma turn_requests (route : option jsstring) (st st' : Sync.Tally Store) :
  Sync.Turn cfg route st st' ->
  Sync.counted st' = S (Sync.counted st)
  /\ length (Sync.console st') = S (length (Sync.console st))
  /\ exists new,
       Sync.requests st' = Sync.requests st ++ new /\ length new <= 2.
Proof.
  intros (H1 & H2 & _ & _ & new & H5 & H6).
  split; [exact H1|]. split; [exact H2|]. exists new. split; [exact H5|].
  destruct H6 as [->|(k & _ & [->|(_ & [(id & d & ->)|(_ & d & _ & ->)])])];
    cbn; lia.
Qed.

End SyncRowFacts.

(** X22.  The two page synchronisers count every row they read exactly
    once.  A turn of either loop counts its row once, prints one line and
    sends at most two requests.  When every row of the input converts
    (its route, page name and content have a string form) the run takes a
    turn for every row and ends with the summary: the four counters add
    up to the number of rows, the rows without content are among the
    skipped ones, and one line is printed for each row between the first
    line and the summary.  At the first row that does not convert the run
    ends, before anything is counted, sent or printed for that row, and
    without summary.  On rows of strings the runs are those of the
    synchronisers of rows of strings. *)
Theorem sync_counts_every_row {RT : Runtime} (Store : Type)
    (serve : Store -> Sync.Request -> Store * Reply) (cfg : Sync.Config) :
  (forall (turn : Sync.Tally Store -> Sync.Row -> Sync.Tally Store),
      turn = Sync.syncContent serve cfg \/ turn = Sync.syncBlocks serve cfg ->
      forall st r,
        Sync.counted (turn st r) = S (Sync.counted st)
        /\ length (Sync.console (turn st r)) = S (length (Sync.console st))
        /\ exists new,
             Sync.requests (turn st r) = Sync.requests st ++ new
             /\ length new <= 2)
  /\ (forall rows rs s,
         SyncRows.allTexts rows = inr rs ->
         SyncRows.runContent serve cfg rows s
         = SyncRows.Finished (Sync.runContent serve cfg rs s)
         /\ SyncRows.runBlocks serve cfg rows s
            = SyncRows.Finished (Sync.runBlocks serve cfg rs s)
         /\ (let st := Sync.runContent serve cfg rs s in
             Sync.counted st = length rows
             /\ length (Sync.requests st) <= 2 * length rows
             /\ (rows <> [] -> length (Sync.console st) = length rows + 2))
         /\ (let st := Sync.runBlocks serve cfg rs s in
             Sync.counted st = length rows
             /\ Sync.emptyContent st <= Sync.skipped st
             /\ length (Sync.requests st) <= 2 * length rows
             /\ (rows <> [] -> length (Sync.console st) = length rows + 2)))
  /\ (forall before bad after rs e s,
         SyncRows.allTexts before = inr rs ->
         SyncRows.texts bad = inl e ->
         exists stc stb,
           SyncRows.runContent serve cfg (before ++ bad :: after) s
           = SyncRows.Aborted stc e
           /\ SyncRows.runBlocks serve cfg (before ++ bad :: after) s
              = SyncRows.Aborted stb e
           /\ Sync.counted stc = length before
           /\ length (Sync.console stc) = length before + 1
           /\ length (Sync.requests stc) <= 2 * length before
           /\ Sync.counted stb = length before
           /\ length (Sync.console stb) = length before + 1
           /\ length (Sync.requests stb) <= 2 * length before)
  /\ (forall rows s,
         SyncRows.runContent serve cfg (map SyncRows.ofTexts rows) s
         = SyncRows.Finished (Sync.runContent serve cfg rows s)
         /\ SyncRows.runBlocks serve cfg (map SyncRows.ofTexts rows) s
            = SyncRows.Finished (Sync.runBlocks serve cfg rows s)).
Proof.
  assert (Hdone : forall rows rs s,
             SyncRows.allTexts rows = inr rs ->
             SyncRows.runContent serve cfg rows s
             = SyncRows.Finished (Sync.runContent serve cfg rs s)
             /\ SyncRows.runBlocks serve cfg rows s
                = SyncRows.Finished (Sync.runBlocks serve cfg rs s)).
  { intros rows rs s H. pose proof (allTexts_length rows H) as Hlen.
    unfold SyncRows.runContent, SyncRows.runBlocks, Sync.runContent,
      Sync.runBlocks.
    destruct rows as [|row rows]; destruct rs as [|r rs];
      try discriminate Hlen; [split; reflexivity|].
    now rewrite !(sync_loop_converts _ _ _ H). }
  split; [|split; [|split]].
  - intros turn [-> | ->] st r.
    + apply (@turn_requests Store cfg
               (Some (Normalizer.normalizePath (Sync.row_routePath r)))).
      apply syncContent_turn.
    + apply (@turn_requests Store cfg
               (Some (Normalizer.normalizePath (Sync.row_routePath r)))).
      apply syncBlocks_turn.
  - intros rows rs s H. pose proof (allTexts_length rows H) as Hlen.
    destruct (Hdone rows rs s H) as [Hc Hb].
    split; [exact Hc|]. split; [exact Hb|].
    destruct (content_run_facts serve cfg rs s) as (C1 & _ & C3 & C4 & _).
    destruct (blocks_run_facts serve cfg rs s) as (B1 & B2 & B3 & B4 & _).
    cbv zeta in *. rewrite <- Hlen.
    assert (Hne : rows <> [] -> rs <> []).
    { intros Hr ->. destruct rows; [congruence|discriminate Hlen]. }
    repeat split; auto.
  - intros before bad after rs e s H Hbad.
    pose proof (allTexts_length before H) as Hlen.
    unfold SyncRows.runContent, SyncRows.runBlocks.
    destruct (before ++ bad :: after) as [|x xs] eqn:E;
      [now destruct before|].
    rewrite <- E.
    rewrite !(sync_loop_aborts _ _ _ _ _ H Hbad).
    eexists. eexists. split; [reflexivity|]. split; [reflexivity|].
    destruct (@turns_add_up Store cfg (Sync.syncContent serve cfg)
                (fun st row => proj1 (syncContent_turn serve cfg st row))
                rs (Sync.say Sync.Syncing (Sync.start s)))
      as (C1 & C2 & _ & C4 & _).
    destruct (@turns_add_up Store cfg (Sync.syncBlocks serve cfg)
                (syncBlocks_turn serve cfg)
                rs (Sync.say Sync.Syncing (Sync.start s)))
      as (B1 & B2 & _ & B4 & _).
    cbv zeta in *. unfold Sync.counted in *. cbn in C1, C2, C4, B1, B2, B4.
    rewrite <- Hlen. repeat split; lia.
  - intros rows s.
    destruct (Hdone (map SyncRows.ofTexts rows) (map SyncRows.readAs rows) s
                (allTexts_ofTexts rows)) as [Hc Hb].
    rewrite Hc, Hb. unfold Sync.runContent, Sync.runBlocks.
    destruct rows as [|row rows]; [split; reflexivity|].
    cbn [map].
    change (SyncRows.readAs row :: map SyncRows.readAs rows)
      with (map SyncRows.readAs (row :: rows)).
    rewrite (turns_readAs _ (syncContent_readAs serve cfg)).
    rewrite (turns_readAs _ (syncBlocks_readAs serve cfg)).
    split; reflexivity.
Qed.

(** X23.  With [DRY_RUN] the page synchronisers send lookups only, and in
    mode [skip] they never create a page, whatever the rows and whatever
    the store answers. *)
Theorem sync_sends_no_unwanted_write {RT : Runtime} (Store : Type)
    (serve : Store -> Sync.Request -> Store * Reply) (cfg : Sync.Config)
    (rows : list Sync.Row) (s : Store) :
  (Sync.DRY_RUN cfg = true ->
   forallb Sync.isFind (Sync.requests (Sync.runContent serve cfg rows s))
   = true
   /\ forallb Sync.isFind (Sync.requests (Sync.runBlocks serve cfg rows s))
      = true)
  /\ (Sync.UPSERT_MODE cfg = Sync.skip ->
      forallb (fun r => negb (Sync.isPost r))
        (Sync.requests (Sync.runContent serve cfg rows s)) = true
      /\ forallb (fun r => negb (Sync.isPost r))
           (Sync.requests (Sync.runBlocks serve cfg rows s)) = true).
Proof.
  destruct (content_run_facts serve cfg rows s)
    as (_ & _ & _ & _ & C1 & C2 & _).
  destruct (blocks_run_facts serve cfg rows s)
    as (_ & _ & _ & _ & B1 & B2 & _).
  cbv zeta in *. split; intros H; split; auto.
Qed.

(** X24.  The page synchronisers never write blind: every update comes
    right after a lookup, and every creation right after the lookup of
    the very route it creates. *)
Theorem sync_looks_before_writing {RT : Runtime} (Store : Type)
    (serve : Store -> Sync.Request -> Store * Reply) (cfg : Sync.Config)
    (rows : list Sync.Row) (s : Store) :
  Sync.looksBeforeWriting None
    (Sync.requests (Sync.runContent serve cfg rows s)) = true
  /\ Sync.looksBeforeWriting None
       (Sync.requests (Sync.runBlocks serve cfg rows s)) = true.
Proof.
  split.
  - apply (content_run_facts serve cfg rows s).
  - apply (blocks_run_facts serve cfg rows s).
Qed.

Section SyncWrites.
Import Sync.
Context {RT : Runtime}.

Variable Store : Type.
Variable serve : Store -> Request -> Store * Reply.
Variable cfg : Config.

Lemma trySync_requests (P : Request -> Prop) (st : Tally Store) (row : Row)
    (k : jsstring) (payload createPayload : Data) (blocks : option nat) :
  P (Find k) -> (forall id, idTruthy id = true -> P (Put id payload)) ->
  P (Post createPayload) ->
  Forall P (requests st) ->
  Forall P (requests (trySync serve cfg st row k payload createPayload blocks)).
Proof.
  intros Hf Hu Hc Hst. unfold trySync, write.
  assert (Hsent : Forall P (requests st ++ [Find k]))
    by (apply Forall_app; split; [exact Hst | now constructor]).
  destruct (serve (store st) (Find k)) as [s [status body|result]];
    [exact Hsent|].
  cbv zeta. destruct (firstEntry result) as [existing|].
  - destruct (getEntryId existing) as [id|]; [|exact Hsent].
    destruct (idTruthy id) eqn:Ei; [|exact Hsent].
    destruct (negb (DRY_RUN cfg)); [|exact Hsent].
    cbn [sent store]. destruct (serve s (Put id payload)) as [s' [a b|d]];
      cbn; apply Forall_app; split; auto.
  - destruct (UPSERT_MODE cfg); [exact Hsent|].
    destruct (negb (DRY_RUN cfg)); [|exact Hsent].
    cbn [sent store]. destruct (serve s (Post createPayload)) as [s' [a b|d]];
      cbn; apply Forall_app; split; auto.
Qed.

Lemma orElse_nonempty (a b : jsstring) : b <> [] -> orElse a b <> [].
Proof. intros Hb. unfold orElse. destruct a; [exact Hb | discriminate]. Qed.

Lemma syncContent_requests (st : Tally Store) (row : Row) :
  Forall contentWrite (requests st) ->
  Forall contentWrite (requests (syncContent serve cfg st row)).
Proof.
  intros H. unfold syncContent. cbv zeta.
  destruct (truthy (Normalizer.normalizePath (row_routePath row))) eqn:Ek;
    cbn [negb]; [|exact H].
  assert (Hne : Normalizer.normalizePath (row_routePath row) <> [])
    by (intros E; rewrite E in Ek; discriminate Ek).
  apply trySync_requests; auto.
  - exact I.
  - intros id Hid. split; [exact Hid | discriminate].
  - unfold contentWrite, createsPage. cbn.
    split; [eexists; split; [reflexivity | exact Hne]|].
    split; [eexists; split; [reflexivity | now apply orElse_nonempty]|].
    split; [discriminate | reflexivity].
Qed.

Lemma syncBlocks_requests (st : Tally Store) (row : Row) :
  Forall blocksWrite (requests st) ->
  Forall blocksWrite (requests (syncBlocks serve cfg st row)).
Proof.
  intros H. unfold syncBlocks. cbv zeta.
  destruct (truthy (Normalizer.normalizePath (row_routePath row))) eqn:Ek;
    cbn [negb]; [|exact H].
  assert (Hne : Normalizer.normalizePath (row_routePath row) <> [])
    by (intros E; rewrite E in Ek; discriminate Ek).
  destruct (truthy (trim (str (row_content row)))) eqn:Ec; cbn [negb];
    [|exact H].
  assert (Hb : carriesBlocks
                 {| d_routePath := None; d_pageName := None;
                    d_content := None;
                    d_contentBlocks :=
                      Some (Blocks.convertContentToBlocks (lit "page")
                              (str (row_content row)));
                    d_isActive := None; d_publishedAt := None |}).
  { eexists. split; [reflexivity|]. intros E.
    pose proof (convert_nonblank (lit "page") _ Ec) as Hn.
    rewrite E in Hn. discriminate Hn. }
  destruct Hb as (blocks & Hb1 & Hb2). cbn in Hb1. injection Hb1 as Hb1.
  apply trySync_requests; auto.
  - exact I.
  - intros id Hid. split; [exact Hid|]. exists blocks.
    split; [cbn; now rewrite Hb1 | exact Hb2].
  - unfold blocksWrite, createsPage. cbn. split.
    + split; [eexists; split; [reflexivity | exact Hne]|].
      split; [eexists; split; [reflexivity | now apply orElse_nonempty]|].
      split; [discriminate | reflexivity].
    + exists blocks. split; [cbn; now rewrite Hb1 | exact Hb2].
Qed.

Lemma fold_requests (P : Request -> Prop)
    (step : Tally Store -> Row -> Tally Store) :
  (forall st row,
      Forall P (requests st) -> Forall P (requests (step st row))) ->
  forall rows st,
    Forall P (requests st) -> Forall P (requests (fold_left step rows st)).
Proof.
  intros Hstep rows. induction rows as [|r rs IH]; intros st H; [exact H|].
  cbn [fold_left]. apply IH. now apply Hstep.
Qed.

Lemma sync_writes (rows : list Row) (s : Store) :
  Forall contentWrite (requests (runContent serve cfg rows s))
  /\ Forall blocksWrite (requests (runBlocks serve cfg rows s)).
Proof.
  unfold runContent, runBlocks. destruct rows as [|r rs];
    [split; constructor|].
  cbn [say requests]. split; apply fold_requests;
    auto using syncContent_requests, syncBlocks_requests; constructor.
Qed.

End SyncWrites.

(** X25.  What the page synchronisers write is complete: an update goes
    to an identifier that is not empty, a creation carries a route and a
    page name that are not empty (the name falling back to the route),
    the content and the active flag, and every write of the block
    synchroniser carries at least one block. *)
Theorem sync_writes_are_complete {RT : Runtime} (Store : Type)
    (serve : Store -> Sync.Request -> Store * Reply) (cfg : Sync.Config)
    (rows : list Sync.Row) (s : Store) :
  Forall Sync.contentWrite (Sync.requests (Sync.runContent serve cfg rows s))
  /\ Forall Sync.blocksWrite
       (Sync.requests (Sync.runBlocks serve cfg rows s)).
Proof. apply sync_writes. Qed.

(** ** Reading all the pages of a collection *)

Section PagingFacts.
Import Paging.

Variable Item : Type.
Variable Store : Type.
Variable serve : Store -> Query -> Store * Answer Item.
Variable PAGE_SIZE : nat.
Variable filter_ : option jsstring.

Lemma fetchLoop_queries (turns : nat) :
  forall s sent rows page count,
    exists k,
      k <= turns
      /\ snd (fst (fetchLoop serve PAGE_SIZE filter_ turns s sent rows page
                     count))
         = sent ++ map (queryOf PAGE_SIZE filter_) (seq page k)
      /\ (withinCount page count = true -> 0 < turns -> 0 < k).
Proof.
  induction turns as [|turns IH]; intros s sent rows page count.
  - exists 0. cbn [fetchLoop]. destruct (withinCount page count);
      cbn; rewrite app_nil_r;
      (split; [lia|]); (split; [reflexivity|intros; lia]).
  - cbn [fetchLoop]. destruct (withinCount page count).
    + destruct (serve s (queryOf PAGE_SIZE filter_ page))
        as [s' [status body|payload]].
      * exists 1. cbn. split; [lia|]. split; [reflexivity|intros; lia].
      * destruct (IH s' (sent ++ [queryOf PAGE_SIZE filter_ page])
                    (rows ++ dataOf payload) (page + 1)
                    (numberOf (pageCount payload))) as (k & Hk & Hs & _).
        exists (S k). split; [lia|]. split; [|intros; lia].
        rewrite Hs, <- app_assoc. cbn [seq map app].
        now rewrite Nat.add_1_r.
    + exists 0. cbn. rewrite app_nil_r.
      split; [lia|]. split; [reflexivity | discriminate].
Qed.

Lemma fetchLoop_honest (n : nat) :
  (forall s q, exists s' items,
      serve s q = (s', Answered {| data := items; pageCount := Pages n |})) ->
  forall turns s sent rows page,
    1 <= page -> S n <= page + turns ->
    exists s' rows',
      fetchLoop serve PAGE_SIZE filter_ turns s sent rows page (Finite n)
      = (s', sent ++ map (queryOf PAGE_SIZE filter_)
                        (seq page (S n - page)),
         Fetched rows').
Proof.
  intros Hserve. induction turns as [|turns IH];
    intros s sent rows page Hp Hn.
  - cbn [fetchLoop withinCount].
    replace (page <=? n) with false by (symmetry; apply Nat.leb_gt; lia).
    replace (S n - page) with 0 by lia. cbn. rewrite app_nil_r.
    now exists s, rows.
  - cbn [fetchLoop withinCount]. destruct (page <=? n) eqn:E.
    + apply Nat.leb_le in E.
      destruct (Hserve s (queryOf PAGE_SIZE filter_ page))
        as (s' & items & ->). cbn [pageCount numberOf].
      destruct (IH s' (sent ++ [queryOf PAGE_SIZE filter_ page])
                  (rows ++ dataOf {| data := items; pageCount := Pages n |})
                  (page + 1)) as (s'' & rows' & ->); [lia | lia |].
      exists s'', rows'. f_equal. f_equal. rewrite <- app_assoc. f_equal.
      replace (S n - page) with (S (S n - (page + 1))) by lia.
      cbn [seq map app]. now rewrite Nat.add_1_r.
    + apply Nat.leb_gt in E. replace (S n - page) with 0 by lia. cbn.
      rewrite app_nil_r. now exists s, rows.
Qed.

Lemma fetchLoop_growing :
  (forall s q, exists s' items,
      serve s q
      = (s', Answered {| data := items;
                         pageCount := Pages (q_page q + 1) |})) ->
  forall turns s sent rows page n,
    page <= n ->
    snd (fetchLoop serve PAGE_SIZE filter_ turns s sent rows page (Finite n))
    = StillFetching.
Proof.
  intros Hserve. induction turns as [|turns IH];
    intros s sent rows page n Hp; cbn [fetchLoop withinCount];
    replace (page <=? n) with true by (symmetry; apply Nat.leb_le; lia);
    [reflexivity|].
  destruct (Hserve s (queryOf PAGE_SIZE filter_ page)) as (s' & items & ->).
  cbn [pageCount numberOf queryOf q_page]. apply IH. lia.
Qed.

Lemma fetchAll_facts :
  (forall turns s,
      let sent := snd (fst (fetchAll serve PAGE_SIZE filter_ turns s)) in
      sent = map (queryOf PAGE_SIZE filter_) (seq 1 (length sent))
      /\ length sent <= turns /\ (0 < turns -> sent <> []))
  /\ (forall n turns s,
         (forall s q, exists s' items,
             serve s q
             = (s', Answered {| data := items; pageCount := Pages n |})) ->
         Nat.max 1 n <= turns ->
         exists s' rows,
           fetchAll serve PAGE_SIZE filter_ turns s
           = (s', map (queryOf PAGE_SIZE filter_) (seq 1 (Nat.max 1 n)),
              Fetched rows))
  /\ (forall turns s,
         (forall s q, exists s' items,
             serve s q
             = (s', Answered {| data := items;
                                pageCount := Pages (q_page q + 1) |})) ->
         snd (fetchAll serve PAGE_SIZE filter_ turns s) = StillFetching).
Proof.
  split; [|split].
  - intros turns s. cbv zeta. unfold fetchAll.
    destruct (fetchLoop_queries turns s [] [] 1 (Finite 1))
      as (k & Hk & Hs & Hpos).
    rewrite Hs. cbn [app]. rewrite length_map, length_seq.
    split; [reflexivity|]. split; [exact Hk|].
    intros Ht E. specialize (Hpos eq_refl Ht).
    destruct k; [lia | discriminate E].
  - intros n turns s Hserve Hn. unfold fetchAll. destruct turns as [|turns];
      [lia|].
    cbn [fetchLoop withinCount Nat.leb].
    destruct (Hserve s (queryOf PAGE_SIZE filter_ 1)) as (s' & items & ->).
    cbn [pageCount numberOf app].
    destruct (@fetchLoop_honest n Hserve turns s'
                [queryOf PAGE_SIZE filter_ 1]
                (dataOf {| data := items; pageCount := Pages n |}) 2)
      as (s'' & rows' & H); [lia | lia |].
    change (1 + 1) with 2. rewrite H. exists s'', rows'.
    f_equal. f_equal.
    destruct n as [|n]; [reflexivity|].
    replace (Nat.max 1 (S n)) with (S n) by lia.
    replace (S (S n) - 2) with n by lia. reflexivity.
  - intros turns s Hserve. unfold fetchAll.
    apply fetchLoop_growing; [exact Hserve | lia].
Qed.

End PagingFacts.

(** X26.  [fetchAllPages] asks for the pages 1, 2, 3, ... in order, with
    the same page size and filter, and always for page 1.  Against a
    store that answers every query and reports [n] pages it ends after
    [max 1 n] queries with the rows; against a store that always reports
    one page more than the page asked for it never ends. *)
Theorem fetchAll_pages_in_order (Item Store : Type)
    (serve : Store -> Paging.Query -> Store * Paging.Answer Item)
    (PAGE_SIZE : nat) (filter_ : option jsstring) :
  (forall turns s,
      let sent := snd (fst (Paging.fetchAll serve PAGE_SIZE filter_ turns s)) in
      sent = map (Paging.queryOf PAGE_SIZE filter_) (seq 1 (length sent))
      /\ length sent <= turns /\ (0 < turns -> sent <> []))
  /\ (forall n turns s,
         (forall s q, exists s' items,
             serve s q
             = (s', Paging.Answered
                      {| Paging.data := items;
                         Paging.pageCount := Paging.Pages n |})) ->
         Nat.max 1 n <= turns ->
         exists s' rows,
           Paging.fetchAll serve PAGE_SIZE filter_ turns s
           = (s', map (Paging.queryOf PAGE_SIZE filter_)
                    (seq 1 (Nat.max 1 n)),
              Paging.Fetched rows))
  /\ (forall turns s,
         (forall s q, exists s' items,
             serve s q
             = (s', Paging.Answered
                      {| Paging.data := items;
                         Paging.pageCount :=
                           Paging.Pages (Paging.q_page q + 1) |})) ->
         snd (Paging.fetchAll serve PAGE_SIZE filter_ turns s)
         = Paging.StillFetching).
Proof. apply fetchAll_facts. Qed.

(** ** The summary of a news article *)

Section Summary.
Import Lifecycle.

(** *** Lines of the stripped text *)

Lemma blanksHoldLF_cons (c : jschar) (r : jsstring) :
  blanksHoldLF (c :: r) = isSpace c && (chareq LF c || blanksHoldLF r).
Proof.
  unfold blanksHoldLF. cbn [takeWhile]. now destruct (isSpace c).
Qed.

Lemma collapse_lines (s : jsstring) :
  tightLines (collapseBeforeLF s false) = true
  /\ (startsLF (collapseBeforeLF s false) = true -> blanksHoldLF s = true)
  /\ (blanksHoldLF s = true ->
      tightLines (collapseBeforeLF s true) = true
      /\ startsLF (collapseBeforeLF s true) = false).
Proof.
  induction s as [|c r (IH1 & IH2 & IH3)]; [now repeat split|].
  assert (Hquiet : blanksHoldLF r = false ->
                   startsLF (collapseBeforeLF r false) = false).
  { intros E. destruct (startsLF (collapseBeforeLF r false)); [|reflexivity].
    rewrite IH2 in E; [discriminate | reflexivity]. }
  split; [|split].
  - cbn [collapseBeforeLF]. destruct (isSpace c) eqn:Ec; cbn [andb].
    + destruct (blanksHoldLF r) eqn:Er.
      * destruct (IH3 eq_refl) as [Ht Hh]. cbn [tightLines].
        now rewrite Hh, Ht, andb_false_r.
      * cbn [tightLines]. now rewrite (Hquiet eq_refl), andb_false_r, IH1.
    + cbn [tightLines]. now rewrite Ec, IH1.
  - rewrite blanksHoldLF_cons. cbn [collapseBeforeLF].
    destruct (isSpace c) eqn:Ec; cbn [andb].
    + destruct (blanksHoldLF r); [now rewrite orb_true_r|].
      cbn [startsLF]. intros ->. reflexivity.
    + cbn [startsLF]. intros E. apply chareq_true in E. subst c.
      discriminate Ec.
  - intros _. cbn [collapseBeforeLF]. destruct (blanksHoldLF r) eqn:Er.
    + now apply IH3.
    + split; [exact IH1 | now apply Hquiet].
Qed.

Lemma squeezeLFs_tight (o : jsstring) :
  tightLines o = true -> squeezeLFs o false = o.
Proof.
  induction o as [|c r IH]; [reflexivity|]. cbn [tightLines squeezeLFs].
  intros H. apply andb_true_iff in H. destruct H as [Hc Hr].
  destruct (chareq c LF) eqn:Ec; cbn [andb].
  - apply chareq_true in Ec. subst c.
    destruct r as [|c2 [|c3 r]]; try now rewrite IH.
    cbn [startsLF] in Hc. change (isSpace LF) with true in Hc.
    cbn [andb] in Hc. apply negb_true_iff in Hc.
    rewrite (chareq_sym c2 LF), Hc. cbn [andb]. now rewrite IH.
  - now rewrite IH.
Qed.

Lemma tightLines_suffix (a b : jsstring) :
  tightLines (a ++ b) = true -> tightLines b = true.
Proof.
  induction a as [|c a IH]; [auto|]. cbn [app tightLines]. intros H.
  apply andb_true_iff in H. now apply IH.
Qed.

Lemma tightLines_prefix (a b : jsstring) :
  tightLines (a ++ b) = true -> tightLines a = true.
Proof.
  induction a as [|c a IH]; [reflexivity|]. cbn [app tightLines]. intros H.
  apply andb_true_iff in H. destruct H as [Hc H]. rewrite (IH H), andb_true_r.
  destruct a as [|d a]; [now rewrite andb_false_r | exact Hc].
Qed.

Lemma stripHtml_tight (value : option jsstring) :
  tightLines (stripHtml value) = true.
Proof.
  unfold stripHtml.
  set (x := removeTags (replaceBlockTags (str value) false) false).
  pose proof (proj1 (collapse_lines x)) as Ht.
  rewrite (squeezeLFs_tight _ Ht).
  destruct (trim_infix (collapseBeforeLF x false)) as (pre & post & E).
  rewrite E in Ht. apply tightLines_suffix in Ht.
  now apply tightLines_prefix in Ht.
Qed.

Lemma tight_blanks (r : jsstring) (c : jschar) :
  tightLines (c :: r) = true -> isSpace c = true -> blanksHoldLF r = false.
Proof.
  revert c. induction r as [|d r IH]; intros c H Hc; [reflexivity|].
  rewrite blanksHoldLF_cons. cbn [tightLines] in H.
  apply andb_true_iff in H. destruct H as [H1 H2].
  rewrite Hc in H1. cbn [andb startsLF] in H1. apply negb_true_iff in H1.
  rewrite H1. cbn [orb]. destruct (isSpace d) eqn:Ed; [|reflexivity].
  cbn [andb]. apply (IH d); [|exact Ed]. cbn [tightLines].
  now rewrite Ed.
Qed.

Lemma splitParagraphs_tight (s cur : jsstring) :
  tightLines s = true -> splitParagraphs s cur false = [rev cur ++ s].
Proof.
  revert cur. induction s as [|c r IH]; intros cur H.
  - cbn. now rewrite app_nil_r.
  - cbn [splitParagraphs].
    assert (E : chareq c LF && blanksHoldLF r = false).
    { destruct (chareq c LF) eqn:Ec; [|reflexivity]. cbn [andb].
      apply chareq_true in Ec. subst c. now apply (@tight_blanks r LF). }
    rewrite E. cbn [tightLines] in H. apply andb_true_iff in H.
    rewrite IH by apply H. cbn [rev]. now rewrite <- app_assoc.
Qed.

Lemma firstParagraph_whole (value : option jsstring) :
  firstParagraph value = stripHtml (Some (trim (str value))).
Proof.
  unfold firstParagraph. cbv zeta.
  destruct (truthy (trim (str value))) eqn:E;
    [|now destruct (trim (str value))].
  cbn [negb].
  rewrite (@splitParagraphs_tight _ [] (stripHtml_tight _)).
  cbn [rev app map]. unfold stripHtml at 1. rewrite trim_idem.
  fold (stripHtml (Some (trim (str value)))).
  unfold firstTruthy. cbn [filter].
  now destruct (stripHtml (Some (trim (str value)))).
Qed.

(** *** Tags *)

Lemma matchAnyTag_other (c : jschar) (o : jsstring) :
  chareq c LT = false -> matchAnyTag (c :: o) = false.
Proof. intros E. destruct o; cbn [matchAnyTag]; now rewrite ?E. Qed.

Lemma matchAnyTag_open (c : jschar) (o : jsstring) :
  existsb (chareq GT) o = false -> matchAnyTag (c :: o) = false.
Proof.
  destruct o as [|d o]; [reflexivity|]. cbn [existsb matchAnyTag]. intros H.
  apply orb_false_iff in H. destruct H as [_ ->]. apply andb_false_r.
Qed.

Lemma head_clean (c : jschar) (r o : jsstring) :
  matchAnyTag (c :: r) = false ->
  (existsb (chareq GT) r = false -> existsb (chareq GT) o = false) ->
  (forall r', r = GT :: r' -> exists o', o = GT :: o') ->
  matchAnyTag (c :: o) = false.
Proof.
  intros Hm Hgt Hhead. destruct (chareq c LT) eqn:Ec;
    [|now apply matchAnyTag_other].
  destruct r as [|c2 r']; [now apply matchAnyTag_open, Hgt|].
  cbn [matchAnyTag] in Hm. rewrite Ec in Hm. cbn [andb] in Hm.
  destruct (chareq c2 GT) eqn:E2.
  - apply chareq_true in E2. subst c2.
    destruct (Hhead r' eq_refl) as (o' & ->).
    cbn [matchAnyTag]. rewrite chareq_refl. now rewrite andb_false_r.
  - cbn [negb andb] in Hm. apply matchAnyTag_open, Hgt. cbn [existsb].
    now rewrite (chareq_sym GT c2), E2, Hm.
Qed.

Lemma removeTags_gt (s : jsstring) (m : bool) :
  existsb (chareq GT) s = false ->
  existsb (chareq GT) (removeTags s m) = false.
Proof.
  revert m. induction s as [|c r IH]; intros m H; [reflexivity|].
  cbn [existsb] in H. apply orb_false_iff in H. destruct H as [Hc Hr].
  cbn [removeTags]. destruct m.
  - destruct (chareq c GT); now apply IH.
  - destruct (matchAnyTag (c :: r)); [now apply IH|].
    cbn [existsb]. now rewrite Hc, IH.
Qed.

Lemma removeTags_free (s : jsstring) (m : bool) :
  tagFree (removeTags s m) = true.
Proof.
  revert m. induction s as [|c r IH]; intros m; [reflexivity|].
  cbn [removeTags]. destruct m.
  - destruct (chareq c GT); apply IH.
  - destruct (matchAnyTag (c :: r)) eqn:E; [apply IH|].
    cbn [tagFree]. rewrite IH, andb_true_r. apply negb_true_iff.
    apply (@head_clean c r); [exact E | apply removeTags_gt |].
    intros r' ->. cbn [removeTags].
    rewrite matchAnyTag_other by reflexivity. eexists. reflexivity.
Qed.

Lemma collapse_gt (s : jsstring) (m : bool) :
  existsb (chareq GT) s = false ->
  existsb (chareq GT) (collapseBeforeLF s m) = false.
Proof.
  revert m. induction s as [|c r IH]; intros m H; [reflexivity|].
  cbn [existsb] in H. apply orb_false_iff in H. destruct H as [Hc Hr].
  cbn [collapseBeforeLF]. destruct m; [now apply IH|].
  destruct (isSpace c && blanksHoldLF r); cbn [existsb]; rewrite IH; auto.
  now rewrite Hc.
Qed.

Lemma collapse_free (s : jsstring) (m : bool) :
  tagFree s = true -> tagFree (collapseBeforeLF s m) = true.
Proof.
  revert m. induction s as [|c r IH]; intros m H; [reflexivity|].
  cbn [tagFree] in H. apply andb_true_iff in H. destruct H as [Hc Hr].
  apply negb_true_iff in Hc.
  cbn [collapseBeforeLF]. destruct m; [now apply IH|].
  destruct (isSpace c && blanksHoldLF r); cbn [tagFree]; rewrite IH; auto;
    rewrite andb_true_r; apply negb_true_iff.
  - now apply matchAnyTag_other.
  - apply (@head_clean c r); [exact Hc | apply collapse_gt |].
    intros r' ->. cbn [collapseBeforeLF]. eexists. reflexivity.
Qed.

Lemma squeezeLFs_gt (s : jsstring) (m : bool) :
  existsb (chareq GT) s = false ->
  existsb (chareq GT) (squeezeLFs s m) = false.
Proof.
  revert m. induction s as [|c r IH]; intros m H; [reflexivity|].
  cbn [existsb] in H. apply orb_false_iff in H. destruct H as [Hc Hr].
  cbn [squeezeLFs]. destruct m.
  - destruct (chareq c LF); [now apply IH|]. cbn [existsb].
    now rewrite Hc, IH.
  - match goal with |- context [if ?b then _ else _] => destruct b end;
      cbn [existsb]; rewrite IH; auto. now rewrite Hc.
Qed.

Lemma squeezeLFs_free (s : jsstring) (m : bool) :
  tagFree s = true -> tagFree (squeezeLFs s m) = true.
Proof.
  revert m. induction s as [|c r IH]; intros m H; [reflexivity|].
  cbn [tagFree] in H. apply andb_true_iff in H. destruct H as [Hc Hr].
  apply negb_true_iff in Hc.
  assert (Hkeep : tagFree (c :: squeezeLFs r false) = true).
  { cbn [tagFree]. rewrite IH, andb_true_r by exact Hr. apply negb_true_iff.
    apply (@head_clean c r); [exact Hc | apply squeezeLFs_gt |].
    intros r' ->. cbn [squeezeLFs]. eexists. reflexivity. }
  cbn [squeezeLFs]. destruct m.
  - destruct (chareq c LF); [now apply IH | exact Hkeep].
  - match goal with |- context [if ?b then _ else _] => destruct b end;
      [|exact Hkeep].
    change (tagFree (LF :: LF :: squeezeLFs r true))
      with (negb (matchAnyTag (LF :: LF :: squeezeLFs r true))
            && (negb (matchAnyTag (LF :: squeezeLFs r true))
                && tagFree (squeezeLFs r true))).
    rewrite IH by exact Hr.
    now rewrite !matchAnyTag_other.
Qed.

Lemma tagFree_suffix (a b : jsstring) :
  tagFree (a ++ b) = true -> tagFree b = true.
Proof.
  induction a as [|c a IH]; [auto|]. cbn [app tagFree]. intros H.
  apply andb_true_iff in H. now apply IH.
Qed.

Lemma tagFree_prefix (a b : jsstring) :
  tagFree (a ++ b) = true -> tagFree a = true.
Proof.
  induction a as [|c a IH]; [reflexivity|]. cbn [app tagFree]. intros H.
  apply andb_true_iff in H. destruct H as [Hc H]. rewrite (IH H), andb_true_r.
  apply negb_true_iff in Hc. apply negb_true_iff.
  destruct a as [|d a]; [reflexivity|]. cbn [app matchAnyTag] in Hc |- *.
  rewrite existsb_app in Hc.
  destruct (chareq c LT && negb (chareq d GT)); [|reflexivity].
  cbn [andb] in Hc |- *. now apply orb_false_iff in Hc.
Qed.

Lemma trim_free (s : jsstring) : tagFree s = true -> tagFree (trim s) = true.
Proof.
  intros H. destruct (trim_infix s) as (pre & post & E). rewrite E in H.
  apply tagFree_suffix in H. now apply tagFree_prefix in H.
Qed.

Lemma stripHtml_free (value : option jsstring) :
  tagFree (stripHtml value) = true.
Proof.
  unfold stripHtml. apply trim_free, squeezeLFs_free, collapse_free.
  apply removeTags_free.
Qed.

(** *** The shortened text *)

Lemma replaceRuns_gt (s : jsstring) (b : bool) :
  existsb (chareq GT) s = false ->
  existsb (chareq GT) (replaceRuns isSpace [SPACE] s b) = false.
Proof.
  revert b. induction s as [|c r IH]; intros b H; [reflexivity|].
  cbn [existsb] in H. apply orb_false_iff in H. destruct H as [Hc Hr].
  cbn [replaceRuns]. destruct (isSpace c).
  - destruct b; cbn [app existsb]; now rewrite IH.
  - cbn [existsb]. now rewrite Hc, IH.
Qed.

Lemma replaceRuns_free (s : jsstring) (b : bool) :
  tagFree s = true -> tagFree (replaceRuns isSpace [SPACE] s b) = true.
Proof.
  revert b. induction s as [|c r IH]; intros b H; [reflexivity|].
  cbn [tagFree] in H. apply andb_true_iff in H. destruct H as [Hc Hr].
  apply negb_true_iff in Hc. cbn [replaceRuns]. destruct (isSpace c).
  - destruct b; [now apply IH|]. cbn [app tagFree].
    rewrite IH by exact Hr. now rewrite matchAnyTag_other.
  - cbn [tagFree]. rewrite IH, andb_true_r by exact Hr.
    apply negb_true_iff.
    apply (@head_clean c r); [exact Hc | apply replaceRuns_gt |].
    intros r' ->. cbn [replaceRuns]. eexists. reflexivity.
Qed.

Lemma squeeze_free (s : jsstring) :
  tagFree s = true -> tagFree (Normalizer.squeeze s) = true.
Proof. intros H. now apply trim_free, replaceRuns_free. Qed.

Lemma snoc_free (x : jsstring) (e : jschar) :
  tagFree x = true -> chareq GT e = false -> tagFree (x ++ [e]) = true.
Proof.
  intros H He. induction x as [|c x IH].
  - cbn. now destruct (chareq e LT).
  - cbn [tagFree] in H. apply andb_true_iff in H. destruct H as [Hc Hx].
    cbn [app tagFree]. rewrite (IH Hx), andb_true_r.
    apply negb_true_iff in Hc. apply negb_true_iff.
    destruct x as [|d x]; cbn [app matchAnyTag] in Hc |- *.
    + cbn [existsb]. now rewrite !andb_false_r.
    + rewrite existsb_app. cbn [existsb]. rewrite He. cbn [orb].
      now rewrite orb_false_r.
Qed.

Lemma spaced_snoc (x : jsstring) (e : jschar) :
  spaced x = true -> isSpace e = false -> spaced (x ++ [e]) = true.
Proof.
  intros H He. induction x as [|c x IH].
  - cbn [app spaced]. now rewrite He.
  - cbn [spaced] in H. apply andb_true_iff in H. destruct H as [Hc Hx].
    cbn [app spaced]. rewrite (IH Hx), andb_true_r.
    destruct x as [|d x]; [|exact Hc]. cbn [app]. rewrite He.
    destruct (isSpace c); [|reflexivity]. cbn [negb orb andb] in Hc |- *.
    now rewrite andb_true_r in *.
Qed.

Lemma sliceBelow_prefix (m : nat) (text : jsstring) :
  exists rest, text = sliceBelow m text ++ rest.
Proof.
  unfold sliceBelow. destruct (m =? 0).
  - destruct (snoc_cases text) as [->|(a & d & ->)]; [now exists []|].
    exists [d]. now rewrite removelast_last.
  - exists (skipn (m - 1) text). symmetry. apply firstn_skipn.
Qed.

Lemma sliceBelow_length (m : nat) (text : jsstring) :
  1 <= m -> length (sliceBelow m text) <= m - 1.
Proof.
  intros Hm. unfold sliceBelow.
  replace (m =? 0) with false by (symmetry; apply Nat.eqb_neq; lia).
  rewrite length_firstn. lia.
Qed.

Lemma stripTrailing_length (p : jschar -> bool) (s : jsstring) :
  length (stripTrailing p s) <= length s.
Proof.
  destruct (stripTrailing_prefix p s) as [x Hx]. rewrite Hx at 2.
  rewrite length_app. lia.
Qed.

(** The shortened branch of [truncate]. *)
Lemma shortened_facts (m : nat) (text : jsstring) :
  spaced text = true -> trim text = text ->
  let s := trimEnd (sliceBelow m text) ++ [ELLIPSIS] in
  Normalizer.squeeze s = s
  /\ (tagFree text = true -> tagFree s = true)
  /\ (1 <= m -> length s <= m).
Proof.
  intros Hs Ht. cbv zeta.
  destruct (sliceBelow_prefix m text) as [rest Hrest].
  destruct (stripTrailing_prefix isSpace (sliceBelow m text))
    as [dropped Hdropped].
  fold (trimEnd (sliceBelow m text)) in Hdropped.
  set (x := trimEnd (sliceBelow m text)) in *.
  assert (Htext : text = x ++ (dropped ++ rest)).
  { rewrite Hrest at 1. rewrite Hdropped at 1. now rewrite <- app_assoc. }
  split; [|split].
  - apply squeeze_fixed.
    + apply spaced_snoc; [|reflexivity].
      apply (@spaced_prefix x (dropped ++ rest)). now rewrite <- Htext.
    + apply trim_kept. split.
      * destruct x as [|c x']; [now exists ELLIPSIS, []|].
        exists c, (x' ++ [ELLIPSIS]). split; [reflexivity|].
        pose proof (trim_edges text) as Et. rewrite Ht in Et.
        destruct Et as [Et|[(c0 & r0 & E0 & H0) _]].
        -- rewrite Et in Htext. discriminate Htext.
        -- rewrite E0 in Htext. cbn [app] in Htext.
           injection Htext as Hc0 _. now rewrite <- Hc0.
      * now exists x, ELLIPSIS.
  - intros Hf. apply snoc_free; [|reflexivity].
    apply (@tagFree_prefix x (dropped ++ rest)). now rewrite <- Htext.
  - intros Hm. rewrite length_app. cbn [length].
    pose proof (sliceBelow_length text Hm).
    pose proof (stripTrailing_length isSpace (sliceBelow m text)).
    fold (trimEnd (sliceBelow m text)) in *. fold x in H0. lia.
Qed.

Lemma truncate_facts (value : option jsstring) (m : nat) :
  Normalizer.squeeze (truncate value m) = truncate value m
  /\ (tagFree (str value) = true -> tagFree (truncate value m) = true)
  /\ (1 <= m -> length (truncate value m) <= m)
  /\ (length (Normalizer.squeeze (str value)) <= m ->
      truncate value m = Normalizer.squeeze (str value))
  /\ (Normalizer.squeeze (str value) <> [] -> truncate value m <> []).
Proof.
  unfold truncate. cbv zeta.
  set (text := Normalizer.squeeze (str value)).
  pose proof (squeeze_spaced (str value)) as Hs.
  pose proof (squeeze_trimmed (str value)) as Ht. fold text in Hs, Ht.
  destruct (shortened_facts m Hs Ht) as (S1 & S2 & S3).
  destruct (length text <=? m) eqn:E.
  - apply Nat.leb_le in E. split; [now apply squeeze_fixed|].
    split; [intros H; now apply squeeze_free|]. repeat split; auto.
  - apply Nat.leb_gt in E. split; [exact S1|].
    split; [intros H; now apply S2, squeeze_free|].
    split; [exact S3|]. split; [lia|]. intros _ H.
    now apply app_eq_nil in H.
Qed.

(** *** What [applySummary] writes *)

Lemma applySummary_kept (d : Data) :
  truthy (trim (str (summary d))) = true -> applySummary d = d.
Proof. unfold applySummary. cbv zeta. now intros ->. Qed.

Lemma applySummary_cases (d : Data) :
  content (applySummary d) = content d
  /\ (trim (str (summary d)) <> [] -> applySummary d = d)
  /\ (trim (str (summary d)) = [] ->
      let text :=
        Normalizer.squeeze (stripHtml (Some (trim (str (content d))))) in
      (text = [] -> applySummary d = d)
      /\ (text <> [] ->
          exists s,
            applySummary d = {| summary := Some s; content := content d |}
            /\ 1 <= length s <= MAX_SUMMARY_LENGTH
            /\ Normalizer.squeeze s = s
            /\ tagFree s = true
            /\ (length text <= MAX_SUMMARY_LENGTH -> s = text))).
Proof.
  unfold applySummary. cbv zeta.
  rewrite (firstParagraph_whole (content d)).
  set (plain := stripHtml (Some (trim (str (content d))))).
  destruct (@truncate_facts (Some plain) MAX_SUMMARY_LENGTH)
    as (T1 & T2 & T3 & T4 & T5).
  cbn [str] in T2, T4, T5.
  set (s := truncate (Some plain) MAX_SUMMARY_LENGTH) in *.
  destruct (truthy (trim (str (summary d)))) eqn:Ex.
  - split; [reflexivity|]. split; [reflexivity|].
    intros E. rewrite E in Ex. discriminate Ex.
  - destruct (truthy s) eqn:Es.
    + cbn [content]. split; [reflexivity|].
      split; [intros H; destruct (trim (str (summary d)));
              [now elim H | discriminate Ex]|].
      intros _. split.
      * intros E. exfalso.
        assert (Hs : s = Normalizer.squeeze plain)
          by (apply T4; rewrite E; cbn; lia).
        rewrite E in Hs. rewrite Hs in Es. discriminate Es.
      * intros _. exists s. split; [reflexivity|].
        split; [|split; [exact T1|split; [|exact T4]]].
        -- split; [destruct s; [discriminate Es | cbn; lia]|].
           apply T3. unfold MAX_SUMMARY_LENGTH. lia.
        -- apply T2. apply stripHtml_free.
    + split; [reflexivity|]. split; [reflexivity|].
      intros _. split; [reflexivity|].
      intros H. exfalso. apply T5 in H. now destruct s.
Qed.

Lemma applySummary_twice (d : Data) :
  applySummary (applySummary d) = applySummary d.
Proof.
  destruct (applySummary_cases d) as (_ & C1 & C2).
  destruct (trim (str (summary d))) as [|c r] eqn:E.
  - destruct (C2 eq_refl) as [D1 D2]. cbv zeta in D1, D2.
    destruct (Normalizer.squeeze
                (stripHtml (Some (trim (str (content d)))))) eqn:Et.
    + now rewrite !(D1 eq_refl).
    + destruct D2 as (s & Hd & Hl & Hs & _); [discriminate|].
      rewrite Hd. apply applySummary_kept. cbn [summary str].
      assert (Htrim : trim s = s)
        by (rewrite <- Hs; apply squeeze_trimmed).
      rewrite Htrim.
      destruct s; [cbn in Hl; lia | reflexivity].
  - now rewrite !C1.
Qed.

Lemma tagFree_spec (s a m b : jsstring) (c : jschar) :
  tagFree s = true -> s = a ++ LT :: c :: m ++ GT :: b -> c = GT.
Proof.
  intros H ->. apply tagFree_suffix in H. cbn [tagFree] in H.
  apply andb_true_iff in H. destruct H as [H _]. apply negb_true_iff in H.
  cbn [matchAnyTag] in H. rewrite existsb_app in H. cbn [existsb] in H.
  rewrite !chareq_refl, orb_true_r in H. cbn [andb orb] in H.
  rewrite andb_true_r in H. apply negb_false_iff in H.
  now apply chareq_true.
Qed.

Lemma tightLines_spec (s a b : jsstring) (c : jschar) :
  tightLines s = true -> s = a ++ c :: LF :: b -> isSpace c = false.
Proof.
  intros H ->. apply tightLines_suffix in H. cbn [tightLines startsLF] in H.
  apply andb_true_iff in H. destruct H as [H _]. apply negb_true_iff in H.
  rewrite chareq_refl, andb_true_r in H. exact H.
Qed.

End Summary.

(** X27.  The text [stripHtml] returns holds no tag: wherever a [<] has a
    [>] somewhere after it, that [>] follows it directly.  No line feed
    of the text follows a blank, so no line is empty or ends with a
    blank, and the text has no blank at either end. *)
Theorem stripHtml_leaves_plain_text (value : option jsstring) :
  (forall a c m b,
      Lifecycle.stripHtml value
      = a ++ Lifecycle.LT :: c :: m ++ Lifecycle.GT :: b ->
      c = Lifecycle.GT)
  /\ (forall a c b,
         Lifecycle.stripHtml value = a ++ c :: LF :: b -> isSpace c = false)
  /\ trim (Lifecycle.stripHtml value) = Lifecycle.stripHtml value.
Proof.
  split; [|split].
  - intros a c m b. apply tagFree_spec, stripHtml_free.
  - intros a c b. apply tightLines_spec, stripHtml_tight.
  - unfold Lifecycle.stripHtml. apply trim_idem.
Qed.

(** X28.  [firstParagraph] returns the whole stripped text, not its first
    paragraph: the text that [stripHtml] returns never holds the
    separator [/\n\s*\n/], so the split leaves it in one piece. *)
Theorem firstParagraph_is_whole_text (value : option jsstring) :
  Lifecycle.splitParagraphs (Lifecycle.stripHtml value) [] false
  = [Lifecycle.stripHtml value]
  /\ Lifecycle.firstParagraph value
     = Lifecycle.stripHtml (Some (trim (str value))).
Proof.
  split; [|apply firstParagraph_whole].
  apply (@splitParagraphs_tight _ [] (stripHtml_tight value)).
Qed.

(** X29.  [applySummary] never touches the content and never replaces a
    summary that is not blank; applying it twice is applying it once.
    With a blank or missing summary it writes one exactly when the
    stripped, squeezed content is not empty: a text of 1 to 170 code
    units, without tags, in one line with single spaces, which is that
    content itself when it fits. *)
Theorem applySummary_summary (d : Lifecycle.Data) :
  Lifecycle.content (Lifecycle.applySummary d) = Lifecycle.content d
  /\ Lifecycle.applySummary (Lifecycle.applySummary d)
     = Lifecycle.applySummary d
  /\ (trim (str (Lifecycle.summary d)) <> [] -> Lifecycle.applySummary d = d)
  /\ (trim (str (Lifecycle.summary d)) = [] ->
      let text :=
        Normalizer.squeeze
          (Lifecycle.stripHtml (Some (trim (str (Lifecycle.content d))))) in
      (text = [] -> Lifecycle.applySummary d = d)
      /\ (text <> [] ->
          exists s,
            Lifecycle.applySummary d
            = {| Lifecycle.summary := Some s;
                 Lifecycle.content := Lifecycle.content d |}
            /\ 1 <= length s <= Lifecycle.MAX_SUMMARY_LENGTH
            /\ Normalizer.squeeze s = s
            /\ tagFree s = true
            /\ (length text <= Lifecycle.MAX_SUMMARY_LENGTH -> s = text))).
Proof.
  destruct (applySummary_cases d) as (C1 & C2 & C3).
  split; [exact C1|]. split; [apply applySummary_twice|].
  split; [exact C2 | exact C3].
Qed.
(* ================================================================== *)
(** * The block converter as a function of the paragraphs *)
(* ================================================================== *)

Section Paragraphs.
Import Blocks.

Variable family : jsstring.















End Paragraphs.

